(* ===== verification/_CoqProject ===== *)
-Q . S2P
Prelude.v
EventId.v
VersionNumber.v
Keys.v
Base64.v
Bitstream.v
Block.v
PageStore.v
Hash.v
HashMapNode.v
AbstractMap.v
HashMap.v
MultiMap.v
EncryptedIO.v
Disk.v
BufferManager.v
RWLock.v
LockHandle.v
Json.v
Index.v
Identity.v
ObjectEvent.v
Shard.v
TransactionLedger.v
Ledger.v
LedgerSpec.v
Find.v
Transaction.v
TwoPhase.v
Requests.v
LedgerStore.v
TransactionSpec.v
Wire.v
WireTransaction.v
ClearWitness.v
KeyExchange.v
RemoteParties.v
Attestation.v
ClientAttestation.v
Handshake.v
PeerAttestation.v
Downstream.v
Upstream.v
Dump.v
Ucrypto.v
