(* ===== verification/Prelude.v ===== *)
(** * CreDB: a verification development

    CreDB ([src/]) is a database that runs in an SGX enclave.  Clients send requests
    on JSON objects; every change is an event appended to a ledger that only grows, so
    that the history of an object can be audited, and programs stored with the objects
    act as their policies.  Transactions group operations, also over several servers.
    The pages of the enclave are kept, encrypted, in files of the host, which is not
    trusted to return the page that was written last.

    The files follow the layers of the program, and every file names the sources it
    models.  Machine integers are [Z] with the wrap-around of their width written out,
    bytes are [Z], a stateful function is in the monad [ST S A] of this file, which
    threads a state and ends in a value or an exception ([exn]).  [wp] and its variants
    are the program logic of the development.  A call that would wait for another
    thread ends in [Must_wait], undefined behaviour in [Undefined], [log_fatal] and
    [LOG(FATAL)] in [Fatal].

    ** Values

    - [EventId.v]: [event_id.h], [ledger_pos.h], boundaries of transactions
      ([TransactionHandle.cpp]) and of witnesses ([Witness.cpp]).  The order of events
      is a total order on each shard; the order of ranges and the boundaries of
      witnesses are shown to be wrong on some inputs.
    - [VersionNumber.v]: [version_number.h]; versions compare correctly inside a window.
    - [Keys.v], [Base64.v], [Hash.v]: paths and keys, base64 and the armor of witnesses
      (round trips), MurmurHash64A.

    ** Storage

    - [Disk.v]: [server/Disk.cpp].  The sharded file cache of the host refines a map of
      files, across flushes and restarts; dumps are read back; removal and dumping are
      shown to fail.
    - [EncryptedIO.v]: [LocalEncryptedIO.cpp].  [AesGcm] is the cipher, a parameter.
    - [PageStore.v], [BufferManager.v]: [BufferManager.cpp], [Page.h].  The cache with
      pins and eviction implements the interface [PageStore], proved with no page
      pinned between two operations; eviction terminates within its bound.
    - [Block.v]: [Block.inl], byte by byte: events are read back, sealed blocks stay.
    - [HashMapNode.v], [AbstractMap.v], [HashMap.v], [MultiMap.v]: the maps of pages
      implement finite maps and bags over any [PageStore].  If the host hands back pages
      as they were fewer than 65535 insertions ago, a lookup is right or throws, since
      every insertion counts the versions of the pages it changes; 65535 updates later,
      when the versions have wrapped around, an old page is believed.

    ** Locks

    - [RWLock.v]: [RWLockable.inl] as a step relation on its atomic accesses: mutual
      exclusion under every interleaving, and the deadlock of two upgrades.
    - [LockHandle.v]: [LockHandle.cpp], nested handles: locks are balanced and held.

    ** The ledger

    - [Json.v], [Identity.v], [ObjectEvent.v], [Shard.v]: documents, parties, events, and
      the shards as logs.
    - [Index.v], [Ledger.v], [Find.v]: secondary indexes, the operations of [Ledger.cpp],
      queries.
    - [Requests.v]: the handlers of [RemoteParty.cpp] on decoded messages.
    - [LedgerSpec.v], [LedgerStore.v]: the refinement.  [spec_request] is an abstract
      versioned store; any sequence of requests (writes, reads, history, counts,
      queries, indexes) that meets [requests_ok] is answered as it says.  Events stay,
      policies protect, and indexes do not change the answers of queries.  An index
      over objects that the server itself may not read does: it hides them.

    - [ClearWitness.v]: [Ledger::clear] and the contents of witnesses, with what they get wrong: no
      policy is asked, and a witness does not tell the change.

    ** Transactions

    - [TransactionLedger.v]: the records of transactions, written and read back.
    - [Transaction.v]: [Transaction.cpp], [op_info.cpp], [TransactionManager.cpp] and
      the execution on one server.
    - [TransactionSpec.v]: a transaction that returns a result is atomic over the store
      of [LedgerStore.v] and leaves no lock behind; one that ends in an exception at a
      lock has not changed the store.  Four theorems show where the code departs from
      what it means to do, among them the locks that such an exception leaves behind.
    - [TwoPhase.v]: the states of a transaction, and two-phase commit as a step relation
      with interleaved messages, peers that leave, and exceptions in every part of the
      executor and of the handlers: agreement, all or nothing while nobody leaves, both
      unless the executor's own [commit] throws (it is shown that the parties may then
      differ), and a bound on the length of every run.

    ** Clients

    - [Wire.v]: the client library ([CollectionImpl.cpp], [ClientImpl.cpp]) and the server's
      end of a connection ([Client.cpp], [RemoteParty.cpp]): requests and responses as bytes,
      encrypted.  The sessions of any number of clients refine the store of [LedgerStore.v].
    - [WireTransaction.v]: the transactions of clients, from the operations that are recorded
      to the result ([TransactionImpl.cpp], [TransactionProxy.cpp]), and [OrderEvents].  Checks
      in a transaction are shown to be sent as something else.

    ** Connections and attestation

    - [KeyExchange.v]: [key_derivation.h], and the interfaces [Crypto] and [Ra] (the SDK's side
      of attestation) with their laws.
    - [RemoteParties.v]: the registries of connections in the enclave and on the host.
    - [Attestation.v]: [server/Attestation.cpp], the handlers and acceptors of connections, and
      [handle_message] of [Client.cpp] and [Peer.cpp].  The registries stay consistent whatever
      arrives.
    - [ClientAttestation.v], [Handshake.v]: attestation in [ClientImpl.cpp] and the two sides
      together: an undisturbed handshake connects both under one key.  The client is also shown
      to trust an impostor, and the server a client that skips the handshake.
    - [PeerAttestation.v]: attestation among servers: what is checked, and that it never
      succeeds.
    - [Ucrypto.v]: [ulibcrypto/], the functions of the SDK over OpenSSL (also those in the two
      files that the build leaves out).  Whatever fails, nothing is freed twice or left behind, with
      an OpenSSL whose [ECDSA_SIG_new] allocates no numbers; GCM round trips; the library is an
      instance of [Crypto].  Some of its checks are shown not to hold.

    ** Several servers

    - [Downstream.v]: the replica of an index on a downstream server ([AbstractMap.h]); it answers
      as the upstream server once it has the updates, in any order.
    - [Upstream.v]: what a downstream server and its upstream server say to each other
      ([Enclave.cpp], [Peer.cpp], [RemoteEncryptedIO.cpp], [PendingMessage.cpp]): joining, reading
      files, forwarded requests, index updates, triggers, and where they block each other.
    - [Dump.v]: the dump of everything ([Enclave.cpp], [Ledger.cpp], [Collection.cpp],
      [Index.cpp], [Shard.cpp]); what is restored of it, and that loading always fails.

    ** Interfaces

    A component is verified against the type class of what it uses and gives an
    instance of the one it offers: [AesGcm], [EncryptedIO], [PageStore], [KVMap] (the
    primary index, by the hash map), [Index] (by the hash index), [Bitstream], [Codec],
    [Json], [Crypto] (by the crypto library), [Ra], [OpenSsl].  The laws of libraries
    ([BitstreamLaws], [JsonLaws], [AesGcmLaws], [RaLaws], [OpenSslLaws]) state their documented behaviour, with an instance that shows that they can be met, which is
    also what the examples run on.

    ** Choices

    - The metadata of the buffer manager's shards is one map; the bound of
      [0.8 * buffer_size] is [8 * b / 10].
    - The ledger is the build of the unit tests ([IS_TEST]): triggers are kept but not
      sent, and no downstream server is told.  Operations run under the locks they take.
      The pages of the blocks, of every index and of the transaction ledger are
      separate stores.
    - Policies are programs of an interpreter that is not part of the sources: what they
      answer is the parameter [run_program].  The theorems assume that the answer
      depends on the store and not on how it is kept ([programs_see_store],
      [programs_blind]).
    - [std::unordered_map] is iterated in the order of [map_to_list], [std::map] in the
      order of its keys; keys of key providers are listed up front.
    - The theorems on queries take predicates that the index can answer exactly, and no
      limit; the one on the creation of an index asks that the server may read the
      objects.
    - In [Disk.v] the file system is a map and never full; [std::hash] is a parameter.
    - In [TwoPhase.v] a message that was sent is delivered, in order per peer.
    - In [Wire.v] a message is delivered once; the stream operators of [bitstream] are
      [Codec]s, with the layout that the sources rely on where they read by hand.

    - In [Attestation.v] and the files on it the requests of connected parties act on a state
      that is left open, through handlers that are parameters; a message is delivered to the
      handler of its connection without another one in between.
    - In [Upstream.v] a handler that waits for a response stops with the rest of its work, which
      is taken up when the response is there.
    - In [Ucrypto.v] every call of OpenSSL may fail; objects are known by number, with what they
      own, and the buffers of the caller by name.  [uint32_t] lengths are those of the data.
    - In [Dump.v] the buffer manager's part in a dump is a parameter.

    ** Fuel

    Loops that follow pages or events are structural in a number: [chain_fuel], the
    number of pages plus two, for the chains of a map; the length of the eviction list in
    [check_evict]; the parameter [bound] for the walks over the history of an object, which
    is at least the number of requests; the parameter [fuel] for the searches of the latest
    version, which find it at the first event whatever [fuel] is, since every event is a
    version or a deletion; [reload_fuel], two rounds, for a page that a downstream server loads
    again, which is current after the first; the length of the data for the counter of AES-CTR,
    which is more than its blocks; one more than the objects that are live for what is freed
    with an object.  The theorems state that the operations return, so running
    out, which throws [Undefined], is excluded.

    ** Not modelled

    Sockets, threads and the command line ([server/main.cpp], [Server.cpp], [EnclaveHandle.cpp]),
    the generated interface of the enclave and its start-up, where the keys come from the
    platform, are calls to SGX and the operating system; so is [ias_ra.cpp], which stands in for
    the attestation service and is not called.  Programs, tasks and bindings ([Task.cpp],
    [ProgramRunner.cpp], [bindings/]) run on an interpreter and coroutines outside the sources; in
    [Wire.v] the handlers that start one, and those of triggers, dumps and witnesses, are
    parameters.  The Python interface is a list of declarations.  [Ledger::diff], the signatures
    of witnesses, and the remote branches of [Shard.cpp] are not modelled either.  The encoding of
    the messages of transactions between servers is left out in [TwoPhase.v], which starts from
    the messages. *)

From Stdlib Require Export ZArith Lia.
From stdpp Require Export base gmap sets list strings sorting.

#[global] Set Default Goal Selector "!".

Declare Scope credb_scope.
Delimit Scope credb_scope with credb.
Global Open Scope Z_scope.

(** ** Machine integers

    An unsigned C++ integer of [w] bits is the [Z] in [0, 2^w); every
    arithmetic result is brought back by [wrap]. *)

Definition wrap (w z : Z) : Z := z mod 2 ^ w.
Abbreviation u8 := (wrap 8).
Abbreviation u16 := (wrap 16).
Abbreviation u32 := (wrap 32).
Abbreviation u64 := (wrap 64).

(** [int32_t] *)
Definition s32 (z : Z) : Z := (z + 2 ^ 31) mod 2 ^ 32 - 2 ^ 31.

Lemma s32_small z : - 2 ^ 31 <= z < 2 ^ 31 -> s32 z = z.
Proof. intros. unfold s32. rewrite Z.mod_small; lia. Qed.

(** [int64_t] *)
Definition s64 (z : Z) : Z := (z + 2 ^ 63) mod 2 ^ 64 - 2 ^ 63.

Lemma s64_range z : - 2 ^ 63 <= s64 z < 2 ^ 63.
Proof. unfold s64. pose proof (Z.mod_pos_bound (z + 2 ^ 63) (2 ^ 64) ltac:(lia)). lia. Qed.

(** [lia] with [/] and [mod] by constants replaced by their equations. *)
Ltac dlia := Z.to_euclidean_division_equations; lia.

Definition in_range (w z : Z) : Prop := 0 <= z < 2 ^ w.

Lemma wrap_range w z : 0 <= w -> in_range w (wrap w z).
Proof. intros. apply Z.mod_pos_bound, Z.pow_pos_nonneg; lia. Qed.

Lemma wrap_small w z : in_range w z -> wrap w z = z.
Proof. intros. by apply Z.mod_small. Qed.

Lemma u64_s64 z : in_range 64 z -> u64 (s64 z) = z.
Proof.
  unfold in_range, wrap, s64. intros Hz. destruct (Z_lt_le_dec z (2 ^ 63)).
  - rewrite (Z.mod_small (z + 2 ^ 63)) by lia. rewrite Z.mod_small by lia. lia.
  - replace ((z + 2 ^ 63) mod 2 ^ 64) with (z - 2 ^ 63) by (apply (Z.mod_unique_pos _ _ 1); lia).
    symmetry. apply (Z.mod_unique_pos _ _ (-1)); lia.
Qed.

Lemma wrap_wrap w z : wrap w (wrap w z) = wrap w z.
Proof. apply Zmod_mod. Qed.

(** Small ranges by enumeration: the check evaluates [P] on every value. *)
Fixpoint Z_all (P : Z -> bool) (n : nat) : bool :=
  match n with
  | O => true
  | S n => P (Z.of_nat n) && Z_all P n
  end.

Lemma Z_all_spec P n z : Z_all P n = true -> 0 <= z < Z.of_nat n -> P z = true.
Proof.
  intros HP Hz. induction n as [|n IH]; [lia|]. cbn in HP.
  apply andb_true_iff in HP as [H1 H2].
  destruct (decide (z = Z.of_nat n)) as [->|]; [done|]. apply IH; [done|lia].
Qed.

Lemma Z_all_eq (f g : Z -> Z) n z :
  Z_all (fun z => f z =? g z) n = true -> 0 <= z < Z.of_nat n -> f z = g z.
Proof. intros HP Hz. apply Z.eqb_eq. by apply (Z_all_spec (fun z => f z =? g z) n z). Qed.

(** ** Exceptions

    What C++ code can end with instead of a value.  [Runtime_error] carries
    the message of [std::runtime_error]; [Fatal] is [log_fatal] / [LOG(FATAL)]
    / [abort], which stop the enclave or the server; [Undefined] marks the
    places where the C++ program has no defined behaviour on the given input.
    [Must_wait] is no exception: the thread waits for another one. *)
Inductive exn : Type :=
| Runtime_error (what : string)
| Staleness_detected
| Would_block
| Must_wait
| Json_error
| Attestation_error (what : string)
| Fatal (what : string)
| Undefined (what : string).

#[global] Instance exn_eq_dec : EqDecision exn.
Proof. solve_decision. Defined.

Inductive result (A : Type) : Type :=
| Ok (a : A)
| Throw (e : exn).
Arguments Ok {A} a.
Arguments Throw {A} e.

#[global] Instance result_ret : MRet result := fun A a => Ok a.
#[global] Instance result_bind : MBind result :=
  fun A B k m => match m with Ok a => k a | Throw e => Throw e end.
#[global] Instance result_fmap : FMap result :=
  fun A B f m => match m with Ok a => Ok (f a) | Throw e => Throw e end.

Definition is_ok {A} (m : result A) : Prop := exists a, m = Ok a.

Lemma result_bind_ok {A B} (m : result A) (k : A -> result B) b :
  (m ≫= k) = Ok b <-> exists a, m = Ok a /\ k a = Ok b.
Proof.
  destruct m as [a|e]; cbn.
  - split; [eauto|]. by intros (? & [= ->] & ?).
  - split; [done|]. by intros (? & ? & _).
Qed.

(** ** Stateful code

    A C++ exception leaves the mutations made before the [throw] in place, so
    a stateful operation returns its final state in both cases. *)
Definition ST (S A : Type) : Type := S -> result A * S.

#[global] Instance ST_ret S : MRet (ST S) := fun A a s => (Ok a, s).
#[global] Instance ST_bind S : MBind (ST S) :=
  fun A B k m s =>
    match m s with
    | (Ok a, s') => k a s'
    | (Throw e, s') => (Throw e, s')
    end.

Definition throw {S A} (e : exn) : ST S A := fun s => (Throw e, s).
Definition get_st {S} : ST S S := fun s => (Ok s, s).
Definition put_st {S} (s : S) : ST S unit := fun _ => (Ok tt, s).
Definition modify_st {S} (f : S -> S) : ST S unit := fun s => (Ok tt, f s).
Definition lift_res {S A} (m : result A) : ST S A := fun s => (m, s).

Lemma ST_bind_ok {S A B} (m : ST S A) (k : A -> ST S B) s b s' :
  (m ≫= k) s = (Ok b, s') <->
  exists a s1, m s = (Ok a, s1) /\ k a s1 = (Ok b, s').
Proof.
  unfold mbind, ST_bind. destruct (m s) as [[a|e] s1].
  - split; [eauto|]. by intros (? & ? & [= -> ->] & ?).
  - split; [done|]. by intros (? & ? & ? & _).
Qed.

Lemma ST_bind_run {S A B} (m : ST S A) (k : A -> ST S B) s a s1 :
  m s = (Ok a, s1) -> (m ≫= k) s = k a s1.
Proof. unfold mbind, ST_bind. by intros ->. Qed.

Lemma ST_bind_throw {S A B} (m : ST S A) (k : A -> ST S B) s e s1 :
  m s = (Throw e, s1) -> (m ≫= k) s = (Throw e, s1).
Proof. unfold mbind, ST_bind. by intros ->. Qed.

(** [wp m Q s]: from [s], [m] returns normally with a value and a state that
    satisfy [Q]. *)
Definition wp {S A} (m : ST S A) (Q : A -> S -> Prop) (s : S) : Prop :=
  match m s with
  | (Ok a, s') => Q a s'
  | (Throw _, _) => False
  end.

Arguments wp : simpl never.

Lemma wp_run {S A} (m : ST S A) Q s :
  wp m Q s <-> exists a s', m s = (Ok a, s') /\ Q a s'.
Proof.
  unfold wp. destruct (m s) as [[a|e] s'].
  - split; [eauto|]. by intros (? & ? & [= -> ->] & ?).
  - split; [done|]. by intros (? & ? & ? & _).
Qed.

Lemma wp_ret {S A} (a : A) Q (s : S) : Q a s -> wp (mret a) Q s.
Proof. done. Qed.

Lemma wp_get {S} (Q : S -> S -> Prop) (s : S) : Q s s -> wp get_st Q s.
Proof. done. Qed.

Lemma wp_modify {S} (f : S -> S) (Q : unit -> S -> Prop) (s : S) :
  Q tt (f s) -> wp (modify_st f) Q s.
Proof. done. Qed.

Lemma wp_bind {S A B} (m : ST S A) (k : A -> ST S B) Q s :
  wp m (fun a s' => wp (k a) Q s') s -> wp (m ≫= k) Q s.
Proof. unfold wp, mbind, ST_bind. by destruct (m s) as [[a|e] s']. Qed.

Lemma wp_bind_inv {S A B} (m : ST S A) (k : A -> ST S B) Q s :
  wp (m ≫= k) Q s -> wp m (fun a s' => wp (k a) Q s') s.
Proof. unfold wp, mbind, ST_bind. by destruct (m s) as [[a|e] s']. Qed.

Lemma wp_and {S A} (m : ST S A) P Q s : wp m P s -> wp m Q s -> wp m (fun a s' => P a s' /\ Q a s') s.
Proof. unfold wp. by destruct (m s) as [[a|e] s']. Qed.

Lemma wp_mono {S A} (m : ST S A) (P Q : A -> S -> Prop) s :
  wp m P s -> (forall a s', P a s' -> Q a s') -> wp m Q s.
Proof. unfold wp. destruct (m s) as [[a|e] s']; auto. Qed.

(** The same, but [m] may also throw an exception of [E]. *)
Definition wpe {S A} (E : exn -> Prop) (m : ST S A) (Q : A -> S -> Prop) (s : S) : Prop :=
  match m s with
  | (Ok a, s') => Q a s'
  | (Throw e, _) => E e
  end.

Arguments wpe : simpl never.

Lemma wpe_of_wp {S A} E (m : ST S A) Q s : wp m Q s -> wpe E m Q s.
Proof. unfold wp, wpe. by destruct (m s) as [[a|e] s']. Qed.

Lemma wpe_ret {S A} E (a : A) Q (s : S) : Q a s -> wpe E (mret a) Q s.
Proof. done. Qed.

Lemma wpe_get {S} E (Q : S -> S -> Prop) (s : S) : Q s s -> wpe E get_st Q s.
Proof. done. Qed.

Lemma wpe_bind {S A B} E (m : ST S A) (k : A -> ST S B) Q s :
  wpe E m (fun a s' => wpe E (k a) Q s') s -> wpe E (m ≫= k) Q s.
Proof. unfold wpe, mbind, ST_bind. by destruct (m s) as [[a|e] s']. Qed.

Lemma wpe_mono {S A} E (m : ST S A) (P Q : A -> S -> Prop) s :
  wpe E m P s -> (forall a s', P a s' -> Q a s') -> wpe E m Q s.
Proof. unfold wpe. destruct (m s) as [[a|e] s']; auto. Qed.

(** The same, with what holds after an exception *)
Definition wpx {S A} (E : exn -> S -> Prop) (m : ST S A) (Q : A -> S -> Prop) (s : S) : Prop :=
  match m s with
  | (Ok a, s') => Q a s'
  | (Throw e, s') => E e s'
  end.

Arguments wpx : simpl never.

Lemma wpx_of_wp {S A} E (m : ST S A) Q s : wp m Q s -> wpx E m Q s.
Proof. unfold wp, wpx. by destruct (m s) as [[a|e] s']. Qed.

Lemma wpx_ret {S A} E (a : A) Q (s : S) : Q a s -> wpx E (mret a) Q s.
Proof. done. Qed.

Lemma wpx_bind {S A B} E (m : ST S A) (k : A -> ST S B) Q s :
  wpx E m (fun a s' => wpx E (k a) Q s') s -> wpx E (m ≫= k) Q s.
Proof. unfold wpx, mbind, ST_bind. by destruct (m s) as [[a|e] s']. Qed.

Lemma wpx_mono {S A} (E E' : exn -> S -> Prop) (m : ST S A) (P Q : A -> S -> Prop) s :
  wpx E m P s -> (forall a s', P a s' -> Q a s') -> (forall e s', E e s' -> E' e s') -> wpx E' m Q s.
Proof. unfold wpx. destruct (m s) as [[a|e] s']; auto. Qed.

(** Runs an operation on a component of the state. *)
Definition zoom {S T A} (get : T -> S) (set : S -> T -> T) (m : ST S A) : ST T A :=
  fun t => let '(r, s) := m (get t) in (r, set s t).

Lemma wp_zoom {S T A} (get : T -> S) set (m : ST S A) Q t :
  wp m (fun a s => Q a (set s t)) (get t) -> wp (zoom get set m) Q t.
Proof. unfold wp, zoom. by destruct (m (get t)) as [[a|e] s]. Qed.

(** ** Bytes and little-endian words

    Raw memory is a [list Z] of bytes; the target is x86-64, little endian. *)
Definition is_byte (z : Z) : Prop := 0 <= z < 256.

#[global] Instance is_byte_dec z : Decision (is_byte z).
Proof. unfold is_byte. apply _. Defined.

Fixpoint le_encode (n : nat) (z : Z) : list Z :=
  match n with
  | O => []
  | S n => z mod 256 :: le_encode n (z / 256)
  end.

Fixpoint le_decode (l : list Z) : Z :=
  match l with
  | [] => 0
  | b :: l => b + 256 * le_decode l
  end.

Lemma le_encode_length n z : length (le_encode n z) = n.
Proof. revert z. induction n; intros; cbn; auto. Qed.

Lemma le_encode_bytes n z : Forall is_byte (le_encode n z).
Proof.
  revert z. induction n as [|n IH]; intros z; cbn; [done|].
  constructor; [|done]. unfold is_byte. dlia.
Qed.

Lemma le_decode_encode n z :
  le_decode (le_encode n z) = z mod 2 ^ (8 * Z.of_nat n).
Proof.
  revert z. induction n as [|n IH]; intros z; cbn [le_encode le_decode].
  - by rewrite Z.mod_1_r.
  - rewrite IH.
    replace (8 * Z.of_nat (S n)) with (8 + 8 * Z.of_nat n) by lia.
    rewrite Z.pow_add_r by lia. change (2 ^ 8) with 256.
    by rewrite Z.rem_mul_r by lia.
Qed.

Lemma le_decode_encode_small n z :
  in_range (8 * Z.of_nat n) z -> le_decode (le_encode n z) = z.
Proof. intros. rewrite le_decode_encode. by apply Z.mod_small. Qed.

(** ** Memory regions

    [slice off n m] reads [n] bytes at [off]; [splice off bs m] overwrites the
    bytes of [m] at [off] with [bs]. *)
Definition slice {A} (off n : nat) (m : list A) : list A := take n (drop off m).
Definition splice {A} (off : nat) (bs m : list A) : list A :=
  take off m ++ bs ++ drop (off + length bs) m.

Lemma splice_length {A} off (bs m : list A) :
  (off + length bs <= length m)%nat -> length (splice off bs m) = length m.
Proof.
  intros. unfold splice.
  rewrite !length_app, length_take, length_drop. lia.
Qed.

Lemma slice_app_mid {A} (pre mid post : list A) :
  slice (length pre) (length mid) (pre ++ mid ++ post) = mid.
Proof. unfold slice. by rewrite drop_app_length, take_app_length. Qed.

Lemma splice_app_mid {A} (pre mid post bs : list A) :
  length bs = length mid ->
  splice (length pre) bs (pre ++ mid ++ post) = pre ++ bs ++ post.
Proof.
  intros Hl. unfold splice. rewrite take_app_length, Hl.
  rewrite drop_app_ge by lia.
  replace (length pre + length mid - length pre)%nat with (length mid) by lia.
  by rewrite drop_app_length.
Qed.

Lemma slice_app_mid' {A} off n (pre mid post : list A) :
  off = length pre -> n = length mid -> slice off n (pre ++ mid ++ post) = mid.
Proof. intros -> ->. apply slice_app_mid. Qed.

Lemma splice_app_mid' {A} off (pre mid post bs : list A) :
  off = length pre -> length bs = length mid ->
  splice off bs (pre ++ mid ++ post) = pre ++ bs ++ post.
Proof. intros ->. apply splice_app_mid. Qed.

(** ** Automation *)

Create HintDb credb.
#[export] Hint Resolve le_encode_bytes : credb.
Create Rewrite HintDb credb_len.
#[export] Hint Rewrite @le_encode_length @length_app @length_take @length_drop
  @length_fmap @length_replicate : credb_len.

(** Breaks the hypotheses a monadic computation leaves behind. *)
Ltac inv_ok :=
  repeat match goal with
  | H : (_ ≫= _) = Ok _ |- _ => apply result_bind_ok in H as (? & ? & H)
  | H : (_ ≫= _) _ = (Ok _, _) |- _ => apply ST_bind_ok in H as (? & ? & ? & H)
  | H : mret _ _ = (Ok _, _) |- _ => unfold mret, ST_ret in H
  | H : throw _ _ = (Ok _, _) |- _ => discriminate H
  | H : lift_res _ _ = (Ok _, _) |- _ => unfold lift_res in H
  | H : (_, _) = (_, _) |- _ => apply pair_equal_spec in H as [H ?]
  | H : Ok _ = Ok _ |- _ => injection H as H
  | H : Throw _ = Ok _ |- _ => discriminate H
  | H : Ok _ = Throw _ |- _ => discriminate H
  end; simplify_eq.

(** Turns boolean comparisons in the context into propositions. *)
Ltac bool_hyps :=
  repeat match goal with
  | H : (_ && _)%bool = true |- _ => apply andb_true_iff in H as [? ?]
  | H : (_ || _)%bool = false |- _ => apply orb_false_iff in H as [? ?]
  | H : negb _ = true |- _ => apply negb_true_iff in H
  | H : negb _ = false |- _ => apply negb_false_iff in H
  | H : (_ <? _) = true |- _ => apply Z.ltb_lt in H
  | H : (_ <? _) = false |- _ => apply Z.ltb_ge in H
  | H : (_ <=? _) = true |- _ => apply Z.leb_le in H
  | H : (_ <=? _) = false |- _ => apply Z.leb_gt in H
  | H : (_ =? _) = true |- _ => apply Z.eqb_eq in H
  | H : (_ =? _) = false |- _ => apply Z.eqb_neq in H
  | H : bool_decide _ = true |- _ => apply bool_decide_eq_true in H
  | H : bool_decide _ = false |- _ => apply bool_decide_eq_false in H
  end.

(** ** Lists that are written flat *)

Lemma flat_lookup {A B} (f : A -> list B) (n : nat) (l : list A) (j c : nat) x :
  (forall x, length (f x) = n) -> l !! j = Some x -> (c < n)%nat -> (l ≫= f) !! (n * j + c)%nat = f x !! c.
Proof.
  intros Hf. revert j. induction l as [|y l IH]; intros j Hj Hc; [done|]. cbn. destruct j as [|j].
  - injection Hj as <-. rewrite Nat.mul_0_r, lookup_app_l; [done|]. rewrite Hf. lia.
  - rewrite lookup_app_r; rewrite Hf; [|lia]. rewrite <-(IH j) by done. f_equal. lia.
Qed.

Lemma flat_length {A B} (f : A -> list B) (n : nat) (l : list A) :
  (forall x, length (f x) = n) -> length (l ≫= f) = (n * length l)%nat.
Proof.
  intros Hf. induction l as [|x l IH]; [cbn; lia|]. rewrite bind_cons, length_app, Hf, IH. cbn [length]. lia.
Qed.

Lemma fold_left_fmap {A B C} (f : C -> B -> C) (g : A -> B) (l : list A) (c : C) :
  fold_left f (g <$> l) c = fold_left (fun c a => f c (g a)) l c.
Proof. revert c. induction l as [|a l IH]; intros c; [done|]. apply IH. Qed.

(** ** The entries of a [std::map], in the order of its iterator *)

Definition key_le {A} (a b : Z * A) : Prop := a.1 <= b.1.
#[global] Instance key_le_dec {A} : RelDecision (@key_le A).
Proof. intros a b. unfold key_le. apply _. Defined.

Definition sorted_entries {A} (m : gmap Z A) : list (Z * A) := merge_sort key_le (map_to_list m).

Lemma sorted_entries_perm {A} (m : gmap Z A) : sorted_entries m ≡ₚ map_to_list m.
Proof. apply merge_sort_Permutation. Qed.

Lemma sorted_entries_keys {A} (m : gmap Z A) : NoDup (sorted_entries m).*1.
Proof. rewrite sorted_entries_perm. apply NoDup_fst_map_to_list. Qed.

Lemma sorted_entries_elem {A} (m : gmap Z A) k x : (k, x) ∈ sorted_entries m <-> m !! k = Some x.
Proof. rewrite sorted_entries_perm. apply elem_of_map_to_list. Qed.

Lemma sorted_entries_map {A} (m : gmap Z A) : list_to_map (sorted_entries m) = m.
Proof.
  rewrite <-(list_to_map_to_list m) at 2. apply list_to_map_proper; [apply sorted_entries_keys|].
  apply sorted_entries_perm.
Qed.
