(* ===== verification/EventId.v ===== *)
(** * Event identifiers, ledger positions and their order

    Models [include/credb/event_id.h], [src/enclave/ledger_pos.h], the
    boundary computations of [src/enclave/TransactionHandle.cpp] and of
    [src/ledger/Witness.cpp], and the [std::set<event_id_t>] the transaction
    code keeps its read and write sets in. *)

From S2P Require Import Prelude.

(** ** Data *)

(** [shard_id_t] and [block_index_t] are 16 bits wide, [block_id_t] 32. *)
Record event_id_t := EventId {
  ev_shard : Z;
  ev_block : Z;
  ev_index : Z
}.

Record event_range_t := EventRange {
  start_block : Z;
  end_block : Z;
  start_index : Z;
  end_index : Z
}.

Record ledger_pos_t := LedgerPos {
  lp_block : Z;
  lp_index : Z
}.

Inductive OrderResult := Unknown | Equal | OlderThan | NewerThan | Concurrent.

#[global] Instance event_id_eq_dec : EqDecision event_id_t.
Proof. solve_decision. Defined.
#[global] Instance event_id_countable : Countable event_id_t.
Proof.
  apply (inj_countable' (fun e => (ev_shard e, ev_block e, ev_index e))
    (fun '(s, b, i) => EventId s b i)). by intros [].
Defined.
#[global] Instance event_range_eq_dec : EqDecision event_range_t.
Proof. solve_decision. Defined.
#[global] Instance ledger_pos_eq_dec : EqDecision ledger_pos_t.
Proof. solve_decision. Defined.
#[global] Instance OrderResult_eq_dec : EqDecision OrderResult.
Proof. solve_decision. Defined.

(** [std::map<shard_id_t, event_range_t>] *)
Abbreviation transaction_bounds_t := (gmap Z event_range_t).

Definition INVALID_BLOCK : Z := 0.
Definition INITIAL_VERSION_NO : Z := 1.
Definition INVALID_EVENT : event_id_t := EventId INVALID_BLOCK INVALID_BLOCK 0.
Definition UNCOMMITTED_EVENT : event_id_t :=
  EventId (u16 (-2)) (u32 (-2)) (u16 (-2)).
Definition INVALID_LEDGER_POS : ledger_pos_t := LedgerPos 0 0.

Definition event_is_valid (e : event_id_t) : bool := negb (ev_block e =? INVALID_BLOCK).

(** [operator==]: the struct is packed, so [memcmp] compares the fields. *)
Definition event_eqb (l r : event_id_t) : bool :=
  (ev_shard l =? ev_shard r) && (ev_index l =? ev_index r) && (ev_block l =? ev_block r).

Definition ledger_pos_eqb (l r : ledger_pos_t) : bool :=
  (lp_block l =? lp_block r) && (lp_index l =? lp_index r).

(** ** Orders *)

Definition order_event (first second : event_id_t) : OrderResult :=
  if negb (ev_shard first =? ev_shard second) then Unknown
  else if ev_block first <? ev_block second then OlderThan
  else if (ev_block first =? ev_block second) && (ev_index first <? ev_index second)
  then OlderThan
  else if event_eqb first second then Equal
  else NewerThan.

(** [operator<] on event identifiers, the comparator of [std::set<event_id_t>] *)
Definition event_ltb (first second : event_id_t) : bool :=
  bool_decide (order_event first second = OlderThan).

Definition order_ledger_pos (first second : ledger_pos_t) : OrderResult :=
  if lp_block first <? lp_block second then OlderThan
  else if (lp_block first =? lp_block second) && (lp_index first <? lp_index second)
  then OlderThan
  else if ledger_pos_eqb first second then Equal
  else NewerThan.

Definition event_lt_range (e : event_id_t) (range : event_range_t) : bool :=
  if ev_block e <? start_block range then true
  else if ev_block e =? start_block range then ev_index e <? start_index range
  else false.

Definition event_gt_range (e : event_id_t) (range : event_range_t) : bool :=
  if ev_block e >? end_block range then true
  else if ev_block e =? end_block range then ev_index e >? end_index range
  else false.

Definition order_range (first second : event_range_t) : OrderResult :=
  if (end_block first <? start_block second) ||
     ((end_block first =? start_block second) && (end_index first <? start_index second))
  then OlderThan
  else if (start_block first >? end_block second) ||
          ((end_block first =? start_block second) && (start_index first >? end_index second))
  then NewerThan
  else Concurrent.

(** [std::map] iterates its keys in increasing order. *)
Definition sorted_keys {A} (m : gmap Z A) : list Z :=
  merge_sort Z.le (elements (dom m)).

Fixpoint order_bounds_loop (shards : list Z) (first second : transaction_bounds_t)
  : OrderResult :=
  match shards with
  | [] => Unknown
  | shard :: rest =>
      match first !! shard, second !! shard with
      | Some range1, Some range2 => order_range range1 range2
      | _, _ => order_bounds_loop rest first second
      end
  end.

Definition order_bounds (first second : transaction_bounds_t) : OrderResult :=
  order_bounds_loop (sorted_keys first) first second.

(** ** [std::set<event_id_t>]

    The elements in iteration order.  [insert] looks for the first element
    that is not less than the new one and adds the new one in front of it,
    unless neither is less than the other. *)
Fixpoint std_set_insert (e : event_id_t) (s : list event_id_t) : list event_id_t :=
  match s with
  | [] => [e]
  | x :: rest =>
      if event_ltb x e then x :: std_set_insert e rest
      else if event_ltb e x then e :: x :: rest
      else x :: rest
  end.

Definition std_set_of_list (l : list event_id_t) : list event_id_t :=
  fold_left (fun s e => std_set_insert e s) l [].

(** ** Transaction boundaries *)

(** The lambda [parse_op] of [TransactionHandle::get_boundaries] *)
Definition parse_op (result : transaction_bounds_t) (id : event_id_t) : transaction_bounds_t :=
  match result !! ev_shard id with
  | None =>
      <[ev_shard id := EventRange (ev_block id) (ev_block id) (ev_index id) (ev_index id)]> result
  | Some e =>
      if event_lt_range id e then
        <[ev_shard id := EventRange (ev_block id) (end_block e) (ev_index id) (end_index e)]> result
      else if event_gt_range id e then
        <[ev_shard id := EventRange (start_block e) (ev_block id) (start_index e) (ev_index id)]> result
      else result
  end.

Definition TransactionHandle_get_boundaries (reads writes : list event_id_t)
  : transaction_bounds_t :=
  fold_left parse_op writes (fold_left parse_op reads ∅).

(** The update of a known shard's range in [Witness::get_boundaries] *)
Definition witness_extend (e : event_range_t) (block index : Z) : event_range_t :=
  let e1 :=
    if start_block e >? block
    then EventRange block (end_block e) index (end_index e)
    else if (start_block e =? block) || (start_index e >? index)
    then EventRange (start_block e) (end_block e) index (end_index e)
    else e in
  if end_block e1 <? block
  then EventRange (start_block e1) block (start_index e1) index
  else if (end_block e1 =? block) || (end_index e1 <? index)
  then EventRange (start_block e1) (end_block e1) (start_index e1) index
  else e1.

(** The loop over the operations of a witness; the [break] after the update of
    a known shard leaves the loop. *)
Fixpoint Witness_boundaries_loop (ops : list event_id_t) (result : transaction_bounds_t)
  : transaction_bounds_t :=
  match ops with
  | [] => result
  | EventId shard block index :: rest =>
      match result !! shard with
      | None =>
          Witness_boundaries_loop rest (<[shard := EventRange block block index index]> result)
      | Some e => <[shard := witness_extend e block index]> result
      end
  end.

Definition Witness_get_boundaries (ops : list event_id_t) : transaction_bounds_t :=
  Witness_boundaries_loop ops ∅.

(** ** Positions on one shard *)

Definition before (a b : event_id_t) : Prop :=
  ev_block a < ev_block b \/ (ev_block a = ev_block b /\ ev_index a < ev_index b).

Definition range_start (s : Z) (r : event_range_t) : event_id_t :=
  EventId s (start_block r) (start_index r).
Definition range_end (s : Z) (r : event_range_t) : event_id_t :=
  EventId s (end_block r) (end_index r).

Definition within (e : event_id_t) (r : event_range_t) : Prop :=
  ~ before e (range_start (ev_shard e) r) /\ ~ before (range_end (ev_shard e) r) e.

(** A range whose first position is not after its last one *)
Definition range_wf (r : event_range_t) : Prop := ~ before (range_end 0 r) (range_start 0 r).

Lemma event_eqb_eq a b : event_eqb a b = true <-> a = b.
Proof.
  unfold event_eqb. rewrite !andb_true_iff, !Z.eqb_eq.
  destruct a, b; cbn. naive_solver.
Qed.

Lemma event_lt_range_spec e r :
  event_lt_range e r = true <-> before e (range_start (ev_shard e) r).
Proof.
  unfold event_lt_range, before; cbn.
  destruct (Z.ltb_spec (ev_block e) (start_block r)); [naive_solver lia|].
  destruct (Z.eqb_spec (ev_block e) (start_block r)); [rewrite Z.ltb_lt|]; naive_solver lia.
Qed.

Lemma event_gt_range_spec e r :
  event_gt_range e r = true <-> before (range_end (ev_shard e) r) e.
Proof.
  unfold event_gt_range, before; cbn. rewrite !Z.gtb_ltb.
  destruct (Z.ltb_spec (end_block r) (ev_block e)); [naive_solver lia|].
  destruct (Z.eqb_spec (ev_block e) (end_block r)); [rewrite Z.ltb_lt|]; naive_solver lia.
Qed.

Lemma event_ltb_spec a b :
  event_ltb a b = true <-> ev_shard a = ev_shard b /\ before a b.
Proof.
  unfold event_ltb, order_event, before. rewrite bool_decide_eq_true.
  destruct (Z.eqb_spec (ev_shard a) (ev_shard b)); cbn; [|naive_solver].
  destruct (Z.ltb_spec (ev_block a) (ev_block b)); cbn; [naive_solver lia|].
  destruct (Z.eqb_spec (ev_block a) (ev_block b)); cbn;
    [destruct (Z.ltb_spec (ev_index a) (ev_index b)); cbn|];
    try destruct (event_eqb a b); naive_solver lia.
Qed.

(** [m] covers the operations [ops] exactly: every shard that occurs has a
    range, the range contains all of the shard's events, and both of its ends
    are events of the shard. *)
Definition is_hull (ops : list event_id_t) (m : transaction_bounds_t) : Prop :=
  forall s,
    match m !! s with
    | None => forall e, e ∈ ops -> ev_shard e <> s
    | Some r =>
        (forall e, e ∈ ops -> ev_shard e = s -> within e r) /\
        range_start s r ∈ ops /\ range_end s r ∈ ops
    end.

Lemma parse_op_lookup_ne m id s :
  ev_shard id <> s -> parse_op m id !! s = m !! s.
Proof. intros. unfold parse_op. repeat case_match; by rewrite ?lookup_insert_ne. Qed.

Lemma is_hull_parse_op ops m id :
  is_hull ops m -> is_hull (ops ++ [id]) (parse_op m id).
Proof.
  intros Hh s. specialize (Hh s).
  destruct (decide (ev_shard id = s)) as [<-|Hs].
  - unfold parse_op. destruct (m !! ev_shard id) as [r|] eqn:Em.
    + destruct Hh as (Hin & Hst & Hen).
      assert (within (range_start (ev_shard id) r) r) as Hws by by apply Hin.
      assert (within (range_end (ev_shard id) r) r) as Hwe by by apply Hin.
      destruct (event_lt_range id r) eqn:E1.
      { apply event_lt_range_spec in E1. rewrite lookup_insert_eq.
        split_and!; [|destruct id; cbn; set_solver|set_solver].
        intros e [He| ->%list_elem_of_singleton]%elem_of_app He2;
          [specialize (Hin e He He2)|]; unfold within, before in *; cbn in *; lia. }
      destruct (event_gt_range id r) eqn:E2.
      { apply event_gt_range_spec in E2. rewrite lookup_insert_eq.
        split_and!; [|set_solver|destruct id; cbn; set_solver].
        intros e [He| ->%list_elem_of_singleton]%elem_of_app He2;
          [specialize (Hin e He He2)|]; unfold within, before in *; cbn in *; lia. }
      rewrite Em. split_and!; [|set_solver|set_solver].
      intros e [He| ->%list_elem_of_singleton]%elem_of_app He2; [by apply Hin|].
      split; [rewrite <-event_lt_range_spec|rewrite <-event_gt_range_spec]; congruence.
    + rewrite lookup_insert_eq. destruct id as [s b i]; cbn in *.
      split_and!; [|set_solver..].
      intros e [He| ->%list_elem_of_singleton]%elem_of_app He2; [naive_solver|].
      unfold within, before; cbn. lia.
  - rewrite parse_op_lookup_ne by done.
    destruct (m !! s); set_solver.
Qed.

Lemma is_hull_fold ops ops' m :
  is_hull ops m -> is_hull (ops ++ ops') (fold_left parse_op ops' m).
Proof.
  revert ops m. induction ops' as [|e ops' IH]; intros ops m Hm; cbn.
  - by rewrite app_nil_r.
  - replace (ops ++ e :: ops') with ((ops ++ [e]) ++ ops') by by rewrite <-app_assoc.
    by apply IH, is_hull_parse_op.
Qed.

Lemma is_hull_empty : is_hull [] ∅.
Proof. intros s. rewrite lookup_empty. set_solver. Qed.

Lemma order_range_older r1 r2 :
  order_range r1 r2 = OlderThan <-> before (range_end 0 r1) (range_start 0 r2).
Proof.
  unfold order_range, before; cbn.
  repeat match goal with
  | |- context [?a <? ?b] => destruct (Z.ltb_spec a b)
  | |- context [?a >? ?b] => rewrite (Z.gtb_ltb a b); destruct (Z.ltb_spec b a)
  | |- context [?a =? ?b] => destruct (Z.eqb_spec a b)
  end; cbn; split; intros; try done; lia.
Qed.

(** A set whose elements all lie on one shard *)
Definition single_shard (s : list event_id_t) : Prop :=
  exists sh, Forall (fun e => ev_shard e = sh) s.

Lemma std_set_insert_same sh e s :
  Forall (fun e => ev_shard e = sh) s -> ev_shard e = sh ->
  Forall (fun e => ev_shard e = sh) (std_set_insert e s).
Proof. intros Hs He. induction Hs; cbn; repeat case_match; auto. Qed.

Lemma std_set_insert_other e x s :
  ev_shard e <> ev_shard x -> std_set_insert e (x :: s) = x :: s.
Proof.
  intros Hne. cbn.
  destruct (event_ltb x e) eqn:E1; [apply event_ltb_spec in E1; naive_solver|].
  destruct (event_ltb e x) eqn:E2; [apply event_ltb_spec in E2; naive_solver|]. done.
Qed.

Lemma std_set_fold_single l s : single_shard s -> single_shard (fold_left (fun s e => std_set_insert e s) l s).
Proof.
  revert s. induction l as [|e l IH]; intros s Hs; cbn; [done|].
  apply IH. destruct Hs as [sh Hs].
  destruct s as [|x s]; [exists (ev_shard e); by repeat constructor|].
  destruct (decide (ev_shard e = sh)) as [He|He].
  - exists sh. by apply std_set_insert_same.
  - exists sh. inversion Hs; subst. by rewrite std_set_insert_other.
Qed.

(** ** Properties *)

(** On one shard [order] is a total order by block, then by index: it
    answers [Equal] exactly on equal identifiers, [OlderThan]/[NewerThan]
    exactly when the first is strictly before/after the second, and [Unknown]
    exactly across shards; it never answers [Concurrent]. *)
Theorem order_event_spec (a b : event_id_t) :
  (order_event a b = Unknown <-> ev_shard a <> ev_shard b) /\
  (order_event a b = Equal <-> a = b) /\
  (order_event a b = OlderThan <-> ev_shard a = ev_shard b /\ before a b) /\
  (order_event a b = NewerThan <-> ev_shard a = ev_shard b /\ before b a) /\
  order_event a b <> Concurrent.
Proof.
  pose proof (event_eqb_eq a b) as Heq. unfold order_event, before.
  destruct (Z.eqb_spec (ev_shard a) (ev_shard b)) as [Hs|Hs]; cbn.
  2: { split_and!; try done; naive_solver. }
  assert (a = b <-> ev_block a = ev_block b /\ ev_index a = ev_index b) as Hab
    by (destruct a, b; cbn in *; naive_solver).
  destruct (Z.ltb_spec (ev_block a) (ev_block b)),
    (Z.eqb_spec (ev_block a) (ev_block b)),
    (Z.ltb_spec (ev_index a) (ev_index b)), (event_eqb a b); cbn;
    destruct Heq as [Heq1 Heq2]; try specialize (Heq1 eq_refl);
    rewrite ?Hab in *; split_and!; try done; split; intros; try done; try lia;
    try (split; [done|lia]); exfalso; apply diff_false_true, Heq2; lia.
Qed.

(** The boundaries a transaction record yields are the exact hull of its
    operations: a shard has a range iff the transaction touched it, the range
    contains every event of the shard, and both ends are such events. *)
Theorem TransactionHandle_get_boundaries_hull (reads writes : list event_id_t) :
  is_hull (reads ++ writes) (TransactionHandle_get_boundaries reads writes).
Proof. apply is_hull_fold, (is_hull_fold [] reads), is_hull_empty. Qed.

(** Event ranges that each lie in one block are ordered correctly and
    symmetrically: older, newer or overlapping. *)
Theorem order_range_one_block (r1 r2 : event_range_t) :
  range_wf r1 -> range_wf r2 ->
  start_block r1 = end_block r1 -> start_block r2 = end_block r2 ->
  (order_range r1 r2 = OlderThan <-> before (range_end 0 r1) (range_start 0 r2)) /\
  (order_range r1 r2 = NewerThan <-> before (range_end 0 r2) (range_start 0 r1)) /\
  (order_range r1 r2 = OlderThan <-> order_range r2 r1 = NewerThan).
Proof.
  intros Hw1 Hw2 He1 He2.
  assert (forall a b, range_wf a -> range_wf b -> start_block a = end_block a ->
    start_block b = end_block b ->
    order_range a b = NewerThan <-> before (range_end 0 b) (range_start 0 a)) as Hn.
  { intros a b Hwa Hwb Ha Hb. pose proof (order_range_older a b) as Ho.
    unfold order_range, range_wf, before in *; cbn in *. rewrite !Z.gtb_ltb in *.
    rewrite Ha, Hb in *.
    destruct (Z.ltb_spec (end_block a) (end_block b)), (Z.eqb_spec (end_block a) (end_block b)),
      (Z.ltb_spec (end_index a) (start_index b)), (Z.ltb_spec (end_block b) (end_block a)),
      (Z.ltb_spec (end_index b) (start_index a)); cbn in *; try lia; split; intros; try done; lia. }
  split_and!; [apply order_range_older|by apply Hn|].
  rewrite order_range_older, Hn; done.
Qed.

Lemma order_range_one_block_witness :
  order_range (EventRange 2 2 1 4) (EventRange 2 2 5 6) = OlderThan /\
  order_range (EventRange 2 2 5 6) (EventRange 2 2 1 4) = NewerThan.
Proof.
  pose proof (order_range_one_block (EventRange 2 2 1 4) (EventRange 2 2 5 6)) as H.
  split; [reflexivity|]. apply H; try reflexivity; unfold range_wf, before; cbn; lia.
Defined.

(** Across blocks the order of event ranges is wrong: there are ranges
    where the first ends strictly before the second starts but the second is
    reported [Concurrent] with, not newer than, the first; and there are
    overlapping ranges reported [NewerThan] (the second clause tests
    [first.end_block == second.start_block]). *)
Theorem order_range_cross_block :
  (exists r1 r2, range_wf r1 /\ range_wf r2 /\
     order_range r1 r2 = OlderThan /\ order_range r2 r1 = Concurrent) /\
  (exists r1 r2 e, range_wf r1 /\ range_wf r2 /\
     within e r1 /\ within e r2 /\ order_range r1 r2 = NewerThan).
Proof.
  split.
  - exists (EventRange 1 2 0 4), (EventRange 2 3 5 0).
    unfold range_wf, before; cbn. split_and!; [lia..|done|done].
  - exists (EventRange 1 2 9 7), (EventRange 2 3 5 1), (EventId 0 2 6).
    unfold range_wf, within, before; cbn. split_and!; [lia..|done].
Qed.

(** [std::set<event_id_t>] is not a set of events: [operator<] makes events
    of different shards equivalent, so whatever is inserted, the set only ever
    holds events of one shard; an event of any other shard is dropped. *)
Theorem std_set_one_shard (l : list event_id_t) :
  single_shard (std_set_of_list l) /\
  (forall e x s, ev_shard e <> ev_shard x -> std_set_insert e (x :: s) = x :: s).
Proof.
  split; [|apply std_set_insert_other].
  apply std_set_fold_single. exists 0. constructor.
Qed.

(** [Witness::get_boundaries] forgets events: of two operations in one
    block of a shard the range keeps only the later one, and whatever follows
    them is ignored because of the [break]. *)
Theorem Witness_get_boundaries_forgets (s b i1 i2 : Z) (rest : list event_id_t) :
  Witness_get_boundaries (EventId s b i1 :: EventId s b i2 :: rest)
    = {[ s := EventRange b b i2 i2 ]}.
Proof.
  unfold Witness_get_boundaries; cbn. rewrite lookup_insert_eq.
  rewrite insert_insert_eq. unfold witness_extend; cbn.
  rewrite Z.gtb_ltb, Z.ltb_irrefl, Z.eqb_refl; cbn.
  rewrite Z.ltb_irrefl, Z.eqb_refl; cbn. done.
Qed.
