(* ===== verification/VersionNumber.v ===== *)
(** * Wrapping version numbers

    Models [src/enclave/version_number.h]: the 16-bit counters that hash map
    nodes and buckets carry to detect stale pages. *)

From S2P Require Import Prelude.

Definition MAX_VALUE : Z := 65535.
Definition WINDOW_SIZE : Z := MAX_VALUE / 2.

Abbreviation version_number := Z (only parsing).

Definition version_increment (m_value : version_number) : version_number :=
  u16 ((m_value + 1) mod MAX_VALUE).

Definition version_eqb (first second : version_number) : bool := first =? second.

Definition version_ltb (first second : version_number) : bool :=
  if version_eqb first second then false
  else if first <? second then
    let diff := second - first in diff <? WINDOW_SIZE
  else
    let diff := first - second in diff >? WINDOW_SIZE.

(** A value the class can hold after its construction from [0] and any number
    of increments *)
Definition version_wf (v : version_number) : Prop := 0 <= v < MAX_VALUE.

(** [k] increments *)
Definition version_advance (k : nat) (v : version_number) : version_number :=
  Nat.iter k version_increment v.

Lemma version_increment_wf v : version_wf v -> version_wf (version_increment v).
Proof.
  intros Hv. unfold version_wf, version_increment, wrap, MAX_VALUE in *.
  rewrite (Z.mod_small _ (2 ^ 16)); dlia.
Qed.

Lemma version_advance_eq k v :
  version_wf v -> version_advance k v = (v + Z.of_nat k) mod MAX_VALUE.
Proof.
  intros Hv. induction k as [|k IH].
  - unfold version_wf in Hv. cbn. rewrite Z.add_0_r, Z.mod_small; done.
  - change (version_advance (S k) v) with (version_increment (version_advance k v)).
    rewrite IH.
    unfold version_increment, wrap.
    rewrite (Z.mod_small _ (2 ^ 16)) by (unfold MAX_VALUE; dlia).
    rewrite Zplus_mod_idemp_l. f_equal. lia.
Qed.

Lemma version_increment_neq v : version_wf v -> version_increment v <> v.
Proof.
  intros Hv. change (version_increment v) with (version_advance 1 v).
  rewrite version_advance_eq by done. unfold version_wf, MAX_VALUE in *. dlia.
Qed.

#[export] Hint Resolve version_increment_wf version_increment_neq : credb.

(** Version numbers wrap around safely within a window: after fewer than
    [WINDOW_SIZE] increments the old value is less than the new one and not
    the other way round, also across the wrap-around. *)
Theorem version_ltb_window (v : version_number) (k : nat) :
  version_wf v -> 0 < Z.of_nat k < WINDOW_SIZE ->
  version_ltb v (version_advance k v) = true /\
  version_ltb (version_advance k v) v = false.
Proof.
  intros Hv Hk. rewrite version_advance_eq by done.
  change WINDOW_SIZE with 32767 in Hk.
  unfold version_ltb, version_eqb, version_wf, MAX_VALUE in *.
  change WINDOW_SIZE with 32767. rewrite !Z.gtb_ltb.
  set (w := (v + Z.of_nat k) mod 65535).
  assert (w = v + Z.of_nat k \/ w = v + Z.of_nat k - 65535) as Hw by (unfold w; dlia).
  assert (0 <= w < 65535) by (unfold w; dlia). clearbody w.
  destruct (Z.eqb_spec v w); [lia|]. destruct (Z.eqb_spec w v); [lia|].
  destruct (Z.ltb_spec v w), (Z.ltb_spec w v); lia.
Qed.

Lemma version_ltb_window_witness :
  version_ltb 65530 (version_advance 10 65530) = true /\
  version_ltb (version_advance 10 65530) 65530 = false.
Proof.
  apply version_ltb_window; [unfold version_wf, MAX_VALUE; lia|].
  change WINDOW_SIZE with 32767. lia.
Defined.

(** Two versions of a node are told apart unless a multiple of [MAX_VALUE]
    updates lies between them, so a replayed page is detected within that
    window; and exactly [MAX_VALUE] updates later it is not. *)
Theorem version_advance_eq_iff (v : version_number) (k : nat) :
  version_wf v ->
  version_advance k v = v <-> exists n : nat, Z.of_nat k = Z.of_nat n * MAX_VALUE.
Proof.
  intros Hv. rewrite version_advance_eq by done. unfold version_wf in Hv. split.
  - intros He. exists (Z.to_nat (Z.of_nat k / MAX_VALUE)).
    rewrite Z2Nat.id by (apply Z.div_pos; unfold MAX_VALUE; lia).
    unfold MAX_VALUE in *. dlia.
  - intros [n ->]. rewrite Z_mod_plus_full. by apply Z.mod_small.
Qed.

Lemma version_advance_eq_iff_witness :
  version_advance 3 7 <> 7.
Proof.
  intros H. apply version_advance_eq_iff in H as [n Hn];
    unfold version_wf, MAX_VALUE in *; lia.
Defined.
