(* ===== verification/Keys.v ===== *)
(** * Object keys, paths and hexadecimal digits

    Models [parse_path] of [src/common/util/keys.h], [Ledger::is_valid_key] of
    [src/enclave/Ledger.inl], and [from_hex], [to_hex] and [random_object_key]
    of [include/credb/defines.h].  A [std::string] is a [string]. *)

From Stdlib Require Import Ascii.
From S2P Require Import Prelude.

Local Open Scope string_scope.
Local Open Scope Z_scope.

(** ** Paths *)

(** [std::string::find] of one character *)
Fixpoint find_char (c : ascii) (s : string) : option nat :=
  match s with
  | EmptyString => None
  | String a s => if Ascii.eqb a c then Some O else S <$> find_char c s
  end.

(** [substr(pos, npos)] *)
Fixpoint str_drop (n : nat) (s : string) : string :=
  match n, s with
  | O, _ => s
  | S n, String _ s => str_drop n s
  | S _, EmptyString => EmptyString
  end.

(** [substr(0, n)] *)
Fixpoint str_take (n : nat) (s : string) : string :=
  match n, s with
  | O, _ => EmptyString
  | S n, String a s => String a (str_take n s)
  | S _, EmptyString => EmptyString
  end.

Definition parse_path (full_path : string) : string * string :=
  match find_char "." full_path with
  | Some ppos => (str_take ppos full_path, str_drop (ppos + 1) full_path)
  | None => (full_path, EmptyString)
  end.

(** ** Keys *)

(** [isalnum] in the C locale *)
Definition isalnum (c : ascii) : bool :=
  let n := Z.of_N (N_of_ascii c) in
  ((48 <=? n) && (n <=? 57)) || ((65 <=? n) && (n <=? 90)) || ((97 <=? n) && (n <=? 122)).

Fixpoint all_chars (p : ascii -> bool) (s : string) : bool :=
  match s with
  | EmptyString => true
  | String c s => p c && all_chars p s
  end.

Definition is_valid_key (str : string) : bool :=
  match str with
  | EmptyString => false
  | _ => all_chars (fun c => negb (negb (isalnum c) && negb (Ascii.eqb c "_"))) str
  end.

(** The characters [random_object_key] draws from *)
Definition charset : string :=
  "0123456789ABCDEFGHIJKLMNOPQRSTUVWXYZabcdefghijklmnopqrstuvwxyz".

(** [charset[rand<char>() % max_index]]: the [char] is converted to [size_t]
    before the [%]. *)
Definition randchar (r : Z) : ascii :=
  default "0"%char (String.get (Z.to_nat (u64 r mod 62)) charset).

(** [rands] are the values [rand<char>()] returns. *)
Fixpoint random_chars (rands : list Z) : string :=
  match rands with
  | [] => EmptyString
  | r :: rands => String (randchar r) (random_chars rands)
  end.

Definition random_object_key (length : nat) (rands : list Z) : result string :=
  match length with
  | O => Throw (Runtime_error "Key length has to be > 0")
  | _ => Ok (random_chars (take length rands))
  end.

(** ** Hexadecimal digits *)

Definition from_hex (c : ascii) : result Z :=
  match c with
  | "0"%char => Ok 0 | "1"%char => Ok 1 | "2"%char => Ok 2 | "3"%char => Ok 3
  | "4"%char => Ok 4 | "5"%char => Ok 5 | "6"%char => Ok 6 | "7"%char => Ok 7
  | "8"%char => Ok 8 | "9"%char => Ok 9 | "A"%char => Ok 10 | "B"%char => Ok 11
  | "C"%char => Ok 12 | "D"%char => Ok 13 | "E"%char => Ok 14 | "F"%char => Ok 15
  | _ => Throw (Runtime_error "Not a hexidecimal number")
  end.

Definition to_hex (val : Z) : result ascii :=
  if val >=? 16 then Throw (Runtime_error "Cannot convert value >=16 to hexadecimal")
  else match val with
  | 0 => Ok "0"%char | 1 => Ok "1"%char | 2 => Ok "2"%char | 3 => Ok "3"%char
  | 4 => Ok "4"%char | 5 => Ok "5"%char | 6 => Ok "6"%char | 7 => Ok "7"%char
  | 8 => Ok "8"%char | 9 => Ok "9"%char | 10 => Ok "A"%char | 11 => Ok "B"%char
  | 12 => Ok "C"%char | 13 => Ok "D"%char | 14 => Ok "E"%char | 15 => Ok "F"%char
  | _ => Ok "x"%char
  end.

(** ** Lemmas *)

#[local] Arguments Ascii.eqb : simpl never.
#[local] Arguments String.append : simpl nomatch.
#[local] Arguments isalnum : simpl never.
#[local] Arguments randchar : simpl never.

Lemma str_app_nil_r s : s +:+ EmptyString = s.
Proof. induction s; cbn; by f_equal. Qed.

Lemma str_app_assoc s1 s2 s3 : (s1 +:+ s2) +:+ s3 = s1 +:+ (s2 +:+ s3).
Proof. induction s1; cbn; by f_equal. Qed.

Lemma str_app_length s1 s2 :
  String.length (s1 +:+ s2) = (String.length s1 + String.length s2)%nat.
Proof. induction s1; cbn; by f_equal. Qed.

Lemma str_take_drop n s : str_take n s +:+ str_drop n s = s.
Proof. revert s. induction n; intros [|a s]; cbn; by f_equal. Qed.

Lemma str_drop_length n s : String.length (str_drop n s) = (String.length s - n)%nat.
Proof. revert s. induction n; intros [|a s]; cbn; auto. Qed.

Lemma all_chars_app p s1 s2 : all_chars p (s1 +:+ s2) = all_chars p s1 && all_chars p s2.
Proof. induction s1 as [|a s1 IH]; cbn; [done|]. by rewrite IH, andb_assoc. Qed.

Lemma find_char_app_none c s1 s2 :
  find_char c s1 = None -> find_char c (s1 +:+ String c s2) = Some (String.length s1).
Proof.
  induction s1 as [|a s1 IH]; cbn; [by rewrite Ascii.eqb_refl|].
  destruct (Ascii.eqb a c); [done|].
  destruct (find_char c s1); [done|]. intros _. by rewrite IH.
Qed.

Lemma str_take_app s1 s2 : str_take (String.length s1) (s1 +:+ s2) = s1.
Proof. induction s1; cbn; [by destruct s2|]. by f_equal. Qed.

Lemma str_drop_app s1 c s2 : str_drop (String.length s1 + 1) (s1 +:+ String c s2) = s2.
Proof. induction s1; cbn; [by destruct s2|]. done. Qed.

Lemma find_char_some c s n :
  find_char c s = Some n ->
  s = str_take n s +:+ String c (str_drop (n + 1) s) /\ find_char c (str_take n s) = None.
Proof.
  revert n. induction s as [|a s IH]; intros n; cbn; [done|].
  destruct (Ascii.eqb_spec a c) as [->|Hac].
  - intros [= <-]; cbn. by destruct s.
  - destruct (find_char c s) as [m|] eqn:E; cbn; [|done].
    intros [= <-]. destruct (IH m eq_refl) as [H1 H2]. cbn. split; [by f_equal|].
    rewrite H2. by destruct (Ascii.eqb_spec a c).
Qed.

Lemma all_chars_find p c s : all_chars p s = true -> p c = false -> find_char c s = None.
Proof.
  intros Hs Hc. induction s as [|a s IH]; cbn in *; [done|].
  apply andb_true_iff in Hs as [Ha Hs].
  destruct (Ascii.eqb_spec a c) as [->|]; [congruence|]. by rewrite IH.
Qed.

Lemma is_valid_key_no_dot key : is_valid_key key = true -> find_char "." key = None.
Proof.
  intros Hk. unfold is_valid_key in Hk.
  destruct key; [done|]. by eapply all_chars_find.
Qed.

Lemma randchar_valid r : isalnum (randchar r) = true.
Proof.
  unfold randchar. set (n := Z.to_nat (u64 r mod 62)).
  assert (n < 62)%nat as Hn by (unfold n; pose proof (Z.mod_pos_bound (u64 r) 62); lia).
  clearbody n. do 62 (destruct n as [|n]; [reflexivity|]). lia.
Qed.

(** A full path splits at its first dot: the key part has no dot, and key
    and path put together again give the full path; conversely a valid object
    key followed by a path (or alone) is parsed back into exactly these parts. *)
Theorem parse_path_roundtrip (full_path : string) :
  let '(key, path) := parse_path full_path in
  find_char "." key = None /\
  (full_path = key +:+ "." +:+ path \/ (full_path = key /\ path = EmptyString)) /\
  (forall k p, is_valid_key k = true ->
     parse_path (k +:+ "." +:+ p) = (k, p) /\ parse_path k = (k, EmptyString)).
Proof.
  assert (forall k p, is_valid_key k = true ->
     parse_path (k +:+ "." +:+ p) = (k, p) /\ parse_path k = (k, EmptyString)) as Hk.
  { intros k p Hk%is_valid_key_no_dot. unfold parse_path. cbn.
    rewrite (find_char_app_none _ _ _ Hk), Hk. by rewrite str_take_app, str_drop_app. }
  unfold parse_path. destruct (find_char "." full_path) as [n|] eqn:E.
  - apply find_char_some in E as [H1 H2]. split_and!; [done| |done]. left. done.
  - split_and!; [done|by right|done].
Qed.

(** Every key [random_object_key] can generate is one the ledger accepts. *)
Theorem random_object_key_valid (length : nat) (rands : list Z) (key : string) :
  (0 < length <= List.length rands)%nat ->
  random_object_key length rands = Ok key -> is_valid_key key = true.
Proof.
  intros [Hlen Hr] Hk. destruct length as [|n]; [lia|]. cbn in Hk.
  destruct rands as [|r rands]; [cbn in *; lia|]. cbn in Hk. injection Hk as <-.
  cbn. rewrite randchar_valid; cbn. generalize (take n rands). clear.
  induction l as [|r l IH]; cbn; [done|]. by rewrite randchar_valid, IH.
Qed.

Lemma random_object_key_valid_witness :
  random_object_key 3 [0; -1; 61] = Ok "0Fz" /\ is_valid_key "0Fz" = true.
Proof.
  split; [reflexivity|]. apply (random_object_key_valid 3 [0; -1; 61]); [cbn; lia|reflexivity].
Defined.
