(* ===== verification/Base64.v ===== *)
(** * Base64 and the armor of witnesses

    Models [src/common/util/base64.cpp], and [Witness::armor] and the stream
    extraction operator of [src/ledger/Witness.cpp].  Bytes are [Z], a
    [std::string] is a [string]. *)

From Stdlib Require Import Ascii.
From S2P Require Import Prelude Keys.

Local Open Scope Z_scope.

Definition base64_chars : string :=
  "ABCDEFGHIJKLMNOPQRSTUVWXYZabcdefghijklmnopqrstuvwxyz0123456789+/".

Definition is_base64 (c : ascii) : bool :=
  isalnum c || Ascii.eqb c "+" || Ascii.eqb c "/".

(** [strchr(str, c) - str]; the source only looks up characters that occur. *)
Definition cstr_find (str : string) (c : ascii) : Z :=
  match find_char c str with
  | Some n => Z.of_nat n
  | None => 0
  end.

(** [base64_chars[i]] *)
Definition base64_char (i : Z) : ascii :=
  default "000"%char (String.get (Z.to_nat i) base64_chars).

(** ** Encoding *)

(** [char_array_4] from [char_array_3] *)
Definition encode_block (c0 c1 c2 : Z) : list Z :=
  [ u8 (Z.shiftr (Z.land c0 252) 2);
    u8 (Z.shiftl (Z.land c0 3) 4 + Z.shiftr (Z.land c1 240) 4);
    u8 (Z.shiftl (Z.land c1 15) 2 + Z.shiftr (Z.land c2 192) 6);
    u8 (Z.land c2 63) ].

Fixpoint emit_chars (l : list Z) (ret : string) : string :=
  match l with
  | [] => ret
  | i :: l => emit_chars l (ret +:+ String (base64_char i) EmptyString)
  end.

(** What follows the loop, with the [i] bytes of an unfinished group *)
Definition encode_tail (char_array_3 : list Z) (ret : string) : string :=
  match char_array_3 with
  | [c0] => emit_chars (take 2 (encode_block c0 0 0)) ret +:+ "=="%string
  | [c0; c1] => emit_chars (take 3 (encode_block c0 c1 0)) ret +:+ "="%string
  | _ => ret
  end.

(** The [while(in_len--)] loop; [char_array_3] holds its first [i] bytes. *)
Fixpoint encode_loop (bytes char_array_3 : list Z) (ret : string) : string :=
  match bytes with
  | [] => encode_tail char_array_3 ret
  | b :: bytes =>
      match (char_array_3 ++ [b])%list with
      | [c0; c1; c2] => encode_loop bytes [] (emit_chars (encode_block c0 c1 c2) ret)
      | arr => encode_loop bytes arr ret
      end
  end.

Definition base64_encode (bytes_to_encode : list Z) : string :=
  encode_loop bytes_to_encode [] EmptyString.

(** ** Decoding *)

(** [char_array_3] from [char_array_4] *)
Definition decode_block (a0 a1 a2 a3 : Z) : list Z :=
  [ u8 (Z.shiftl a0 2 + Z.shiftr (Z.land a1 48) 4);
    u8 (Z.shiftl (Z.land a1 15) 4 + Z.shiftr (Z.land a2 60) 2);
    u8 (Z.shiftl (Z.land a2 3) 6 + a3) ].

Definition lookup_chars (l : list ascii) : list Z := cstr_find base64_chars <$> l.

(** The decoding loop: the characters of the unfinished group, the number of
    characters consumed and the output so far. *)
Fixpoint decode_loop (s : string) (char_array_4 : list ascii) (in_ : Z) (ret : list Z)
  : list ascii * Z * list Z :=
  match s with
  | EmptyString => (char_array_4, in_, ret)
  | String c s =>
      if negb (Ascii.eqb c "=") && is_base64 c then
        match lookup_chars (char_array_4 ++ [c]) with
        | [a0; a1; a2; a3] => decode_loop s [] (in_ + 1) (ret ++ decode_block a0 a1 a2 a3)
        | _ => decode_loop s (char_array_4 ++ [c]) (in_ + 1) ret
        end
      else (char_array_4, in_, ret)
  end.

(** The bytes of an unfinished group of [i] characters *)
Definition decode_tail (char_array_4 : list ascii) : list Z :=
  match lookup_chars char_array_4 with
  | [] => []
  | [a0] => []
  | [a0; a1] => take 1 (decode_block a0 a1 0 0)
  | a0 :: a1 :: a2 :: _ => take 2 (decode_block a0 a1 a2 0)
  end.

Definition base64_decode (encoded_string : string) : result (list Z) :=
  let '(char_array_4, in_, ret) := decode_loop encoded_string [] 0 [] in
  if in_ <? 4 then Throw (Runtime_error "String not long enough")
  else Ok (ret ++ decode_tail char_array_4).

(** ** Armor *)

Definition BEGIN_MESSAGE : string := "-----BEGIN CREDB WITNESS MESSAGE-----".
Definition END_MESSAGE : string := "-----END CREDB WITNESS MESSAGE-----".

Definition newline : ascii := "010"%char.
Definition with_newline (s : string) : string := s +:+ String newline EmptyString.

(** The loop of [Witness::armor] over [base64.substr(pos)], 64 characters a line;
    it runs [fuel] times at most. *)
Fixpoint armor_lines (fuel : nat) (base64 : string) : string :=
  match fuel with
  | O => EmptyString
  | S fuel =>
      if (64 <? String.length base64)%nat
      then with_newline (str_take 64 base64) +:+ armor_lines fuel (str_drop 64 base64)
      else if (0 <? String.length base64)%nat then with_newline base64
      else EmptyString
  end.

Definition armor_bytes (payload : list Z) : string :=
  let base64 := base64_encode payload in
  with_newline BEGIN_MESSAGE +:+ armor_lines (S (String.length base64)) base64
    +:+ with_newline END_MESSAGE.

(** [std::getline]: the characters up to the next newline, and the rest of the
    stream; fails on an exhausted stream. *)
Definition getline (s : string) : option (string * string) :=
  match s with
  | EmptyString => None
  | _ => match find_char newline s with
         | Some n => Some (str_take n s, str_drop (n + 1) s)
         | None => Some (s, EmptyString)
         end
  end.

(** The [while(true)] loop of [operator>>]; each turn consumes a line. *)
Fixpoint read_lines (fuel : nat) (input s : string) : result string :=
  match fuel with
  | O => Throw (Undefined "out of fuel")
  | S fuel =>
      match getline input with
      | None => Throw (Runtime_error "Failed to getline")
      | Some (line, rest) =>
          if String.eqb line END_MESSAGE then Ok s
          else read_lines fuel rest (s +:+ line)
      end
  end.

Definition unarmor_bytes (input : string) : result (list Z) :=
  match getline input with
  | None => Throw (Runtime_error "Failed to getline")
  | Some (line, rest) =>
      if negb (String.eqb line BEGIN_MESSAGE)
      then Throw (Runtime_error "The line doesn't start with BEGIN_MESSAGE")
      else s ← read_lines (S (String.length rest)) rest EmptyString;
           base64_decode s
  end.

(** A witness: the bytes of its document and the signature on them *)
Record Witness : Type := mkWitness {
  m_data : list Z;
  m_signature : list Z;
}.

#[global] Instance Witness_eq_dec : EqDecision Witness.
Proof. solve_decision. Defined.

(** [put] and [get] are the stream operators of bitstream on a witness. *)
Definition Witness_armor (put : Witness -> list Z) (w : Witness) : string :=
  armor_bytes (put w).

Definition Witness_extract (get : list Z -> result Witness) (input : string) : result Witness :=
  decoded ← unarmor_bytes input; get decoded.

(** ** Lemmas: groups *)

#[local] Arguments Ascii.eqb : simpl never.
#[local] Arguments is_base64 : simpl never.
#[local] Arguments base64_char : simpl never.
#[local] Arguments cstr_find : simpl never.
#[local] Arguments encode_block : simpl never.
#[local] Arguments decode_block : simpl never.
#[local] Arguments String.append : simpl nomatch.
#[local] Arguments Z.add : simpl never.

(** The bit operations of the source, as arithmetic *)
Lemma encode_block_arith c0 c1 c2 :
  is_byte c0 -> is_byte c1 -> is_byte c2 ->
  encode_block c0 c1 c2 =
  [c0 / 4; c0 mod 4 * 16 + c1 / 16; c1 mod 16 * 4 + c2 / 64; c2 mod 64].
Proof.
  intros H0 H1 H2. unfold encode_block.
  rewrite (Z_all_eq (fun z => Z.shiftr (Z.land z 252) 2) (fun z => z / 4) 256 c0),
    (Z_all_eq (fun z => Z.shiftl (Z.land z 3) 4) (fun z => z mod 4 * 16) 256 c0),
    (Z_all_eq (fun z => Z.shiftr (Z.land z 240) 4) (fun z => z / 16) 256 c1),
    (Z_all_eq (fun z => Z.shiftl (Z.land z 15) 2) (fun z => z mod 16 * 4) 256 c1),
    (Z_all_eq (fun z => Z.shiftr (Z.land z 192) 6) (fun z => z / 64) 256 c2),
    (Z_all_eq (fun z => Z.land z 63) (fun z => z mod 64) 256 c2) by (done || reflexivity).
  unfold is_byte in *. repeat f_equal; apply wrap_small; unfold in_range; dlia.
Qed.

Definition sextet (z : Z) : Prop := 0 <= z < 64.

Lemma decode_block_arith a0 a1 a2 a3 :
  sextet a0 -> sextet a1 -> sextet a2 -> sextet a3 ->
  decode_block a0 a1 a2 a3 =
  [a0 * 4 + a1 / 16; a1 mod 16 * 16 + a2 / 4; a2 mod 4 * 64 + a3].
Proof.
  intros H0 H1 H2 H3. unfold decode_block.
  rewrite (Z_all_eq (fun z => Z.shiftl z 2) (fun z => z * 4) 64 a0),
    (Z_all_eq (fun z => Z.shiftr (Z.land z 48) 4) (fun z => z / 16) 64 a1),
    (Z_all_eq (fun z => Z.shiftl (Z.land z 15) 4) (fun z => z mod 16 * 16) 64 a1),
    (Z_all_eq (fun z => Z.shiftr (Z.land z 60) 2) (fun z => z / 4) 64 a2),
    (Z_all_eq (fun z => Z.shiftl (Z.land z 3) 6) (fun z => z mod 4 * 64) 64 a2)
    by (done || reflexivity).
  unfold sextet in *. repeat f_equal; apply wrap_small; unfold in_range; dlia.
Qed.

Lemma encode_block_sextets c0 c1 c2 :
  is_byte c0 -> is_byte c1 -> is_byte c2 -> Forall sextet (encode_block c0 c1 c2).
Proof.
  intros. rewrite encode_block_arith by done. unfold is_byte in *.
  repeat constructor; dlia.
Qed.

(** Every sextet survives being written as a character. *)
Lemma base64_char_ok a :
  sextet a ->
  Ascii.eqb (base64_char a) "=" = false /\ is_base64 (base64_char a) = true /\
  cstr_find base64_chars (base64_char a) = a.
Proof.
  intros Ha.
  pose proof (Z_all_spec (fun a => negb (Ascii.eqb (base64_char a) "=") &&
    is_base64 (base64_char a) && (cstr_find base64_chars (base64_char a) =? a))
    64 a ltac:(vm_compute; reflexivity) Ha) as H. cbn beta in H. by bool_hyps.
Qed.

Fixpoint chars_of (l : list Z) : string :=
  match l with
  | [] => EmptyString
  | i :: l => String (base64_char i) (chars_of l)
  end.

Lemma emit_chars_app l ret : emit_chars l ret = ret +:+ chars_of l.
Proof.
  revert ret. induction l as [|i l IH]; intros ret; cbn [emit_chars chars_of].
  - symmetry. apply str_app_nil_r.
  - rewrite IH, str_app_assoc. done.
Qed.

Lemma emit_chars_nil l : emit_chars l EmptyString = chars_of l.
Proof. apply emit_chars_app. Qed.

Lemma encode_tail_app arr ret : encode_tail arr ret = ret +:+ encode_tail arr EmptyString.
Proof.
  destruct arr as [|c0 [|c1 [|c2 arr]]]; cbn -[emit_chars];
    rewrite ?emit_chars_app, ?str_app_nil_r, ?str_app_assoc; done.
Qed.

Lemma encode_loop_app bs arr ret :
  encode_loop bs arr ret = ret +:+ encode_loop bs arr EmptyString.
Proof.
  revert arr ret. induction bs as [|b bs IH]; intros arr ret; cbn [encode_loop].
  { apply encode_tail_app. }
  destruct (arr ++ [b])%list as [|c0 [|c1 [|c2 [|c3 l]]]]; try apply IH.
  rewrite IH, (IH _ (emit_chars _ EmptyString)), !emit_chars_app.
  by rewrite str_app_assoc.
Qed.

Lemma encode_loop_group c0 c1 c2 bs :
  encode_loop (c0 :: c1 :: c2 :: bs) [] EmptyString =
  chars_of (encode_block c0 c1 c2) +:+ encode_loop bs [] EmptyString.
Proof. cbn -[emit_chars]. by rewrite encode_loop_app, emit_chars_app. Qed.

Lemma lookup_chars_of l :
  Forall sextet l -> lookup_chars (base64_char <$> l) = l.
Proof.
  unfold lookup_chars. induction 1 as [|a l Ha Hl IH]; cbn; [done|].
  f_equal; [by apply base64_char_ok|done].
Qed.

(** One more sextet is read. *)
Lemma decode_loop_char a arr s n ret :
  sextet a -> Forall sextet arr -> (length arr < 3)%nat ->
  decode_loop (String (base64_char a) s) (base64_char <$> arr) n ret =
  decode_loop s (base64_char <$> (arr ++ [a])%list) (n + 1) ret.
Proof.
  intros Ha Harr Hlen. cbn [decode_loop].
  destruct (base64_char_ok a Ha) as (-> & -> & _). cbn [negb andb].
  change [base64_char a] with (base64_char <$> [a]). rewrite <-fmap_app.
  rewrite lookup_chars_of by (apply Forall_app; eauto).
  destruct arr as [|? [|? [|? ?]]]; cbn in *; done || lia.
Qed.

Lemma decode_loop_group a0 a1 a2 a3 s n ret :
  Forall sextet [a0; a1; a2; a3] ->
  decode_loop (chars_of [a0; a1; a2; a3] +:+ s) [] n ret =
  decode_loop s [] (n + 4) (ret ++ decode_block a0 a1 a2 a3)%list.
Proof.
  intros H. assert (H' := H). rewrite !Forall_cons in H'. destruct H' as (H0 & H1 & H2 & H3 & _).
  cbn [chars_of String.append].
  change (@nil ascii) with (base64_char <$> @nil Z) at 1.
  rewrite !decode_loop_char by (rewrite ?Forall_app, ?Forall_cons; cbn; auto || lia).
  cbn [decode_loop app fmap list_fmap].
  destruct (base64_char_ok a3 H3) as (-> & -> & _). cbn [negb andb].
  change (base64_char a0 :: [base64_char a1; base64_char a2; base64_char a3])
    with (base64_char <$> [a0; a1; a2; a3]).
  rewrite lookup_chars_of by done. f_equal. lia.
Qed.

(** Lists three elements at a time *)
Lemma list_ind3 {A} (P : list A -> Prop) :
  P [] -> (forall a, P [a]) -> (forall a b, P [a; b]) ->
  (forall a b c l, P l -> P (a :: b :: c :: l)) -> forall l, P l.
Proof.
  intros H0 H1 H2 H3. fix IH 1. intros [|a [|b [|c l]]]; [done|done|done|]. apply H3, IH.
Qed.

(** An unfinished group followed by the padding *)
Lemma decode_loop_partial l s n ret :
  Forall sextet l -> (length l <= 3)%nat ->
  decode_loop (chars_of l +:+ String "=" s) [] n ret =
  (base64_char <$> l, n + Z.of_nat (length l), ret).
Proof.
  intros HF Hl. change (@nil ascii) with (base64_char <$> @nil Z) at 1.
  enough (forall l1 n, Forall sextet l1 -> (length l1 + length l <= 3)%nat ->
    decode_loop (chars_of l +:+ String "=" s) (base64_char <$> l1) n ret =
    (base64_char <$> (l1 ++ l)%list, n + Z.of_nat (length l), ret)) as H by (by apply H).
  clear Hl n. induction HF as [|a l Ha HF IH]; intros l1 n Hl1 Hlen; cbn [chars_of].
  - cbn. by rewrite app_nil_r, Z.add_0_r.
  - cbn [String.append length] in *. rewrite decode_loop_char by (done || lia).
    rewrite IH by (rewrite ?Forall_app, ?Forall_cons, ?length_app; cbn; auto || lia).
    rewrite <-app_assoc. cbn [app]. f_equal. f_equal. lia.
Qed.

Lemma decode_tail_1 b : is_byte b ->
  decode_tail (base64_char <$> take 2 (encode_block b 0 0)) = [b].
Proof.
  intros Hb. assert (is_byte 0) as Hz by (unfold is_byte; lia).
  pose proof (encode_block_sextets b 0 0 Hb Hz Hz) as HS. unfold decode_tail.
  rewrite lookup_chars_of by (by apply Forall_take).
  rewrite encode_block_arith in * by done. rewrite !Forall_cons in HS. cbn [take].
  rewrite decode_block_arith by (tauto || (unfold sextet; lia)). unfold is_byte in *.
  cbn. f_equal. dlia.
Qed.

Lemma decode_tail_2 b0 b1 : is_byte b0 -> is_byte b1 ->
  decode_tail (base64_char <$> take 3 (encode_block b0 b1 0)) = [b0; b1].
Proof.
  intros H0 H1. assert (is_byte 0) as Hz by (unfold is_byte; lia).
  pose proof (encode_block_sextets b0 b1 0 H0 H1 Hz) as HS. unfold decode_tail.
  rewrite lookup_chars_of by (by apply Forall_take).
  rewrite encode_block_arith in * by done. rewrite !Forall_cons in HS. cbn [take].
  rewrite decode_block_arith by (tauto || (unfold sextet; lia)). unfold is_byte in *.
  cbn. repeat f_equal; dlia.
Qed.

Lemma decode_encode_loop bs n ret :
  Forall is_byte bs ->
  exists arr m ret',
    decode_loop (encode_loop bs [] EmptyString) [] n ret = (arr, n + m, ret') /\
    (ret' ++ decode_tail arr = ret ++ bs)%list /\ 0 <= m /\ (4 <= m <-> (3 <= length bs)%nat).
Proof.
  assert (is_byte 0) as Hz by (unfold is_byte; lia).
  revert n ret. induction bs as [|b0|b0 b1|b0 b1 b2 bs IH] using list_ind3;
    intros n ret Hb; rewrite ?Forall_cons in Hb.
  - exists [], 0, ret. cbn. rewrite Z.add_0_r. split_and!; [done..|lia|lia].
  - destruct Hb as [H0 _]. cbn -[decode_loop emit_chars take String.append].
    rewrite emit_chars_nil.
    exists (base64_char <$> take 2 (encode_block b0 0 0)), 2, ret.
    rewrite decode_loop_partial by
      (first [apply Forall_take; by apply encode_block_sextets | rewrite length_take; lia]).
    rewrite decode_tail_1 by done. split_and!; [done..|cbn; lia].
  - destruct Hb as (H0 & H1 & _). cbn -[decode_loop emit_chars take String.append].
    rewrite emit_chars_nil.
    exists (base64_char <$> take 3 (encode_block b0 b1 0)), 3, ret.
    rewrite decode_loop_partial by
      (first [apply Forall_take; by apply encode_block_sextets | rewrite length_take; lia]).
    rewrite decode_tail_2 by done. split_and!; [done..|cbn; lia].
  - destruct Hb as (H0 & H1 & H2 & Hb). rewrite encode_loop_group.
    pose proof (encode_block_sextets b0 b1 b2 H0 H1 H2) as HS.
    rewrite encode_block_arith in * by done. rewrite decode_loop_group by done.
    edestruct IH as (arr & m & ret' & -> & Hr & Hm0 & Hm); [done|].
    exists arr, (4 + m), ret'. split_and!; [f_equal; f_equal; lia| |lia|cbn; lia].
    rewrite Hr, <-app_assoc. f_equal. rewrite !Forall_cons in HS.
    rewrite decode_block_arith by tauto. unfold is_byte in *.
    cbn [app]. repeat f_equal; dlia.
Qed.

Lemma decode_encode_long bs :
  Forall is_byte bs -> (3 <= length bs)%nat -> base64_decode (base64_encode bs) = Ok bs.
Proof.
  intros Hb Hlen. unfold base64_decode, base64_encode.
  edestruct (decode_encode_loop bs 0 []) as (arr & m & ret' & -> & Hr & Hm0 & Hm); [done|].
  destruct (Z.ltb_spec (0 + m) 4); [lia|]. by rewrite Hr.
Qed.

(** ** Lemmas: armor *)

Definition armor_char (c : ascii) : bool := is_base64 c || Ascii.eqb c "=".

Lemma chars_of_armor l : Forall sextet l -> all_chars armor_char (chars_of l) = true.
Proof.
  induction 1 as [|a l Ha Hl IH]; cbn; [done|]. rewrite IH. unfold armor_char.
  by destruct (base64_char_ok a Ha) as (_ & -> & _).
Qed.

Lemma base64_encode_armor bs :
  Forall is_byte bs -> all_chars armor_char (base64_encode bs) = true.
Proof.
  assert (is_byte 0) as Hz by (unfold is_byte; lia). unfold base64_encode.
  induction bs as [|b0|b0 b1|b0 b1 b2 bs IH] using list_ind3;
    intros Hb; rewrite ?Forall_cons in Hb; [done|..].
  3: rewrite encode_loop_group, all_chars_app, IH by tauto.
  1,2: cbn -[emit_chars take String.append]; rewrite emit_chars_nil, all_chars_app.
  all: rewrite chars_of_armor; [done|]; try apply Forall_take; apply encode_block_sextets; tauto.
Qed.

Lemma with_newline_app line rest : with_newline line +:+ rest = line +:+ String newline rest.
Proof. unfold with_newline. by rewrite str_app_assoc. Qed.

Lemma getline_line line rest :
  find_char newline line = None -> getline (with_newline line +:+ rest) = Some (line, rest).
Proof.
  intros Hl. rewrite with_newline_app.
  pose proof (find_char_app_none newline line rest Hl) as E. unfold getline.
  rewrite E, str_take_app, str_drop_app. by destruct line.
Qed.

Lemma all_chars_take p n s : all_chars p s = true -> all_chars p (str_take n s) = true.
Proof.
  rewrite <-(str_take_drop n s) at 1. rewrite all_chars_app. by intros [? _]%andb_true_iff.
Qed.

Lemma all_chars_drop p n s : all_chars p s = true -> all_chars p (str_drop n s) = true.
Proof.
  rewrite <-(str_take_drop n s) at 1. rewrite all_chars_app. by intros [_ ?]%andb_true_iff.
Qed.

(** A line of base64 text is not the end marker. *)
Lemma read_line_armor fuel line rest s :
  all_chars armor_char line = true ->
  read_lines (S fuel) (with_newline line +:+ rest) s = read_lines fuel rest (s +:+ line).
Proof.
  intros Hl. cbn [read_lines]. rewrite getline_line by (by eapply all_chars_find).
  destruct (String.eqb_spec line END_MESSAGE) as [->|]; [|done]. by vm_compute in Hl.
Qed.

Lemma read_lines_end fuel rest s :
  read_lines (S fuel) (with_newline END_MESSAGE +:+ rest) s = Ok s.
Proof. cbn [read_lines]. by rewrite getline_line. Qed.

Lemma read_lines_armor fuel fuel' b s rest :
  all_chars armor_char b = true ->
  (String.length b < fuel)%nat -> (String.length b < fuel')%nat ->
  read_lines fuel' (armor_lines fuel b +:+ with_newline END_MESSAGE +:+ rest) s = Ok (s +:+ b).
Proof.
  revert fuel' b s. induction fuel as [|fuel IH]; intros fuel' b s Hb Hf Hf'; [lia|].
  destruct fuel' as [|fuel']; [lia|]. cbn [armor_lines].
  destruct (Nat.ltb_spec 64 (String.length b)).
  - rewrite str_app_assoc, read_line_armor by (by apply all_chars_take).
    rewrite IH by (rewrite ?str_drop_length; lia || by apply all_chars_drop).
    by rewrite str_app_assoc, str_take_drop.
  - destruct (Nat.ltb_spec 0 (String.length b)).
    + rewrite read_line_armor by done. destruct fuel' as [|fuel']; [lia|]. apply read_lines_end.
    + destruct b; [|cbn in *; lia]. rewrite str_app_nil_r. apply read_lines_end.
Qed.

Lemma armor_lines_length fuel b :
  (String.length b < fuel)%nat -> (String.length b <= String.length (armor_lines fuel b))%nat.
Proof.
  revert b. induction fuel as [|fuel IH]; intros b Hf; [lia|]. cbn [armor_lines].
  assert (forall s, String.length (with_newline s) = (String.length s + 1)%nat) as Hnl
    by (intros; apply str_app_length).
  destruct (Nat.ltb_spec 64 (String.length b)).
  - rewrite str_app_length, Hnl.
    pose proof (f_equal String.length (str_take_drop 64 b)) as E. rewrite str_app_length in E.
    specialize (IH (str_drop 64 b)). rewrite str_drop_length in *. lia.
  - destruct (Nat.ltb_spec 0 (String.length b)); [rewrite Hnl|cbn]; lia.
Qed.

Lemma unarmor_armor payload :
  Forall is_byte payload -> (3 <= length payload)%nat ->
  unarmor_bytes (armor_bytes payload) = Ok payload.
Proof.
  intros Hb Hl. unfold unarmor_bytes, armor_bytes.
  rewrite getline_line by done. cbn [negb String.eqb].
  set (b := base64_encode payload).
  rewrite <-(str_app_nil_r (with_newline END_MESSAGE)) at 2.
  rewrite read_lines_armor; [by apply decode_encode_long| |lia|].
  { by apply base64_encode_armor. }
  rewrite str_app_length. pose proof (armor_lines_length (S (String.length b)) b). lia.
Qed.

(** [base64_decode] inverts [base64_encode] on every byte string of three
    bytes or more, and refuses the (valid) encoding of every shorter one. *)
Theorem base64_roundtrip (bytes : list Z) :
  Forall is_byte bytes ->
  base64_decode (base64_encode bytes) =
  if (length bytes <? 3)%nat then Throw (Runtime_error "String not long enough") else Ok bytes.
Proof.
  intros Hb. destruct (Nat.ltb_spec (length bytes) 3); [|by apply decode_encode_long].
  unfold base64_decode, base64_encode.
  edestruct (decode_encode_loop bytes 0 []) as (arr & m & ret' & -> & Hr & Hm0 & Hm); [done|].
  destruct (Z.ltb_spec (0 + m) 4); [done|lia].
Qed.

Lemma base64_roundtrip_witness :
  base64_encode [77; 97; 110; 255] = "TWFu/w=="%string /\
  base64_decode (base64_encode [77; 97; 110; 255]) = Ok [77; 97; 110; 255].
Proof.
  split; [reflexivity|]. apply (base64_roundtrip [77; 97; 110; 255]).
  refine (bool_decide_unpack _ _). by vm_compute.
Defined.

(** C35.  What [Witness::armor] prints, [operator>>] reads back as the same
    witness, provided bitstream reads back what it wrote and writes the bytes
    of the signature (64 of them) among others. *)
Theorem Witness_armor_roundtrip (put : Witness -> list Z) (get : list Z -> result Witness)
    (w : Witness) :
  get (put w) = Ok w -> Forall is_byte (put w) -> (64 <= length (put w))%nat ->
  Witness_extract get (Witness_armor put w) = Ok w.
Proof.
  intros Hget Hb Hl. unfold Witness_extract, Witness_armor.
  rewrite unarmor_armor by (done || lia). done.
Qed.

Lemma Witness_armor_roundtrip_witness :
  let put w := (le_encode 4 (Z.of_nat (length (m_data w))) ++ m_data w ++ m_signature w)%list in
  let get bs :=
    let n := Z.to_nat (le_decode (take 4 bs)) in
    Ok (mkWitness (slice 4 n bs) (drop (4 + n) bs)) in
  let w := mkWitness [123; 125] (replicate 64 7) in
  Witness_extract get (Witness_armor put w) = Ok w.
Proof.
  intros put get w. apply (Witness_armor_roundtrip put get w).
  - reflexivity.
  - refine (bool_decide_unpack _ _). by vm_compute.
  - cbn; lia.
Defined.
