(* ===== verification/Bitstream.v ===== *)
(** * The interface of the bitstream library

    bitstream is a third-party library: a growable byte buffer with a cursor.
    The class gives the operations the enclave uses and [BitstreamLaws] what it
    relies on.  The contents of fresh memory are unspecified.  A reference
    implementation shows that the laws can be met. *)

From Stdlib Require Import Ascii.
From S2P Require Import Prelude.

(** [bs_mem] is the allocated buffer, of which the first [bs_size] bytes are in
    use; [bs_poke] is a store through [data()]. *)
Class Bitstream (B : Type) : Type := {
  bs_mem : B -> list Z;
  bs_size : B -> nat;
  bs_pos : B -> nat;
  bs_new : B;
  bs_assign : list Z -> B;
  bs_pre_alloc : nat -> B -> B;
  bs_poke : nat -> list Z -> B -> B;
  bs_write_raw : list Z -> B -> B;
  bs_move_to : nat -> B -> B;
  bs_extend_by : nat -> B -> B;
  bs_make_space : nat -> B -> B;
  bs_remove_space : nat -> B -> B;
}.

Definition bs_bytes {B} `{Bitstream B} (b : B) : list Z := take (bs_size b) (bs_mem b).

Class BitstreamLaws (B : Type) `{Bitstream B} : Prop := {
  bs_size_mem : forall b, (bs_size b <= length (bs_mem b))%nat;
  bs_new_empty : bs_size bs_new = O /\ bs_pos bs_new = O;
  bs_assign_spec : forall l,
    bs_bytes (bs_assign l) = l /\ bs_size (bs_assign l) = length l /\ bs_pos (bs_assign l) = O;
  bs_pre_alloc_spec : forall n b,
    (n <= length (bs_mem (bs_pre_alloc n b)))%nat /\
    bs_bytes (bs_pre_alloc n b) = bs_bytes b /\
    bs_size (bs_pre_alloc n b) = bs_size b /\ bs_pos (bs_pre_alloc n b) = bs_pos b;
  bs_poke_spec : forall off l b, (off + length l <= length (bs_mem b))%nat ->
    bs_mem (bs_poke off l b) = splice off l (bs_mem b) /\
    bs_size (bs_poke off l b) = bs_size b /\ bs_pos (bs_poke off l b) = bs_pos b;
  bs_write_raw_spec : forall l b, (bs_pos b <= bs_size b)%nat ->
    bs_bytes (bs_write_raw l b) = splice (bs_pos b) l (bs_bytes b) /\
    bs_size (bs_write_raw l b) = Nat.max (bs_size b) (bs_pos b + length l) /\
    bs_pos (bs_write_raw l b) = (bs_pos b + length l)%nat /\
    (length (bs_mem b) <= length (bs_mem (bs_write_raw l b)))%nat;
  bs_move_to_spec : forall p b, (p <= bs_size b)%nat ->
    bs_mem (bs_move_to p b) = bs_mem b /\ bs_size (bs_move_to p b) = bs_size b /\
    bs_pos (bs_move_to p b) = p;
  bs_extend_by_spec : forall n b, (bs_pos b + n <= length (bs_mem b))%nat ->
    bs_mem (bs_extend_by n b) = bs_mem b /\
    bs_size (bs_extend_by n b) = Nat.max (bs_size b) (bs_pos b + n) /\
    bs_pos (bs_extend_by n b) = (bs_pos b + n)%nat;
  bs_make_space_spec : forall n b, (bs_pos b <= bs_size b)%nat ->
    (exists junk, length junk = n /\
       bs_bytes (bs_make_space n b) =
         take (bs_pos b) (bs_bytes b) ++ junk ++ drop (bs_pos b) (bs_bytes b)) /\
    bs_size (bs_make_space n b) = (bs_size b + n)%nat /\
    bs_pos (bs_make_space n b) = bs_pos b;
  bs_remove_space_spec : forall n b, (bs_pos b + n <= bs_size b)%nat ->
    bs_bytes (bs_remove_space n b) =
      take (bs_pos b) (bs_bytes b) ++ drop (bs_pos b + n) (bs_bytes b) /\
    bs_size (bs_remove_space n b) = (bs_size b - n)%nat /\
    bs_pos (bs_remove_space n b) = bs_pos b;
}.

(** ** A reference implementation: fresh memory holds 205 (0xCD) *)
Record buffer : Type := mkBuffer { buf_mem : list Z; buf_size : nat; buf_pos : nat; }.

Definition buf_norm (b : buffer) : buffer :=
  let m := buf_mem b in
  mkBuffer (m ++ replicate (buf_size b - length m) 205) (buf_size b) (buf_pos b).

Definition buf_bytes (b : buffer) : list Z := take (buf_size (buf_norm b)) (buf_mem (buf_norm b)).

#[global] Instance buffer_bitstream : Bitstream buffer := {|
  bs_mem b := buf_mem (buf_norm b);
  bs_size b := buf_size b;
  bs_pos b := buf_pos b;
  bs_new := mkBuffer [] 0 0;
  bs_assign l := mkBuffer l (length l) 0;
  bs_pre_alloc n b :=
    mkBuffer (buf_mem (buf_norm b) ++ replicate n 205) (buf_size b) (buf_pos b);
  bs_poke off l b := mkBuffer (splice off l (buf_mem (buf_norm b))) (buf_size b) (buf_pos b);
  bs_write_raw l b :=
    mkBuffer (splice (buf_pos b) l (buf_bytes b) ++ drop (buf_size b) (buf_mem (buf_norm b)))
      (Nat.max (buf_size b) (buf_pos b + length l)) (buf_pos b + length l);
  bs_move_to p b := mkBuffer (buf_mem (buf_norm b)) (buf_size b) p;
  bs_extend_by n b :=
    mkBuffer (buf_mem (buf_norm b)) (Nat.max (buf_size b) (buf_pos b + n)) (buf_pos b + n);
  bs_make_space n b :=
    mkBuffer (take (buf_pos b) (buf_bytes b) ++ replicate n 205 ++ drop (buf_pos b) (buf_bytes b))
      (buf_size b + n) (buf_pos b);
  bs_remove_space n b :=
    mkBuffer (take (buf_pos b) (buf_bytes b) ++ drop (buf_pos b + n) (buf_bytes b))
      (buf_size b - n) (buf_pos b);
|}.

Lemma buf_norm_length b : (buf_size b <= length (buf_mem (buf_norm b)))%nat.
Proof. destruct b as [m s p]; cbn. autorewrite with credb_len. lia. Qed.

Lemma buf_norm_id b :
  (buf_size b <= length (buf_mem b))%nat -> buf_mem (buf_norm b) = buf_mem b.
Proof.
  intros. destruct b as [m s p]; cbn in *.
  replace (s - length m)%nat with O by lia. apply app_nil_r.
Qed.

Lemma buf_bytes_length b : length (buf_bytes b) = buf_size b.
Proof.
  unfold buf_bytes. rewrite length_take. pose proof (buf_norm_length b).
  change (buf_size (buf_norm b)) with (buf_size b). lia.
Qed.

Lemma buf_bytes_mk m s p :
  (s <= length m)%nat -> bs_bytes (mkBuffer m s p) = take s m.
Proof. intros. unfold bs_bytes. cbn -[buf_norm buf_bytes bs_bytes]. by rewrite buf_norm_id. Qed.

Lemma splice_length_max {A} off (l m : list A) :
  (off <= length m)%nat -> length (splice off l m) = Nat.max (length m) (off + length l).
Proof. intros. unfold splice. autorewrite with credb_len. lia. Qed.

#[global] Instance buffer_laws : BitstreamLaws buffer.
Proof.
  split.
  - apply buf_norm_length.
  - done.
  - intros l. cbn -[buf_norm buf_bytes bs_bytes]. rewrite buf_bytes_mk by done. by rewrite firstn_all.
  - intros n b. pose proof (buf_norm_length b). cbn -[buf_norm buf_bytes bs_bytes].
    rewrite buf_norm_id by (cbn -[buf_norm buf_bytes bs_bytes]; autorewrite with credb_len; lia).
    split_and!; [cbn -[buf_norm buf_bytes bs_bytes]; autorewrite with credb_len; lia| |done..].
    rewrite buf_bytes_mk by (autorewrite with credb_len; lia). by rewrite take_app_le.
  - intros off l b Hl. pose proof (buf_norm_length b). cbn -[buf_norm buf_bytes bs_bytes] in *.
    rewrite buf_norm_id by (cbn -[buf_norm buf_bytes bs_bytes]; rewrite splice_length; lia). done.
  - intros l b Hp. cbn -[buf_norm buf_bytes bs_bytes] in *. pose proof (buf_bytes_length b) as Hlen.
    assert (length (splice (buf_pos b) l (buf_bytes b)) = Nat.max (buf_size b) (buf_pos b + length l))
      as E by (rewrite splice_length_max; lia).
    split_and!; [|done|done|].
    2: { pose proof (buf_norm_length b).
         rewrite (buf_norm_id (mkBuffer _ _ _)); cbn -[buf_norm buf_bytes]; rewrite length_app, length_drop; lia. }
    rewrite buf_bytes_mk by (rewrite length_app; lia).
    change (bs_bytes b) with (buf_bytes b). rewrite <-E. apply take_app_length.
  - intros p b Hp. cbn -[buf_norm buf_bytes bs_bytes]. pose proof (buf_norm_length b). by rewrite buf_norm_id.
  - intros n b Hn. pose proof (buf_norm_length b). cbn -[buf_norm buf_bytes bs_bytes] in *.
    rewrite buf_norm_id by (cbn -[buf_norm buf_bytes bs_bytes]; lia). done.
  - intros n b Hp. cbn -[buf_norm buf_bytes bs_bytes] in *. pose proof (buf_bytes_length b) as Hlen.
    split_and!; [|done..]. exists (replicate n 205). split; [by rewrite length_replicate|].
    rewrite buf_bytes_mk by (autorewrite with credb_len; lia).
    change (bs_bytes b) with (buf_bytes b). apply take_ge. autorewrite with credb_len. lia.
  - intros n b Hp. cbn -[buf_norm buf_bytes bs_bytes] in *. pose proof (buf_bytes_length b) as Hlen.
    split_and!; [|done..].
    rewrite buf_bytes_mk by (autorewrite with credb_len; lia).
    change (bs_bytes b) with (buf_bytes b). apply take_ge. autorewrite with credb_len. lia.
Qed.

(** ** Consequences of the laws on the bytes in use *)

Section Laws.
Context {B : Type} `{BitstreamLaws B}.

Lemma bs_bytes_length (b : B) : length (bs_bytes b) = bs_size b.
Proof. unfold bs_bytes. rewrite length_take. pose proof (bs_size_mem b). lia. Qed.

Lemma take_splice {A} n off (l m : list A) :
  (off + length l <= n)%nat -> (n <= length m)%nat ->
  take n (splice off l m) = splice off l (take n m).
Proof.
  intros H1 H2. unfold splice. rewrite take_take, Nat.min_l by lia.
  rewrite take_app_ge, take_app_ge by (autorewrite with credb_len; lia).
  repeat f_equal. autorewrite with credb_len. rewrite skipn_firstn_comm.
  f_equal. lia.
Qed.

Lemma bs_poke_bytes off l (b : B) :
  (off + length l <= bs_size b)%nat ->
  bs_bytes (bs_poke off l b) = splice off l (bs_bytes b) /\
  bs_size (bs_poke off l b) = bs_size b /\ bs_pos (bs_poke off l b) = bs_pos b.
Proof.
  intros Hl. pose proof (bs_size_mem b).
  destruct (bs_poke_spec off l b) as (Hm & Hs & Hp); [lia|].
  split_and!; [|done..]. unfold bs_bytes. rewrite Hm, Hs. by apply take_splice.
Qed.

Lemma bs_move_to_bytes p (b : B) :
  (p <= bs_size b)%nat ->
  bs_bytes (bs_move_to p b) = bs_bytes b /\ bs_size (bs_move_to p b) = bs_size b /\
  bs_pos (bs_move_to p b) = p.
Proof.
  intros Hp. destruct (bs_move_to_spec p b Hp) as (Hm & Hs & ?).
  split_and!; [|done..]. unfold bs_bytes. by rewrite Hm, Hs.
Qed.

(** Writing at the end appends. *)
Lemma bs_write_raw_end l (b : B) :
  bs_pos b = bs_size b ->
  bs_bytes (bs_write_raw l b) = bs_bytes b ++ l /\
  bs_size (bs_write_raw l b) = (bs_size b + length l)%nat /\
  bs_pos (bs_write_raw l b) = bs_size (bs_write_raw l b).
Proof.
  intros Hp. destruct (bs_write_raw_spec l b) as (Hb & Hs & Hp' & _); [lia|].
  rewrite Hb, Hs, Hp', Hp. split_and!; [|lia..]. unfold splice.
  rewrite <-bs_bytes_length, firstn_all, drop_ge by lia. by rewrite app_nil_r.
Qed.
End Laws.

(** ** The stream operators

    [<<] and [>>] of bitstream on a type: [enc] is what is written, [dec] reads
    a value off the front of the remaining bytes ([None]: the stream ends too
    early).  The laws hold of the values of [codec_wf], such as strings whose
    length fits the length field. *)
Class Codec (A : Type) : Type := {
  codec_wf : A -> Prop;
  enc : A -> list Z;
  dec : list Z -> option (A * list Z);
}.

Class CodecLaws (A : Type) `{Codec A} : Prop := {
  dec_enc : forall a rest, codec_wf a -> dec (enc a ++ rest) = Some (a, rest);
  enc_nonempty : forall a, codec_wf a -> (0 < length (enc a))%nat;
}.

(** A type whose values all take the same space *)
Class FixedSize (A : Type) `{Codec A} : Prop :=
  enc_fixed : forall a b, codec_wf a -> codec_wf b -> length (enc a) = length (enc b).

(** Fixed-width integers *)
Definition int_dec (w : nat) (bs : list Z) : option (Z * list Z) :=
  if (length bs <? w)%nat then None else Some (le_decode (take w bs), drop w bs).

Lemma int_dec_enc w z rest :
  in_range (8 * Z.of_nat w) z -> int_dec w (le_encode w z ++ rest) = Some (z, rest).
Proof.
  intros Hz. unfold int_dec. rewrite length_app, le_encode_length.
  destruct (Nat.ltb_spec (w + length rest) w); [lia|].
  rewrite <-(le_encode_length w z) at 1 3. rewrite take_app_length, drop_app_length.
  by rewrite le_decode_encode_small.
Qed.

(** Strings behind a 32-bit length *)
Definition ascii_byte (c : ascii) : Z := Z.of_N (N_of_ascii c).
Definition byte_ascii (z : Z) : ascii := ascii_of_N (Z.to_N z).

#[global] Instance string_codec : Codec string := {|
  codec_wf s := in_range 32 (Z.of_nat (String.length s));
  enc s := le_encode 4 (Z.of_nat (String.length s)) ++ (ascii_byte <$> String.list_ascii_of_string s);
  dec bs :=
    '(n, bs) ← int_dec 4 bs;
    if (length bs <? Z.to_nat n)%nat then None
    else Some (String.string_of_list_ascii (byte_ascii <$> take (Z.to_nat n) bs), drop (Z.to_nat n) bs);
|}.

Lemma list_ascii_length s : length (String.list_ascii_of_string s) = String.length s.
Proof. induction s; cbn; auto. Qed.

Lemma string_of_bytes s :
  String.string_of_list_ascii (byte_ascii <$> (ascii_byte <$> String.list_ascii_of_string s)) = s.
Proof.
  induction s as [|c s IH]; cbn; [done|]. f_equal; [|done].
  unfold byte_ascii, ascii_byte. rewrite N2Z.id. apply ascii_N_embedding.
Qed.

#[global] Instance string_codec_laws : CodecLaws string.
Proof.
  split; cbn -[le_encode int_dec take drop Nat.ltb fmap].
  - intros s rest Hs. rewrite <-app_assoc, int_dec_enc by done. cbn -[take drop Nat.ltb fmap].
    set (bs := ascii_byte <$> String.list_ascii_of_string s).
    assert (String.length s = length bs) as -> by (unfold bs; by rewrite length_fmap, list_ascii_length).
    rewrite Nat2Z.id, length_app, take_app_length, drop_app_length.
    destruct (Nat.ltb_spec (length bs + length rest) (length bs)); [lia|].
    unfold bs. by rewrite string_of_bytes.
  - intros. rewrite length_app, le_encode_length. lia.
Qed.
