(* ===== verification/Block.v ===== *)
(** * Blocks

    Models [src/enclave/Block.h] and [src/enclave/Block.inl]: append-only pages
    that hold the events of the ledger.  A block is one buffer: a four byte
    header (the seal, a byte of padding, the number of index slots), the index
    (one 32-bit word per slot, zero where no entry is stored) and the documents.
    An index word is the position of the document less the size of the index,
    so that the index can grow without being rewritten. *)

From S2P Require Import Prelude Bitstream.

Definition MIN_BLOCK_SIZE : nat := Z.to_nat (5 * 1024).

(** [sizeof(header_t)], [sizeof(block_entry_size_t)] *)
Definition HEADER_SIZE : nat := 4.
Definition ENTRY_SIZE : nat := 4.

Definition INITIAL_FILES : Z := 50.
Definition FILE_INCREASE : Z := 50.

(** [blk_dirty] is the page's dirty flag, set by [mark_page_dirty]. *)
Record Block (B : Type) : Type := mkBlock {
  blk_data : B;
  blk_file_pos : Z;
  blk_dirty : bool;
}.
Arguments mkBlock {B}.
Arguments blk_data {B}.
Arguments blk_file_pos {B}.
Arguments blk_dirty {B}.

Section Operations.
Context {B : Type} `{Bitstream B}.

(** ** The header and the index, read through [m_data.data()] *)

Definition header_sealed (d : B) : bool := negb (le_decode (slice 0 1 (bs_bytes d)) =? 0).
Definition header_num_files (d : B) : Z := le_decode (slice 2 2 (bs_bytes d)).

Definition index_at (d : B) (i : Z) : Z :=
  le_decode (slice (HEADER_SIZE + ENTRY_SIZE * Z.to_nat i) ENTRY_SIZE (bs_bytes d)).

Definition index_size (d : B) : Z := header_num_files d * 4.

(** ** Constructors *)

(** [padding] is the indeterminate second byte of [header_t]. *)
Definition Block_new (padding : Z) : Block B :=
  let d := bs_pre_alloc MIN_BLOCK_SIZE bs_new in
  let d := bs_write_raw ([0; padding] ++ le_encode 2 INITIAL_FILES) d in
  let index_bytes := (ENTRY_SIZE * Z.to_nat INITIAL_FILES)%nat in
  let d := bs_poke (bs_pos d) (replicate index_bytes 0) d in
  mkBlock (bs_extend_by index_bytes d) 0 false.

(** The loop of the second constructor, over the [n] slots from [i] on *)
Fixpoint count_files (d : B) (n : nat) (i file_pos : Z) : Z :=
  match n with
  | O => file_pos
  | S n => if index_at d i =? 0 then file_pos
           else count_files d n (i + 1) (u16 (file_pos + 1))
  end.

Definition Block_load (bytes : list Z) : Block B :=
  let d := bs_assign bytes in
  let d := bs_move_to (bs_size d) d in
  mkBlock d (count_files d (Z.to_nat (header_num_files d)) 0 0) false.

(** ** Operations *)

Definition Block_serialize (b : Block B) : list Z := bs_bytes (blk_data b).

Definition Block_is_pending (b : Block B) : bool := negb (header_sealed (blk_data b)).

Definition Block_num_entries (b : Block B) : Z := u16 (blk_file_pos b + 1).

Definition Block_get (b : Block B) (pos : Z) : result (list Z) :=
  let d := blk_data b in
  if pos >=? header_num_files d
  then Throw (Runtime_error "Block::get_event_failed: out of bounds")
  else
    let offset := index_at d pos in
    if offset =? 0 then Throw (Runtime_error "Block::get_event failed: no such entry")
    else
      let next := index_at d (pos + 1) in
      let next := if next =? 0 then u32 (Z.of_nat (bs_pos d)) else u32 (next + index_size d) in
      let offset := u32 (offset + index_size d) in
      let size := u32 (next - offset) in
      Ok (slice (Z.to_nat offset) (Z.to_nat size) (bs_bytes d)).

Definition set_sealed (sealed : bool) (d : B) : B := bs_poke 0 [Z.b2z sealed] d.

Definition Block_seal : ST (Block B) unit := fun b =>
  if header_sealed (blk_data b) then (Throw (Runtime_error "Block is already sealed"), b)
  else (Ok tt, mkBlock (set_sealed true (blk_data b)) (blk_file_pos b) true).

Definition Block_unseal : ST (Block B) unit := fun b =>
  if negb (header_sealed (blk_data b)) then (Throw (Runtime_error "Block is not sealed"), b)
  else (Ok tt, mkBlock (set_sealed false (blk_data b)) (blk_file_pos b) (blk_dirty b)).

(** The branch of [insert] that makes room for more index slots *)
Definition grow_index (d : B) : B :=
  let pos := bs_pos d in
  let idx_size := Z.to_nat (index_size d) in
  let increase := (Z.to_nat FILE_INCREASE * ENTRY_SIZE)%nat in
  let d := bs_poke 2 (le_encode 2 (u16 (header_num_files d + FILE_INCREASE))) d in
  let d := bs_move_to (idx_size + HEADER_SIZE) d in
  let d := bs_make_space increase d in
  let d := bs_poke (bs_pos d) (replicate increase 0) d in
  bs_move_to (pos + increase) d.

Definition Block_insert (event : list Z) : ST (Block B) Z := fun b =>
  let d := blk_data b in
  let idx_size := index_size d in
  let pos := Z.of_nat (bs_pos d) in
  if header_sealed d
  then (Throw (Runtime_error "cannot insert. block is already sealed"), b)
  else
    let grow := Block_num_entries b >=? header_num_files d in
    let increase := if grow then FILE_INCREASE * 4 else 0 in
    let d := if grow then grow_index d else d in
    let offset := u32 ((pos + increase) - (idx_size + increase)) in
    let d := bs_poke (HEADER_SIZE + ENTRY_SIZE * Z.to_nat (blk_file_pos b))
               (le_encode 4 offset) d in
    let file_pos := u16 (blk_file_pos b + 1) in
    let d := bs_write_raw event d in
    (Ok (u16 (file_pos - 1)), mkBlock d file_pos true).

End Operations.

(** ** What a block stores

    [block_layout] is the buffer of a block that holds the given documents, and
    [Block_rep] relates a block to its abstract content. *)

Definition words (ws : list Z) : list Z := mjoin (le_encode 4 <$> ws).

Fixpoint offsets (o : Z) (docs : list (list Z)) : list Z :=
  match docs with
  | [] => []
  | d :: docs => o :: offsets (o + Z.of_nat (length d)) docs
  end.

Definition index_words (nf : nat) (docs : list (list Z)) : list Z :=
  offsets 4 docs ++ replicate (nf - length docs) 0.

Definition layout (sealed padding : Z) (nf : nat) (ws body : list Z) : list Z :=
  [sealed; padding] ++ le_encode 2 (Z.of_nat nf) ++ words ws ++ body.

Definition docs_size (docs : list (list Z)) : nat := length (mjoin docs).

Record Block_rep {B} `{Bitstream B} (b : Block B) (sealed : bool) (padding : Z) (nf : nat)
    (docs : list (list Z)) : Prop := {
  rep_bytes : bs_bytes (blk_data b) =
    layout (Z.b2z sealed) padding nf (index_words nf docs) (mjoin docs);
  rep_pos : bs_pos (blk_data b) = bs_size (blk_data b);
  rep_file_pos : blk_file_pos b = Z.of_nat (length docs);
  rep_slots : (length docs < nf)%nat;
  rep_u16 : Z.of_nat nf < 2 ^ 16;
  rep_u32 : Z.of_nat (4 + 4 * nf + docs_size docs) < 2 ^ 32;
}.

(** ** Lemmas: words and offsets *)

Lemma words_app ws1 ws2 : words (ws1 ++ ws2) = words ws1 ++ words ws2.
Proof. unfold words. by rewrite fmap_app, join_app. Qed.

Lemma words_length ws : length (words ws) = (4 * length ws)%nat.
Proof.
  induction ws as [|w ws IH]; [done|]. change (words (w :: ws)) with (le_encode 4 w ++ words ws).
  rewrite length_app, IH, le_encode_length. cbn. lia.
Qed.

Lemma words_split ws i w :
  ws !! i = Some w -> words ws = words (take i ws) ++ le_encode 4 w ++ words (drop (S i) ws).
Proof.
  intros Hi. rewrite <-(take_drop_middle ws i w Hi) at 1.
  rewrite words_app. done.
Qed.

Lemma words_zeros n : words (replicate n 0) = replicate (4 * n) 0.
Proof.
  induction n as [|n IH]; [done|].
  change (words (replicate (S n) 0)) with (le_encode 4 0 ++ words (replicate n 0)).
  rewrite IH. replace (4 * S n)%nat with (4 + 4 * n)%nat by lia.
  by rewrite replicate_add.
Qed.

Lemma offsets_length o docs : length (offsets o docs) = length docs.
Proof. revert o. induction docs as [|d docs IH]; intros; cbn; auto. Qed.

Lemma offsets_app o docs1 docs2 :
  offsets o (docs1 ++ docs2) =
  offsets o docs1 ++ offsets (o + Z.of_nat (docs_size docs1)) docs2.
Proof.
  revert o. unfold docs_size. induction docs1 as [|d docs IH]; intros o; cbn [offsets app].
  - cbn. by rewrite Z.add_0_r.
  - rewrite IH. change (mjoin (d :: docs)) with (d ++ mjoin docs).
    by rewrite length_app, Nat2Z.inj_add, Z.add_assoc.
Qed.

Lemma offsets_lookup o docs i :
  (i < length docs)%nat -> offsets o docs !! i = Some (o + Z.of_nat (docs_size (take i docs))).
Proof.
  intros Hi. destruct (lookup_lt_is_Some_2 _ _ Hi) as [d Hd].
  rewrite <-(take_drop_middle docs i d Hd) at 1. rewrite offsets_app.
  rewrite lookup_app_r by (rewrite offsets_length, length_take; lia).
  rewrite offsets_length, length_take, Nat.min_l by lia. by rewrite Nat.sub_diag.
Qed.

Lemma docs_size_app docs1 docs2 :
  docs_size (docs1 ++ docs2) = (docs_size docs1 + docs_size docs2)%nat.
Proof. unfold docs_size. by rewrite join_app, length_app. Qed.

Lemma docs_size_take docs i : (docs_size (take i docs) <= docs_size docs)%nat.
Proof. rewrite <-(take_drop i docs) at 2. rewrite docs_size_app. lia. Qed.

Lemma docs_size_take_S docs i d :
  docs !! i = Some d -> docs_size (take (S i) docs) = (docs_size (take i docs) + length d)%nat.
Proof.
  intros Hi. rewrite (take_S_r _ _ _ Hi), docs_size_app.
  unfold docs_size. cbn. by rewrite app_nil_r.
Qed.

Lemma index_words_length nf docs :
  (length docs <= nf)%nat -> length (index_words nf docs) = nf.
Proof. intros. unfold index_words. rewrite length_app, offsets_length, length_replicate. lia. Qed.

Lemma index_words_lookup nf docs i :
  (i < nf)%nat -> (length docs <= nf)%nat ->
  index_words nf docs !! i =
  Some (if decide (i < length docs)%nat then 4 + Z.of_nat (docs_size (take i docs)) else 0).
Proof.
  intros Hi Hd. unfold index_words. case_decide.
  - rewrite lookup_app_l by (by rewrite offsets_length). by apply offsets_lookup.
  - rewrite lookup_app_r by (rewrite offsets_length; lia).
    apply lookup_replicate_2. rewrite offsets_length. lia.
Qed.

(** A slot is taken for the next document. *)
Lemma index_words_insert nf docs d :
  (length docs < nf)%nat ->
  <[length docs := 4 + Z.of_nat (docs_size docs)]> (index_words nf docs) =
  index_words nf (docs ++ [d]).
Proof.
  intros Hd. unfold index_words. rewrite offsets_app, length_app. cbn [offsets length].
  rewrite insert_app_r_alt by (by rewrite offsets_length).
  rewrite offsets_length, Nat.sub_diag, <-app_assoc. f_equal.
  replace (nf - length docs)%nat with (S (nf - (length docs + 1))) by lia. done.
Qed.

Lemma index_words_grow nf docs k :
  (length docs <= nf)%nat ->
  index_words (nf + k) docs = index_words nf docs ++ replicate k 0.
Proof.
  intros. unfold index_words. rewrite <-app_assoc, <-replicate_add. do 2 f_equal. lia.
Qed.

(** ** Lemmas: the buffer *)

Section Layout.
Context (s p : Z) (nf : nat).

Lemma layout_length ws body : length (layout s p nf ws body) = (4 + 4 * length ws + length body)%nat.
Proof. unfold layout. rewrite !length_app, words_length. cbn. lia. Qed.

Lemma layout_seal ws body : slice 0 1 (layout s p nf ws body) = [s].
Proof. done. Qed.

Lemma layout_files ws body :
  slice 2 2 (layout s p nf ws body) = le_encode 2 (Z.of_nat nf).
Proof. done. Qed.

Lemma layout_word ws body i w :
  ws !! i = Some w -> slice (4 + 4 * i) 4 (layout s p nf ws body) = le_encode 4 w.
Proof.
  intros Hi. unfold layout. rewrite (words_split _ _ _ Hi). rewrite !app_assoc, <-app_assoc.
  apply lookup_lt_Some in Hi. rewrite <-(app_assoc _ (le_encode 4 w)).
  apply slice_app_mid'; [|by rewrite le_encode_length].
  rewrite !length_app, words_length, length_take, le_encode_length. cbn. lia.
Qed.

Lemma layout_set_word ws body i v :
  (i < length ws)%nat ->
  splice (4 + 4 * i) (le_encode 4 v) (layout s p nf ws body) =
  layout s p nf (<[i := v]> ws) body.
Proof.
  intros Hi. destruct (lookup_lt_is_Some_2 _ _ Hi) as [w Hw]. unfold layout.
  rewrite (words_split _ _ _ Hw), (words_split (<[i:=v]> ws) i v) by (by apply list_lookup_insert_eq).
  rewrite take_insert_ge, drop_insert_lt by lia.
  rewrite <-!(app_assoc (words (take i ws))), <-!(app_assoc (le_encode 4 _)).
  rewrite !(app_assoc _ (words (take i ws))), !(app_assoc [s; p]).
  apply splice_app_mid'; [|by rewrite !le_encode_length].
  rewrite !length_app, words_length, length_take, le_encode_length. cbn. lia.
Qed.

Lemma layout_doc ws docs i d :
  docs !! i = Some d ->
  slice (4 + 4 * length ws + docs_size (take i docs)) (length d)
    (layout s p nf ws (mjoin docs)) = d.
Proof.
  intros Hi. unfold layout. rewrite <-(take_drop_middle docs i d Hi) at 2.
  rewrite join_app. change (mjoin (d :: ?l)) with (d ++ mjoin l).
  rewrite !app_assoc, <-app_assoc. apply slice_app_mid'; [|done].
  rewrite !length_app, words_length, le_encode_length. unfold docs_size. cbn. lia.
Qed.

End Layout.

Lemma layout_set_seal s s' p nf ws body :
  splice 0 [s'] (layout s p nf ws body) = layout s' p nf ws body.
Proof. done. Qed.

Lemma layout_set_files s p nf nf' ws body :
  splice 2 (le_encode 2 (Z.of_nat nf')) (layout s p nf ws body) = layout s p nf' ws body.
Proof. done. Qed.

(** Opening a gap behind the index and clearing it adds empty slots. *)
Lemma layout_grow s p nf ws body junk k :
  length junk = (4 * k)%nat ->
  let m := layout s p nf ws body in
  let at_ := (4 + 4 * length ws)%nat in
  splice at_ (replicate (4 * k) 0) (take at_ m ++ junk ++ drop at_ m) =
  layout s p nf (ws ++ replicate k 0) body.
Proof.
  intros Hj m at_. unfold m, layout.
  rewrite words_app, words_zeros, <-(app_assoc (words ws)).
  rewrite !(app_assoc _ (words ws)), !(app_assoc [s; p]).
  set (pre := (_ ++ words ws)%list).
  assert (length pre = at_) as Hpre.
  { unfold pre, at_. rewrite !length_app, words_length, le_encode_length. cbn. lia. }
  rewrite <-Hpre, take_app_length, drop_app_length.
  apply splice_app_mid'; [done|]. by rewrite length_replicate.
Qed.

(** ** Lemmas: operations on a represented block *)

Section Rep.
Context {B : Type} `{BitstreamLaws B}.

Lemma header_sealed_layout (d : B) s p nf ws body :
  bs_bytes d = layout (Z.b2z s) p nf ws body -> header_sealed d = s.
Proof. unfold header_sealed. intros ->. by destruct s. Qed.

Lemma header_num_files_layout (d : B) s p nf ws body :
  bs_bytes d = layout s p nf ws body -> Z.of_nat nf < 2 ^ 16 ->
  header_num_files d = Z.of_nat nf.
Proof.
  unfold header_num_files. intros -> ?. rewrite layout_files.
  apply le_decode_encode_small. unfold in_range. cbn. lia.
Qed.

Lemma index_at_layout (d : B) s p nf ws body i w :
  bs_bytes d = layout s p nf ws body ->
  ws !! i = Some w -> in_range 32 w -> index_at d (Z.of_nat i) = w.
Proof.
  unfold index_at. intros -> Hi Hw. rewrite Nat2Z.id.
  rewrite (layout_word _ _ _ _ _ _ _ Hi). by apply le_decode_encode_small.
Qed.

Lemma rep_word_range nf docs i w :
  Z.of_nat (4 + 4 * nf + docs_size docs) < 2 ^ 32 -> (length docs <= nf)%nat ->
  index_words nf docs !! i = Some w -> in_range 32 w.
Proof.
  intros Hb Hd Hi. pose proof (lookup_lt_Some _ _ _ Hi) as Hlt.
  rewrite index_words_length in Hlt by done.
  rewrite index_words_lookup in Hi by done. injection Hi as <-.
  pose proof (docs_size_take docs i). unfold in_range. case_decide; lia.
Qed.

Lemma grow_index_layout (d : B) s p nf ws body :
  bs_bytes d = layout s p nf ws body -> length ws = nf ->
  Z.of_nat nf + 50 < 2 ^ 16 -> bs_pos d = bs_size d ->
  bs_bytes (grow_index d) = layout s p (nf + 50) (ws ++ replicate 50 0) body /\
  bs_pos (grow_index d) = bs_size (grow_index d).
Proof.
  intros Hd Hws Hnf Hpos. pose proof (bs_bytes_length d) as Hsz.
  rewrite Hd, layout_length in Hsz. unfold grow_index, index_size.
  rewrite (header_num_files_layout d s p nf ws body) by (done || lia).
  replace (Z.to_nat (Z.of_nat nf * 4) + HEADER_SIZE)%nat with (4 + 4 * nf)%nat
    by (unfold HEADER_SIZE; lia).
  rewrite wrap_small by (unfold in_range, FILE_INCREASE; lia).
  replace (Z.of_nat nf + FILE_INCREASE) with (Z.of_nat (nf + 50)) by (unfold FILE_INCREASE; lia).
  change (Z.to_nat FILE_INCREASE * ENTRY_SIZE)%nat with (4 * 50)%nat.
  set (d1 := bs_poke 2 _ d).
  destruct (bs_poke_bytes 2 (le_encode 2 (Z.of_nat (nf + 50))) d) as (B1 & S1 & _);
    [cbn; lia|]. fold d1 in B1, S1. rewrite Hd, layout_set_files in B1.
  set (d2 := bs_move_to _ d1).
  destruct (bs_move_to_bytes (4 + 4 * nf) d1) as (B2 & S2 & P2); [lia|]. fold d2 in B2, S2, P2.
  set (d3 := bs_make_space _ d2).
  destruct (bs_make_space_spec (4 * 50) d2) as ((junk & Hj & B3) & S3 & P3); [lia|].
  fold d3 in B3, S3, P3. rewrite P2, B2, B1, <-Hws in B3. 
  set (d4 := bs_poke _ _ d3).
  destruct (bs_poke_bytes (bs_pos d3) (replicate (4 * 50) 0) d3) as (B4 & S4 & _);
    [rewrite length_replicate; lia|]. fold d4 in B4, S4.
  rewrite B3, P3, P2, <-Hws in B4. rewrite (layout_grow _ _ _ _ _ _ 50 Hj) in B4.
  destruct (bs_move_to_bytes (bs_pos d + 4 * 50) d4) as (B5 & S5 & P5); [lia|].
  rewrite B5, P5, S5, B4, Hws. split; [done|lia].
Qed.

(** The index slots after an insertion *)
Definition slots_after (nf n : nat) : nat := if (n + 1 <? nf)%nat then nf else (nf + 50)%nat.

(** The buffer after the growth branch of [insert], taken or not *)
Lemma grow_if_full (d : B) s p nf docs :
  let n := length docs in
  let d1 := if Z.of_nat n + 1 >=? Z.of_nat nf then grow_index d else d in
  bs_bytes d = layout s p nf (index_words nf docs) (mjoin docs) ->
  bs_pos d = bs_size d -> (n < nf)%nat -> Z.of_nat (slots_after nf n) < 2 ^ 16 ->
  bs_bytes d1 =
    layout s p (slots_after nf n) (index_words (slots_after nf n) docs) (mjoin docs) /\
  bs_pos d1 = bs_size d1.
Proof.
  intros n d1 Hb Hpos Hsl Hn16. pose proof (index_words_length nf docs ltac:(lia)) as Hiw.
  unfold d1, slots_after in *. rewrite Z.geb_leb.
  destruct (Z.leb_spec (Z.of_nat nf) (Z.of_nat n + 1)), (Nat.ltb_spec (n + 1) nf); try lia; [|done].
  rewrite index_words_grow by lia. by apply grow_index_layout; [..|lia|].
Qed.

Lemma Block_insert_ok (b : Block B) p nf docs event :
  Block_rep b false p nf docs ->
  Z.of_nat (slots_after nf (length docs)) < 2 ^ 16 ->
  Z.of_nat (4 + 4 * slots_after nf (length docs) + docs_size docs + length event) < 2 ^ 32 ->
  exists b', Block_insert event b = (Ok (Z.of_nat (length docs)), b') /\
    Block_rep b' false p (slots_after nf (length docs)) (docs ++ [event]) /\ blk_dirty b' = true.
Proof.
  intros [Hb Hpos Hfp Hsl H16 H32] Hn16 Hn32. set (n := length docs) in *.
  set (d := blk_data b) in *. set (nf' := slots_after nf n) in *.
  pose proof (index_words_length nf docs ltac:(lia)) as Hiw.
  pose proof (bs_bytes_length d) as Hsz. rewrite Hb, layout_length, Hiw in Hsz.
  unfold Block_insert, index_size, Block_num_entries.
  fold d. rewrite (header_sealed_layout d false _ _ _ _ Hb).
  rewrite (header_num_files_layout d _ _ _ _ _ Hb H16), Hfp, Nat2Z.id.
  rewrite !(wrap_small 16 (Z.of_nat n + 1)) by (unfold in_range; lia).
  set (g := Z.of_nat n + 1 >=? Z.of_nat nf).
  set (d1 := if g then grow_index d else d).
  destruct (grow_if_full d 0 p nf docs Hb Hpos Hsl) as [B1 P1]; [done|].
  change (bs_bytes d1 = layout 0 p nf' (index_words nf' docs) (mjoin docs)) in B1.
  change (bs_pos d1 = bs_size d1) in P1.
  assert (n < nf')%nat as Hn by (unfold nf', slots_after; case_match; lia).
  pose proof (index_words_length nf' docs ltac:(lia)) as Hiw'.
  pose proof (bs_bytes_length d1) as Hsz1. rewrite B1, layout_length, Hiw' in Hsz1.
  replace (u32 _) with (4 + Z.of_nat (docs_size docs)).
  2: { rewrite <-(wrap_small 32 (4 + _)) by (unfold in_range; lia).
       f_equal. rewrite Hpos. unfold docs_size. lia. }
  change (HEADER_SIZE + ENTRY_SIZE * n)%nat with (4 + 4 * n)%nat.
  set (d2 := bs_poke _ _ d1).
  destruct (bs_poke_bytes (4 + 4 * n) (le_encode 4 (4 + Z.of_nat (docs_size docs))) d1)
    as (B2 & S2 & P2); [rewrite le_encode_length; lia|]. fold d2 in B2, S2, P2.
  rewrite B1, layout_set_word in B2 by lia. unfold n in B2.
  rewrite (index_words_insert _ _ event Hn) in B2.
  destruct (bs_write_raw_end event d2) as (B3 & S3 & P3); [congruence|].
  rewrite Z.add_simpl_r, wrap_small by (unfold in_range; lia).
  eexists. split; [done|]. split; [|done]. split; cbn [blk_data blk_file_pos]; try done.
  - rewrite B3, B2. unfold layout. rewrite join_app, !app_assoc. cbn. by rewrite app_nil_r.
  - rewrite length_app. cbn. lia.
  - rewrite length_app. cbn. fold n. unfold nf', slots_after. case_match eqn:E; [|lia].
    apply Nat.ltb_lt in E. lia.
  - rewrite docs_size_app. unfold docs_size at 2. cbn. rewrite app_nil_r. lia.
Qed.

Lemma Block_insert_sealed (b : Block B) p nf docs event :
  Block_rep b true p nf docs ->
  Block_insert event b =
  (Throw (Runtime_error "cannot insert. block is already sealed"), b).
Proof. intros [Hb]. unfold Block_insert. by rewrite (header_sealed_layout _ true _ _ _ _ Hb). Qed.

(** [Block::get] returns the document at a position that is taken. *)
Lemma Block_get_ok (b : Block B) s p nf docs i d :
  Block_rep b s p nf docs -> docs !! i = Some d -> Block_get b (Z.of_nat i) = Ok d.
Proof.
  intros [Hb Hpos Hfp Hsl H16 H32] Hi. pose proof (lookup_lt_Some _ _ _ Hi) as Hlt.
  pose proof (index_words_length nf docs ltac:(lia)) as Hiw.
  pose proof (bs_bytes_length (blk_data b)) as Hsz. rewrite Hb, layout_length, Hiw in Hsz.
  pose proof (index_words_lookup nf docs i ltac:(lia) ltac:(lia)) as Ei.
  pose proof (index_words_lookup nf docs (S i) ltac:(lia) ltac:(lia)) as Ei1.
  pose proof (rep_word_range _ _ _ _ H32 ltac:(lia) Ei) as Ri.
  pose proof (rep_word_range _ _ _ _ H32 ltac:(lia) Ei1) as Ri1.
  unfold Block_get, index_size. rewrite (header_num_files_layout _ _ _ _ _ _ Hb H16).
  replace (Z.of_nat i + 1) with (Z.of_nat (S i)) by lia.
  rewrite (index_at_layout _ _ _ _ _ _ _ _ Hb Ei Ri), (index_at_layout _ _ _ _ _ _ _ _ Hb Ei1 Ri1).
  rewrite decide_True in * by done. rewrite Z.geb_leb.
  destruct (Z.leb_spec (Z.of_nat nf) (Z.of_nat i)); [lia|].
  set (off := 4 + Z.of_nat (docs_size (take i docs))) in *.
  destruct (Z.eqb_spec off 0); [lia|]. set (next := if Z.eqb _ 0 then _ else _).
  assert (next = Z.of_nat (4 + 4 * nf + docs_size (take i docs) + length d)) as ->.
  { unfold next. pose proof (docs_size_take_S docs i d Hi) as HS.
    pose proof (docs_size_take docs (S i)). rewrite Hpos, <-Hsz. fold (docs_size docs) in *.
    case_decide.
    - destruct (Z.eqb_spec (4 + Z.of_nat (docs_size (take (S i) docs))) 0); [lia|].
      rewrite wrap_small by (unfold in_range; lia). lia.
    - rewrite take_ge in HS by lia. cbn [Z.eqb].
      rewrite wrap_small by (unfold in_range; lia). lia. }
  pose proof (docs_size_take docs i). pose proof (docs_size_take_S docs i d Hi).
  pose proof (docs_size_take docs (S i)).
  rewrite (wrap_small 32 (off + _)), wrap_small by (unfold off, in_range; lia).
  rewrite Hb. unfold off. f_equal.
  rewrite <-(layout_doc (Z.b2z s) p nf (index_words nf docs) docs i d Hi) at 2.
  rewrite Hiw. f_equal; lia.
Qed.
(** What [Block::get] throws at a position that is not taken *)
Lemma Block_get_none (b : Block B) s p nf docs i :
  Block_rep b s p nf docs -> (length docs <= i)%nat ->
  Block_get b (Z.of_nat i) = Throw (Runtime_error
    (if (i <? nf)%nat then "Block::get_event failed: no such entry"
     else "Block::get_event_failed: out of bounds")).
Proof.
  intros [Hb Hpos Hfp Hsl H16 H32] Hi. unfold Block_get.
  rewrite (header_num_files_layout _ _ _ _ _ _ Hb H16), Z.geb_leb.
  destruct (Z.leb_spec (Z.of_nat nf) (Z.of_nat i)), (Nat.ltb_spec i nf); try lia; [done|].
  pose proof (index_words_lookup nf docs i ltac:(lia) ltac:(lia)) as Ei.
  rewrite decide_False in Ei by lia.
  rewrite (index_at_layout _ _ _ _ _ _ _ _ Hb Ei) by (unfold in_range; lia). done.
Qed.

Lemma Block_new_rep padding : Block_rep (Block_new (B := B) padding) false padding 50 [].
Proof.
  unfold Block_new. set (d0 := bs_pre_alloc _ _).
  destruct (bs_pre_alloc_spec MIN_BLOCK_SIZE (bs_new (B := B))) as (M0 & B0 & S0 & P0).
  fold d0 in M0, B0, S0, P0. destruct (bs_new_empty (B := B)) as [S P].
  rewrite S in S0. rewrite P in P0.
  set (h := ([0; padding] ++ le_encode 2 INITIAL_FILES)%list).
  destruct (bs_write_raw_spec h d0) as (_ & _ & _ & M1); [lia|].
  destruct (bs_write_raw_end h d0) as (B1 & S1 & P1); [lia|].
  set (d1 := bs_write_raw h d0) in *. rewrite S0 in S1. cbn in S1.
  assert (bs_bytes d0 = []) as E0 by (apply nil_length_inv; rewrite bs_bytes_length; lia).
  rewrite E0 in B1. cbn [app] in B1.
  change (ENTRY_SIZE * Z.to_nat INITIAL_FILES)%nat with 200%nat.
  assert (204 <= length (bs_mem d1))%nat as M204 by (unfold MIN_BLOCK_SIZE in *; lia).
  destruct (bs_poke_spec (bs_pos d1) (replicate 200 0) d1) as (M2 & S2 & P2);
    [rewrite length_replicate; lia|].
  set (d2 := bs_poke _ _ d1) in *.
  destruct (bs_extend_by_spec 200 d2) as (M3 & S3 & P3).
  { rewrite P2, P1, M2, splice_length by (rewrite length_replicate; lia). lia. }
  rewrite P2, S2, P1, S1 in *. split; cbn [blk_data blk_file_pos]; [|lia|done|cbn; lia..].
  unfold bs_bytes. rewrite M3, S3, M2. unfold splice.
  change (Nat.max 4 (4 + 200)) with (4 + 200)%nat.
  replace (take 4 (bs_mem d1)) with h by (unfold bs_bytes in B1; by rewrite <-B1, S1).
  rewrite app_assoc, take_app_le by done. done.
Qed.

Lemma count_files_rep (d : B) s p nf docs n i :
  bs_bytes d = layout s p nf (index_words nf docs) (mjoin docs) ->
  Z.of_nat (4 + 4 * nf + docs_size docs) < 2 ^ 32 -> Z.of_nat nf < 2 ^ 16 ->
  (length docs < nf)%nat -> (i + n = nf)%nat -> (i <= length docs)%nat ->
  count_files d n (Z.of_nat i) (Z.of_nat i) = Z.of_nat (length docs).
Proof.
  intros Hb H32 H16 Hsl. revert i. induction n as [|n IH]; intros i Hin Hi; [lia|].
  cbn [count_files]. pose proof (index_words_lookup nf docs i ltac:(lia) ltac:(lia)) as Ei.
  rewrite (index_at_layout _ _ _ _ _ _ _ _ Hb Ei) 
    by (eapply rep_word_range; [exact H32|lia|exact Ei]).
  case_decide.
  - destruct (Z.eqb_spec (4 + Z.of_nat (docs_size (take i docs))) 0); [lia|].
    rewrite wrap_small by (unfold in_range; lia).
    replace (Z.of_nat i + 1) with (Z.of_nat (S i)) by lia. apply IH; lia.
  - cbn [Z.eqb]. lia.
Qed.

Lemma Block_load_rep (b : Block B) s p nf docs :
  Block_rep b s p nf docs -> Block_rep (Block_load (B := B) (Block_serialize b)) s p nf docs.
Proof.
  intros [Hb Hpos Hfp Hsl H16 H32]. unfold Block_load, Block_serialize.
  destruct (bs_assign_spec (B := B) (bs_bytes (blk_data b))) as (B0 & S0 & _).
  set (d0 := bs_assign _) in *. destruct (bs_move_to_bytes (bs_size d0) d0) as (B1 & S1 & P1); [lia|].
  set (d1 := bs_move_to _ d0) in *. rewrite B0, Hb in B1.
  split; cbn [blk_data blk_file_pos]; [done|congruence| |done..].
  rewrite (header_num_files_layout _ _ _ _ _ _ B1 H16), Nat2Z.id.
  by apply (count_files_rep d1 (Z.b2z s) p nf docs nf 0); [..|lia].
Qed.

Lemma set_sealed_rep (b : Block B) s s' p nf docs dirty :
  Block_rep b s p nf docs ->
  Block_rep (mkBlock (set_sealed s' (blk_data b)) (blk_file_pos b) dirty) s' p nf docs.
Proof.
  intros [Hb Hpos Hfp Hsl H16 H32]. pose proof (bs_bytes_length (blk_data b)) as Hsz.
  rewrite Hb, layout_length in Hsz.
  destruct (bs_poke_bytes 0 [Z.b2z s'] (blk_data b)) as (B1 & S1 & P1); [cbn; lia|].
  unfold set_sealed. split; cbn [blk_data blk_file_pos]; [|congruence|done..].
  by rewrite B1, Hb, layout_set_seal.
Qed.

Lemma Block_seal_ok (b : Block B) p nf docs :
  Block_rep b false p nf docs ->
  exists b', Block_seal b = (Ok tt, b') /\ Block_rep b' true p nf docs.
Proof.
  intros Hr. unfold Block_seal. destruct Hr as [Hb] eqn:E.
  rewrite (header_sealed_layout _ false _ _ _ _ Hb). eexists. split; [done|].
  by eapply set_sealed_rep.
Qed.

End Rep.

(** ** Theorems *)

(** Inserting a sequence of events, as the ledger does *)
Fixpoint Block_insert_all {B} `{Bitstream B} (events : list (list Z)) : ST (Block B) (list Z) :=
  match events with
  | [] => mret []
  | e :: events => i ← Block_insert e; l ← Block_insert_all events; mret (i :: l)
  end.

Lemma Block_insert_all_ok {B} `{BitstreamLaws B} (b : Block B) p nf docs events :
  Block_rep b false p nf docs -> (nf <= length docs + 51)%nat ->
  Z.of_nat (length docs + length events) <= 65484 ->
  4 + 4 * 65535 + Z.of_nat (docs_size docs + docs_size events) < 2 ^ 32 ->
  exists b' nf',
    Block_insert_all events b =
      (Ok (Z.of_nat <$> seq (length docs) (length events)), b') /\
    Block_rep b' false p nf' (docs ++ events).
Proof.
  revert b nf docs. induction events as [|e events IH]; intros b nf docs Hr Hnf Hlen Hsz.
  { exists b, nf. by rewrite app_nil_r. }
  assert (docs_size (e :: events) = length e + docs_size events)%nat as Es
    by (unfold docs_size; cbn; by rewrite length_app).
  cbn [length] in Hlen. pose proof (rep_slots _ _ _ _ _ Hr).
  assert (slots_after nf (length docs) <= length docs + 52)%nat as Hsl
    by (unfold slots_after; destruct (Nat.ltb_spec (length docs + 1) nf); lia).
  destruct (Block_insert_ok b p nf docs e Hr) as (b1 & E1 & R1 & _); [lia..|].
  assert (length (docs ++ [e]) = length docs + 1)%nat as El by (by rewrite length_app).
  assert (docs_size (docs ++ [e]) = docs_size docs + length e)%nat as Ed.
  { rewrite docs_size_app. unfold docs_size at 2. cbn. by rewrite app_nil_r. }
  destruct (IH b1 _ _ R1) as (b2 & nf2 & E2 & R2); [lia..|].
  exists b2, nf2. rewrite <-app_assoc in R2. split; [|done].
  cbn [Block_insert_all]. rewrite (ST_bind_run _ _ _ _ _ E1), (ST_bind_run _ _ _ _ _ E2), El.
  unfold mret, ST_ret. cbn. by rewrite Nat.add_1_r.
Qed.

(** C31.  A block is an append-only log: inserting any sequence of events into a
    fresh block gives them the positions 0, 1, 2, ..., and [get] then returns
    each of them unchanged and nothing else, both from the block itself and
    from the block reloaded from its serialized form, whose next insertion
    continues at the same position. *)
Theorem Block_log_roundtrip {B} `{BitstreamLaws B} (padding : Z) (events : list (list Z)) :
  Z.of_nat (length events) <= 65484 ->
  Z.of_nat (docs_size events) < 2 ^ 32 - 262144 ->
  exists b, Block_insert_all events (Block_new (B := B) padding) =
      (Ok (Z.of_nat <$> seq 0 (length events)), b) /\
    let b' := Block_load (B := B) (Block_serialize b) in
    blk_file_pos b' = blk_file_pos b /\
    forall i, match events !! i with
      | Some e => Block_get b (Z.of_nat i) = Ok e /\ Block_get b' (Z.of_nat i) = Ok e
      | None => ~ is_ok (Block_get b (Z.of_nat i)) /\ ~ is_ok (Block_get b' (Z.of_nat i))
      end.
Proof.
  intros Hlen Hsz.
  destruct (Block_insert_all_ok (Block_new (B := B) padding) padding 50 [] events)
    as (b & nf & E & R); [apply Block_new_rep|cbn; lia..|].
  exists b. split; [done|]. pose proof (Block_load_rep _ _ _ _ _ R) as R'.
  split; [by rewrite (rep_file_pos _ _ _ _ _ R), (rep_file_pos _ _ _ _ _ R')|].
  intros i. cbn [app] in *. destruct (events !! i) as [e|] eqn:Ei.
  - split; by eapply Block_get_ok.
  - apply lookup_ge_None in Ei.
    rewrite !(Block_get_none _ _ _ _ _ _ R Ei), !(Block_get_none _ _ _ _ _ _ R' Ei).
    split; by intros [? ?].
Qed.

Lemma Block_log_roundtrip_witness :
  let events := replicate 60 [7; 8; 9] in
  exists b, Block_insert_all events (Block_new (B := buffer) 0) =
      (Ok (Z.of_nat <$> seq 0 60), b) /\
    Block_get (Block_load (B := buffer) (Block_serialize b)) 59 = Ok [7; 8; 9].
Proof.
  intros events.
  destruct (Block_log_roundtrip (B := buffer) 0 events) as (b & E & _ & Hg);
    [vm_compute; discriminate|vm_compute; reflexivity|].
  exists b. split; [exact E|]. exact (proj2 (Hg 59%nat)).
Defined.

(** Insertion never changes what is stored: whether or not the index has
    to grow, an insertion into a block that is not sealed returns the next
    position, the event can be read there, every position read before reads
    the same, and the page is marked dirty. *)
Theorem Block_insert_append_only {B} `{BitstreamLaws B} (b : Block B) p nf docs event :
  Block_rep b false p nf docs ->
  Z.of_nat (slots_after nf (length docs)) < 2 ^ 16 ->
  Z.of_nat (4 + 4 * slots_after nf (length docs) + docs_size docs + length event) < 2 ^ 32 ->
  exists b', Block_insert event b = (Ok (blk_file_pos b), b') /\
    Block_get b' (blk_file_pos b) = Ok event /\
    (forall i d, Block_get b (Z.of_nat i) = Ok d -> Block_get b' (Z.of_nat i) = Ok d) /\
    blk_dirty b' = true.
Proof.
  intros R H1 H2. destruct (Block_insert_ok b p nf docs event R H1 H2) as (b' & E & R' & Hd).
  exists b'. rewrite (rep_file_pos _ _ _ _ _ R). split_and!; [done| | |done].
  - eapply Block_get_ok; [done|]. by rewrite lookup_app_r, Nat.sub_diag by lia.
  - intros i d Hg. destruct (docs !! i) as [d'|] eqn:Ei.
    + rewrite (Block_get_ok _ _ _ _ _ _ _ R Ei) in Hg. injection Hg as <-.
      eapply Block_get_ok; [done|]. by apply lookup_app_l_Some.
    + apply lookup_ge_None in Ei. by rewrite (Block_get_none _ _ _ _ _ _ R Ei) in Hg.
Qed.

Lemma Block_insert_append_only_witness :
  exists b', Block_insert [1; 2] (Block_new (B := buffer) 0) = (Ok 0, b') /\
    Block_get b' 0 = Ok [1; 2].
Proof.
  destruct (Block_insert_append_only (Block_new (B := buffer) 0) 0 50 [] [1; 2])
    as (b' & E & Hg & _).
  - apply Block_new_rep.
  - vm_compute; reflexivity.
  - vm_compute; reflexivity.
  - exists b'. split; [exact E|exact Hg].
Defined.

(** A sealed block stays as it is: sealing keeps every entry, and from then
    on, also after the block was written out and reloaded, [insert] and a second
    [seal] throw and leave the block unchanged. *)
Theorem Block_seal_immutable {B} `{BitstreamLaws B} (b : Block B) p nf docs :
  Block_rep b false p nf docs ->
  exists b', Block_seal b = (Ok tt, b') /\ Block_is_pending b' = false /\
    (forall i, Block_get b' (Z.of_nat i) = Block_get b (Z.of_nat i)) /\
    forall b2, b2 = b' \/ b2 = Block_load (B := B) (Block_serialize b') ->
      (forall e, Block_insert e b2 =
        (Throw (Runtime_error "cannot insert. block is already sealed"), b2)) /\
      Block_seal b2 = (Throw (Runtime_error "Block is already sealed"), b2).
Proof.
  intros R. destruct (Block_seal_ok b p nf docs R) as (b' & E & R').
  assert (forall b2, b2 = b' \/ b2 = Block_load (B := B) (Block_serialize b') ->
    Block_rep b2 true p nf docs) as Hb2 by (intros ? [-> | ->]; [done|by apply Block_load_rep]).
  exists b'. split; [done|].
  split. { destruct R' as [Hb]. unfold Block_is_pending.
    by rewrite (header_sealed_layout _ true _ _ _ _ Hb). }
  split.
  - intros i. destruct (docs !! i) as [d|] eqn:Ei.
    + by rewrite (Block_get_ok _ _ _ _ _ _ _ R Ei), (Block_get_ok _ _ _ _ _ _ _ R' Ei).
    + apply lookup_ge_None in Ei.
      by rewrite (Block_get_none _ _ _ _ _ _ R Ei), (Block_get_none _ _ _ _ _ _ R' Ei).
  - intros b2 R2%Hb2. split; [intros e; by eapply Block_insert_sealed|].
    destruct R2 as [Hb]. unfold Block_seal. by rewrite (header_sealed_layout _ true _ _ _ _ Hb).
Qed.

Lemma Block_seal_immutable_witness :
  exists b', Block_seal (Block_new (B := buffer) 0) = (Ok tt, b') /\ Block_is_pending b' = false.
Proof.
  destruct (Block_seal_immutable (Block_new (B := buffer) 0) 0 50 []) as (b' & E & Hp & _);
    [apply Block_new_rep|].
  exists b'. split; [exact E|exact Hp].
Defined.
