(* ===== verification/PageStore.v ===== *)
(** * What the pages of the enclave are kept in

    The interface that [src/enclave/BufferManager.h] offers to the data
    structures whose nodes are pages: creating a page, reading it, changing it
    in place (through a [PageHandle], followed by [mark_page_dirty]) and
    flushing it.  [PageStoreLaws] states what its clients rely on; the buffer
    manager itself discharges it. *)

From S2P Require Import Prelude.

Definition INVALID_PAGE_NO : Z := u32 (-1).

Lemma INVALID_PAGE_NO_val : INVALID_PAGE_NO = 4294967295.
Proof. done. Qed.

(** [ps_pages] is the content of every page of the store, wherever it is kept;
    [ps_avail] is the number of page numbers that are left. *)
Class PageStore (S N : Type) : Type := {
  ps_pages : S -> gmap Z N;
  ps_avail : S -> Z;
  ps_wf : S -> Prop;
  ps_new : N -> ST S Z;
  ps_get : Z -> ST S N;
  ps_put : Z -> N -> ST S unit;
  ps_flush : Z -> ST S unit;
}.

Class PageStoreLaws (S N : Type) `{PageStore S N} : Prop := {
  ps_new_spec : forall n s, ps_wf s -> 0 < ps_avail s ->
    wp (ps_new n) (fun p s' => ps_wf s' /\ ps_pages s !! p = None /\ p <> INVALID_PAGE_NO /\
      ps_pages s' = <[p := n]> (ps_pages s) /\ ps_avail s' = ps_avail s - 1) s;
  (** Page numbers are given out in increasing order. *)
  ps_new_order : forall n s, ps_wf s -> 0 < ps_avail s ->
    wp (ps_new n) (fun p s' => 0 < p < INVALID_PAGE_NO /\
      forall q, is_Some (ps_pages s !! q) -> q < p) s;
  ps_get_spec : forall p n s, ps_wf s -> ps_pages s !! p = Some n ->
    wp (ps_get p) (fun n' s' => n' = n /\ ps_wf s' /\
      ps_pages s' = ps_pages s /\ ps_avail s' = ps_avail s) s;
  ps_put_spec : forall p n s, ps_wf s -> is_Some (ps_pages s !! p) ->
    wp (ps_put p n) (fun _ s' => ps_wf s' /\
      ps_pages s' = <[p := n]> (ps_pages s) /\ ps_avail s' = ps_avail s) s;
  ps_flush_spec : forall p s, ps_wf s -> is_Some (ps_pages s !! p) ->
    wp (ps_flush p) (fun _ s' => ps_wf s' /\
      ps_pages s' = ps_pages s /\ ps_avail s' = ps_avail s) s;
}.

(** ** A store without a cache: the pages themselves *)
Record page_map (N : Type) : Type := mkPageMap {
  pm_pages : gmap Z N;
  pm_next : Z;
}.
Arguments mkPageMap {N}.
Arguments pm_pages {N}.
Arguments pm_next {N}.

Definition page_map_empty {N} : page_map N := mkPageMap ∅ 1.

#[global] Instance page_map_store {N} : PageStore (page_map N) N := {|
  ps_pages := pm_pages;
  ps_avail s := INVALID_PAGE_NO - pm_next s;
  ps_wf s := 0 < pm_next s /\ forall p, is_Some (pm_pages s !! p) -> p < pm_next s;
  ps_new n s := (Ok (pm_next s), mkPageMap (<[pm_next s := n]> (pm_pages s)) (pm_next s + 1));
  ps_get p s := (match pm_pages s !! p with
                 | Some n => Ok n
                 | None => Throw (Fatal "Failed to read_from_disk")
                 end, s);
  ps_put p n s := match pm_pages s !! p with
                  | Some _ => (Ok tt, mkPageMap (<[p := n]> (pm_pages s)) (pm_next s))
                  | None => (Throw (Fatal "Failed to read_from_disk"), s)
                  end;
  ps_flush p s := (match pm_pages s !! p with
                   | Some _ => Ok tt
                   | None => Throw (Fatal "Failed to read_from_disk")
                   end, s);
|}.

#[global] Instance page_map_laws {N} : PageStoreLaws (page_map N) N.
Proof.
  split; unfold wp; cbn.
  - intros n s [Hn Hdom] Hav. split_and!; [lia| | |lia|done|lia].
    + intros p. destruct (decide (p = pm_next s)) as [->|]; [lia|].
      rewrite lookup_insert_ne by done. intros ?%Hdom. lia.
    + apply eq_None_not_Some. intros ?%Hdom. lia.
  - intros n s [Hn Hdom] Hav. split; [lia|done].
  - intros p n s Hwf ->. done.
  - intros p n s [Hn Hdom] [n0 Hp]. rewrite Hp. cbn. split_and!; [done| |done..].
    intros q. destruct (decide (q = p)) as [->|]; [intros _; apply Hdom; eauto|].
    rewrite lookup_insert_ne by done. apply Hdom.
  - intros p s Hwf [n ->]. done.
Qed.
