(* ===== verification/Hash.v ===== *)
(** * Hashing

    Models [src/common/util/MurmurHash2.cpp] and [src/common/util/hash.h].
    Loads of 64-bit words are little endian, as on the target. *)

From Stdlib Require Import Ascii.
From S2P Require Import Prelude Bitstream.

Definition murmur_m : Z := 0xc6a4a7935bd1e995.
Definition murmur_r : Z := 47.

(** [h ^= k * m ...]: one turn of the loop over the 64-bit words *)
Definition murmur_mix (h k : Z) : Z :=
  let k := u64 (k * murmur_m) in
  let k := Z.lxor k (Z.shiftr k murmur_r) in
  let k := u64 (k * murmur_m) in
  u64 (Z.lxor h k * murmur_m).

(** The loop: [n] words from the start of [data]; returns what is left *)
Fixpoint murmur_words (n : nat) (data : list Z) (h : Z) : Z * list Z :=
  match n with
  | O => (h, data)
  | S n => murmur_words n (drop 8 data) (murmur_mix h (le_decode (take 8 data)))
  end.

(** The [switch]: the remaining bytes from the last one to the first, each at
    its position, and a multiplication if there is any *)
Definition murmur_tail (data2 : list Z) (h : Z) : Z :=
  match data2 with
  | [] => h
  | _ => u64 (foldr (fun '(i, b) h => Z.lxor h (u64 (Z.shiftl b (8 * i)))) h
                (zip (seqZ 0 7) data2) * murmur_m)
  end.

Definition MurmurHash64A (key : list Z) (seed : Z) : Z :=
  let len := Z.of_nat (length key) in
  let h := Z.lxor seed (u64 (len * murmur_m)) in
  let '(h, data2) := murmur_words (Z.to_nat (len / 8)) key h in
  let h := murmur_tail data2 h in
  let h := Z.lxor h (Z.shiftr h murmur_r) in
  let h := u64 (h * murmur_m) in
  Z.lxor h (Z.shiftr h murmur_r).

Definition hash_buffer (array : list Z) : Z := MurmurHash64A array 0x4126f4492047c28f.

(** [hash<std::string>] and [hash<int64_t>] *)
Definition hash_string (str : string) : Z :=
  hash_buffer (ascii_byte <$> String.list_ascii_of_string str).
Definition hash_int64 (t : Z) : Z := hash_buffer (le_encode 8 t).

(** The hash stays in 64 bits. *)
Lemma lxor_range w a b : 0 <= w -> in_range w a -> in_range w b -> in_range w (Z.lxor a b).
Proof.
  intros Hw [Ha Ha'] [Hb Hb']. split; [by apply Z.lxor_nonneg|].
  assert (0 <= Z.lxor a b) as Hn by (by apply Z.lxor_nonneg).
  destruct (decide (Z.lxor a b = 0)) as [->|Hz]; [by apply Z.pow_pos_nonneg|].
  apply Z.log2_lt_pow2; [lia|]. eapply Z.le_lt_trans; [by apply Z.log2_lxor|].
  assert (forall x, 0 <= x < 2 ^ w -> x = 0 \/ Z.log2 x < w) as Hl.
  { intros x [Hx Hx']. destruct (decide (x = 0)); [by left|right]. apply Z.log2_lt_pow2; lia. }
  assert (0 < w) as Hw0.
  { destruct (decide (w = 0)) as [->|]; [|lia]. cbn in *.
    assert (a = 0) as -> by lia. assert (b = 0) as -> by lia. done. }
  destruct (Hl a), (Hl b); subst; cbn; try lia.
Qed.

Lemma MurmurHash64A_range key seed : in_range 64 (MurmurHash64A key seed).
Proof.
  unfold MurmurHash64A. destruct (murmur_words _ _ _) as [h data2].
  set (h' := u64 _). assert (in_range 64 h') as Hh by (by apply wrap_range).
  apply lxor_range; [lia|done|]. destruct Hh as [H1 H2]. split.
  - by apply Z.shiftr_nonneg.
  - rewrite Z.shiftr_div_pow2 by (unfold murmur_r; lia).
    eapply Z.le_lt_trans; [|exact H2]. apply Z.div_le_upper_bound; [by apply Z.pow_pos_nonneg|].
    unfold murmur_r. nia.
Qed.
