(* ===== verification/HashMapNode.v ===== *)
(** * Nodes of the hash maps

    Models [src/enclave/HashMapNode.h] and [src/enclave/MultiMapNode.h].  The
    buffer of a node is its [header_t], kept here as the fields of the struct,
    followed by the entries as bitstream writes them. *)

From S2P Require Import Prelude Bitstream VersionNumber PageStore.

Definition MAX_NODE_SIZE : Z := 1024.

(** [header_t] and the bytes behind it *)
Record node : Type := mkNode {
  nd_version : Z;
  nd_successor : Z;
  nd_successor_version : Z;
  nd_size : Z;
  nd_data : list Z;
}.

#[global] Instance node_eq_dec : EqDecision node.
Proof. solve_decision. Defined.

Definition node_new : node := mkNode 0 INVALID_PAGE_NO 0 0 [].

(** [increment_version_no], [increment_successor_version], [set_successor] *)
Definition node_increment_version_no (n : node) : node :=
  mkNode (version_increment (nd_version n)) (nd_successor n) (nd_successor_version n)
    (nd_size n) (nd_data n).
Definition node_increment_successor_version (n : node) : node :=
  mkNode (nd_version n) (nd_successor n) (version_increment (nd_successor_version n))
    (nd_size n) (nd_data n).
Definition node_set_successor (succ : Z) (n : node) : node :=
  mkNode (nd_version n) succ (nd_successor_version n) (nd_size n) (nd_data n).

(** Stores the entries, the size and the next version. *)
Definition node_set_entries (data : list Z) (size : Z) (n : node) : node :=
  mkNode (version_increment (nd_version n)) (nd_successor n) (nd_successor_version n) size data.

Definition node_empty (n : node) : bool := nd_size n =? 0.

Definition overrun {A} : result A := Throw (Undefined "bitstream: read past the end").

Section Node.
Context {K V : Type} `{EqDecision K, Countable V, Codec K, Codec V}.

(** [sizeof( *this)] and [sizeof(header_t)] *)
Variable sizeof_node : Z.
Definition node_byte_size (n : node) : Z := 24 + Z.of_nat (length (nd_data n)) + sizeof_node.

(** The loop the accessors share: read an entry at [pos], which ends at [end_];
    [f] goes on with a new accumulator or returns. *)
Fixpoint scan {A R} (f : A -> nat -> nat -> K -> V -> A + R) (fin : A -> result R)
    (fuel : nat) (bytes : list Z) (pos : nat) (acc : A) : result R :=
  match bytes, fuel with
  | [], _ => fin acc
  | _, O => Throw (Undefined "out of fuel")
  | _, S fuel =>
      match dec (A := K) bytes with
      | None => overrun
      | Some (k, rest) =>
          match dec (A := V) rest with
          | None => overrun
          | Some (v, rest') =>
              let end_ := (pos + (length bytes - length rest'))%nat in
              match f acc pos end_ k v with
              | inl acc => scan f fin fuel rest' end_ acc
              | inr r => Ok r
              end
          end
      end
  end.

Definition node_scan {A R} (f : A -> nat -> nat -> K -> V -> A + R) (fin : A -> result R)
    (n : node) (acc : A) : result R :=
  scan f fin (length (nd_data n)) (nd_data n) 0 acc.

(** [bool get(const KeyType&, ValueType&)] *)
Definition node_get (key : K) (n : node) : result (option V) :=
  node_scan (fun _ _ _ k v => if decide (key = k) then inr (Some v) else inl tt)
    (fun _ => Ok None) n tt.

(** [std::pair<KeyType, ValueType> get(size_t pos)] *)
Definition node_get_at (pos : nat) (n : node) : result (K * V) :=
  node_scan (fun cpos _ _ k v => if decide (cpos = pos) then inr (k, v) else inl (S cpos))
    (fun _ => Throw (Runtime_error "HashMapNode::get falied: Out of bounds!")) n 0%nat.

Definition node_has_entry (key : K) (value : V) (n : node) : result bool :=
  node_scan (fun _ _ _ k v => if decide (key = k /\ value = v) then inr true else inl tt)
    (fun _ => Ok false) n tt.

(** The scan of [insert]: every value stored under [key] is overwritten in
    place.  Returns the new bytes and whether there was one. *)
Fixpoint update_entries (fuel : nat) (key : K) (value : V) (bytes : list Z)
  : result (bool * list Z) :=
  match bytes, fuel with
  | [], _ => Ok (false, [])
  | _, O => Throw (Undefined "out of fuel")
  | _, S fuel =>
      match dec (A := K) bytes with
      | None => overrun
      | Some (k, rest) =>
          let kbytes := take (length bytes - length rest) bytes in
          if decide (key = k) then
            '(_, tail) ← update_entries fuel key value (drop (length (enc value)) rest);
            Ok (true, kbytes ++ enc value ++ tail)
          else
            match dec (A := V) rest with
            | None => overrun
            | Some (v, rest') =>
                let vbytes := take (length rest - length rest') rest in
                '(updated, tail) ← update_entries fuel key value rest';
                Ok (updated, kbytes ++ vbytes ++ tail)
            end
      end
  end.

(** [HashMapNode::insert]: [None] when there is not enough space *)
Definition node_insert (key : K) (value : V) (n : node) : result (option node) :=
  '((updated, data) : bool * list Z) ← update_entries (length (nd_data n)) key value (nd_data n);
  if updated then Ok (Some (node_set_entries data (nd_size n) n))
  else if node_byte_size n <? MAX_NODE_SIZE
  then Ok (Some (node_set_entries (data ++ enc key ++ enc value) (u64 (nd_size n + 1)) n))
  else Ok None.

(** ** [MultiMapNode] *)

Definition mnode_insert (key : K) (value : V) (n : node) : option node :=
  if node_byte_size n >=? MAX_NODE_SIZE then None
  else Some (node_set_entries (nd_data n ++ enc key ++ enc value) (u64 (nd_size n + 1)) n).

(** The bytes from [pos] to [end_] are removed. *)
Definition mnode_cut (pos end_ : nat) (n : node) : node :=
  node_set_entries (take pos (nd_data n) ++ drop end_ (nd_data n)) (u64 (nd_size n - 1)) n.

(** [None] when there is no such entry *)
Definition mnode_remove (key : K) (value : V) (n : node) : result (option node) :=
  node_scan (fun _ pos end_ k v =>
      if decide (key = k /\ value = v) then inr (Some (mnode_cut pos end_ n)) else inl tt)
    (fun _ => Ok None) n tt.

(** The node without its entries (its version stays), and their number *)
Definition mnode_clear (n : node) : node * Z :=
  (mkNode (nd_version n) (nd_successor n) (nd_successor_version n) 0 [], nd_size n).

(** [out] is a [std::unordered_set]. *)
Definition mnode_find_union (key : K) (n : node) (out : gset V) : result (gset V) :=
  node_scan (fun out _ _ k v => inl (if decide (key = k) then {[v]} ∪ out else out))
    (fun out => Ok out) n out.

Definition mnode_estimate_value_count (key : K) (n : node) : result Z :=
  node_scan (fun count _ _ k v => inl (if decide (key = k) then u64 (count + 1) else count))
    (fun count => Ok count) n 0.

End Node.

(** ** The entries of a node *)

Section Entries.
Context {K V : Type} `{EqDecision K, Countable V, CodecLaws K, CodecLaws V}.
Implicit Types es : list (K * V).

Definition entry_wf (e : K * V) : Prop := codec_wf e.1 /\ codec_wf e.2.
Definition entry_bytes (e : K * V) : list Z := enc e.1 ++ enc e.2.
Definition entries_bytes es : list Z := mjoin (entry_bytes <$> es).

(** The first value stored under a key *)
Fixpoint assoc_find (key : K) es : option V :=
  match es with
  | [] => None
  | (k, v) :: es => if decide (key = k) then Some v else assoc_find key es
  end.

Definition assoc_set (key : K) (value : V) es : list (K * V) :=
  (fun e => (e.1, if decide (key = e.1) then value else e.2)) <$> es.

Definition assoc_remove (key : K) (value : V) es : option (list (K * V)) :=
  '(i, _) ← list_find (fun e => e = (key, value)) es; Some (delete i es).

(** [scan] over entries instead of bytes *)
Fixpoint scan_list {A R} (f : A -> nat -> nat -> K -> V -> A + R) (fin : A -> result R)
    es (pos : nat) (acc : A) : result R :=
  match es with
  | [] => fin acc
  | (k, v) :: es =>
      let end_ := (pos + length (entry_bytes (k, v)))%nat in
      match f acc pos end_ k v with
      | inl acc => scan_list f fin es end_ acc
      | inr r => Ok r
      end
  end.

(** A node that holds the entries [es] *)
Record node_rep (n : node) es : Prop := {
  nr_data : nd_data n = entries_bytes es;
  nr_wf : Forall entry_wf es;
  nr_size : nd_size n = Z.of_nat (length es);
  nr_version : version_wf (nd_version n);
  nr_successor_version : version_wf (nd_successor_version n);
}.

Lemma entries_bytes_cons k v es : entries_bytes ((k, v) :: es) = enc k ++ enc v ++ entries_bytes es.
Proof. by rewrite app_assoc. Qed.

Lemma entries_bytes_app es1 es2 : entries_bytes (es1 ++ es2) = entries_bytes es1 ++ entries_bytes es2.
Proof. unfold entries_bytes. by rewrite fmap_app, join_app. Qed.

(** Every entry takes space. *)
Lemma entries_bytes_length es :
  Forall entry_wf es -> (length es <= length (entries_bytes es))%nat.
Proof.
  induction 1 as [|[k v] es [Hk Hv] Hes IH]; [cbn; lia|].
  rewrite entries_bytes_cons, !length_app. pose proof (enc_nonempty k Hk). cbn in *. lia.
Qed.

Lemma entries_bytes_nonnil k v es : codec_wf k ->
  exists b bs, entries_bytes ((k, v) :: es) = b :: bs.
Proof.
  intros Hk. rewrite entries_bytes_cons. pose proof (enc_nonempty k Hk).
  destruct (enc k) as [|b bs]; cbn in *; [lia|]. eauto.
Qed.

Lemma scan_entries {A R} (f : A -> nat -> nat -> K -> V -> A + R) fin es fuel pos acc :
  Forall entry_wf es -> (length (entries_bytes es) <= fuel)%nat ->
  scan f fin fuel (entries_bytes es) pos acc = scan_list f fin es pos acc.
Proof.
  intros Hes. revert fuel pos acc. induction Hes as [|[k v] es [Hk Hv] Hes IH]; intros fuel pos acc Hf.
  { by destruct fuel. }
  destruct (entries_bytes_nonnil k v es Hk) as (b & bs & E).
  pose proof (enc_nonempty k Hk). assert (E' := E). rewrite entries_bytes_cons in E'.
  rewrite E in *. destruct fuel as [|fuel]; [cbn in Hf; lia|].
  cbn [scan scan_list]. rewrite <-E', dec_enc by done. rewrite dec_enc by done.
  unfold entry_bytes. cbn [fst snd].
  replace (length (enc k ++ enc v ++ entries_bytes es) - length (entries_bytes es))%nat
    with (length (enc k ++ enc v)) by (rewrite !length_app; lia).
  destruct (f acc pos _ k v); [|done]. apply IH.
  rewrite <-E', !length_app in Hf. lia.
Qed.

Lemma node_scan_rep {A R} (f : A -> nat -> nat -> K -> V -> A + R) fin n es acc :
  node_rep n es -> node_scan f fin n acc = scan_list f fin es 0 acc.
Proof. intros []. unfold node_scan. rewrite nr_data0. by apply scan_entries. Qed.

Lemma node_get_rep key n es : node_rep n es -> node_get key n = Ok (assoc_find key es).
Proof.
  intros Hn. unfold node_get. rewrite (node_scan_rep _ _ _ _ _ Hn). clear Hn.
  generalize 0%nat. induction es as [|[k v] es IH]; intros pos; cbn; [done|].
  by case_decide.
Qed.

Lemma node_has_entry_rep key value n es :
  node_rep n es -> node_has_entry key value n = Ok (bool_decide ((key, value) ∈ es)).
Proof.
  intros Hn. unfold node_has_entry. rewrite (node_scan_rep _ _ _ _ _ Hn). clear Hn.
  generalize 0%nat. induction es as [|[k v] es IH]; intros pos; cbn [scan_list].
  { by rewrite bool_decide_eq_false_2 by (by apply not_elem_of_nil). }
  destruct (decide (key = k /\ value = v)) as [[-> ->]|E].
  - by rewrite bool_decide_eq_true_2 by left.
  - rewrite IH. f_equal. apply bool_decide_ext. rewrite elem_of_cons. naive_solver.
Qed.

Lemma node_get_at_rep pos n es :
  node_rep n es ->
  node_get_at pos n = match es !! pos with
    | Some e => Ok e
    | None => Throw (Runtime_error "HashMapNode::get falied: Out of bounds!")
    end.
Proof.
  intros Hn. unfold node_get_at. rewrite (node_scan_rep _ _ _ _ _ Hn). clear Hn.
  enough (forall c p, scan_list (fun cpos _ _ (k : K) (v : V) => if decide (cpos = c + pos)%nat
    then inr (k, v) else inl (S cpos)) (fun _ => Throw (Runtime_error
    "HashMapNode::get falied: Out of bounds!")) es p c = match es !! pos with
    | Some e => Ok e
    | None => Throw (Runtime_error "HashMapNode::get falied: Out of bounds!")
    end) as Hc by apply (Hc 0%nat).
  revert pos. induction es as [|[k v] es IH]; intros pos c p; cbn; [done|].
  destruct pos as [|pos].
  - by rewrite decide_True by lia.
  - rewrite decide_False by lia. rewrite Nat.add_succ_r. apply (IH pos (S c)).
Qed.

(** *** Insertion *)

Lemma assoc_set_bytes_ok `{!FixedSize V} key value es fuel :
  Forall entry_wf es -> codec_wf value -> (length (entries_bytes es) <= fuel)%nat ->
  update_entries fuel key value (entries_bytes es) =
  Ok (bool_decide (key ∈ es.*1), entries_bytes (assoc_set key value es)).
Proof.
  intros Hes Hv. revert fuel. induction Hes as [|[k v] es [Hk Hv'] Hes IH]; intros fuel Hf.
  { destruct fuel; cbn; by rewrite bool_decide_eq_false_2 by (by apply not_elem_of_nil). }
  cbn [fst snd] in Hk, Hv'. destruct (entries_bytes_nonnil k v es Hk) as (b & bs & E).
  pose proof (enc_nonempty k Hk). assert (E' := E). rewrite entries_bytes_cons in E'.
  rewrite E in *. destruct fuel as [|fuel]; [cbn in Hf; lia|].
  rewrite <-E', !length_app in Hf.
  cbn [update_entries]. rewrite <-E', dec_enc by done.
  replace (length (enc k ++ enc v ++ entries_bytes es) - length (enc v ++ entries_bytes es))%nat
    with (length (enc k)) by (rewrite !length_app; lia).
  rewrite take_app_length. cbn [assoc_set fmap list_fmap fst snd].
  change (list_fmap _ _ ?f es) with (f <$> es). fold (assoc_set key value es).
  rewrite entries_bytes_cons. destruct (decide (key = k)) as [Hkey|Hkey].
  - rewrite (enc_fixed value v) by done. rewrite drop_app_length, IH by lia. cbn.
    rewrite (bool_decide_eq_true_2 (key ∈ _)); [done|]. rewrite Hkey. left.
  - rewrite dec_enc by done.
    replace (length (enc v ++ entries_bytes es) - length (entries_bytes es))%nat
      with (length (enc v)) by (rewrite !length_app; lia).
    rewrite take_app_length, IH by lia. cbn. do 2 f_equal. apply bool_decide_ext.
    rewrite elem_of_cons. naive_solver.
Qed.

Lemma assoc_set_absent key value es : key ∉ es.*1 -> assoc_set key value es = es.
Proof.
  induction es as [|[k v] es IH]; cbn; [done|]. rewrite not_elem_of_cons. intros [Hk Hes].
  rewrite decide_False by done. f_equal. by apply IH.
Qed.

Lemma assoc_set_wf key value es :
  codec_wf value -> Forall entry_wf es -> Forall entry_wf (assoc_set key value es).
Proof.
  intros Hv Hes. apply Forall_fmap. eapply Forall_impl; [done|]. intros [k v] [Hk Hv'].
  split; cbn in *; [done|]. by case_decide.
Qed.

Lemma node_set_entries_rep n es es' :
  node_rep n es -> Forall entry_wf es' ->
  node_rep (node_set_entries (entries_bytes es') (Z.of_nat (length es')) n) es'.
Proof. intros [] ?. split; cbn; auto with credb. Qed.

Variable sizeof_node : Z.
Hypothesis sizeof_node_pos : 0 <= sizeof_node.

(** A node is full when its size has reached the limit. *)
Definition node_full es : bool :=
  MAX_NODE_SIZE <=? 24 + Z.of_nat (length (entries_bytes es)) + sizeof_node.

(** The entries after an insertion, if there is room *)
Definition entries_insert (key : K) (value : V) es : option (list (K * V)) :=
  if bool_decide (key ∈ es.*1) then Some (assoc_set key value es)
  else if node_full es then None else Some (es ++ [(key, value)]).

Lemma node_byte_size_rep n es :
  node_rep n es -> (node_byte_size sizeof_node n <? MAX_NODE_SIZE) = negb (node_full es).
Proof.
  intros []. unfold node_byte_size, node_full. rewrite nr_data0.
  rewrite Z.leb_antisym, negb_involutive. done.
Qed.

Lemma room_size es : Forall entry_wf es -> node_full es = false -> Z.of_nat (length es) < 1024.
Proof.
  intros Hes%entries_bytes_length. unfold node_full, MAX_NODE_SIZE. intros. bool_hyps. lia.
Qed.

Lemma node_insert_rep `{!FixedSize V} key value n es :
  node_rep n es -> codec_wf key -> codec_wf value ->
  match entries_insert key value es with
  | None => node_insert sizeof_node key value n = Ok None
  | Some es' => exists n', node_insert sizeof_node key value n = Ok (Some n') /\
      node_rep n' es' /\ nd_version n' = version_increment (nd_version n) /\
      nd_successor n' = nd_successor n /\ nd_successor_version n' = nd_successor_version n
  end.
Proof.
  intros Hn Hk Hv. destruct (Hn) as [Hd Hwf Hsz _ _]. unfold node_insert, entries_insert.
  rewrite Hd, assoc_set_bytes_ok by done. cbn. case_bool_decide as Hin.
  - eexists. split; [done|]. split_and!; [|done..].
    replace (nd_size n) with (Z.of_nat (length (assoc_set key value es)))
      by (unfold assoc_set; by rewrite length_fmap).
    apply node_set_entries_rep with es; [done|]. by apply assoc_set_wf.
  - rewrite (node_byte_size_rep _ _ Hn). destruct (node_full es) eqn:Ef; cbn; [done|].
    eexists. split; [done|]. split_and!; [|done..]. rewrite assoc_set_absent by done.
    pose proof (room_size es Hwf Ef).
    replace (entries_bytes es ++ enc key ++ enc value) with (entries_bytes (es ++ [(key, value)])).
    2: { rewrite entries_bytes_app, entries_bytes_cons. cbn. by rewrite app_nil_r. }
    replace (u64 (nd_size n + 1)) with (Z.of_nat (length (es ++ [(key, value)]))).
    2: { rewrite Hsz, wrap_small, length_app by (unfold in_range; lia). cbn. lia. }
    apply node_set_entries_rep with es; [done|]. apply Forall_app. split; [done|].
    by repeat constructor.
Qed.

Lemma assoc_find_app key es1 es2 :
  assoc_find key (es1 ++ es2) =
  match assoc_find key es1 with Some v => Some v | None => assoc_find key es2 end.
Proof. induction es1 as [|[k v] es1 IH]; cbn; [done|]. by case_decide. Qed.

Lemma assoc_find_None key es : assoc_find key es = None <-> key ∉ es.*1.
Proof.
  induction es as [|[k v] es IH]; cbn; [split; [intros _; apply not_elem_of_nil|done]|].
  rewrite not_elem_of_cons. case_decide; naive_solver.
Qed.

Lemma assoc_find_set key value es key' :
  assoc_find key' (assoc_set key value es) =
  if decide (key' = key /\ key ∈ es.*1) then Some value else assoc_find key' es.
Proof.
  induction es as [|[k v] es IH]; cbn.
  - rewrite decide_False; [done|]. intros [_ []%elem_of_nil].
  - destruct (decide (key' = k)) as [->|].
    + destruct (decide (key = k)) as [->|].
      * rewrite decide_True; [done|]. split; [done|left].
      * by rewrite decide_False by naive_solver.
    + fold (assoc_set key value es). rewrite IH. apply decide_ext.
      rewrite elem_of_cons. naive_solver.
Qed.

(** What the accessors find after an insertion *)
Lemma entries_insert_find key value es es' key' :
  entries_insert key value es = Some es' ->
  assoc_find key' es' = if decide (key' = key) then Some value else assoc_find key' es.
Proof.
  unfold entries_insert. case_bool_decide as Hin.
  - intros [= <-]. rewrite assoc_find_set. apply decide_ext. naive_solver.
  - destruct (node_full es); [done|]. intros [= <-]. rewrite assoc_find_app. cbn.
    destruct (decide (key' = key)) as [->|].
    + by rewrite (proj2 (assoc_find_None key es) Hin).
    + by destruct (assoc_find key' es).
Qed.

Lemma entries_insert_full key value es :
  entries_insert key value es = None -> (key ∉ es.*1) /\ node_full es = true.
Proof.
  unfold entries_insert. case_bool_decide; [done|]. by destruct (node_full es).
Qed.

End Entries.
