(* ===== verification/AbstractMap.v ===== *)
(** * Hash maps of pages

    Models [src/enclave/AbstractMap.h], the code [HashMap] and [MultiMap] share:
    an array of buckets, each of which points to a chain of nodes.  Bucket and
    node record the version their successor must have; a page with another
    version is stale.  Locking is left to the model of the locks; the nodes are
    those of a peer that writes its own disk ([is_remote()] is false). *)

From S2P Require Import Prelude Bitstream VersionNumber PageStore HashMapNode.

Definition NUM_BUCKETS : Z := 8192.
Definition NUM_SHARDS : Z := 64.

Record bucket_t : Type := mkBucket { bk_page_no : Z; bk_version : Z; }.

#[global] Instance bucket_eq_dec : EqDecision bucket_t.
Proof. solve_decision. Defined.

Definition default_bucket : bucket_t := mkBucket INVALID_PAGE_NO 0.

(** [am_buckets] holds the buckets that are not the default one; [am_store] is
    the buffer manager. *)
Record amap (S : Type) : Type := mkAmap {
  am_store : S;
  am_buckets : gmap Z bucket_t;
  am_size : Z;
}.
Arguments mkAmap {S}.
Arguments am_store {S}.
Arguments am_buckets {S}.
Arguments am_size {S}.

Definition amap_init {S} (s : S) : amap S := mkAmap s ∅ 0.

Definition get_bucket {S} (bid : Z) (m : amap S) : bucket_t :=
  default default_bucket (am_buckets m !! bid).

Definition set_bucket {S} (bid : Z) (b : bucket_t) (m : amap S) : amap S :=
  mkAmap (am_store m) (<[bid := b]> (am_buckets m)) (am_size m).

Definition set_store {S} (s : S) (m : amap S) : amap S :=
  mkAmap s (am_buckets m) (am_size m).

Definition set_size {S} (n : Z) (m : amap S) : amap S :=
  mkAmap (am_store m) (am_buckets m) n.

Section Operations.
Context {S : Type} `{PageStore S node}.

(** An operation of the buffer manager *)
Definition on_store {A} (op : ST S A) : ST (amap S) A := zoom am_store set_store op.

(** A change of a node through its handle *)
Definition node_modify (p : Z) (f : node -> node) : ST (amap S) unit :=
  n ← on_store (ps_get p); on_store (ps_put p (f n)).

(** [None] is the empty handle. *)
Definition get_node_internal (page_no expected_version : Z) (create : bool)
  : ST (amap S) (option Z) :=
  if page_no =? INVALID_PAGE_NO then
    if create then p ← on_store (ps_new node_new); mret (Some p)
    else mret None
  else
    n ← on_store (ps_get page_no);
    if version_eqb (nd_version n) expected_version then mret (Some page_no)
    else throw Staleness_detected.

Definition get_successor (prev : Z) (create modify : bool) : ST (amap S) (option Z) :=
  n ← on_store (ps_get prev);
  let succ := nd_successor n in
  let will_modify := create || (modify && negb (succ =? INVALID_PAGE_NO)) in
  _ ← (if will_modify then node_modify prev node_increment_version_no else mret tt);
  node ← get_node_internal succ (nd_successor_version n) create;
  if will_modify then
    match node with
    | None => throw (Runtime_error "Invalid state!")
    | Some p =>
        _ ← node_modify prev (node_set_successor p);
        _ ← node_modify prev node_increment_successor_version;
        _ ← on_store (ps_flush prev);
        mret node
    end
  else mret node.

Definition get_node (bid : Z) (create modify : bool) : ST (amap S) (option Z) :=
  m ← get_st;
  let bucket := get_bucket bid m in
  let will_modify := create || (modify && negb (bk_page_no bucket =? INVALID_PAGE_NO)) in
  node ← get_node_internal (bk_page_no bucket) (bk_version bucket) create;
  if will_modify then
    match node with
    | None => throw (Undefined "empty PageHandle dereferenced")
    | Some p =>
        _ ← modify_st (set_bucket bid (mkBucket p (version_increment (bk_version bucket))));
        _ ← on_store (ps_flush p);
        mret node
    end
  else mret node.

(** The loops of the maps.  Both insertions walk down the chain until a node
    has room, creating one at its end; [HashMap] also flushes the successor. *)
Fixpoint insert_loop (ins : node -> result (option node)) (flush_succ : bool)
    (fuel : nat) (handle : Z) : ST (amap S) unit :=
  match fuel with
  | O => throw (Undefined "out of fuel")
  | Datatypes.S fuel =>
      n ← on_store (ps_get handle);
      created ← lift_res (ins n);
      match created with
      | Some n' => _ ← on_store (ps_put handle n'); on_store (ps_flush handle)
      | None =>
          succ ← get_successor handle true false;
          match succ with
          | None => throw (Undefined "empty PageHandle dereferenced")
          | Some p =>
              _ ← (if flush_succ then on_store (ps_flush p) else mret tt);
              insert_loop ins flush_succ fuel p
          end
      end
  end.

(** [while(node) { ...; node = get_successor(bid, node, false, lock); }] *)
Fixpoint walk {A R} (visit : A -> node -> result (A + R)) (fuel : nat) (handle : option Z)
    (acc : A) : ST (amap S) (A + R) :=
  match handle, fuel with
  | None, _ => mret (inl acc)
  | Some _, O => throw (Undefined "out of fuel")
  | Some p, Datatypes.S fuel =>
      n ← on_store (ps_get p);
      r ← lift_res (visit acc n);
      match r with
      | inr r => mret (inr r)
      | inl acc => succ ← get_successor p false false; walk visit fuel succ acc
      end
  end.

(** Chains are shorter than the number of pages. *)
Definition chain_fuel (m : amap S) : nat := Datatypes.S (Datatypes.S (size (ps_pages (am_store m)))).

(** What the two [insert] functions do between locking and counting *)
Definition insert_entry (ins : node -> result (option node)) (flush_succ : bool) (bid : Z)
  : ST (amap S) unit :=
  m ← get_st;
  node ← get_node bid true false;
  match node with
  | None => throw (Undefined "empty PageHandle dereferenced")
  | Some p => insert_loop ins flush_succ (chain_fuel m) p
  end.

End Operations.

(** [apply_changes]: a downstream peer takes over a bucket unless it already
    has a newer one. *)
Definition apply_changes {S} (bid : Z) (new_val : bucket_t) (m : amap S) : amap S :=
  if version_ltb (bk_version new_val) (bk_version (get_bucket bid m)) then m
  else set_bucket bid new_val m.

(** [serialize_root] and [load_root] *)
Definition serialize_root {S} (m : amap S) : gmap Z bucket_t := am_buckets m.
Definition load_root {S} (buckets : gmap Z bucket_t) (m : amap S) : amap S :=
  mkAmap (am_store m) buckets (am_size m).

(** ** Chains

    [chain pg p v c]: from page [p], expected at version [v], the pages [pg]
    hold a chain of nodes with the page numbers and entries [c], each at the
    version its predecessor records. *)

Section Chain.
Context {K V : Type} `{EqDecision K, Countable V, CodecLaws K, CodecLaws V}.
Implicit Types (pg : gmap Z node) (c : list (Z * list (K * V))) (es : list (K * V)).

Fixpoint chain pg (p v : Z) c : Prop :=
  match c with
  | [] => p = INVALID_PAGE_NO /\ v = 0
  | (q, es) :: c =>
      p = q /\ p <> INVALID_PAGE_NO /\
      exists n, pg !! p = Some n /\ node_rep n es /\ nd_version n = v /\
        chain pg (nd_successor n) (nd_successor_version n) c
  end.

Lemma chain_frame pg pg' p v c :
  (forall q, q ∈ c.*1 -> pg' !! q = pg !! q) -> chain pg p v c -> chain pg' p v c.
Proof.
  revert p v. induction c as [|[q es] c IH]; intros p v Hq; cbn in *; [done|].
  intros (-> & Hp & n & Hn & Hr & Hv & Hc). split_and!; [done..|].
  exists n. rewrite Hq by left. split_and!; [done..|]. apply IH; [|done].
  intros. apply Hq. by right.
Qed.

Lemma chain_dom pg p v c q : chain pg p v c -> q ∈ c.*1 -> is_Some (pg !! q).
Proof.
  revert p v. induction c as [|[q' es] c IH]; intros p v; cbn; [by intros _ []%elem_of_nil|].
  intros (-> & Hp & n & Hn & Hr & Hv & Hc) [->|Hq]%elem_of_cons; eauto.
Qed.

Lemma chain_wf pg p v c : chain pg p v c -> Forall (Forall entry_wf) c.*2.
Proof.
  revert p v. induction c as [|[q es] c IH]; intros p v; cbn; [constructor|].
  intros (-> & Hp & n & Hn & Hr & Hv & Hc). constructor; [by apply (nr_wf _ _ Hr)|eauto].
Qed.

Lemma chain_length pg p v c :
  chain pg p v c -> NoDup c.*1 -> (length c <= size pg)%nat.
Proof.
  intros Hc Hnd. rewrite <-(length_fmap fst), <-(size_list_to_set (C := gset Z)) by done.
  rewrite <-(size_dom (D := gset Z)). apply subseteq_size. intros q Hq%elem_of_list_to_set.
  apply elem_of_dom. by eapply chain_dom.
Qed.
End Chain.

(** ** The ages of pages *)

(** One insertion: a page that changes takes its next version, and a page that is new has the
    version after that of an empty node. *)
Definition pages_step (pg pg' : gmap Z node) : Prop :=
  (forall q n, pg !! q = Some n -> exists n', pg' !! q = Some n' /\
    (n' = n \/ version_wf (nd_version n) /\ nd_version n' = version_increment (nd_version n))) /\
  (forall q n', pg !! q = None -> pg' !! q = Some n' -> nd_version n' = version_increment 0).

(** After at most [j] changes of every page *)
Definition pages_aged (j : nat) (pg pg' : gmap Z node) : Prop := forall q n, pg !! q = Some n ->
  exists n' k, pg' !! q = Some n' /\ (k <= j)%nat /\ nd_version n' = version_advance k (nd_version n) /\
    (k = 0%nat /\ n' = n \/ (0 < k)%nat /\ version_wf (nd_version n)).

(** A page that is new since has changed at least once, and at most [j] times. *)
Definition pages_born (j : nat) (pg pg' : gmap Z node) : Prop := forall q n',
  pg !! q = None -> pg' !! q = Some n' ->
  exists k, (0 < k <= j)%nat /\ nd_version n' = version_advance k (nd_version node_new).

Lemma pages_aged_refl pg : pages_aged 0 pg pg.
Proof. intros q n Hq. exists n, 0%nat. eauto 6. Qed.

Lemma pages_born_refl pg : pages_born 0 pg pg.
Proof. intros q n' H1 H2. congruence. Qed.

Lemma version_advance_succ k v : version_advance k (version_increment v) = version_advance (S k) v.
Proof. unfold version_advance. by rewrite <- Nat.iter_succ_r. Qed.

Lemma pages_aged_step j pg pg1 pg' : pages_step pg pg1 -> pages_aged j pg1 pg' -> pages_aged (S j) pg pg'.
Proof.
  intros [H1 _] H2 q n Hq. destruct (H1 _ _ Hq) as (n1 & Hn1 & Hv1). destruct (H2 _ _ Hn1) as (n2 & k & Hn2 & Hk & Hv2 & Hcase).
  destruct Hv1 as [->|[Hw Hv1]].
  - exists n2, k. split_and!; [done|lia|done|done].
  - exists n2, (S k). split_and!; [done|lia| |right; split; [lia|done]]. by rewrite Hv2, Hv1, version_advance_succ.
Qed.

Lemma pages_born_step j pg pg1 pg' :
  pages_step pg pg1 -> pages_aged j pg1 pg' -> pages_born j pg1 pg' -> pages_born (S j) pg pg'.
Proof.
  intros [_ H1] H2 H3 q n' Hq Hq'. destruct (pg1 !! q) as [n1|] eqn:E1.
  - destruct (H2 _ _ E1) as (n2 & k & Hn2 & Hk & Hv2 & _). assert (n2 = n') as -> by congruence.
    exists (S k). split; [lia|]. rewrite Hv2, (H1 _ _ Hq E1). apply version_advance_succ.
  - destruct (H3 _ _ E1 Hq') as (k & Hk & Hv). exists k. split; [lia|done].
Qed.

(** An older content of a page has another version. *)
Lemma pages_aged_differ j pg pg' q n' :
  Z.of_nat j < MAX_VALUE -> pages_aged j pg pg' -> pages_born j pg pg' -> pg' !! q = Some n' ->
  default node_new (pg !! q) = n' \/ nd_version (default node_new (pg !! q)) <> nd_version n'.
Proof.
  intros Hj Ha Hb Hq'.
  assert (forall v k, version_wf v -> (0 < k <= j)%nat -> v <> version_advance k v) as Hne.
  { intros v k Hv Hk E. symmetry in E. apply version_advance_eq_iff in E as [i Hi]; [|done].
    unfold MAX_VALUE in *. lia. }
  destruct (pg !! q) as [n|] eqn:E; cbn [default from_option]; unfold id.
  - destruct (Ha _ _ E) as (n2 & k & Hn2 & Hk & Hv & Hcase). assert (n2 = n') as -> by congruence.
    destruct Hcase as [[_ ->]|[Hk0 Hw]]; [by left|]. right. rewrite Hv. apply Hne; [done|lia].
  - destruct (Hb _ _ E Hq') as (k & Hk & Hv). right. rewrite Hv. apply Hne; [by vm_compute|done].
Qed.

(** ** Specifications of the shared operations *)

Section Specs.
Context {K V : Type} `{EqDecision K, Countable V, CodecLaws K, CodecLaws V}.
Context {S : Type} `{PageStoreLaws S node}.
Implicit Types (pg : gmap Z node) (c : list (Z * list (K * V))) (es : list (K * V)).

(** The parts of the state of a map *)
Definition st_is (m : amap S) pg (bk : gmap Z bucket_t) (sz av : Z) : Prop :=
  ps_wf (am_store m) /\ ps_pages (am_store m) = pg /\ ps_avail (am_store m) = av /\
  am_buckets m = bk /\ am_size m = sz.

Lemma on_store_get m pg bk sz av p n :
  st_is m pg bk sz av -> pg !! p = Some n ->
  wp (on_store (ps_get p)) (fun n' m' => n' = n /\ st_is m' pg bk sz av) m.
Proof.
  intros (Hw & <- & <- & <- & <-) Hp. apply wp_zoom.
  eapply wp_mono; [by apply ps_get_spec|]. cbv beta zeta. intros ? s' (-> & ? & ? & ?). by split.
Qed.

Lemma on_store_put m pg bk sz av p n n0 :
  st_is m pg bk sz av -> pg !! p = Some n0 ->
  wp (on_store (ps_put p n)) (fun _ m' => st_is m' (<[p := n]> pg) bk sz av) m.
Proof.
  intros (Hw & <- & <- & <- & <-) Hp. apply wp_zoom.
  eapply wp_mono; [by apply ps_put_spec; eauto|]. cbv beta zeta. intros ? s' (? & ? & ?). by split_and!.
Qed.

Lemma on_store_flush m pg bk sz av p n0 :
  st_is m pg bk sz av -> pg !! p = Some n0 ->
  wp (on_store (ps_flush p)) (fun _ m' => st_is m' pg bk sz av) m.
Proof.
  intros (Hw & <- & <- & <- & <-) Hp. apply wp_zoom.
  eapply wp_mono; [by apply ps_flush_spec; eauto|]. cbv beta zeta. intros ? s' (? & ? & ?). by split_and!.
Qed.

Lemma on_store_new m pg bk sz av n :
  st_is m pg bk sz av -> 0 < av ->
  wp (on_store (ps_new n)) (fun p m' => pg !! p = None /\ p <> INVALID_PAGE_NO /\
    st_is m' (<[p := n]> pg) bk sz (av - 1)) m.
Proof.
  intros (Hw & <- & <- & <- & <-) Hp. apply wp_zoom.
  eapply wp_mono; [by apply ps_new_spec|]. cbv beta zeta. intros p s' (? & ? & ? & ? & ?). by split_and!.
Qed.

Lemma node_modify_ok m pg bk sz av p n f :
  st_is m pg bk sz av -> pg !! p = Some n ->
  wp (node_modify p f) (fun _ m' => st_is m' (<[p := f n]> pg) bk sz av) m.
Proof.
  intros Hm Hp. apply wp_bind. eapply wp_mono; [by apply on_store_get|].
  cbv beta zeta. intros ? m1 [-> Hm1]. by eapply on_store_put.
Qed.

Lemma get_node_internal_create m pg bk sz av v :
  st_is m pg bk sz av -> 0 < av ->
  wp (get_node_internal INVALID_PAGE_NO v true) (fun r m' => exists p, r = Some p /\
    pg !! p = None /\ p <> INVALID_PAGE_NO /\ st_is m' (<[p := node_new]> pg) bk sz (av - 1)) m.
Proof.
  intros Hm Hav. apply wp_bind. eapply wp_mono; [by apply on_store_new|].
  cbv beta zeta. intros p m' Hp. apply wp_ret. eauto.
Qed.

Lemma get_node_internal_found m pg bk sz av p v create n :
  st_is m pg bk sz av -> p <> INVALID_PAGE_NO -> pg !! p = Some n -> nd_version n = v ->
  wp (get_node_internal p v create) (fun r m' => r = Some p /\ st_is m' pg bk sz av) m.
Proof.
  intros Hm Hp Hn Hv. unfold get_node_internal. rewrite (proj2 (Z.eqb_neq p _) Hp).
  apply wp_bind. eapply wp_mono; [by eapply on_store_get|]. cbv beta zeta. intros ? m1 [-> Hm1].
  unfold version_eqb. rewrite (proj2 (Z.eqb_eq _ _) Hv). by apply wp_ret.
Qed.

(** A page with another version than the expected one is not used. *)
Lemma get_node_internal_stale m pg bk sz av p v create n :
  st_is m pg bk sz av -> p <> INVALID_PAGE_NO -> pg !! p = Some n -> nd_version n <> v ->
  exists m', get_node_internal p v create m = (Throw Staleness_detected, m') /\
    st_is m' pg bk sz av.
Proof.
  intros Hm Hp Hn Hv. unfold get_node_internal. rewrite (proj2 (Z.eqb_neq p _) Hp).
  destruct (proj1 (wp_run _ _ _) (on_store_get m pg bk sz av p n Hm Hn)) as (n' & m1 & E & -> & Hm1).
  exists m1. rewrite (ST_bind_run _ _ _ _ _ E). unfold version_eqb.
  by rewrite (proj2 (Z.eqb_neq _ _) Hv).
Qed.

(** Walking to the successor without changing anything *)
Lemma get_successor_read m pg bk sz av p n c :
  st_is m pg bk sz av -> pg !! p = Some n ->
  chain pg (nd_successor n) (nd_successor_version n) c ->
  wp (get_successor p false false)
    (fun r m' => r = fst <$> head c /\ st_is m' pg bk sz av) m.
Proof.
  intros Hm Hp Hc. apply wp_bind. eapply wp_mono; [by eapply on_store_get|].
  cbv beta zeta. intros ? m1 [-> Hm1]. apply wp_bind, wp_ret, wp_bind. destruct c as [|[q es] c].
  - destruct Hc as [-> _]. by apply wp_ret, wp_ret.
  - destruct Hc as (-> & Hq & n1 & Hn1 & _ & Hv & _).
    eapply wp_mono; [by eapply get_node_internal_found|]. cbv beta zeta. intros ? m2 [-> Hm2].
    by apply wp_ret.
Qed.

(** The node after [get_successor] in a modifying walk *)
Definition node_advance (succ : Z) (n : node) : node :=
  node_increment_successor_version (node_set_successor succ (node_increment_version_no n)).

(** [get_successor] with [create], up to the lookup of the successor *)
Lemma get_successor_modify m pg bk sz av p n create modify Q :
  st_is m pg bk sz av -> pg !! p = Some n ->
  create = true \/ (modify = true /\ nd_successor n <> INVALID_PAGE_NO) ->
  (forall m1, st_is m1 (<[p := node_increment_version_no n]> pg) bk sz av ->
    wp (get_node_internal (nd_successor n) (nd_successor_version n) create)
      (fun r m2 => exists q pg2 av2, r = Some q /\ st_is m2 pg2 bk sz av2 /\
         pg2 !! p = Some (node_increment_version_no n) /\
         forall m3, st_is m3 (<[p := node_advance q n]> pg2) bk sz av2 -> Q (Some q) m3) m1) ->
  wp (get_successor p create modify) Q m.
Proof.
  intros Hm Hp Hmod Hk. apply wp_bind. eapply wp_mono; [by eapply on_store_get|].
  cbv beta zeta. intros ? m1 [-> Hm1].
  assert (create || modify && negb (nd_successor n =? INVALID_PAGE_NO) = true) as ->.
  { destruct Hmod as [->|[-> Hs]]; [done|]. apply Z.eqb_neq in Hs as ->. by destruct create. }
  apply wp_bind. eapply wp_mono; [by eapply node_modify_ok|]. cbv beta zeta. intros _ m2 Hm2.
  apply wp_bind. eapply wp_mono; [by apply Hk|]. cbv beta zeta. intros ? m3 (q & pg2 & av2 & -> & Hm3 & Hp2 & HQ).
  apply wp_bind. eapply wp_mono; [by eapply node_modify_ok|]. cbv beta zeta. intros _ m4 Hm4.
  apply wp_bind. eapply wp_mono; [eapply node_modify_ok; [done|by rewrite lookup_insert_eq]|].
  cbv beta zeta. intros _ m5 Hm5. rewrite insert_insert_eq in Hm5.
  apply wp_bind. eapply wp_mono; [eapply on_store_flush; [done|by rewrite lookup_insert_eq]|].
  cbv beta zeta. intros _ m6 Hm6. apply wp_ret. by apply HQ.
Qed.

Lemma get_node_read m pg bk sz av bid c :
  st_is m pg bk sz av ->
  chain pg (bk_page_no (get_bucket bid m)) (bk_version (get_bucket bid m)) c ->
  wp (get_node bid false false) (fun r m' => r = fst <$> head c /\ st_is m' pg bk sz av) m.
Proof.
  intros Hm Hc. apply wp_bind. cbn. apply wp_bind. destruct c as [|[q es] c].
  - destruct Hc as [-> _]. by apply wp_ret, wp_ret.
  - destruct Hc as (-> & Hq & n1 & Hn1 & _ & Hv & _).
    eapply wp_mono; [by eapply get_node_internal_found|]. cbv beta zeta. intros ? m2 [-> Hm2].
    by apply wp_ret.
Qed.

(** *** Reading walks *)

Fixpoint walk_list {A R} (g : A -> list (K * V) -> A + R) (ess : list (list (K * V))) (acc : A)
  : A + R :=
  match ess with
  | [] => inl acc
  | es :: ess => match g acc es with inl acc => walk_list g ess acc | inr r => inr r end
  end.

Lemma walk_ok {A R} (visit : A -> node -> result (A + R)) g (P : list (K * V) -> Prop)
    fuel m pg bk sz av p v c acc :
  (forall acc n es, P es -> node_rep n es -> visit acc n = Ok (g acc es)) -> Forall P c.*2 ->
  st_is m pg bk sz av -> chain pg p v c -> (length c <= fuel)%nat ->
  wp (walk visit fuel (fst <$> head c) acc)
    (fun r m' => r = walk_list g c.*2 acc /\ st_is m' pg bk sz av) m.
Proof.
  intros Hvisit. revert m p v c acc.
  induction fuel as [|fuel IH]; intros m p v [|[q es] c] acc HP Hm Hc Hf; try (by apply wp_ret).
  { cbn in Hf. lia. }
  apply Forall_cons in HP as [HPes HP].
  destruct Hc as (-> & Hq & n & Hn & Hr & Hv & Hc).
  change (fst <$> head ((q, es) :: c)) with (Some q). change (((q, es) :: c).*2) with (es :: c.*2).
  cbn [walk walk_list]. apply wp_bind. eapply wp_mono; [by eapply on_store_get|]. cbv beta zeta. intros ? m1 [-> Hm1].
  rewrite (Hvisit acc n es HPes Hr). apply wp_bind. unfold lift_res, wp at 1.
  destruct (g acc es) as [acc'|r]; [|by apply wp_ret].
  apply wp_bind. eapply wp_mono; [by eapply get_successor_read|]. cbv beta zeta. intros ? m2 [-> Hm2].
  eapply IH; [done..|]. cbn in Hf. lia.
Qed.

(** *** Insertion *)

Section Insert.
(** Inserting into a node, on the node and on its entries; an empty node has
    room. *)
Context (ins : node -> result (option node)) (eins : list (K * V) -> option (list (K * V))).
Hypothesis ins_spec : forall n es, node_rep n es ->
  match eins es with
  | None => ins n = Ok None
  | Some es' => exists n', ins n = Ok (Some n') /\ node_rep n' es' /\
      nd_version n' = version_increment (nd_version n) /\
      nd_successor n' = nd_successor n /\ nd_successor_version n' = nd_successor_version n
  end.
Hypothesis eins_empty : eins [] <> None.

Fixpoint chain_insert (ess : list (list (K * V))) : list (list (K * V)) :=
  match ess with
  | [] => [default [] (eins [])]
  | es :: ess => match eins es with
                 | Some es' => es' :: ess
                 | None => es :: chain_insert ess
                 end
  end.

Lemma pages_step_insert pg p n n' :
  pg !! p = Some n -> version_wf (nd_version n) -> nd_version n' = version_increment (nd_version n) ->
  pages_step pg (<[p := n']> pg).
Proof.
  intros Hp Hw Hv. split.
  - intros q n1 Hq. destruct (decide (q = p)) as [->|Hne].
    + exists n'. rewrite lookup_insert_eq. split; [done|]. right. assert (n1 = n) as -> by congruence. done.
    + exists n1. rewrite lookup_insert_ne by done. eauto.
  - intros q n1 Hq. rewrite lookup_insert_ne; congruence.
Qed.

(** What an insertion that starts at [p] may do to the pages: the chain of the
    result, at the next version, holds [chain_insert]; pages off the chain keep
    their content; at most one page is new. *)
Definition insert_post (m' : amap S) pg bk sz av p v c : Prop :=
  exists pg' av' c',
    st_is m' pg' bk sz av' /\ av - 1 <= av' /\
    chain pg' p (version_increment v) c' /\ c'.*2 = chain_insert c.*2 /\
    (forall q, q ∉ c.*1 -> is_Some (pg !! q) -> pg' !! q = pg !! q) /\
    (c'.*1 = c.*1 \/ exists q, pg !! q = None /\ c'.*1 = c.*1 ++ [q]) /\ pages_step pg pg'.

(** The node has room. *)
Lemma insert_loop_here flush fuel m pg bk sz av p n es es' :
  st_is m pg bk sz av -> pg !! p = Some n -> node_rep n es -> eins es = Some es' ->
  wp (insert_loop ins flush (Datatypes.S fuel) p) (fun _ m' => exists n',
    st_is m' (<[p := n']> pg) bk sz av /\ node_rep n' es' /\
    nd_version n' = version_increment (nd_version n) /\
    nd_successor n' = nd_successor n /\ nd_successor_version n' = nd_successor_version n) m.
Proof.
  intros Hm Hn Hr He. cbn [insert_loop].
  pose proof (ins_spec n es Hr) as Hins. rewrite He in Hins.
  destruct Hins as (n' & Hins & Hr' & Hv' & Hs' & Hsv').
  apply wp_bind. eapply wp_mono; [by eapply on_store_get|]. cbv beta. intros ? m1 [-> Hm1].
  rewrite Hins. apply wp_bind. apply wp_ret.
  apply wp_bind. eapply wp_mono; [by eapply on_store_put|]. cbv beta. intros _ m2 Hm2.
  eapply wp_mono; [eapply on_store_flush; [done|by rewrite lookup_insert_eq]|].
  cbv beta. intros _ m3 Hm3. by exists n'.
Qed.

Lemma insert_post_here m pg bk sz av p n n' es es' c :
  st_is m (<[p := n']> pg) bk sz av -> p <> INVALID_PAGE_NO -> pg !! p = Some n -> node_rep n es -> node_rep n' es' ->
  nd_version n' = version_increment (nd_version n) ->
  nd_successor n' = nd_successor n -> nd_successor_version n' = nd_successor_version n ->
  chain pg (nd_successor n) (nd_successor_version n) c -> p ∉ c.*1 -> eins es = Some es' ->
  insert_post m pg bk sz av p (nd_version n) ((p, es) :: c).
Proof.
  intros Hm Hp Hn Hr Hr' Hv' Hs' Hsv' Hc Hnd He. exists (<[p := n']> pg), av, ((p, es') :: c).
  split_and!; [done|lia| | | |by left|eapply pages_step_insert; [done|apply Hr|done]].
  - split_and!; [done..|]. exists n'. rewrite lookup_insert_eq. split_and!; [done..|].
    rewrite Hs', Hsv'. eapply chain_frame; [|done]. intros q Hq.
    rewrite lookup_insert_ne; [done|]. by intros ->.
  - cbn. by rewrite He.
  - intros q [Hq _]%not_elem_of_cons _. by rewrite lookup_insert_ne.
Qed.

(** A node that passed the insertion on to its successor *)
Lemma node_advance_rep n es q : node_rep n es -> node_rep (node_advance q n) es.
Proof. intros []. split; cbn; auto with credb. Qed.

Lemma insert_post_pass m pg pg1 bk sz av p q n es c :
  insert_post m (<[p := node_advance q n]> pg1) bk sz av q (nd_successor_version n) c ->
  p <> INVALID_PAGE_NO -> pg !! p = Some n -> node_rep n es -> eins es = None -> p ∉ c.*1 ->
  (forall r, r <> p -> pg1 !! r = pg !! r) ->
  insert_post m pg bk sz av p (nd_version n) ((p, es) :: c).
Proof.
  intros (pg' & av' & c' & Hm & Hav & Hc & He2 & Hoff & Hpages & Hstep) Hp Hsp Hr He Hnd Hpg.
  exists pg', av', ((p, es) :: c'). split_and!; [done..| | | | |].
  - split_and!; [done..|]. exists (node_advance q n).
    rewrite Hoff by (rewrite ?lookup_insert_eq; eauto). rewrite lookup_insert_eq.
    split_and!; [done|by apply node_advance_rep|done|done].
  - cbn. by rewrite He, He2.
  - intros r [Hrp Hrc]%not_elem_of_cons Hsr.
    rewrite <-Hpg in Hsr |- * by done. rewrite Hoff; rewrite ?lookup_insert_ne by done; done.
  - change (((p, es) :: c').*1) with (p :: c'.*1). change (((p, es) :: c).*1) with (p :: c.*1).
    destruct Hpages as [->|(r & Hr' & ->)]; [by left|]. right. exists r. split; [|done].
    destruct (decide (r = p)) as [->|]; [by rewrite lookup_insert_eq in Hr'|].
    by rewrite lookup_insert_ne, Hpg in Hr'.
  - destruct Hstep as [Hold Hnew]. split.
    + intros r n1 Hr1. destruct (decide (r = p)) as [->|Hne].
      * exists (node_advance q n). rewrite Hoff by (rewrite ?lookup_insert_eq; eauto). rewrite lookup_insert_eq.
        split; [done|]. right. assert (n1 = n) as -> by congruence. split; [apply Hr|done].
      * apply Hold. by rewrite lookup_insert_ne, Hpg.
    + intros r n1 Hr1. assert (r <> p) by congruence. apply Hnew. by rewrite lookup_insert_ne, Hpg.
Qed.

Lemma insert_post_new m pg pg1 bk sz av p q n n' es es' :
  st_is m (<[q := n']> (<[p := node_advance q n]> pg1)) bk sz (av - 1) ->
  p <> INVALID_PAGE_NO -> q <> INVALID_PAGE_NO -> pg !! p = Some n -> pg !! q = None ->
  node_rep n es -> eins es = None -> eins [] = Some es' -> node_rep n' es' ->
  nd_version n' = version_increment 0 ->
  nd_successor n' = INVALID_PAGE_NO -> nd_successor_version n' = 0 ->
  nd_successor_version n = 0 ->
  (forall r, r <> p -> r <> q -> pg1 !! r = pg !! r) ->
  insert_post m pg bk sz av p (nd_version n) [(p, es)].
Proof.
  intros Hm Hp Hq Hsp Hnq Hr He Henil Hr' Hv' Hs' Hsv' Hsv Hpg.
  assert (q <> p) as Hqp by congruence.
  exists (<[q := n']> (<[p := node_advance q n]> pg1)), (av - 1), [(p, es); (q, es')].
  split_and!; [done|lia| | | | |].
  - split_and!; [done..|]. exists (node_advance q n).
    rewrite lookup_insert_ne, lookup_insert_eq by done.
    split_and!; [done|by apply node_advance_rep|done|].
    change (nd_successor (node_advance q n)) with q. split_and!; [done..|]. exists n'.
    rewrite lookup_insert_eq. split_and!; [done..| |by split]. cbn. by rewrite Hv', Hsv.
  - cbn. by rewrite He, Henil.
  - intros r [Hrp _]%not_elem_of_cons Hsr.
    assert (r <> q) by (intros ->; rewrite Hnq in Hsr; by destruct Hsr).
    by rewrite !lookup_insert_ne, Hpg.
  - right. by exists q.
  - split.
    + intros r n1 Hr1. assert (r <> q) by congruence. rewrite lookup_insert_ne by done.
      destruct (decide (r = p)) as [->|Hne].
      * exists (node_advance q n). rewrite lookup_insert_eq. split; [done|]. right. assert (n1 = n) as -> by congruence.
        split; [apply Hr|done].
      * exists n1. rewrite lookup_insert_ne, Hpg by done. eauto.
    + intros r n1 Hr1. assert (r <> p) by congruence. destruct (decide (r = q)) as [->|Hne].
      * rewrite lookup_insert_eq. congruence.
      * rewrite !lookup_insert_ne, Hpg by done. congruence.
Qed.

Lemma insert_loop_ok flush fuel m pg bk sz av p n es c :
  st_is m pg bk sz av -> 0 < av -> p <> INVALID_PAGE_NO -> pg !! p = Some n -> node_rep n es ->
  chain pg (nd_successor n) (nd_successor_version n) c -> NoDup (p :: c.*1) ->
  (length c + 2 <= fuel)%nat ->
  wp (insert_loop ins flush fuel p)
    (fun _ m' => insert_post m' pg bk sz av p (nd_version n) ((p, es) :: c)) m.
Proof.
  revert fuel m pg p n es. induction c as [|[q es1] c IH];
    intros fuel m pg p n es Hm Hav Hp Hn Hr Hc [Hpc Hnd]%NoDup_cons Hf;
    (destruct fuel as [|fuel]; [lia|]);
    (destruct (eins es) as [es'|] eqn:He;
     [eapply wp_mono; [by eapply insert_loop_here|]; cbv beta;
      intros _ m' (n' & ? & ? & ? & ? & ?); by eapply insert_post_here|]);
    cbn [insert_loop]; pose proof (ins_spec n es Hr) as Hins; rewrite He in Hins;
    (apply wp_bind; eapply wp_mono; [by eapply on_store_get|]; cbv beta; intros ? m1 [-> Hm1];
     rewrite Hins; apply wp_bind; apply wp_ret; apply wp_bind;
     eapply get_successor_modify; [done..|by left|]; intros m2 Hm2).
  - destruct Hc as [Hs Hsv]. rewrite Hs. eapply wp_mono; [by eapply get_node_internal_create|].
    cbv beta. intros ? m3 (q & -> & Hq & Hq' & Hm3).
    assert (q <> p) as Hqp by (intros ->; by rewrite lookup_insert_eq in Hq).
    rewrite lookup_insert_ne in Hq by done.
    eexists q, _, _. split; [done|]. split; [done|].
    split; [by rewrite lookup_insert_ne, lookup_insert_eq by done|]. intros m4 Hm4.
    destruct (eins []) as [es'|] eqn:Henil; [|done].
    destruct fuel as [|fuel]; [cbn in Hf; lia|].
    apply wp_bind. apply (wp_mono _ (fun _ m' => st_is m' (<[p := node_advance q n]>
      (<[q := node_new]> (<[p := node_increment_version_no n]> pg))) bk sz (av - 1))).
    { destruct flush; [|by apply wp_ret]. eapply on_store_flush; [done|].
      by rewrite lookup_insert_ne, lookup_insert_eq by done. }
    intros _ m5 Hm5. eapply wp_mono; [eapply (insert_loop_here _ _ _ _ _ _ _ _ node_new []); [done| | |done]|].
    + by rewrite lookup_insert_ne, lookup_insert_eq by done.
    + split; [done|constructor|done|unfold version_wf, MAX_VALUE; cbn; lia..].
    + cbv beta. intros _ m6 (n' & ? & ? & ? & ? & ?).
      eapply insert_post_new with (n' := n'); eauto. intros. by rewrite !lookup_insert_ne.
  - destruct Hc as (Hs & Hq & n1 & Hn1 & Hr1 & Hv1 & Hc1). rewrite Hs in *.
    apply not_elem_of_cons in Hpc as [Hpq Hpc]. cbn [fst] in Hpq.
    assert (<[p := node_increment_version_no n]> pg !! q = Some n1) as Hq1
      by (by rewrite lookup_insert_ne).
    eapply wp_mono; [by eapply get_node_internal_found|]. cbv beta. intros ? m3 [-> Hm3].
    eexists q, _, _. split; [done|]. split; [done|].
    split; [by rewrite lookup_insert_eq|]. intros m4 Hm4. rewrite insert_insert_eq in Hm4.
    assert (<[p := node_advance q n]> pg !! q = Some n1) as Hq2 by (by rewrite lookup_insert_ne).
    apply wp_bind. apply (wp_mono _ (fun _ m' => st_is m' (<[p := node_advance q n]> pg) bk sz av)).
    { destruct flush; [|by apply wp_ret]. by eapply on_store_flush. }
    intros _ m5 Hm5. eapply wp_mono.
    { apply (IH fuel m5 (<[p := node_advance q n]> pg) q n1 es1); [done..| |done|cbn in Hf; lia].
      eapply chain_frame; [|done]. intros r Hr'. rewrite lookup_insert_ne; [done|]. by intros ->. }
    cbv beta. intros _ m6 Hpost. rewrite Hv1 in Hpost.
    eapply insert_post_pass; [done..|eauto|done|done| |done]. by apply not_elem_of_cons.
Qed.

Lemma chain_insert_empty : chain_insert [[]] = chain_insert [].
Proof. cbn. by destruct (eins []). Qed.

End Insert.

(** *** Whole maps *)

(** [map_inv m cs av]: every bucket [bid] leads to the chain [cs bid], and no page
    is in two chains. *)
Definition map_inv (m : amap S) (cs : Z -> list (Z * list (K * V))) (av : Z) : Prop :=
  exists pg, st_is m pg (am_buckets m) (am_size m) av /\
    (forall bid, chain pg (bk_page_no (get_bucket bid m)) (bk_version (get_bucket bid m)) (cs bid)) /\
    (forall bid, NoDup (cs bid).*1) /\
    (forall b1 b2 q, q ∈ (cs b1).*1 -> q ∈ (cs b2).*1 -> b1 = b2).

Lemma map_inv_init s av :
  ps_wf s -> ps_avail s = av -> map_inv (amap_init s) (fun _ => []) av.
Proof.
  intros Hw Ha. exists (ps_pages s). split_and!; [done| |constructor|].
  - intros bid. unfold get_bucket. cbn. by rewrite lookup_empty.
  - by intros b1 b2 q []%elem_of_nil.
Qed.

(** The state of a map after a read *)
Lemma map_inv_same m m' pg cs av :
  st_is m pg (am_buckets m) (am_size m) av -> st_is m' pg (am_buckets m) (am_size m) av ->
  map_inv m cs av -> map_inv m' cs av.
Proof.
  intros (_ & Hp & _) Hm' (pg0 & (Hw & Hp0 & Ha & _ & _) & Hc & Hnd & Hdisj).
  assert (pg0 = pg) as -> by congruence. exists pg.
  destruct Hm' as (Hw' & Hp' & Ha' & Hb' & Hs').
  split_and!; [by split_and!| |done..].
  intros bid. unfold get_bucket. rewrite Hb'. apply Hc.
Qed.

(** The bucket points to the node of an insertion. *)
Lemma get_node_create m pg bk sz av bid c :
  st_is m pg bk sz av -> 0 < av ->
  chain pg (bk_page_no (get_bucket bid m)) (bk_version (get_bucket bid m)) c ->
  wp (get_node bid true false) (fun r m' => exists q n es c' pg' av',
    r = Some q /\ q <> INVALID_PAGE_NO /\
    st_is m' pg' (<[bid := mkBucket q (version_increment (bk_version (get_bucket bid m)))]> bk) sz av' /\
    pg' !! q = Some n /\ node_rep n es /\ nd_version n = bk_version (get_bucket bid m) /\
    chain pg' (nd_successor n) (nd_successor_version n) c' /\
    ((c = (q, es) :: c' /\ pg' = pg /\ av' = av) \/
     (c = [] /\ es = [] /\ c' = [] /\ pg !! q = None /\
      pg' = <[q := node_new]> pg /\ av' = av - 1))) m.
Proof.
  intros Hm Hav Hc. apply wp_bind. change (wp get_st ?Q m) with (Q m m). cbv beta zeta.
  set (b := get_bucket bid m) in *. cbn [orb]. apply wp_bind.
  assert (forall (q : Z) pg' (m1 : amap S) n av' Q, st_is m1 pg' bk sz av' -> pg' !! q = Some n ->
    (forall m2, st_is m2 pg' (<[bid := mkBucket q (version_increment (bk_version b))]> bk) sz av' ->
       Q (Some q) m2) ->
    wp (_ ← modify_st (set_bucket bid (mkBucket q (version_increment (bk_version b))));
        _ ← on_store (ps_flush q); mret (Some q)) Q m1) as Htail.
  { intros q pg' m1 n av' Q (Hw & Hp & Ha & Hb & Hs) Hn HQ. apply wp_bind, wp_modify. apply wp_bind.
    eapply wp_mono; [eapply (on_store_flush _ pg'); [|done]; unfold st_is; cbn; rewrite Hb; by split_and!|].
    cbv beta. intros _ m2 Hm2. apply wp_ret. by apply HQ. }
  destruct c as [|[q es] c].
  - destruct Hc as [Hc Hv]. rewrite Hc. eapply wp_mono; [by eapply get_node_internal_create|].
    cbv beta. intros ? m1 (q & -> & Hq & Hq' & Hm1).
    eapply Htail; [done|by rewrite lookup_insert_eq|]. intros m2 Hm2.
    exists q, node_new, [], [], (<[q := node_new]> pg), (av - 1).
    split_and!; [done..|by rewrite lookup_insert_eq| |done|by split|by right].
    split; [done|constructor|done|unfold version_wf, MAX_VALUE; cbn; lia..].
  - destruct Hc as (Hp & Hq & n & Hn & Hr & Hv & Hc). rewrite Hp in *.
    eapply wp_mono; [by eapply get_node_internal_found|]. cbv beta. intros ? m1 [-> Hm1].
    eapply Htail; [done..|]. intros m2 Hm2. exists q, n, es, c, pg, av.
    split_and!; try done. by left.
Qed.

(** The bucket records that its node is about to be modified. *)
Lemma get_node_modify m pg bk sz av bid q es c :
  st_is m pg bk sz av ->
  chain pg (bk_page_no (get_bucket bid m)) (bk_version (get_bucket bid m)) ((q, es) :: c) ->
  wp (get_node bid false true) (fun r m' => r = Some q /\
    st_is m' pg (<[bid := mkBucket q (version_increment (bk_version (get_bucket bid m)))]> bk) sz av) m.
Proof.
  intros Hm (Hp & Hq & n & Hn & Hr & Hv & Hc). apply wp_bind, wp_get. cbv zeta.
  set (b := get_bucket bid m) in *. rewrite Hp in *.
  rewrite (proj2 (Z.eqb_neq q _) Hq). cbn [orb andb negb]. apply wp_bind.
  eapply wp_mono; [by eapply get_node_internal_found|]. cbv beta. intros ? m1 [-> Hm1].
  apply wp_bind, wp_modify, wp_bind. destruct Hm1 as (Hw & Hpg & Ha & Hb & Hs).
  eapply wp_mono; [eapply (on_store_flush _ pg); [|done]; unfold st_is; cbn; rewrite Hb; by split_and!|].
  cbv beta. intros _ m2 Hm2. by apply wp_ret.
Qed.

(** The chain of one bucket has been replaced. *)
Lemma map_inv_update m m' pg pg' cs av av' bid q v c :
  st_is m pg (am_buckets m) (am_size m) av -> map_inv m cs av ->
  st_is m' pg' (<[bid := mkBucket q v]> (am_buckets m)) (am_size m) av' ->
  chain pg' q v c -> NoDup c.*1 ->
  (forall r, r ∉ (cs bid).*1 -> is_Some (pg !! r) -> pg' !! r = pg !! r) ->
  (forall r, r ∈ c.*1 -> r ∈ (cs bid).*1 \/ pg !! r = None) ->
  map_inv m' (fun b => if decide (b = bid) then c else cs b) av'.
Proof.
  intros (_ & Hp & _) (pg0 & (_ & Hp0 & _) & Hc & Hnd & Hdisj) Hm' Hc' Hnd' Hoff Hin.
  assert (pg0 = pg) as -> by congruence. assert (Hm'' := Hm').
  destruct Hm'' as (Hw' & Hp' & Ha' & Hb' & Hs'). exists pg'.
  assert (forall b r, b <> bid -> r ∈ (cs b).*1 -> r ∉ c.*1) as Hsep.
  { intros b r Hb Hr [Hr'|Hr']%Hin; [by apply Hb, (Hdisj _ _ r)|].
    destruct (chain_dom _ _ _ _ _ (Hc b) Hr) as [n Hn]. congruence. }
  split_and!.
  - by rewrite Hb', Hs'.
  - intros b. unfold get_bucket. rewrite Hb'. case_decide as Eb.
    + subst. by rewrite lookup_insert_eq.
    + rewrite lookup_insert_ne by done. eapply chain_frame; [|apply Hc].
      intros r Hr. apply Hoff; [|exact (chain_dom _ _ _ _ _ (Hc b) Hr)].
      intros Hr'. by apply Eb, (Hdisj _ _ r).
  - intros b. by case_decide.
  - intros b1 b2 r. case_decide as E1; case_decide as E2; [congruence|..|apply Hdisj].
    + intros H1' H2'. exfalso. by apply (Hsep b2 r E2 H2').
    + intros H1' H2'. exfalso. by apply (Hsep b1 r E1 H1').
Qed.

Lemma insert_entry_ok ins eins flush m cs av bid :
  (forall n es, node_rep n es ->
    match eins es with
    | None => ins n = Ok None
    | Some es' => exists n', ins n = Ok (Some n') /\ node_rep n' es' /\
        nd_version n' = version_increment (nd_version n) /\
        nd_successor n' = nd_successor n /\ nd_successor_version n' = nd_successor_version n
    end) -> eins [] <> None ->
  map_inv m cs av -> 1 < av ->
  wp (insert_entry ins flush bid) (fun _ m' => exists cs' av',
    map_inv m' cs' av' /\ av - 2 <= av' /\ (cs' bid).*2 = chain_insert eins (cs bid).*2 /\
    (forall b, b <> bid -> cs' b = cs b) /\ am_size m' = am_size m /\
    pages_step (ps_pages (am_store m)) (ps_pages (am_store m')) /\
    exists q, am_buckets m' = <[bid := mkBucket q (version_increment (bk_version (get_bucket bid m)))]> (am_buckets m)) m.
Proof.
  intros Hins Hnil Hinv Hav. assert (Hinv' := Hinv).
  destruct Hinv' as (pg & Hm & Hc & Hnd & Hdisj).
  apply wp_bind, wp_get. apply wp_bind.
  eapply wp_mono; [eapply get_node_create; [exact Hm|lia|apply Hc]|]. cbv beta.
  intros ? m1 (q & n & es & c & pg1 & av1 & -> & Hq & Hm1 & Hn & Hr & Hv & Hc1 & Hcase).
  assert ((length c <= size pg)%nat) as Hlen.
  { pose proof (chain_length _ _ _ _ (Hc bid) (Hnd bid)) as Hl.
    destruct Hcase as [(E & _)|(_ & _ & -> & _)]; [rewrite E in Hl|]; cbn in *; lia. }
  assert (NoDup (q :: c.*1)) as Hndc.
  { specialize (Hnd bid). destruct Hcase as [(E & _)|(_ & _ & -> & _)].
    - by rewrite E in Hnd.
    - apply NoDup_singleton. }
  eapply wp_mono.
  { eapply insert_loop_ok; [done..| | | | | | |]; [lia|done..|].
    unfold chain_fuel. destruct Hm as (_ & -> & _). lia. }
  cbv beta. intros _ m2 (pg2 & av2 & c2 & Hm2 & Hav2 & Hc2 & He2 & Hoff & Hpages & Hstep).
  rewrite Hv in Hc2. exists (fun b => if decide (b = bid) then c2 else cs b), av2.
  assert (forall r, r ∈ q :: c.*1 -> is_Some (pg1 !! r)) as Hdom.
  { intros r [->|Hr']%elem_of_cons; [eauto|]. exact (chain_dom _ _ _ _ _ Hc1 Hr'). }
  assert (forall r, pg1 !! r = None -> pg !! r = None) as Hfresh.
  { intros r Hr'. destruct Hcase as [(_ & -> & _)|(_ & _ & _ & Hq' & -> & _)]; [done|].
    destruct (decide (r = q)) as [->|]; [done|]. by rewrite lookup_insert_ne in Hr'. }
  change (((q, es) :: c).*1) with (q :: c.*1) in *.
  split_and!.
  - eapply map_inv_update; [done..| | |].
    + destruct Hpages as [->|(r & Hr' & ->)]; [done|].
      apply NoDup_app. split_and!; [done| |apply NoDup_singleton].
      intros x Hx%Hdom ->%list_elem_of_singleton. rewrite Hr' in Hx. by destruct Hx.
    + intros r Hr' Hsr. destruct Hcase as [(E & -> & _)|(E & _ & -> & Hq' & -> & _)].
      * apply Hoff; [|done]. by rewrite E in Hr'.
      * assert (r <> q) by (intros ->; rewrite Hq' in Hsr; by destruct Hsr).
        rewrite Hoff; [by rewrite lookup_insert_ne| |by rewrite lookup_insert_ne].
        by apply not_elem_of_cons; split; [|apply not_elem_of_nil].
    + intros r Hr'.
      assert (r ∈ q :: c.*1 \/ pg !! r = None) as [Hr2|]; [|
        destruct Hcase as [(-> & _)|(_ & _ & -> & Hq' & _)]; [by left|]|by right].
      { destruct Hpages as [E|(x & Hx & E)]; rewrite E in Hr'; [by left|].
        apply elem_of_app in Hr' as [?| ->%list_elem_of_singleton]; [by left|right; auto]. }
      right. by apply list_elem_of_singleton in Hr2 as ->.
  - destruct Hcase as [(_ & _ & ->)|(_ & _ & _ & _ & _ & ->)]; lia.
  - rewrite decide_True by done. rewrite He2.
    destruct Hcase as [(-> & _)|(-> & -> & -> & _)]; [done|]. by apply chain_insert_empty.
  - intros b Hb. by rewrite decide_False.
  - by destruct Hm2 as (_ & _ & _ & _ & ->).
  - destruct Hm as (_ & -> & _). destruct Hm2 as (_ & -> & _). destruct Hstep as [Hold Hnew].
    destruct Hcase as [(_ & -> & _)|(E & _ & _ & Hq' & -> & _)]; [by split|]. split.
    + intros r n1 Hr1. apply Hold. rewrite lookup_insert_ne by congruence. done.
    + intros r n1 Hr1 Hr2. destruct (decide (r = q)) as [->|Hne]; [|apply (Hnew r); [by rewrite lookup_insert_ne|done]].
      specialize (Hc bid). rewrite E in Hc. destruct Hc as [_ Hv0]. rewrite Hv0 in Hc2.
      destruct c2 as [|[q2 es2] c2]; [by destruct Hpages as [|(? & _ & ?)]|].
      destruct Hc2 as (_ & _ & n2 & Hn2 & _ & Hv2 & _). congruence.
  - destruct Hm2 as (_ & _ & _ & -> & _). by exists q.
Qed.

(** *** Replayed pages

    The host of the enclave keeps the pages and may hand back other versions of
    them than the ones that were stored last. *)

Definition replayed (pg pg2 : gmap Z node) : Prop :=
  forall q, pg2 !! q = pg !! q \/
    exists n n', pg !! q = Some n /\ pg2 !! q = Some n' /\ nd_version n' <> nd_version n.

Definition is_stale (e : exn) : Prop := e = Staleness_detected.

(** The node a handle stands for is the genuine one. *)
Definition genuine (pg pg2 : gmap Z node) c : Prop :=
  match c with
  | [] => True
  | (q, _) :: _ => pg2 !! q = pg !! q
  end.

Lemma get_node_internal_replay m pg pg2 bk sz av p v c :
  st_is m pg2 bk sz av -> replayed pg pg2 -> chain pg p v c ->
  wpe is_stale (get_node_internal p v false)
    (fun r m' => r = fst <$> head c /\ st_is m' pg2 bk sz av /\ genuine pg pg2 c) m.
Proof.
  intros Hm Hrep Hc. destruct c as [|[q es] c]; [destruct Hc as [-> _]; by split_and!|].
  destruct Hc as (-> & Hq & n & Hn & _ & Hv & _). destruct (Hrep q) as [Eq|(n0 & n' & Hn0 & Hn' & Hne)].
  - apply wpe_of_wp. rewrite Hn in Eq. eapply wp_mono; [by eapply get_node_internal_found|].
    cbv beta. intros r m' [-> Hm']. split_and!; [done..|]. cbn. by rewrite Eq, Hn.
  - assert (n0 = n) as -> by congruence. rewrite Hv in Hne.
    destruct (get_node_internal_stale m pg2 bk sz av q v false n' Hm Hq Hn' Hne) as (m' & E & _).
    unfold wpe. by rewrite E.
Qed.

Lemma walk_replay {A R} (visit : A -> node -> result (A + R)) g fuel m pg pg2 bk sz av p v c acc :
  (forall acc n es, node_rep n es -> visit acc n = Ok (g acc es)) ->
  st_is m pg2 bk sz av -> replayed pg pg2 -> chain pg p v c -> genuine pg pg2 c ->
  (length c <= fuel)%nat ->
  wpe is_stale (walk visit fuel (fst <$> head c) acc) (fun r _ => r = walk_list g c.*2 acc) m.
Proof.
  intros Hvisit. revert m p v c acc.
  induction fuel as [|fuel IH]; intros m p v [|[q es] c] acc Hm Hrep Hc Hg Hf;
    try (by apply wpe_of_wp, wp_ret); [cbn in Hf; lia|].
  destruct Hc as (-> & Hq & n & Hn & Hr & Hv & Hc).
  change (fst <$> head ((q, es) :: c)) with (Some q). change (((q, es) :: c).*2) with (es :: c.*2).
  cbn [genuine] in Hg. rewrite Hn in Hg.
  cbn [walk walk_list]. apply wpe_bind. eapply wpe_mono; [apply wpe_of_wp; by eapply on_store_get|].
  cbv beta. intros ? m1 [-> Hm1]. rewrite (Hvisit acc n es Hr).
  apply wpe_bind. unfold lift_res, wpe at 1.
  destruct (g acc es) as [acc'|r]; [|done].
  apply wpe_bind. unfold get_successor. apply wpe_bind.
  eapply wpe_mono; [apply wpe_of_wp; by eapply on_store_get|]. cbv beta zeta. intros ? m2 [-> Hm2].
  apply wpe_bind. cbn [orb andb]. unfold wpe at 1. cbn. apply wpe_bind.
  eapply wpe_mono; [by eapply get_node_internal_replay|]. cbv beta. intros ? m3 (-> & Hm3 & Hg3).
  unfold wpe at 1. cbn. eapply IH; [done..|]. cbn in Hf. lia.
Qed.

Lemma replayed_size pg pg2 : replayed pg pg2 -> size pg2 = size pg.
Proof.
  intros Hrep. rewrite <-!(size_dom (D := gset Z)). f_equal. apply leibniz_equiv. intros q.
  rewrite !elem_of_dom. destruct (Hrep q) as [->|(n & n' & -> & -> & _)]; [done|].
  split; intros _; by eexists.
Qed.

End Specs.
