(* ===== verification/HashMap.v ===== *)
(** * The hash map

    Models [src/enclave/HashMap.h] and [src/enclave/HashMap.cpp]: the map from
    object keys to event identifiers that is the primary index of a collection.
    The key and value types, their stream operators and the hash function are
    those of [KeyType] and [ValueType]; a value has constant size.  Proved
    against the interface of the page store. *)

From Stdlib Require Import Ascii.
From S2P Require Import Prelude EventId Bitstream VersionNumber PageStore Hash HashMapNode.
From S2P Require Import AbstractMap.

(** What a map promises to the component that uses it: [kv_rep m f] says that
    [m] maps as [f] does and can take [room] more insertions. *)
Class KVMap (M K V : Type) : Type := {
  kv_rep : M -> (K -> option V) -> Z -> Prop;
  kv_key : K -> Prop;
  kv_value : V -> Prop;
  kv_get : K -> ST M (option V);
  kv_insert : K -> V -> ST M unit;
  kv_keys : ST M (list K);
}.

Class KVMapLaws (M K V : Type) `{EqDecision K} `{KVMap M K V} : Prop := {
  kv_get_spec : forall m f room k, kv_rep m f room ->
    wp (kv_get k) (fun r m' => r = f k /\ kv_rep m' f room) m;
  kv_insert_spec : forall m f room k v, kv_rep m f room -> 0 < room -> kv_key k -> kv_value v ->
    wp (kv_insert k v) (fun _ m' =>
      kv_rep m' (fun k' => if decide (k' = k) then Some v else f k') (room - 1)) m;
  kv_keys_spec : forall m f room, kv_rep m f room ->
    wp kv_keys (fun ks m' => NoDup ks /\ Forall kv_key ks /\ (forall k, k ∈ ks <-> f k <> None) /\
      kv_rep m' f room) m;
}.

Section HashMap.
Context {K V : Type} `{EqDecision K, Countable V, Codec K, Codec V}.
Context {S : Type} `{PageStore S node}.
Variables (sizeof_node : Z) (hash : K -> Z).

Definition to_bucket (key : K) : Z := u16 (hash key mod NUM_BUCKETS).

(** Returns what is written to [out_changes]. *)
Definition HashMap_insert (key : K) (value : V) : ST (amap S) (Z * bucket_t) :=
  let bid := to_bucket key in
  _ ← insert_entry (node_insert sizeof_node key value) true bid;
  _ ← modify_st (fun m => set_size (u64 (am_size m + 1)) m);
  m ← get_st;
  mret (bid, get_bucket bid m).

(** [None] is the result [false]. *)
Definition HashMap_get (key : K) : ST (amap S) (option V) :=
  m ← get_st;
  node ← get_node (to_bucket key) false false;
  r ← walk (fun _ n => match node_get key n with
                       | Ok (Some v) => Ok (inr v)
                       | Ok None => Ok (inl tt)
                       | Throw e => Throw e
                       end) (chain_fuel m) node tt;
  mret (match r with inr v => Some v | inl _ => None end).

(** ** Iterators

    [it_nodes] are the pages of the handles in [m_current_nodes], the last one
    is the current node. *)
Record iterator_t : Type := mkIter { it_bucket : Z; it_nodes : list Z; it_pos : Z; }.

Definition it_at_end (it : iterator_t) : bool := NUM_BUCKETS <=? it_bucket it.
Definition it_clear (it : iterator_t) : iterator_t := mkIter NUM_BUCKETS [] (it_pos it).

(** [fuel] bounds the buckets that are left. *)
Fixpoint it_next_bucket (fuel : nat) (it : iterator_t) : ST (amap S) iterator_t :=
  if it_bucket it <? NUM_BUCKETS then
    match fuel with
    | O => throw (Undefined "out of fuel")
    | Datatypes.S fuel =>
        current ← get_node (it_bucket it) false false;
        match current with
        | Some p => mret (mkIter (it_bucket it) [p] (it_pos it))
        | None => it_next_bucket fuel (mkIter (u16 (it_bucket it + 1)) [] (it_pos it))
        end
    end
  else if it_bucket it =? NUM_BUCKETS then mret (it_clear it) else mret it.

Definition bucket_fuel : nat := Z.to_nat NUM_BUCKETS.

(** The constructor; [begin] is at bucket 0 *)
Definition it_new (bpos : Z) : ST (amap S) iterator_t :=
  if bpos <? NUM_BUCKETS then it_next_bucket bucket_fuel (mkIter bpos [] 0)
  else mret (mkIter bpos [] 0).

Definition it_next (it : iterator_t) : ST (amap S) iterator_t :=
  if it_at_end it then throw (Runtime_error "Alreayd at end")
  else match last (it_nodes it) with
  | None => throw (Runtime_error "Cannot increment HashMap iterator: invalid state")
  | Some current =>
      let pos := u32 (it_pos it + 1) in
      n ← on_store (ps_get current);
      if nd_size n <=? pos then
        succ ← get_successor current false false;
        match succ with
        | Some p => mret (mkIter (it_bucket it) (it_nodes it ++ [p]) 0)
        | None => it_next_bucket bucket_fuel (mkIter (u16 (it_bucket it + 1)) (it_nodes it) 0)
        end
      else mret (mkIter (it_bucket it) (it_nodes it) pos)
  end.

(** The entry behind [key()] and [value()] *)
Definition it_entry (it : iterator_t) : ST (amap S) (K * V) :=
  if it_at_end it then throw (Runtime_error "Alreayd at end")
  else match last (it_nodes it) with
  | None => throw (Undefined "rbegin() of an empty vector")
  | Some current =>
      n ← on_store (ps_get current);
      lift_res (node_get_at (Z.to_nat (it_pos it)) n)
  end.

Fixpoint increment_versions (nodes : list Z) : ST (amap S) unit :=
  match nodes with
  | [] => mret tt
  | p :: nodes =>
      _ ← node_modify p node_increment_version_no;
      _ ← on_store (ps_flush p);
      increment_versions nodes
  end.

(** [set_value]: the current node, then its predecessors up the chain, then the
    bucket.  Returns what is written to [out_changes]. *)
Definition it_set_value (it : iterator_t) (new_value : V) : ST (amap S) (Z * bucket_t) :=
  match reverse (it_nodes it) with
  | [] => throw (Undefined "rbegin() of an empty vector")
  | current :: parents =>
      kv ← it_entry it;
      n ← on_store (ps_get current);
      r ← lift_res (node_insert sizeof_node kv.1 new_value n);
      _ ← (match r with Some n' => on_store (ps_put current n') | None => mret tt end);
      _ ← on_store (ps_flush current);
      _ ← increment_versions parents;
      m ← get_st;
      let b := get_bucket (it_bucket it) m in
      let b := mkBucket (bk_page_no b) (version_increment (bk_version b)) in
      _ ← modify_st (set_bucket (it_bucket it) b);
      mret (it_bucket it, b)
  end.

(** [LinearScanKeyProvider]: [get_next_key] and [count_rest] *)
Definition get_next_key (it : iterator_t) : ST (amap S) (option K * iterator_t) :=
  if it_at_end it then mret (None, it)
  else kv ← it_entry it; it ← it_next it; mret (Some kv.1, it).

Fixpoint count_rest (fuel : nat) (it2 : iterator_t) (cnt : Z) : ST (amap S) Z :=
  if it_at_end it2 then mret cnt
  else match fuel with
  | O => throw (Undefined "out of fuel")
  | Datatypes.S fuel => it2 ← it_next it2; count_rest fuel it2 (u64 (cnt + 1))
  end.

(** A client that asks for keys until there are none ([size()] counts every
    insertion, so there are no more keys than that) *)
Fixpoint scan_keys (fuel : nat) (it : iterator_t) : ST (amap S) (list K) :=
  match fuel with
  | O => throw (Undefined "out of fuel")
  | Datatypes.S fuel =>
      r ← get_next_key it;
      match r with
      | (None, _) => mret []
      | (Some k, it) => ks ← scan_keys fuel it; mret (k :: ks)
      end
  end.

Definition HashMap_keys : ST (amap S) (list K) :=
  m ← get_st; it ← it_new 0; scan_keys (Datatypes.S (Z.to_nat (am_size m))) it.

End HashMap.

(** ** What a hash map maps *)

Section Spec.
Context {K V : Type} `{EqDecision K, Countable V, CodecLaws K, CodecLaws V, !FixedSize V}.
Context {S : Type} `{PageStoreLaws S node}.
Variables (sizeof_node : Z) (hash : K -> Z).
Hypothesis sizeof_node_small : 0 <= sizeof_node < MAX_NODE_SIZE - 24.

Implicit Types (key : K) (value : V) (es : list (K * V)) (ess : list (list (K * V))).

Abbreviation eins key value := (entries_insert (K := K) (V := V) sizeof_node key value).

(** The value found in the nodes of a chain, from the first one on *)
Fixpoint chain_find (key : K) (ess : list (list (K * V))) : option V :=
  match ess with
  | [] => None
  | es :: ess => match assoc_find key es with Some v => Some v | None => chain_find key ess end
  end.

Definition map_find (cs : Z -> list (Z * list (K * V))) (key : K) : option V :=
  chain_find key (cs (to_bucket hash key)).*2.

Lemma eins_empty key value : eins key value [] <> None.
Proof.
  unfold entries_insert, node_full. rewrite bool_decide_eq_false_2 by apply not_elem_of_nil.
  unfold MAX_NODE_SIZE in *. cbn [length entries_bytes mjoin list_join fmap list_fmap].
  case_match; [bool_hyps; cbn in *; lia|done].
Qed.

Lemma chain_find_insert key value ess key' :
  chain_find key' (chain_insert (eins key value) ess) =
  if decide (key' = key) then Some value else chain_find key' ess.
Proof.
  induction ess as [|es ess IH]; cbn.
  - destruct (eins key value []) as [es|] eqn:E; [|by apply eins_empty in E]. cbn.
    rewrite (entries_insert_find _ _ _ _ _ key' E). cbn. by case_decide.
  - destruct (eins key value es) as [es'|] eqn:E; cbn.
    + rewrite (entries_insert_find _ _ _ _ _ key' E). by case_decide.
    + apply entries_insert_full in E as [Hk _]. rewrite IH.
      destruct (decide (key' = key)) as [->|]; [|done].
      by rewrite (proj2 (assoc_find_None key es) Hk).
Qed.

(** [HashMap::insert] updates the map at one key. *)
Lemma HashMap_insert_ok m cs av key value :
  map_inv m cs av -> 1 < av -> codec_wf key -> codec_wf value ->
  wp (HashMap_insert sizeof_node hash key value) (fun r m' => exists cs' av',
    map_inv m' cs' av' /\ av - 2 <= av' /\
    r = (to_bucket hash key, get_bucket (to_bucket hash key) m') /\
    am_size m' = u64 (am_size m + 1) /\
    (cs' (to_bucket hash key)).*2 = chain_insert (eins key value) (cs (to_bucket hash key)).*2 /\
    (forall b, b <> to_bucket hash key -> cs' b = cs b) /\
    forall k, map_find cs' k = if decide (k = key) then Some value else map_find cs k) m.
Proof.
  intros Hinv Hav Hk Hv. apply wp_bind. eapply wp_mono.
  { eapply (insert_entry_ok _ (eins key value)); [|apply eins_empty|done|done].
    intros n es Hr. apply node_insert_rep; [lia|done..]. }
  cbv beta. intros _ m1 (cs' & av' & Hinv' & Hav' & He & Hoff & Hsz & _).
  apply wp_bind, wp_modify. apply wp_bind, wp_get. apply wp_ret.
  exists cs', av'. split_and!; [|done|done|cbn; by rewrite Hsz|done|done|].
  - destruct Hinv' as (pg & (? & ? & ? & ? & ?) & ? & ? & ?). by exists pg.
  - intros k. unfold map_find. destruct (decide (to_bucket hash k = to_bucket hash key)) as [E|E].
    + rewrite E, He. apply chain_find_insert.
    + rewrite Hoff by done. destruct (decide (k = key)) as [->|]; done.
Qed.

Lemma HashMap_get_ok m cs av key :
  map_inv m cs av ->
  wp (HashMap_get hash key) (fun r m' => r = map_find cs key /\ map_inv m' cs av /\
    am_size m' = am_size m) m.
Proof.
  intros Hinv. assert (Hinv' := Hinv). destruct Hinv' as (pg & Hm & Hc & Hnd & Hdisj).
  apply wp_bind, wp_get. apply wp_bind.
  eapply wp_mono; [exact (get_node_read m pg _ _ av _ _ Hm (Hc (to_bucket hash key)))|]. cbv beta. intros ? m1 [-> Hm1].
  apply wp_bind. eapply wp_mono.
  { eapply (walk_ok _ (fun (_ : unit) (es : list (K * V)) =>
      match assoc_find key es with Some v => inr v | None => inl tt end) (fun _ => True));
      [|by apply Forall_true|exact Hm1|exact (Hc _)|].
    - intros [] n es _ Hr. rewrite (node_get_rep _ _ _ Hr). by destruct (assoc_find key es).
    - unfold chain_fuel. destruct Hm as (_ & -> & _).
      pose proof (chain_length _ _ _ _ (Hc (to_bucket hash key)) (Hnd (to_bucket hash key))). lia. }
  cbv beta. intros ? m2 [-> Hm2]. apply wp_ret. split_and!.
  - unfold map_find. induction (cs (to_bucket hash key)).*2 as [|es ess IH]; cbn; [done|].
    by destruct (assoc_find key es).
  - by eapply map_inv_same.
  - by destruct Hm2 as (_ & _ & _ & _ & ->).
Qed.

(** ** The shape of the chains: no node is empty, all but the last are full, and
    every key is stored once, in its own bucket. *)

Definition keys_of (ess : list (list (K * V))) : list K := (mjoin ess).*1.

Fixpoint init_full (ess : list (list (K * V))) : Prop :=
  match ess with
  | [] => True
  | es :: ess => (ess = [] \/ node_full sizeof_node es = true) /\ init_full ess
  end.

Record chain_ok (bid : Z) (ess : list (list (K * V))) : Prop := {
  ok_nonempty : Forall (fun es => (0 < length es <= 1024)%nat) ess;
  ok_wf : Forall (Forall entry_wf) ess;
  ok_full : init_full ess;
  ok_nodup : NoDup (keys_of ess);
  ok_bucket : Forall (fun k => to_bucket hash k = bid) (keys_of ess);
}.

Definition map_ok (cs : Z -> list (Z * list (K * V))) : Prop :=
  forall bid, chain_ok bid (cs bid).*2.

Lemma keys_of_cons es ess : keys_of (es :: ess) = es.*1 ++ keys_of ess.
Proof. unfold keys_of. cbn. by rewrite fmap_app. Qed.

Lemma node_full_empty : node_full (K := K) (V := V) sizeof_node [] = false.
Proof. unfold node_full, MAX_NODE_SIZE in *. cbn. apply Z.leb_gt. lia. Qed.

(** An update in place keeps the size of the node. *)
Lemma node_full_set key value es :
  codec_wf value -> Forall entry_wf es ->
  node_full sizeof_node (assoc_set key value es) = node_full sizeof_node es.
Proof.
  intros Hv Hes. unfold node_full. do 4 f_equal.
  induction Hes as [|[k v] es [Hk Hv'] Hes IH]; [done|]. cbn [assoc_set fmap list_fmap fst snd].
  change (list_fmap _ _ ?f es) with (f <$> es). fold (assoc_set key value es).
  rewrite !entries_bytes_cons, !length_app, IH. case_decide; [|done].
  by rewrite (enc_fixed value v).
Qed.

(** The three ways an insertion can go at a node *)
Lemma chain_insert_cases key value es ess :
  chain_insert (eins key value) (es :: ess) =
  if decide (key ∈ es.*1) then assoc_set key value es :: ess
  else if node_full sizeof_node es then es :: chain_insert (eins key value) ess
  else (es ++ [(key, value)]) :: ess.
Proof.
  cbn [chain_insert]. unfold entries_insert at 1. destruct (decide (key ∈ es.*1)).
  - by rewrite bool_decide_eq_true_2.
  - rewrite bool_decide_eq_false_2 by done. by destruct (node_full sizeof_node es).
Qed.

Lemma chain_insert_nil key value : chain_insert (eins key value) [] = [[(key, value)]].
Proof.
  cbn. unfold entries_insert. rewrite bool_decide_eq_false_2 by apply not_elem_of_nil.
  by rewrite node_full_empty.
Qed.

(** Where a new key goes *)
Lemma chain_insert_keys key value ess :
  init_full ess ->
  keys_of (chain_insert (eins key value) ess) =
  if decide (key ∈ keys_of ess) then keys_of ess else keys_of ess ++ [key].
Proof.
  induction ess as [|es ess IH]; intros Hfull.
  { rewrite chain_insert_nil. by rewrite decide_False by apply not_elem_of_nil. }
  destruct Hfull as [Hf Hfull]. rewrite chain_insert_cases.
  destruct (decide (key ∈ es.*1)) as [Hin|Hin]; [|destruct (node_full sizeof_node es) eqn:E].
  - rewrite !keys_of_cons. rewrite decide_True by (apply elem_of_app; by left).
    f_equal. unfold assoc_set. rewrite <-list_fmap_compose. by apply list_fmap_ext.
  - rewrite !keys_of_cons, IH by done.
    destruct (decide (key ∈ keys_of ess)); destruct (decide (key ∈ es.*1 ++ keys_of ess)) as [H'|H'];
      rewrite elem_of_app in H'; try tauto. by rewrite app_assoc.
  - destruct Hf as [->|]; [|congruence]. unfold keys_of. cbn. rewrite !app_nil_r, fmap_app.
    by rewrite decide_False.
Qed.

Lemma chain_insert_full key value ess :
  codec_wf value -> Forall (Forall entry_wf) ess ->
  init_full ess -> init_full (chain_insert (eins key value) ess).
Proof.
  intros Hv Hwf. induction Hwf as [|es ess Hes Hess IH]; intros Hfull.
  { rewrite chain_insert_nil. by split; [left|]. }
  destruct Hfull as [Hf Hfull]. rewrite chain_insert_cases.
  destruct (decide (key ∈ es.*1)); [|destruct (node_full sizeof_node es) eqn:E]; cbn [init_full].
  - by rewrite node_full_set.
  - split; [by right|]. by apply IH.
  - destruct Hf as [->|]; [by split; [left|]|congruence].
Qed.

Lemma chain_insert_nodes key value ess :
  codec_wf key -> codec_wf value ->
  Forall (fun es => (0 < length es <= 1024)%nat) ess -> Forall (Forall entry_wf) ess ->
  Forall (fun es => (0 < length es <= 1024)%nat) (chain_insert (eins key value) ess) /\
  Forall (Forall entry_wf) (chain_insert (eins key value) ess).
Proof.
  intros Hk Hv Hne Hwf. induction ess as [|es ess IH].
  { rewrite chain_insert_nil. split; repeat constructor; cbn; done || lia. }
  rewrite !Forall_cons in *. destruct Hne as [Hes Hne], Hwf as [Hw Hwf].
  destruct (IH Hne Hwf) as [IH1 IH2]. rewrite chain_insert_cases.
  destruct (decide (key ∈ es.*1)); [|destruct (node_full sizeof_node es) eqn:E]; rewrite !Forall_cons.
  - split_and!; [unfold assoc_set; rewrite length_fmap; lia..|done|by apply assoc_set_wf|done].
  - done.
  - apply room_size in E; [|lia|done].
    split_and!; [rewrite length_app; cbn; lia..|done| |done]. apply Forall_app. split; [done|].
    by repeat constructor.
Qed.

Lemma chain_ok_insert bid key value ess :
  codec_wf key -> codec_wf value -> to_bucket hash key = bid ->
  chain_ok bid ess -> chain_ok bid (chain_insert (eins key value) ess).
Proof.
  intros Hk Hv Hb [Hne Hwf Hfull Hnd Hbs].
  destruct (chain_insert_nodes key value ess) as [Hne' Hwf']; [done..|].
  pose proof (chain_insert_keys key value ess Hfull) as Hkeys.
  split; [done|done|by apply chain_insert_full|..]; rewrite Hkeys; case_decide; try done.
  - apply NoDup_app. split_and!; [done| |apply NoDup_singleton].
    by intros k Hk' ->%list_elem_of_singleton.
  - apply Forall_app. split; [done|]. by constructor.
Qed.


Lemma map_ok_insert cs cs' key value :
  codec_wf key -> codec_wf value -> map_ok cs ->
  (cs' (to_bucket hash key)).*2 = chain_insert (eins key value) (cs (to_bucket hash key)).*2 ->
  (forall b, b <> to_bucket hash key -> cs' b = cs b) -> map_ok cs'.
Proof.
  intros Hk Hv Hok He Hoff b. destruct (decide (b = to_bucket hash key)) as [->|Hb].
  - rewrite He. by apply chain_ok_insert.
  - rewrite Hoff by done. apply Hok.
Qed.

(** ** Iteration *)

Section Iteration.
Context (cs : Z -> list (Z * list (K * V))) (av : Z).
Hypothesis cs_ok : map_ok cs.

(** The keys of the buckets from [b] on *)
Definition keys_from (b : Z) : list K :=
  mjoin ((fun b => keys_of (cs b).*2) <$> seqZ b (NUM_BUCKETS - b)).

(** [it_rep it rest]: the iterator stands before the keys [rest]. *)
Inductive it_rep : iterator_t -> list K -> Prop :=
| it_rep_end nodes pos : it_rep (mkIter NUM_BUCKETS nodes pos) []
| it_rep_at b c1 q es c2 nodes pos rest :
    0 <= b < NUM_BUCKETS -> cs b = c1 ++ (q, es) :: c2 -> last nodes = Some q ->
    (pos < length es)%nat ->
    rest = drop pos es.*1 ++ keys_of c2.*2 ++ keys_from (b + 1) ->
    it_rep (mkIter b nodes (Z.of_nat pos)) rest.

Lemma keys_from_end : keys_from NUM_BUCKETS = [].
Proof. done. Qed.

Lemma keys_from_step b :
  b < NUM_BUCKETS -> keys_from b = keys_of (cs b).*2 ++ keys_from (b + 1).
Proof.
  intros Hb. unfold keys_from. rewrite seqZ_cons by lia. cbn.
  by replace (Z.succ b) with (b + 1) by lia; replace (Z.pred (NUM_BUCKETS - b))
    with (NUM_BUCKETS - (b + 1)) by lia.
Qed.

Lemma chain_mid pg p v c1 q es c2 :
  chain pg p v (c1 ++ (q, es) :: c2) ->
  exists n, pg !! q = Some n /\ node_rep n es /\
    chain pg (nd_successor n) (nd_successor_version n) c2.
Proof.
  revert p v. induction c1 as [|[q1 es1] c1 IH]; intros p v; cbn.
  - intros (-> & _ & n & ? & ? & _ & ?). eauto.
  - intros (_ & _ & n & _ & _ & _ & Hc). by eapply IH.
Qed.

Lemma node_length b c1 q es c2 :
  cs b = c1 ++ (q, es) :: c2 -> (0 < length es <= 1024)%nat.
Proof.
  intros E. pose proof (ok_nonempty _ _ (cs_ok b)) as Hne. rewrite E, fmap_app in Hne.
  apply Forall_app in Hne as [_ Hne]. by apply Forall_cons in Hne as [? _].
Qed.

Lemma it_next_bucket_ok fuel m b nodes :
  map_inv m cs av -> 0 <= b <= NUM_BUCKETS -> NUM_BUCKETS - b <= Z.of_nat fuel ->
  wp (it_next_bucket fuel (mkIter b nodes 0))
    (fun it' m' => map_inv m' cs av /\ am_size m' = am_size m /\ it_rep it' (keys_from b)) m.
Proof.
  revert m b nodes. induction fuel as [|fuel IH]; intros m b nodes Hinv Hb Hf; cbn [it_next_bucket];
    cbn [it_bucket it_pos]; (destruct (Z.ltb_spec b NUM_BUCKETS);
    [|assert (b = NUM_BUCKETS) as -> by lia; rewrite Z.eqb_refl; apply wp_ret;
      split_and!; [done..|rewrite keys_from_end; constructor]]).
  { lia. }
  assert (Hinv' := Hinv). destruct Hinv' as (pg & Hm & Hc & _).
  apply wp_bind. eapply wp_mono; [exact (get_node_read m pg _ _ av b _ Hm (Hc b))|].
  cbv beta. intros ? m1 [-> Hm1]. pose proof (map_inv_same _ _ _ _ _ Hm Hm1 Hinv) as Hinv1.
  assert (am_size m1 = am_size m) as Hsz by (by destruct Hm1 as (_ & _ & _ & _ & ->)).
  rewrite keys_from_step by done. destruct (cs b) as [|[q es] c2] eqn:E.
  - cbn. rewrite wrap_small by (unfold in_range, NUM_BUCKETS in *; lia).
    eapply wp_mono; [apply IH; [done|lia..]|]. cbv beta. rewrite Hsz. done.
  - change (fst <$> head ((q, es) :: c2)) with (Some q). apply wp_ret. split_and!; [done..|].
    apply (it_rep_at b [] q es c2 [q] 0); [lia|done|done| |].
    + by apply (node_length b [] q es c2).
    + rewrite drop_0. change (((q, es) :: c2).*2) with (es :: c2.*2). rewrite keys_of_cons.
      by rewrite <-app_assoc.
Qed.

Lemma it_entry_ok m it k rest :
  map_inv m cs av -> it_rep it (k :: rest) ->
  wp (it_entry it) (fun (kv : K * V) m' =>
    kv.1 = k /\ map_inv m' cs av /\ am_size m' = am_size m) m.
Proof.
  intros Hinv Hit. inversion Hit as [|b c1 q es c2 nodes pos rest' Hb E Hl Hpos Hrest]; subst.
  assert (Hinv' := Hinv). destruct Hinv' as (pg & Hm & Hc & _).
  specialize (Hc b). rewrite E in Hc. apply chain_mid in Hc as (n & Hn & Hr & _).
  unfold it_entry, it_at_end. cbn [it_bucket it_nodes it_pos].
  rewrite (proj2 (Z.leb_gt _ _)) by lia. rewrite Hl.
  apply wp_bind. eapply wp_mono; [by eapply on_store_get|]. cbv beta. intros ? m1 [-> Hm1].
  rewrite Nat2Z.id, (node_get_at_rep _ _ _ Hr).
  destruct (lookup_lt_is_Some_2 es pos Hpos) as [kv Hkv]. rewrite Hkv. apply wp_ret.
  split_and!; [|by eapply map_inv_same|by destruct Hm1 as (_ & _ & _ & _ & ->)].
  assert (es.*1 !! pos = Some kv.1) as Hk by (by rewrite list_lookup_fmap, Hkv).
  rewrite (drop_S _ _ _ Hk) in Hrest. by injection Hrest.
Qed.

Lemma it_next_ok m it k rest :
  map_inv m cs av -> it_rep it (k :: rest) ->
  wp (it_next it) (fun it' m' =>
    map_inv m' cs av /\ am_size m' = am_size m /\ it_rep it' rest) m.
Proof.
  intros Hinv Hit. inversion Hit as [|b c1 q es c2 nodes pos rest' Hb E Hl Hpos Hrest]; subst.
  assert (Hinv' := Hinv). destruct Hinv' as (pg & Hm & Hc & _).
  pose proof (node_length _ _ _ _ _ E) as Hlen.
  specialize (Hc b). rewrite E in Hc. apply chain_mid in Hc as (n & Hn & Hr & Hc2).
  unfold it_next, it_at_end. cbn [it_bucket it_nodes it_pos].
  rewrite (proj2 (Z.leb_gt _ _)) by lia. rewrite Hl, wrap_small by (unfold in_range; lia).
  assert (rest = drop (Datatypes.S pos) es.*1 ++ keys_of c2.*2 ++ keys_from (b + 1)) as ->.
  { destruct (lookup_lt_is_Some_2 es.*1 pos) as [k' Hk]; [by rewrite length_fmap|].
    rewrite (drop_S _ _ _ Hk) in Hrest. by injection Hrest. }
  apply wp_bind. eapply wp_mono; [by eapply on_store_get|]. cbv beta zeta. intros ? m1 [-> Hm1].
  rewrite (nr_size _ _ Hr). assert (am_size m1 = am_size m) as Hsz1 by (by destruct Hm1 as (_ & _ & _ & _ & ->)).
  pose proof (map_inv_same _ _ _ _ _ Hm Hm1 Hinv) as Hinv1.
  destruct (Z.leb_spec (Z.of_nat (length es)) (Z.of_nat pos + 1)).
  2: { apply wp_ret. split_and!; [done..|]. replace (Z.of_nat pos + 1) with (Z.of_nat (Datatypes.S pos)) by lia.
       by apply (it_rep_at b c1 q es c2); [..|lia|]. }
  rewrite (drop_ge es.*1) by (rewrite length_fmap; lia).
  apply wp_bind. eapply wp_mono; [exact (get_successor_read m1 pg _ _ av q n c2 Hm1 Hn Hc2)|].
  cbv beta. intros ? m2 [-> Hm2]. pose proof (map_inv_same _ _ _ _ _ Hm Hm2 Hinv) as Hinv2.
  assert (am_size m2 = am_size m) as Hsz2 by (by destruct Hm2 as (_ & _ & _ & _ & ->)).
  destruct c2 as [|[q2 es2] c2].
  - cbn. rewrite wrap_small by (unfold in_range, NUM_BUCKETS in *; lia).
    eapply wp_mono; [apply it_next_bucket_ok; [done|lia|]|].
    + unfold bucket_fuel. unfold NUM_BUCKETS in *. lia.
    + cbv beta. by rewrite Hsz2.
  - change (fst <$> head ((q2, es2) :: c2)) with (Some q2). apply wp_ret. split_and!; [done..|].
    assert (cs b = (c1 ++ [(q, es)]) ++ (q2, es2) :: c2) as E2 by (by rewrite E, <-app_assoc).
    apply (it_rep_at b (c1 ++ [(q, es)]) q2 es2 c2 _ 0); [done|done|by rewrite last_snoc| |].
    + by apply (node_length _ _ _ _ _ E2).
    + change (((q2, es2) :: c2).*2) with (es2 :: c2.*2). by rewrite drop_0, keys_of_cons, <-app_assoc.
Qed.

Lemma scan_keys_ok fuel m it rest :
  map_inv m cs av -> it_rep it rest -> (length rest < fuel)%nat ->
  wp (scan_keys fuel it) (fun ks m' => ks = rest /\ map_inv m' cs av /\ am_size m' = am_size m) m.
Proof.
  revert m it rest. induction fuel as [|fuel IH]; intros m it rest Hinv Hit Hf; [lia|].
  cbn [scan_keys]. unfold get_next_key. apply wp_bind. destruct rest as [|k rest].
  - inversion Hit as [nodes pos|b c1 q es c2 nodes pos rest' Hb E Hl Hpos Hrest]; subst.
    + by apply wp_ret, wp_ret.
    + destruct (lookup_lt_is_Some_2 es.*1 pos) as [k' Hk]; [by rewrite length_fmap|].
      by rewrite (drop_S _ _ _ Hk) in Hrest.
  - assert (it_at_end it = false) as ->
      by (inversion Hit; subst; unfold it_at_end; cbn; apply Z.leb_gt; lia).
    apply wp_bind. eapply wp_mono; [by eapply it_entry_ok|]. cbv beta.
    intros kv m1 (Hkv & Hinv1 & Hsz1).
    apply wp_bind. eapply wp_mono; [by eapply it_next_ok|]. cbv beta.
    intros it' m2 (Hinv2 & Hsz2 & Hit2). apply wp_ret.
    apply wp_bind. eapply wp_mono; [eapply IH; [done|done|cbn in Hf; lia]|]. cbv beta.
    intros ks m3 (-> & Hinv3 & Hsz3). apply wp_ret. rewrite Hkv. split_and!; [done..|congruence].
Qed.

End Iteration.

(** ** Sequences of insertions into an empty map *)

Fixpoint HashMap_insert_all (kvs : list (K * V)) : ST (amap S) unit :=
  match kvs with
  | [] => mret tt
  | (k, v) :: kvs => _ ← HashMap_insert sizeof_node hash k v; HashMap_insert_all kvs
  end.

Lemma to_bucket_range key : 0 <= to_bucket hash key < NUM_BUCKETS.
Proof.
  unfold to_bucket. pose proof (Z.mod_pos_bound (hash key) NUM_BUCKETS ltac:(done)).
  rewrite wrap_small; [done|]. unfold in_range, NUM_BUCKETS in *. lia.
Qed.

Lemma chain_find_None key ess : chain_find key ess = None <-> key ∉ keys_of ess.
Proof.
  induction ess as [|es ess IH]; cbn [chain_find].
  { split; [intros _; apply not_elem_of_nil|done]. }
  rewrite keys_of_cons, not_elem_of_app, <-IH, <-assoc_find_None.
  destruct (assoc_find key es); naive_solver.
Qed.

Lemma keys_from_spec cs key b :
  map_ok cs -> 0 <= b <= NUM_BUCKETS ->
  key ∈ keys_from cs b <-> b <= to_bucket hash key /\ map_find cs key <> None.
Proof.
  intros Hok Hb. unfold keys_from. rewrite list_elem_of_join. pose proof (to_bucket_range key).
  assert (forall b, key ∈ keys_of (cs b).*2 -> to_bucket hash key = b) as Hbk.
  { intros b' Hk. by apply (proj1 (Forall_forall _ _) (ok_bucket _ _ (Hok b'))). }
  split.
  - intros (ks & Hk & (b' & -> & Hb')%list_elem_of_fmap). apply elem_of_seqZ in Hb'.
    specialize (Hbk b' Hk). split; [lia|]. unfold map_find. rewrite Hbk, chain_find_None. auto.
  - intros [Hle Hf]. exists (keys_of (cs (to_bucket hash key)).*2). split.
    + unfold map_find in Hf. rewrite chain_find_None in Hf.
      by apply dec_stable.
    + apply list_elem_of_fmap. eexists. split; [done|]. apply elem_of_seqZ. lia.
Qed.

Lemma keys_from_nodup cs b : map_ok cs -> 0 <= b <= NUM_BUCKETS -> NoDup (keys_from cs b).
Proof.
  intros Hok Hb. remember (Z.to_nat (NUM_BUCKETS - b)) as n eqn:En. revert b Hb En.
  induction n as [|n IH]; intros b Hb En.
  - assert (b = NUM_BUCKETS) as -> by lia. constructor.
  - rewrite keys_from_step by lia. apply NoDup_app.
    split_and!; [apply (ok_nodup _ _ (Hok b))| |apply IH; lia].
    intros k Hk (Hle & _)%keys_from_spec; [|done|lia].
    pose proof (proj1 (Forall_forall _ _) (ok_bucket _ _ (Hok b)) k Hk). cbn in *. lia.
Qed.

Lemma map_ok_empty : map_ok (fun _ => []).
Proof. intros bid. split; cbn; try constructor. Qed.

(** One insertion: one bucket gets its next version, and so does every page that changes. *)
Lemma HashMap_insert_change m cs av key value :
  map_inv (K := K) (V := V) m cs av -> 1 < av -> codec_wf key -> codec_wf value ->
  wp (HashMap_insert sizeof_node hash key value) (fun c m' =>
    pages_step (ps_pages (am_store m)) (ps_pages (am_store m')) /\
    bk_version c.2 = version_increment (bk_version (get_bucket c.1 m)) /\
    forall b, get_bucket b m' = if decide (b = c.1) then c.2 else get_bucket b m) m.
Proof.
  intros Hinv Hav Hk Hv. apply wp_bind. eapply wp_mono.
  { eapply (insert_entry_ok _ (entries_insert sizeof_node key value)); [|by apply eins_empty|exact Hinv|done].
    intros n es Hr. apply node_insert_rep; [lia|done..]. }
  cbv beta. intros _ m1 (cs' & av' & _ & _ & _ & _ & _ & Hstep & q & Hb). apply wp_bind, wp_modify, wp_bind, wp_get, wp_ret.
  unfold get_bucket. cbn [am_store am_buckets set_size fst snd]. rewrite Hb, lookup_insert_eq. split_and!; [done|done|].
  intros b. case_decide as Eb; [by rewrite Eb, lookup_insert_eq|by rewrite lookup_insert_ne].
Qed.

Lemma HashMap_insert_all_ok kvs m cs av :
  map_inv m cs av -> map_ok cs -> 2 * Z.of_nat (length kvs) <= av -> Forall entry_wf kvs ->
  wp (HashMap_insert_all kvs) (fun _ m' => exists cs' av',
    map_inv m' cs' av' /\ map_ok cs' /\
    (forall k, map_find cs' k = match assoc_find k (reverse kvs) with
                                | Some v => Some v
                                | None => map_find cs k
                                end) /\
    av - 2 * Z.of_nat (length kvs) <= av' /\
    pages_aged (length kvs) (ps_pages (am_store m)) (ps_pages (am_store m')) /\
    pages_born (length kvs) (ps_pages (am_store m)) (ps_pages (am_store m'))) m.
Proof.
  revert m cs av. induction kvs as [|[k v] kvs IH]; intros m cs av Hinv Hok Hav Hwf.
  { apply wp_ret. exists cs, av. split_and!; [done..|cbn; lia|apply pages_aged_refl|apply pages_born_refl]. }
  apply Forall_cons in Hwf as [[Hk Hv] Hwf]. cbn [length] in *. cbn [fst snd] in *. apply wp_bind. eapply wp_mono.
  { apply wp_and; [eapply HashMap_insert_ok|eapply HashMap_insert_change]; (done || lia). }
  cbv beta. intros r m1 [(cs1 & av1 & Hinv1 & Hav1 & _ & _ & He & Hoff & Hfind) [Hstep _]].
  eapply wp_mono; [eapply (IH m1 cs1 av1); [done|by eapply map_ok_insert|lia|done]|]. cbv beta.
  intros _ m2 (cs2 & av2 & Hinv2 & Hok2 & Hfind2 & Hav2 & Haged & Hborn). exists cs2, av2.
  split_and!; [done..| |lia|by eapply pages_aged_step|by eapply pages_born_step].
  intros k'. rewrite Hfind2, reverse_cons, assoc_find_app, Hfind. cbn.
  by destruct (assoc_find k' (reverse kvs)); [|case_decide].
Qed.

Lemma HashMap_insert_all_app a b m :
  HashMap_insert_all (a ++ b) m = (_ ← HashMap_insert_all a; HashMap_insert_all b) m.
Proof.
  revert m. induction a as [|[k v] a IH]; intros m; [done|].
  cbn [app]. unfold mbind, ST_bind in *. cbn.
  unfold mbind, ST_bind in *. destruct (HashMap_insert sizeof_node hash k v m) as [[c|e] m1]; [apply IH|done].
Qed.

(** *** The pages that the host has been given

    [recent_page kvs s q n]: [n] is the content of page [q] some time during the insertions
    [kvs], fewer than [MAX_VALUE] insertions ago; a page that did not exist then has been
    written, if at all, as a new node, when it was created.  (A page is changed only under its
    handle, which keeps it in memory; so these are the contents that are written to the disk.) *)
Definition recent_page (kvs : list (K * V)) (s : S) (q : Z) (n : node) : Prop :=
  exists a b, kvs = a ++ b /\ Z.of_nat (length b) < MAX_VALUE /\
    n = default node_new (ps_pages (am_store (HashMap_insert_all a (amap_init s)).2) !! q).

(** The pages [pg2] in place of [pg]: every page may be an older one. *)
Definition handed_back (kvs : list (K * V)) (s : S) (pg pg2 : gmap Z node) : Prop :=
  forall q, match pg !! q with
            | None => pg2 !! q = None
            | Some _ => exists n, pg2 !! q = Some n /\ recent_page kvs s q n
            end.

Lemma handed_back_replayed kvs s m pg2 :
  ps_wf s -> 2 * Z.of_nat (length kvs) <= ps_avail s -> Forall entry_wf kvs ->
  HashMap_insert_all kvs (amap_init s) = (Ok tt, m) ->
  handed_back kvs s (ps_pages (am_store m)) pg2 -> replayed (ps_pages (am_store m)) pg2.
Proof.
  intros Hw Hav Hwf Hrun Hback q. specialize (Hback q).
  destruct (ps_pages (am_store m) !! q) as [n|] eqn:Eq; [|by left].
  destruct Hback as (n' & Hn' & a & b & -> & Hb & Hold).
  rewrite length_app in *. apply Forall_app in Hwf as [Hwa Hwb]. rewrite HashMap_insert_all_app in Hrun.
  pose proof (HashMap_insert_all_ok a _ _ _ (map_inv_init s _ Hw eq_refl) map_ok_empty ltac:(lia) Hwa) as Ha.
  apply wp_run in Ha as (u & ma & Ea & csa & ava & Hia & Hoka & _ & Hva & _).
  pose proof (HashMap_insert_all_ok b ma csa ava Hia Hoka ltac:(lia) Hwb) as Hb'.
  apply wp_run in Hb' as ([] & mb & Eb & csb & avb & _ & _ & _ & _ & Haged & Hborn).
  rewrite (ST_bind_run _ _ _ _ _ Ea), Eb in Hrun. injection Hrun as ->. rewrite Ea in Hold. cbn [snd] in Hold.
  destruct (pages_aged_differ _ _ _ q n Hb Haged Hborn Eq) as [E|E]; rewrite <- Hold in E.
  - left. congruence.
  - right. exists n, n'. done.
Qed.

(** ** [HashMap] as an implementation of the map interface *)

Definition HashMap_rep (m : amap S) (f : K -> option V) (room : Z) : Prop :=
  exists cs av, map_inv m cs av /\ map_ok cs /\ 2 * room <= av /\ (forall k, map_find cs k = f k) /\
    Z.of_nat (length (keys_from cs 0)) <= am_size m /\ am_size m + Z.max 0 room < 2 ^ 64.

Definition HashMap_kv : KVMap (amap S) K V := {|
  kv_rep := HashMap_rep;
  kv_key := codec_wf;
  kv_value := codec_wf;
  kv_get := HashMap_get hash;
  kv_insert k v := _ ← HashMap_insert sizeof_node hash k v; mret tt;
  kv_keys := HashMap_keys (V := V);
|}.

Lemma HashMap_keys_ok m cs av :
  map_inv m cs av -> map_ok cs -> Z.of_nat (length (keys_from cs 0)) <= am_size m ->
  wp (HashMap_keys (V := V)) (fun ks m' => ks = keys_from cs 0 /\ map_inv m' cs av /\ am_size m' = am_size m) m.
Proof.
  intros Hinv Hok Hsz. apply wp_bind, wp_get, wp_bind.
  eapply wp_mono; [eapply (it_next_bucket_ok _ _ Hok); [exact Hinv|done|unfold bucket_fuel; lia]|].
  cbv beta. intros it m1 (Hinv1 & Hsz1 & Hit). rewrite <-Hsz1.
  eapply (scan_keys_ok _ _ Hok); [exact Hinv1|exact Hit|lia].
Qed.

Lemma keys_insert_length cs cs' key v :
  map_ok cs -> map_ok cs' -> (forall k, map_find cs' k = if decide (k = key) then Some v else map_find cs k) ->
  (length (keys_from cs' 0) <= Datatypes.S (length (keys_from cs 0)))%nat.
Proof.
  intros Hok Hok' Hf. change (length (keys_from cs' 0) <= length (key :: keys_from cs 0))%nat.
  apply submseteq_length, NoDup_submseteq; [by apply keys_from_nodup|]. intros k.
  rewrite elem_of_cons, !keys_from_spec, Hf by done. case_decide; naive_solver.
Qed.

Lemma keys_from_wf m cs av b : map_inv m cs av -> Forall codec_wf (keys_from cs b).
Proof.
  intros (pg & _ & Hc & _). apply Forall_forall. unfold keys_from.
  intros k (ks & Hk & (b' & -> & _)%list_elem_of_fmap)%list_elem_of_join.
  pose proof (chain_wf _ _ _ _ (Hc b')) as Hwf. unfold keys_of in Hk.
  apply list_elem_of_fmap in Hk as ([k' v] & -> & (es & Hes & Hin)%list_elem_of_join).
  rewrite Forall_forall in Hwf. specialize (Hwf es Hin). rewrite Forall_forall in Hwf. by destruct (Hwf _ Hes).
Qed.

Lemma HashMap_kv_laws : @KVMapLaws (amap S) K V _ HashMap_kv.
Proof.
  split; cbn.
  - intros m f room k (cs & av & Hinv & Hok & Hroom & Hf & Hn & Hs).
    eapply wp_mono; [by eapply HashMap_get_ok|]. cbv beta. intros r m' (-> & Hinv' & Hsz).
    split; [apply Hf|]. exists cs, av. by rewrite Hsz.
  - intros m f room k v (cs & av & Hinv & Hok & Hroom & Hf & Hn & Hs) Hr Hk Hv. apply wp_bind.
    eapply wp_mono; [eapply HashMap_insert_ok; [done|lia|done|done]|]. cbv beta.
    intros r m' (cs' & av' & Hinv' & Hav & _ & Hsz & He & Hoff & Hfind). apply wp_ret.
    assert (map_ok cs') as Hok' by (by eapply map_ok_insert).
    pose proof (keys_insert_length _ _ _ _ Hok Hok' Hfind) as Hl.
    rewrite wrap_small in Hsz by (unfold in_range; lia).
    exists cs', av'. split_and!; [done|done|lia| |lia|lia].
    intros k'. rewrite Hfind. case_decide; [done|apply Hf].
  - intros m f room (cs & av & Hinv & Hok & Hroom & Hf & Hn & Hs).
    eapply wp_mono; [by eapply HashMap_keys_ok|]. cbv beta. intros ks m' (-> & Hinv' & Hsz).
    split_and!; [by apply keys_from_nodup|by eapply keys_from_wf| |exists cs, av; by rewrite Hsz].
    intros k. rewrite keys_from_spec, Hf by done. pose proof (to_bucket_range k). naive_solver lia.
Qed.

(** A lookup over replayed pages gives the right answer or none. *)
Lemma HashMap_get_replay m m2 cs av key :
  map_inv m cs av -> ps_wf (am_store m2) -> am_buckets m2 = am_buckets m ->
  replayed (ps_pages (am_store m)) (ps_pages (am_store m2)) ->
  wpe is_stale (HashMap_get hash key) (fun r _ => r = map_find cs key) m2.
Proof.
  intros (pg & Hm & Hc & Hnd & _) Hw Hbk Hrep. destruct (Hm) as (_ & Hpg & _). rewrite Hpg in Hrep.
  assert (st_is m2 (ps_pages (am_store m2)) (am_buckets m2) (am_size m2) (ps_avail (am_store m2)))
    as Hm2 by (by split_and!).
  specialize (Hc (to_bucket hash key)). specialize (Hnd (to_bucket hash key)).
  assert (get_bucket (to_bucket hash key) m2 = get_bucket (to_bucket hash key) m) as Eb
    by (unfold get_bucket; by rewrite Hbk).
  apply wpe_bind, wpe_get, wpe_bind, wpe_bind, wpe_get. cbv zeta. apply wpe_bind. rewrite Eb.
  eapply wpe_mono; [exact (get_node_internal_replay m2 pg _ _ _ _ _ _ _ Hm2 Hrep Hc)|].
  cbv beta. intros ? m3 (-> & Hm3 & Hg). cbn [orb andb]. apply wpe_ret, wpe_bind.
  eapply wpe_mono.
  { eapply (walk_replay _ (fun (_ : unit) (es : list (K * V)) =>
      match assoc_find key es with Some v => inr v | None => inl tt end));
      [|exact Hm3|exact Hrep|exact Hc|exact Hg|].
    - intros [] n es Hr. rewrite (node_get_rep _ _ _ Hr). by destruct (assoc_find key es).
    - unfold chain_fuel. rewrite (replayed_size _ _ Hrep).
      pose proof (chain_length _ _ _ _ Hc Hnd). lia. }
  cbv beta. intros ? m4 ->. apply wpe_ret. unfold map_find.
  induction (cs (to_bucket hash key)).*2 as [|es ess IH]; cbn; [done|].
  by destruct (assoc_find key es).
Qed.

Lemma HashMap_rep_init s room :
  ps_wf s -> 2 * room <= ps_avail s -> room < 2 ^ 64 -> HashMap_rep (amap_init s) (fun _ => None) room.
Proof.
  intros Hw Hav Hr. exists (fun _ => []), (ps_avail s).
  split_and!; [by apply map_inv_init|apply map_ok_empty|done|done| |cbn; lia].
  cbn [am_size amap_init]. destruct (keys_from (fun _ => []) 0) as [|k ks] eqn:E; [done|].
  pose proof (keys_from_spec _ k 0 map_ok_empty ltac:(done)) as [Hk _]. rewrite E in Hk.
  by destruct (Hk ltac:(left)) as [_ []].
Qed.

End Spec.

(** ** Keys and values of the index: names and event identifiers *)

(** The packed struct *)
#[global] Instance event_id_codec : Codec event_id_t := {|
  codec_wf e := in_range 16 (ev_shard e) /\ in_range 32 (ev_block e) /\ in_range 16 (ev_index e);
  enc e := le_encode 2 (ev_shard e) ++ le_encode 4 (ev_block e) ++ le_encode 2 (ev_index e);
  dec bs :=
    '(s, bs) ← int_dec 2 bs; '(b, bs) ← int_dec 4 bs; '(i, bs) ← int_dec 2 bs;
    Some (EventId s b i, bs);
|}.

#[global] Instance event_id_codec_laws : CodecLaws event_id_t.
Proof.
  split; cbn -[le_encode int_dec].
  - intros [s b i] rest (Hs & Hb & Hi). cbn -[le_encode int_dec] in *.
    rewrite <-!app_assoc, int_dec_enc by done. cbn -[le_encode int_dec].
    rewrite int_dec_enc by done. cbn -[le_encode int_dec]. by rewrite int_dec_enc.
  - intros. cbn. lia.
Qed.

#[global] Instance event_id_fixed : FixedSize event_id_t.
Proof. intros a b _ _. done. Qed.

(** ** Theorems *)

(** C8.  The hash map is a map: after any sequence of insertions into an empty
    one, whatever nodes overflow on the way, no operation fails and [get]
    returns for every key the value inserted last, or nothing for a key that
    was never inserted.  (The page store must have two page numbers left per
    insertion.) *)
Theorem HashMap_insert_get {K V} `{EqDecision K, Countable V, CodecLaws K, CodecLaws V, !FixedSize V}
    {S} `{PageStoreLaws S node} (sizeof_node : Z) (hash : K -> Z) (s : S) (kvs : list (K * V)) :
  0 <= sizeof_node < MAX_NODE_SIZE - 24 -> ps_wf s -> 2 * Z.of_nat (length kvs) <= ps_avail s ->
  Forall entry_wf kvs ->
  wp (HashMap_insert_all sizeof_node hash kvs) (fun _ m =>
    forall key, wp (HashMap_get hash key) (fun r _ => r = assoc_find key (reverse kvs)) m)
    (amap_init s).
Proof.
  intros Hsz Hw Hav Hwf. eapply wp_mono.
  { eapply HashMap_insert_all_ok; [done|by apply map_inv_init|apply map_ok_empty|done|done]. }
  cbv beta. intros _ m (cs & av & Hinv & _ & Hfind & _) key.
  eapply wp_mono; [by eapply HashMap_get_ok|]. cbv beta. intros r m' (-> & _).
  rewrite Hfind. cbn. by destruct (assoc_find key (reverse kvs)).
Qed.

Lemma HashMap_insert_get_witness :
  let kvs := [("a"%string, EventId 1 2 3); ("b"%string, EventId 1 2 4); ("a"%string, EventId 1 2 5)] in
  wp (HashMap_insert_all 64 hash_string kvs) (fun _ m =>
    forall key, wp (HashMap_get hash_string key) (fun r _ => r = assoc_find key (reverse kvs)) m)
    (amap_init (page_map_empty (N := node))).
Proof.
  intros kvs. apply (HashMap_insert_get 64 hash_string page_map_empty kvs).
  - unfold MAX_NODE_SIZE. lia.
  - split; [done|]. intros p [n Hn]. cbn in Hn. by rewrite lookup_empty in Hn.
  - vm_compute. discriminate.
  - repeat constructor; vm_compute; done.
Defined.

(** C30.  [LinearScanKeyProvider] enumerates the keys of the map: after any
    sequence of insertions a scan from [begin()] ends and has listed every key
    that was inserted exactly once. *)
Theorem HashMap_scan {K V} `{EqDecision K, Countable V, CodecLaws K, CodecLaws V, !FixedSize V}
    {S} `{PageStoreLaws S node} (sizeof_node : Z) (hash : K -> Z) (s : S) (kvs : list (K * V)) :
  0 <= sizeof_node < MAX_NODE_SIZE - 24 -> ps_wf s -> 2 * Z.of_nat (length kvs) <= ps_avail s ->
  Forall entry_wf kvs ->
  wp (_ ← HashMap_insert_all sizeof_node hash kvs;
      it ← it_new 0;
      scan_keys (K := K) (V := V) (Datatypes.S (length kvs)) it)
    (fun keys _ => NoDup keys /\ forall key, key ∈ keys <-> key ∈ kvs.*1) (amap_init s).
Proof.
  intros Hsz Hw Hav Hwf. apply wp_bind. eapply wp_mono.
  { eapply HashMap_insert_all_ok; [done|by apply map_inv_init|apply map_ok_empty|done|done]. }
  cbv beta. intros _ m (cs & av & Hinv & Hok & Hfind & _). apply wp_bind.
  eapply wp_mono; [eapply (it_next_bucket_ok _ _ _ _ Hok); [exact Hinv|done|]|].
  { unfold bucket_fuel. lia. }
  cbv beta. intros it m1 (Hinv1 & _ & Hit).
  assert (NoDup (keys_from cs 0)) as Hnd by (by eapply keys_from_nodup).
  assert (forall key, key ∈ keys_from cs 0 <-> key ∈ kvs.*1) as Hkeys.
  { intros key. rewrite (keys_from_spec sizeof_node hash Hsz cs key 0 Hok) by done.
    rewrite Hfind. pose proof (to_bucket_range hash key).
    pose proof (assoc_find_None key (reverse kvs)) as Hnone.
    rewrite fmap_reverse, elem_of_reverse in Hnone.
    destruct (decide (key ∈ kvs.*1)) as [Hin|Hin], (assoc_find key (reverse kvs)) as [v|].
    - split; [done|]. split; [lia|done].
    - by destruct (proj1 Hnone eq_refl).
    - by apply Hnone in Hin.
    - split; [by intros [_ []]|done]. }
  eapply wp_mono; [eapply (scan_keys_ok _ _ _ _ Hok); [exact Hinv1|exact Hit|]|].
  - assert (length (keys_from cs 0) <= length kvs.*1)%nat as Hl.
    { apply submseteq_length, NoDup_submseteq; [done|]. intros k. apply Hkeys. }
    rewrite length_fmap in Hl. lia.
  - cbv beta. intros ks m2 (-> & _). done.
Qed.

Lemma HashMap_scan_witness :
  let kvs := [("a"%string, EventId 1 2 3); ("b"%string, EventId 1 2 4); ("a"%string, EventId 1 2 5)] in
  wp (_ ← HashMap_insert_all 64 hash_string kvs;
      it ← it_new 0;
      scan_keys (K := string) (V := event_id_t) 4 it)
    (fun keys _ => NoDup keys /\ forall key, key ∈ keys <-> key ∈ kvs.*1)
    (amap_init (page_map_empty (N := node))).
Proof.
  intros kvs. apply (HashMap_scan 64 hash_string page_map_empty kvs).
  - unfold MAX_NODE_SIZE. lia.
  - split; [done|]. intros p [n Hn]. cbn in Hn. by rewrite lookup_empty in Hn.
  - vm_compute. discriminate.
  - repeat constructor; vm_compute; done.
Defined.

(** C5.  Old pages are not believed: if the host hands back, for any of the pages of the map, the
    content that the page had at an earlier time, before any number of insertions below
    [MAX_VALUE], then a lookup returns what the map holds or throws
    [StalenessDetectedException]; it never returns an outdated or wrong answer.  (That such a
    content has another version than the one stored last is a consequence of how the insertions
    count; [wrapped_replay_unnoticed] shows that the bound is exact.) *)
Theorem HashMap_staleness {K V} `{EqDecision K, Countable V, CodecLaws K, CodecLaws V, !FixedSize V}
    {S} `{PageStoreLaws S node} (sizeof_node : Z) (hash : K -> Z) (s : S) (kvs : list (K * V))
    (m m2 : amap S) (key : K) :
  0 <= sizeof_node < MAX_NODE_SIZE - 24 -> ps_wf s -> 2 * Z.of_nat (length kvs) <= ps_avail s ->
  Forall entry_wf kvs ->
  HashMap_insert_all sizeof_node hash kvs (amap_init s) = (Ok tt, m) ->
  ps_wf (am_store m2) -> am_buckets m2 = am_buckets m ->
  handed_back sizeof_node hash kvs s (ps_pages (am_store m)) (ps_pages (am_store m2)) ->
  (HashMap_get hash key m2).1 = Ok (assoc_find key (reverse kvs)) \/
  (HashMap_get (V := V) hash key m2).1 = Throw Staleness_detected.
Proof.
  intros Hsz Hw Hav Hwf Hrun Hw2 Hbk Hback.
  pose proof (handed_back_replayed sizeof_node hash Hsz kvs s m _ Hw Hav Hwf Hrun Hback) as Hrep.
  pose proof (HashMap_insert_all_ok sizeof_node hash Hsz kvs (amap_init s) (fun _ => []) (ps_avail s)
    (map_inv_init _ _ Hw eq_refl) (map_ok_empty _ _) Hav Hwf) as Hall.
  apply wp_run in Hall as (u & m' & E & cs & av & Hinv & _ & Hfind & _).
  rewrite E in Hrun. injection Hrun as _ ->.
  pose proof (HashMap_get_replay hash m m2 cs av key Hinv Hw2 Hbk Hrep) as Hget.
  unfold wpe in Hget. destruct (HashMap_get hash key m2) as [[r|e] m3]; cbn.
  - left. rewrite Hget, Hfind. cbn. by destruct (assoc_find key (reverse kvs)).
  - right. by rewrite Hget.
Qed.

(** The page of the map after one insertion, handed back after two *)
Lemma HashMap_staleness_witness :
  let k := "k"%string in
  let kvs := [(k, EventId 1 2 3); (k, EventId 1 2 4)] in
  let m1 := (HashMap_insert_all 64 hash_string (take 1 kvs) (amap_init page_map_empty)).2 in
  let m := (HashMap_insert_all 64 hash_string kvs (amap_init page_map_empty)).2 in
  let m2 := set_store (am_store m1) m in
  (HashMap_get (V := event_id_t) hash_string k m2).1 = Throw Staleness_detected.
Proof.
  intros k kvs m1 m m2.
  destruct (HashMap_staleness 64 hash_string page_map_empty kvs m m2 k) as [Hr|Hr].
  - unfold MAX_NODE_SIZE. lia.
  - split; [done|]. intros p [n Hn]. cbn in Hn. by rewrite lookup_empty in Hn.
  - vm_compute. discriminate.
  - repeat constructor; vm_compute; done.
  - reflexivity.
  - vm_compute. split; [done|]. intros p [n Hn]. destruct p as [|[]|]; done.
  - reflexivity.
  - intros q. destruct (decide (q = 1)) as [->|Hq].
    + assert (is_Some (ps_pages (am_store m) !! 1)) as [n ->] by (vm_compute; eauto).
      exists (default node_new (ps_pages (am_store m1) !! 1)). split; [by vm_compute|].
      exists (take 1 kvs), (drop 1 kvs). split; [done|]. split; by vm_compute.
    + assert (ps_pages (am_store m) !! q = None) as -> by (vm_compute; by destruct q as [|[]|]).
      vm_compute. by destruct q as [|[]|].
  - vm_compute in Hr. discriminate.
  - exact Hr.
Defined.

(** ** The wrap-around of the versions *)

Definition wrap_key : string := "k"%string.
Definition wrap_hash (_ : string) : Z := 0.
Definition wrap_node (v : Z) (b : bool) : node :=
  mkNode v INVALID_PAGE_NO 0 1 (enc wrap_key ++ enc (EventId 1 2 (if b then 3 else 4))).

(** A map with one key, whose only page is at version [v] *)
Definition one_page (v sz : Z) (b : bool) : amap (page_map node) :=
  mkAmap (mkPageMap {[1 := wrap_node v b]} 2) {[0 := mkBucket 1 v]} sz.

Lemma one_page_get_node v sz b :
  get_node 0 true false (one_page v sz b) =
  (Ok (Some 1), set_bucket 0 (mkBucket 1 (version_increment v)) (one_page v sz b)).
Proof.
  unfold get_node. rewrite (ST_bind_run _ _ _ (one_page v sz b) (one_page v sz b)) by done. cbv zeta.
  change (get_bucket 0 (one_page v sz b)) with (mkBucket 1 v). cbn [bk_page_no bk_version orb].
  unfold get_node_internal. change (1 =? INVALID_PAGE_NO) with false. cbv iota.
  rewrite (ST_bind_run _ _ _ (Some 1) (one_page v sz b)); [reflexivity|].
  rewrite (ST_bind_run _ _ _ (wrap_node v b) (one_page v sz b)) by reflexivity.
  unfold version_eqb. change (nd_version (wrap_node v b)) with v. by rewrite Z.eqb_refl.
Qed.

Lemma one_page_insert v sz (b b' : bool) :
  HashMap_insert 64 wrap_hash wrap_key (EventId 1 2 (if b' then 3 else 4)) (one_page v sz b) =
  (Ok (0, mkBucket 1 (version_increment v)), one_page (version_increment v) (u64 (sz + 1)) b').
Proof.
  set (m1 := mkAmap (mkPageMap {[1 := wrap_node (version_increment v) b']} 2)
    {[0 := mkBucket 1 (version_increment v)]} sz).
  unfold HashMap_insert. change (to_bucket wrap_hash wrap_key) with 0. cbv zeta.
  rewrite (ST_bind_run _ _ _ tt m1).
  - reflexivity.
  - unfold insert_entry. rewrite (ST_bind_run _ _ _ (one_page v sz b) (one_page v sz b)) by done.
    rewrite (ST_bind_run _ _ _ _ _ (one_page_get_node v sz b)).
    change (chain_fuel (one_page v sz b)) with 3%nat. cbn [insert_loop].
    rewrite (ST_bind_run _ _ _ (wrap_node v b) (set_bucket 0 (mkBucket 1 (version_increment v)) (one_page v sz b))) by reflexivity.
    assert (node_insert 64 wrap_key (EventId 1 2 (if b' then 3 else 4)) (wrap_node v b) =
      Ok (Some (wrap_node (version_increment v) b'))) as -> by (destruct b, b'; reflexivity).
    reflexivity.
Qed.

Lemma one_page_insert_all j v sz (b b' : bool) : exists sz',
  HashMap_insert_all 64 wrap_hash (replicate j (wrap_key, EventId 1 2 (if b' then 3 else 4))) (one_page v sz b) =
  (Ok tt, one_page (version_advance j v) sz' (if (j =? 0)%nat then b else b')).
Proof.
  revert v sz b. induction j as [|j IH]; intros v sz b; [by exists sz|].
  cbn [replicate HashMap_insert_all]. rewrite (ST_bind_run _ _ _ _ _ (one_page_insert v sz b b')).
  destruct (IH (version_increment v) (u64 (sz + 1)) b') as [sz' ->]. exists sz'.
  rewrite version_advance_succ. by destruct j.
Qed.

Lemma one_page_wrapped j : Z.of_nat j = MAX_VALUE -> exists sz,
  HashMap_insert_all 64 wrap_hash ((wrap_key, EventId 1 2 3) :: replicate j (wrap_key, EventId 1 2 4))
    (amap_init page_map_empty) = (Ok tt, one_page 1 sz false).
Proof.
  intros Hj. cbn [HashMap_insert_all].
  rewrite (ST_bind_run _ _ _ (0, mkBucket 1 1) (one_page 1 1 true)) by (vm_compute; reflexivity).
  destruct (one_page_insert_all j 1 1 true false) as [sz E]. exists sz. etransitivity; [exact E|].
  rewrite (proj2 (version_advance_eq_iff 1 j ltac:(by vm_compute))) by (exists 1%nat; lia).
  destruct j; [discriminate Hj|done].
Qed.

(** The versions have 16 bits and wrap around after [MAX_VALUE] of them: when the value of a key
    has been updated 65535 times, the page from before these updates is believed again, and the
    lookup returns the value that the key had then. *)
Theorem wrapped_replay_unnoticed :
  let updates := replicate (Z.to_nat MAX_VALUE) (wrap_key, EventId 1 2 4) in
  let run kvs := HashMap_insert_all 64 wrap_hash kvs (amap_init (page_map_empty (N := node))) in
  let m1 := (run [(wrap_key, EventId 1 2 3)]).2 in
  let m := (run ((wrap_key, EventId 1 2 3) :: updates)).2 in
  (HashMap_get wrap_hash wrap_key m).1 = Ok (Some (EventId 1 2 4)) /\
  (HashMap_get wrap_hash wrap_key (set_store (am_store m1) m)).1 = Ok (Some (EventId 1 2 3)).
Proof.
  cbv zeta. destruct (one_page_wrapped (Z.to_nat MAX_VALUE)) as [sz E]; [by apply Z2Nat.id|]. rewrite E.
  assert (HashMap_insert_all 64 wrap_hash [(wrap_key, EventId 1 2 3)] (amap_init page_map_empty) =
    (Ok tt, one_page 1 1 true)) as -> by (vm_compute; reflexivity).
  cbn [snd]. split; vm_compute; reflexivity.
Qed.

(** ** Updates through an iterator *)

(** A long key, so that few entries fill a node *)
Fixpoint long_key (n : nat) (c : ascii) : string :=
  match n with
  | O => EmptyString
  | S n => String c (long_key n c)
  end.

(** [iterator_t::set_value] on an entry of an overflow node increments the
    versions of the nodes before it but not the [successor_version] they record:
    the map is then stale to itself, and looking up the key throws. *)
Theorem it_set_value_breaks_chain :
  let key c := long_key 470 c in
  let kvs := [(key "a"%char, EventId 1 1 0); (key "b"%char, EventId 1 1 1);
              (key "c"%char, EventId 1 1 2)] in
  let hash := fun _ : string => 0 in
  let m0 := (HashMap_insert_all 64 hash kvs (amap_init (page_map_empty (N := node)))).2 in
  let run :=
    (it ← it_new 0; it ← it_next it; it ← it_next it;
     it_set_value (K := string) 64 it (EventId 1 9 9)) m0 in
  (HashMap_get hash (key "c"%char) m0).1 = Ok (Some (EventId 1 1 2)) /\ is_ok run.1 /\
  (HashMap_get (V := event_id_t) hash (key "c"%char) run.2).1 = Throw Staleness_detected.
Proof.
  cbv zeta. split_and!; [vm_compute; reflexivity| |vm_compute; reflexivity].
  eexists. vm_compute. reflexivity.
Qed.
