(* ===== verification/MultiMap.v ===== *)
(** * The multimap

    Models [src/enclave/MultiMap.h] and [src/enclave/MultiMap.cpp]: the map from
    hashed field values to object keys that secondary indexes are made of.  It
    shares the chains of nodes of [AbstractMap]; an entry may occur more than
    once. *)

From S2P Require Import Prelude Bitstream VersionNumber PageStore Hash HashMapNode AbstractMap.

Section MultiMap.
Context {K V : Type} `{EqDecision K, Countable V, Codec K, Codec V}.
Context {S : Type} `{PageStore S node}.
Variables (sizeof_node : Z) (hash : K -> Z).

Definition mm_to_bucket (key : K) : Z := u16 (hash key mod NUM_BUCKETS).

Definition MultiMap_insert (key : K) (value : V) : ST (amap S) unit :=
  _ ← insert_entry (fun n => Ok (mnode_insert sizeof_node key value n)) false (mm_to_bucket key);
  modify_st (fun m => set_size (u64 (am_size m + 1)) m).

(** The loop of [remove]: each node passed on the way is modified, too. *)
Fixpoint remove_loop (fuel : nat) (key : K) (value : V) (handle : option Z) : ST (amap S) bool :=
  match handle, fuel with
  | None, _ => mret false
  | Some _, O => throw (Undefined "out of fuel")
  | Some p, Datatypes.S fuel =>
      n ← on_store (ps_get p);
      removed ← lift_res (mnode_remove key value n);
      match removed with
      | Some n' => _ ← on_store (ps_put p n'); _ ← on_store (ps_flush p); mret true
      | None => succ ← get_successor p false true; remove_loop fuel key value succ
      end
  end.

Definition MultiMap_remove (key : K) (value : V) : ST (amap S) bool :=
  m ← get_st;
  node ← get_node (mm_to_bucket key) false true;
  removed ← remove_loop (chain_fuel m) key value node;
  if removed : bool then _ ← modify_st (fun m => set_size (u64 (am_size m - 1)) m); mret true
  else mret false.

(** [visit] in the form [walk] takes, for loops that visit the whole chain *)
Definition visit_all {A} (visit : A -> node -> result A) (acc : A) (n : node) : result (A + Empty_set) :=
  match visit acc n with Ok acc => Ok (inl acc) | Throw e => Throw e end.

Definition walk_all {A} (visit : A -> node -> result A) (key : K) (acc : A) : ST (amap S) A :=
  m ← get_st;
  node ← get_node (mm_to_bucket key) false false;
  r ← walk (visit_all visit) (chain_fuel m) node acc;
  mret (match r : A + Empty_set with inl acc => acc | inr e => match e with end end).

Definition MultiMap_find_union (key : K) (out : gset V) : ST (amap S) (gset V) :=
  walk_all (fun out n => mnode_find_union key n out) key out.

Definition MultiMap_estimate_value_count (key : K) : ST (amap S) Z :=
  walk_all (fun count (n : node) =>
    c ← mnode_estimate_value_count (V := V) key n; Ok (u64 (count + c))) key 0.

(** The inner loop of [find_intersect]: is [value] stored under [key]? *)
Definition find_intersect_found (key : K) (value : V) : ST (amap S) bool :=
  m ← get_st;
  node ← get_node (mm_to_bucket key) false false;
  r ← walk (fun _ n => match node_has_entry key value n with
                       | Ok true => Ok (inr tt)
                       | Ok false => Ok (inl tt)
                       | Throw e => Throw e
                       end) (chain_fuel m) node tt;
  mret (match r with inr _ => true | inl _ => false end).

(** The iteration over [out], in the order of the set; what is not stored is
    erased *)
Fixpoint intersect_loop (key : K) (elems : list V) (out : gset V) : ST (amap S) (gset V) :=
  match elems with
  | [] => mret out
  | v :: elems =>
      found ← find_intersect_found key v;
      intersect_loop key elems (if found : bool then out else out ∖ {[v]})
  end.

Definition MultiMap_find_intersect (key : K) (out : gset V) : ST (amap S) (gset V) :=
  intersect_loop key (elements out) out.

Inductive SetOperation : Type := Union | Intersect.

Definition MultiMap_find (key : K) (out : gset V) (op : SetOperation) : ST (amap S) (gset V) :=
  match op with
  | Intersect => MultiMap_find_intersect key out
  | Union => MultiMap_find_union key out
  end.

(** [clear]: the nodes of a bucket, then of all buckets *)
Fixpoint clear_chain (fuel : nat) (handle : option Z) : ST (amap S) unit :=
  match handle, fuel with
  | None, _ => mret tt
  | Some _, O => throw (Undefined "out of fuel")
  | Some p, Datatypes.S fuel =>
      n ← on_store (ps_get p);
      let '(n', diff) := mnode_clear n in
      _ ← on_store (ps_put p n');
      _ ← on_store (ps_flush p);
      _ ← modify_st (fun m => set_size (u64 (am_size m - diff)) m);
      succ ← get_successor p false false;
      clear_chain fuel succ
  end.

Fixpoint clear_buckets (bids : list Z) : ST (amap S) unit :=
  match bids with
  | [] => mret tt
  | bid :: bids =>
      m ← get_st;
      node ← get_node bid false false;
      _ ← clear_chain (chain_fuel m) node;
      clear_buckets bids
  end.

Definition MultiMap_clear : ST (amap S) unit := clear_buckets (seqZ 0 NUM_BUCKETS).

End MultiMap.

Section Spec.
Context {K V : Type} `{EqDecision K, Countable V, CodecLaws K, CodecLaws V}.
Context {S : Type} `{PageStoreLaws S node}.
Variables (sizeof_node : Z) (hash : K -> Z).
Hypothesis sizeof_node_small : 0 <= sizeof_node < MAX_NODE_SIZE - 24.
Implicit Types (key : K) (value : V) (es : list (K * V)) (ess : list (list (K * V))).

(** ** Nodes *)

Definition mm_eins key value es : option (list (K * V)) :=
  if node_full sizeof_node es then None else Some (es ++ [(key, value)]).

Lemma mnode_insert_rep key value n es :
  node_rep n es -> codec_wf key -> codec_wf value ->
  match mm_eins key value es with
  | None => Ok (mnode_insert sizeof_node key value n) = Ok None
  | Some es' => exists n', Ok (mnode_insert sizeof_node key value n) = Ok (Some n') /\
      node_rep n' es' /\ nd_version n' = version_increment (nd_version n) /\
      nd_successor n' = nd_successor n /\ nd_successor_version n' = nd_successor_version n
  end.
Proof.
  intros Hn Hk Hv. destruct (Hn) as [Hd Hwf Hsz _ _]. unfold mnode_insert, mm_eins.
  assert ((node_byte_size sizeof_node n >=? MAX_NODE_SIZE) = node_full sizeof_node es) as ->.
  { rewrite Z.geb_leb. unfold node_byte_size, node_full. by rewrite Hd. }
  destruct (node_full sizeof_node es) eqn:Ef; [done|].
  eexists. split; [done|]. split_and!; [|done..].
  pose proof (room_size sizeof_node ltac:(lia) es Hwf Ef).
  replace (nd_data n ++ enc key ++ enc value) with (entries_bytes (es ++ [(key, value)])).
  2: { rewrite Hd, entries_bytes_app, entries_bytes_cons. cbn. by rewrite app_nil_r. }
  replace (u64 (nd_size n + 1)) with (Z.of_nat (length (es ++ [(key, value)]))).
  2: { rewrite Hsz, wrap_small, length_app by (unfold in_range; lia). cbn. lia. }
  apply node_set_entries_rep with es; [done|]. apply Forall_app. split; [done|].
  by repeat constructor.
Qed.

(** The entries without the first occurrence of one *)
Fixpoint remove_first (e : K * V) es : option (list (K * V)) :=
  match es with
  | [] => None
  | e' :: es => if decide (e = e') then Some es else cons e' <$> remove_first e es
  end.

Lemma remove_first_None e es : remove_first e es = None <-> e ∉ es.
Proof.
  induction es as [|e' es IH]; cbn; [split; [intros _; apply not_elem_of_nil|done]|].
  rewrite not_elem_of_cons. case_decide; [naive_solver|]. rewrite fmap_None. naive_solver.
Qed.

Lemma remove_first_Permutation e es es' : remove_first e es = Some es' -> es ≡ₚ e :: es'.
Proof.
  revert es'. induction es as [|e' es IH]; intros es'; cbn; [done|].
  case_decide as E; [by intros [= ->]; rewrite E|].
  intros (es1 & Hes & ->)%fmap_Some. rewrite (IH es1 Hes). constructor.
Qed.

Lemma mnode_cut_bytes n es0 k v es1 :
  nd_data n = entries_bytes (es0 ++ (k, v) :: es1) ->
  let pos := length (entries_bytes es0) in
  mnode_cut pos (pos + length (entry_bytes (k, v))) n =
  node_set_entries (entries_bytes (es0 ++ es1)) (u64 (nd_size n - 1)) n.
Proof.
  intros Hd pos. unfold mnode_cut, pos. f_equal. rewrite Hd, !entries_bytes_app.
  change ((k, v) :: es1) with ([(k, v)] ++ es1). rewrite entries_bytes_app, take_app_length.
  f_equal. rewrite app_assoc. change (entries_bytes [(k, v)]) with (entry_bytes (k, v) ++ []).
  rewrite app_nil_r. apply drop_app_length'. by rewrite length_app.
Qed.

Lemma mnode_remove_scan key value n es0 es1 :
  nd_data n = entries_bytes (es0 ++ es1) ->
  scan_list (fun _ pos end_ k v =>
      if decide (key = k /\ value = v) then inr (Some (mnode_cut pos end_ n)) else inl tt)
    (fun _ => Ok None) es1 (length (entries_bytes es0)) tt =
  Ok (match remove_first (key, value) es1 with
      | None => None
      | Some es1' => Some (node_set_entries (entries_bytes (es0 ++ es1')) (u64 (nd_size n - 1)) n)
      end).
Proof.
  revert es0. induction es1 as [|[k v] es1 IH]; intros es0 Hd; [done|].
  cbn [remove_first scan_list].
  destruct (decide ((key, value) = (k, v))) as [Ekv|Ekv].
  - injection Ekv as <- <-. rewrite decide_True by done. do 2 f_equal. by apply mnode_cut_bytes.
  - rewrite decide_False by naive_solver.
    replace (length (entries_bytes es0) + length (entry_bytes (k, v)))%nat
      with (length (entries_bytes (es0 ++ [(k, v)]))).
    2: { rewrite entries_bytes_app, length_app. unfold entries_bytes at 2. cbn. by rewrite app_nil_r. }
    rewrite IH by (by rewrite <-app_assoc). destruct (remove_first (key, value) es1); cbn; [|done].
    by rewrite <-app_assoc.
Qed.

Lemma mnode_remove_rep key value n es :
  node_rep n es -> Z.of_nat (length es) < 2 ^ 64 ->
  match remove_first (key, value) es with
  | None => mnode_remove key value n = Ok None
  | Some es' => exists n', mnode_remove key value n = Ok (Some n') /\
      node_rep n' es' /\ nd_version n' = version_increment (nd_version n) /\
      nd_successor n' = nd_successor n /\ nd_successor_version n' = nd_successor_version n
  end.
Proof.
  intros Hn Hlen. destruct (Hn) as [Hd Hwf Hsz _ _]. unfold mnode_remove.
  rewrite (node_scan_rep _ _ _ _ _ Hn). pose proof (mnode_remove_scan key value n [] es Hd) as Hs.
  change (length (entries_bytes [])) with 0%nat in Hs. rewrite Hs.
  destruct (remove_first (key, value) es) as [es'|] eqn:E; [|done].
  eexists. split; [done|]. split_and!; [|done..].
  pose proof (remove_first_Permutation _ _ _ E) as Hp.
  pose proof (Permutation_length Hp) as Hl. cbn in Hl.
  replace (u64 (nd_size n - 1)) with (Z.of_nat (length es')).
  2: { rewrite Hsz, wrap_small by (unfold in_range; lia). lia. }
  apply node_set_entries_rep with es; [done|]. rewrite Hp in Hwf. by apply Forall_cons in Hwf as [_ ?].
Qed.

Definition values_of key es : list V := (filter (fun e => e.1 = key) es).*2.

Lemma mnode_find_union_rep key n es out :
  node_rep n es -> mnode_find_union key n out = Ok (list_to_set (values_of key es) ∪ out).
Proof.
  intros Hn. unfold mnode_find_union. rewrite (node_scan_rep _ _ _ _ _ Hn). clear Hn.
  generalize 0%nat. revert out. induction es as [|[k v] es IH]; intros out pos.
  { cbn. f_equal. set_solver. }
  cbn [scan_list]. rewrite IH. unfold values_of. rewrite filter_cons. cbn [fst].
  destruct (decide (key = k)) as [->|].
  - rewrite decide_True by done. f_equal. cbn. set_solver.
  - by rewrite decide_False by done.
Qed.

Lemma mnode_estimate_rep key n es :
  node_rep n es -> Z.of_nat (length es) < 2 ^ 64 ->
  mnode_estimate_value_count (V := V) key n = Ok (Z.of_nat (length (values_of key es))).
Proof.
  intros Hn Hlen. unfold mnode_estimate_value_count. rewrite (node_scan_rep _ _ _ _ _ Hn). clear Hn.
  enough (forall c pos, 0 <= c -> c + Z.of_nat (length es) < 2 ^ 64 ->
    scan_list (fun count _ _ (k : K) (v : V) =>
       @inl Z Z (if decide (key = k) then u64 (count + 1) else count)) (fun count => Ok count)
      es pos c = Ok (c + Z.of_nat (length (values_of key es)))) as Hgen by (by apply Hgen; [lia|]).
  clear Hlen. induction es as [|[k v] es IH]; intros c pos Hc Hlen; cbn [scan_list].
  { cbn. f_equal. lia. }
  cbn [length] in Hlen. unfold values_of in *. rewrite filter_cons. cbn [fst].
  destruct (decide (key = k)) as [->|].
  - rewrite decide_True, wrap_small by (done || unfold in_range; lia).
    rewrite IH by lia. cbn. f_equal. lia.
  - rewrite decide_False by done. apply IH; lia.
Qed.

(** ** Chains *)

Definition small_nodes ess : Prop := Forall (fun es => (length es <= 1024)%nat) ess.

Lemma mm_eins_empty key value : mm_eins key value [] <> None.
Proof.
  unfold mm_eins, node_full, MAX_NODE_SIZE in *. cbn.
  destruct (Z.leb_spec 1024 (0 + (24 + 0) + sizeof_node)); case_match; bool_hyps; lia || done.
Qed.

Lemma mm_chain_insert key value ess :
  Forall (Forall entry_wf) ess -> small_nodes ess ->
  mjoin (chain_insert (mm_eins key value) ess) ≡ₚ (key, value) :: mjoin ess /\
  small_nodes (chain_insert (mm_eins key value) ess).
Proof.
  intros Hwf Hs. induction ess as [|es ess IH]; cbn [chain_insert].
  - pose proof (mm_eins_empty key value) as Hne. unfold mm_eins in *.
    destruct (node_full sizeof_node []); [done|]. cbn. split; [done|].
    constructor; [cbn; lia|constructor].
  - apply Forall_cons in Hwf as [Hes Hwf], Hs as [Hl Hs]. destruct (IH Hwf Hs) as [IH1 IH2].
    assert (mm_eins key value es = if node_full sizeof_node es then None
      else Some (es ++ [(key, value)])) as -> by done.
    destruct (node_full sizeof_node es) eqn:E.
    + split; [|by constructor]. change (mjoin (es :: ?l)) with (es ++ mjoin l). rewrite IH1.
      by rewrite Permutation_middle.
    + split.
      * change (mjoin ((es ++ [(key, value)]) :: ess)) with ((es ++ [(key, value)]) ++ mjoin ess).
        change (mjoin (es :: ess)) with (es ++ mjoin ess).
        rewrite <-app_assoc. cbn. by rewrite Permutation_middle.
      * apply room_size in E; [|lia|done]. constructor; [rewrite length_app; cbn; lia|done].
Qed.

(** Removing an entry that is there: the nodes on the way get new versions. *)
Lemma remove_loop_ok fuel m pg bk sz av p n es c key value :
  st_is m pg bk sz av -> p <> INVALID_PAGE_NO -> pg !! p = Some n -> node_rep n es ->
  chain pg (nd_successor n) (nd_successor_version n) c -> NoDup (p :: c.*1) ->
  small_nodes (es :: c.*2) -> (key, value) ∈ mjoin (es :: c.*2) -> (length c < fuel)%nat ->
  wp (remove_loop fuel key value (Some p)) (fun r m' => r = true /\ exists pg' c',
    st_is m' pg' bk sz av /\ chain pg' p (version_increment (nd_version n)) c' /\
    c'.*1 = p :: c.*1 /\ mjoin (es :: c.*2) ≡ₚ (key, value) :: mjoin c'.*2 /\
    small_nodes c'.*2 /\ forall q, q ∉ p :: c.*1 -> pg' !! q = pg !! q) m.
Proof.
  revert fuel m pg p n es. induction c as [|[q es1] c IH];
    intros fuel m pg p n es Hm Hp Hn Hr Hc [Hpc Hnd]%NoDup_cons Hs Hin Hf;
    (destruct fuel as [|fuel]; [cbn in Hf; lia|]); cbn [remove_loop];
    (apply wp_bind; eapply wp_mono; [by eapply on_store_get|]; cbv beta; intros ? m1 [-> Hm1]);
    assert (Hs' := Hs); apply Forall_cons in Hs' as [Hl Hs'];
    pose proof (mnode_remove_rep key value n es Hr ltac:(lia)) as Hrem;
    destruct (remove_first (key, value) es) as [es'|] eqn:E.
  1,3: destruct Hrem as (n' & -> & Hr' & Hv' & Hs1 & Hs2); apply wp_bind, wp_ret, wp_bind;
    eapply wp_mono; [by eapply on_store_put|]; cbv beta; intros _ m2 Hm2; apply wp_bind;
    eapply wp_mono; [eapply on_store_flush; [done|by rewrite lookup_insert_eq]|];
    cbv beta; intros _ m3 Hm3; apply wp_ret; split; [done|];
    pose proof (remove_first_Permutation _ _ _ E) as Hperm.
  - exists (<[p := n']> pg), [(p, es')]. split_and!; [done| |done| | |].
    + split_and!; [done..|]. exists n'. rewrite lookup_insert_eq, Hs1, Hs2. by split_and!.
    + cbn. rewrite !app_nil_r. done.
    + constructor; [|constructor]. pose proof (Permutation_length Hperm) as Hlen. cbn in *. lia.
    + intros q [Hq _]%not_elem_of_cons. by rewrite lookup_insert_ne.
  - exists (<[p := n']> pg), ((p, es') :: (q, es1) :: c). split_and!; [done| |done| | |].
    + split_and!; [done..|]. exists n'. rewrite lookup_insert_eq, Hs1, Hs2. split_and!; [done..|].
      eapply chain_frame; [|exact Hc]. intros r Hr1. rewrite lookup_insert_ne; [done|]. by intros ->.
    + change (mjoin (es :: ?l)) with (es ++ mjoin l).
      change (mjoin ((p, es') :: (q, es1) :: c).*2) with (es' ++ mjoin ((q, es1) :: c).*2).
      by rewrite Hperm.
    + constructor; [|done]. pose proof (Permutation_length Hperm) as Hlen. cbn in *. lia.
    + intros r [Hq _]%not_elem_of_cons. by rewrite lookup_insert_ne.
  - apply remove_first_None in E. destruct E. cbn in Hin. by rewrite app_nil_r in Hin.
  - rewrite Hrem. apply wp_bind, wp_ret, wp_bind. apply remove_first_None in E.
    destruct Hc as (Hsq & Hq & n1 & Hn1 & Hr1 & Hv1 & Hc1).
    assert (q <> INVALID_PAGE_NO) as Hq0 by congruence. assert (pg !! q = Some n1) as Hnq by congruence.
    apply not_elem_of_cons in Hpc as [Hpq Hpc]. cbn [fst] in Hpq.
    eapply get_successor_modify; [done..|by right|]. rewrite Hsq. intros m2 Hm2.
    assert (<[p := node_increment_version_no n]> pg !! q = Some n1) as Hq1
      by (by rewrite lookup_insert_ne).
    eapply wp_mono; [by eapply get_node_internal_found|]. cbv beta. intros ? m3 [-> Hm3].
    eexists q, _, _. split; [done|]. split; [done|].
    split; [by rewrite lookup_insert_eq|]. intros m4 Hm4. rewrite insert_insert_eq in Hm4.
    eapply wp_mono.
    { apply (IH fuel m4 (<[p := node_advance q n]> pg) q n1 es1); try done.
      - by rewrite lookup_insert_ne.
      - eapply chain_frame; [|done]. intros r Hr'. rewrite lookup_insert_ne; [done|]. by intros ->.
      - change (mjoin (es :: ?l)) with (es ++ mjoin l) in Hin. by apply elem_of_app in Hin as [?|?].
      - cbn in Hf. lia. }
    cbv beta. intros r m5 (-> & pg' & c' & Hm5 & Hc' & Hp' & Hperm & Hsm & Hoff). split; [done|].
    exists pg', ((p, es) :: c'). split_and!; [done| | | | |].
    + split_and!; [done..|]. exists (node_advance q n).
      rewrite Hoff by (by apply not_elem_of_cons). rewrite lookup_insert_eq.
      split_and!; [done|by apply node_advance_rep|done|]. cbn. by rewrite <-Hv1.
    + cbn. by rewrite Hp'.
    + change (mjoin (es :: ?l)) with (es ++ mjoin l).
      change (mjoin ((p, es) :: c').*2) with (es ++ mjoin c'.*2).
      change (((q, es1) :: c).*2) with (es1 :: c.*2). rewrite Hperm. by rewrite Permutation_middle.
    + by constructor.
    + intros r [Hrp Hrc]%not_elem_of_cons. rewrite Hoff by done. by rewrite lookup_insert_ne.
Qed.

(** ** Whole maps *)

Definition in_bucket (bid : Z) (e : K * V) : Prop := mm_to_bucket hash e.1 = bid.

#[local] Instance in_bucket_dec bid e : Decision (in_bucket bid e).
Proof. unfold in_bucket. apply _. Defined.

(** The map holds the entries [l], in any order. *)
Definition mm_inv (m : amap S) (l : list (K * V)) (av : Z) : Prop :=
  exists cs, map_inv m cs av /\ (forall bid, small_nodes (cs bid).*2) /\
    forall bid, mjoin (cs bid).*2 ≡ₚ filter (in_bucket bid) l.

Lemma mm_inv_init s av : ps_wf s -> ps_avail s = av -> mm_inv (amap_init s) [] av.
Proof.
  intros Hw Ha. exists (fun _ => []). split_and!; [by apply map_inv_init|constructor|done].
Qed.

(** Only the number of entries changes. *)
Lemma map_inv_set_size m cs av z : map_inv (K := K) (V := V) m cs av -> map_inv (set_size z m) cs av.
Proof. intros (pg & (? & ? & ? & ? & ?) & ? & ? & ?). by exists pg. Qed.

Lemma MultiMap_insert_ok m l av key value :
  mm_inv m l av -> 1 < av -> codec_wf key -> codec_wf value ->
  wp (MultiMap_insert sizeof_node hash key value) (fun _ m' => exists av',
    mm_inv m' ((key, value) :: l) av' /\ av - 2 <= av' /\ am_size m' = u64 (am_size m + 1)) m.
Proof.
  intros (cs & Hinv & Hsm & Hl) Hav Hk Hv. apply wp_bind. eapply wp_mono.
  { eapply (insert_entry_ok _ (mm_eins key value)); [|apply mm_eins_empty|exact Hinv|done].
    intros n es Hr. by apply mnode_insert_rep. }
  cbv beta. intros _ m1 (cs' & av' & Hinv' & Hav' & He & Hoff & Hsz & _). apply wp_modify.
  exists av'. split_and!; [|done|cbn; by rewrite Hsz]. exists cs'.
  set (bid := mm_to_bucket hash key) in *.
  assert (Forall (Forall entry_wf) (cs bid).*2) as Hwf
    by (destruct Hinv as (pg & _ & Hc & _); exact (chain_wf _ _ _ _ (Hc bid))).
  destruct (mm_chain_insert key value (cs bid).*2 Hwf (Hsm bid)) as [Hp Hs'].
  split_and!; [by apply map_inv_set_size| |]; intros b; destruct (decide (b = bid)) as [->|Hb];
    rewrite ?He, ?Hoff by done; [done|done| |].
  - rewrite Hp, Hl, filter_cons_True by done. done.
  - rewrite Hl, filter_cons_False; [done|]. by intros <-.
Qed.

Lemma MultiMap_remove_ok m l av key value :
  mm_inv m l av -> (key, value) ∈ l ->
  wp (MultiMap_remove hash key value) (fun r m' => r = true /\ am_size m' = u64 (am_size m - 1) /\
    exists l', l ≡ₚ (key, value) :: l' /\ mm_inv m' l' av) m.
Proof.
  intros (cs & Hinv & Hsm & Hl) Hin. assert (Hinv' := Hinv).
  destruct Hinv' as (pg & Hm & Hc & Hnd & Hdisj). set (bid := mm_to_bucket hash key) in *.
  assert ((key, value) ∈ mjoin (cs bid).*2) as Hin'
    by (rewrite Hl; by apply list_elem_of_filter).
  pose proof (chain_length _ _ _ _ (Hc bid) (Hnd bid)) as Hlen.
  destruct (cs bid) as [|[q es] c] eqn:Ecs; [by apply elem_of_nil in Hin'|].
  pose proof (Hc bid) as Hcb. rewrite Ecs in Hcb.
  apply wp_bind, wp_get, wp_bind.
  eapply wp_mono; [exact (get_node_modify _ _ _ _ _ _ _ _ _ Hm Hcb)|]. cbv beta. intros ? m1 [-> Hm1].
  destruct Hcb as (Hpq & Hq & n & Hn & Hr & Hv & Hc1). rewrite Hpq in Hq, Hn.
  pose proof (Hnd bid) as Hndb. rewrite Ecs in Hndb. pose proof (Hsm bid) as Hsmb. rewrite Ecs in Hsmb.
  apply wp_bind. eapply wp_mono.
  { eapply (remove_loop_ok _ m1 pg); try done.
    unfold chain_fuel. destruct Hm as (_ & -> & _). cbn in Hlen. lia. }
  cbv beta. intros r m2 (-> & pg' & c' & Hm2 & Hc' & Hp' & Hperm & Hsm' & Hoff).
  apply wp_bind, wp_modify, wp_ret. split; [done|].
  split; [cbn; by destruct Hm2 as (_ & _ & _ & _ & ->)|].
  destruct (elem_of_Permutation l (key, value)) as [Hl1 _].
  destruct (Hl1 Hin) as [l' Hl']. exists l'. split; [done|].
  exists (fun b => if decide (b = bid) then c' else cs b).
  split_and!.
  - apply map_inv_set_size. eapply map_inv_update; [exact Hm|exact Hinv|exact Hm2| | | |].
    + by rewrite <-Hv.
    + by rewrite Hp'.
    + intros r Hr' _. apply Hoff. by rewrite Ecs in Hr'.
    + intros r Hr'. left. rewrite Ecs. by rewrite Hp' in Hr'.
  - intros b. by case_decide.
  - intros b. case_decide as Eb; [subst b|].
    + apply (Permutation_cons_inv (a := (key, value))). rewrite <-Hperm.
      change (es :: c.*2) with (((q, es) :: c).*2). rewrite <-Ecs, Hl, Hl'.
      by rewrite filter_cons_True.
    + rewrite Hl, Hl', filter_cons_False; [done|]. by intros <-.
Qed.

(** ** Lookups *)

Lemma values_of_bucket key l :
  values_of key (filter (in_bucket (mm_to_bucket hash key)) l) = values_of key l.
Proof.
  unfold values_of. induction l as [|[k v] l IH]; [done|]. rewrite filter_cons.
  destruct (decide (in_bucket (mm_to_bucket hash key) (k, v))) as [Hb|Hb].
  - rewrite !(filter_cons (fun e : K * V => e.1 = key)). cbn [fst].
    destruct (decide (k = key)); cbn; by rewrite IH.
  - rewrite IH. rewrite filter_cons_False; [done|]. cbn. by intros ->.
Qed.

Lemma values_of_app key es1 es2 : values_of key (es1 ++ es2) = values_of key es1 ++ values_of key es2.
Proof. unfold values_of. by rewrite filter_app, fmap_app. Qed.

(** A chain is visited to its end. *)
Lemma walk_all_ok {A} (visit : A -> node -> result A) g m l av key acc :
  mm_inv m l av ->
  (forall acc n es, (length es <= 1024)%nat -> node_rep n es -> visit acc n = Ok (g acc es)) ->
  wp (walk_all hash visit key acc) (fun r m' => mm_inv m' l av /\ am_size m' = am_size m /\
    exists ess, r = fold_left g ess acc /\ values_of key (mjoin ess) ≡ₚ values_of key l) m.
Proof.
  intros (cs & Hinv & Hsm & Hl) Hvisit. assert (Hinv' := Hinv).
  destruct Hinv' as (pg & Hm & Hc & Hnd & _). set (bid := mm_to_bucket hash key) in *.
  apply wp_bind, wp_get, wp_bind.
  eapply wp_mono; [exact (get_node_read m pg _ _ av _ _ Hm (Hc bid))|]. cbv beta. intros ? m1 [-> Hm1].
  apply wp_bind. eapply wp_mono.
  { eapply (walk_ok _ (fun acc es => @inl A Empty_set (g acc es)) _ _ m1 pg);
      [|exact (Hsm bid)|exact Hm1|exact (Hc bid)|].
    - intros acc' n es Hes Hr. unfold visit_all. by rewrite (Hvisit acc' n es Hes Hr).
    - unfold chain_fuel. destruct Hm as (_ & -> & _).
      pose proof (chain_length _ _ _ _ (Hc bid) (Hnd bid)). lia. }
  cbv beta. intros ? m2 [-> Hm2]. apply wp_ret.
  split_and!.
  - exists cs. split_and!; [by eapply map_inv_same|done|done].
  - by destruct Hm2 as (_ & _ & _ & _ & ->).
  - exists (cs bid).*2. split.
    + clear. generalize acc. induction (cs bid).*2 as [|es ess IH]; intros acc'; cbn; [done|]. apply IH.
    + rewrite <-(values_of_bucket key l). unfold values_of at 1 2. by rewrite (Hl bid).
Qed.

Lemma MultiMap_find_union_ok m l av key out :
  mm_inv m l av ->
  wp (MultiMap_find_union hash key out) (fun r m' => r = list_to_set (values_of key l) ∪ out /\
    mm_inv m' l av /\ am_size m' = am_size m) m.
Proof.
  intros Hm. eapply wp_mono.
  { eapply (walk_all_ok _ (fun (out : gset V) es => list_to_set (values_of key es) ∪ out)); [exact Hm|].
    intros. by apply mnode_find_union_rep. }
  cbv beta. intros ? m' (Hinv & Hsz & ess & -> & Hp). split_and!; [|done..].
  rewrite <-(list_to_set_perm_L (C := gset V) _ _ Hp). clear. revert out.
  induction ess as [|es ess IH]; intros out; cbn [fold_left].
  - cbn. set_solver.
  - rewrite IH. change (mjoin (es :: ess)) with (es ++ mjoin ess). rewrite values_of_app. set_solver.
Qed.

Lemma MultiMap_estimate_ok m l av key :
  mm_inv m l av -> Z.of_nat (length l) < 2 ^ 64 ->
  wp (MultiMap_estimate_value_count (V := V) hash key) (fun r m' =>
    r = Z.of_nat (length (values_of key l)) /\ mm_inv m' l av /\ am_size m' = am_size m) m.
Proof.
  intros Hm Hlen. eapply wp_mono.
  { eapply (walk_all_ok _ (fun c es => u64 (c + Z.of_nat (length (values_of key es))))); [exact Hm|].
    intros acc n es Hes Hr. rewrite (mnode_estimate_rep _ _ _ Hr) by lia. done. }
  cbv beta. intros ? m' (Hinv & Hsz & ess & -> & Hp). split_and!; [|done..].
  assert (Z.of_nat (length (values_of key l)) < 2 ^ 64) as Hb.
  { unfold values_of. rewrite length_fmap. pose proof (length_filter (fun e : K * V => e.1 = key) l). lia. }
  rewrite <-(Permutation_length Hp) in *. clear -Hb.
  enough (forall c, 0 <= c -> c + Z.of_nat (length (values_of key (mjoin ess))) < 2 ^ 64 ->
    fold_left (fun c es => u64 (c + Z.of_nat (length (values_of key es)))) ess c =
    c + Z.of_nat (length (values_of key (mjoin ess)))) as Hg by (by apply Hg).
  clear Hb. induction ess as [|es ess IH]; intros c Hc Hb; cbn [fold_left]; [cbn; lia|].
  change (mjoin (es :: ess)) with (es ++ mjoin ess) in *. rewrite values_of_app, length_app in *.
  rewrite wrap_small by (unfold in_range; lia). rewrite IH by lia. lia.
Qed.

Lemma find_intersect_found_ok m l av key value :
  mm_inv m l av ->
  wp (find_intersect_found hash key value) (fun r m' => r = bool_decide ((key, value) ∈ l) /\
    mm_inv m' l av /\ am_size m' = am_size m) m.
Proof.
  intros (cs & Hinv & Hsm & Hl). assert (Hinv' := Hinv).
  destruct Hinv' as (pg & Hm & Hc & Hnd & _). set (bid := mm_to_bucket hash key) in *.
  apply wp_bind, wp_get, wp_bind.
  eapply wp_mono; [exact (get_node_read m pg _ _ av _ _ Hm (Hc bid))|]. cbv beta. intros ? m1 [-> Hm1].
  apply wp_bind. eapply wp_mono.
  { eapply (walk_ok _ (fun (_ : unit) es => if bool_decide ((key, value) ∈ es) then inr tt else inl tt)
      _ _ m1 pg); [|exact (Hsm bid)|exact Hm1|exact (Hc bid)|].
    - intros [] n es _ Hr. rewrite (node_has_entry_rep _ _ _ _ Hr). by case_bool_decide.
    - unfold chain_fuel. destruct Hm as (_ & -> & _).
      pose proof (chain_length _ _ _ _ (Hc bid) (Hnd bid)). lia. }
  cbv beta. intros ? m2 [-> Hm2]. apply wp_ret.
  split_and!; [|exists cs; split_and!; [by eapply map_inv_same|done|done]
    |by destruct Hm2 as (_ & _ & _ & _ & ->)].
  rewrite (bool_decide_ext _ ((key, value) ∈ mjoin (cs bid).*2)).
  2: { rewrite Hl, list_elem_of_filter. unfold in_bucket. naive_solver. }
  clear. induction (cs bid).*2 as [|es ess IH]; cbn [walk_list].
  - by rewrite bool_decide_eq_false_2 by apply not_elem_of_nil.
  - change (mjoin (es :: ess)) with (es ++ mjoin ess).
    destruct (decide ((key, value) ∈ es)) as [Hin|Hin].
    + rewrite (bool_decide_eq_true_2 _ Hin), bool_decide_eq_true_2; [done|].
      apply elem_of_app. by left.
    + rewrite (bool_decide_eq_false_2 _ Hin), IH. apply bool_decide_ext. rewrite elem_of_app. tauto.
Qed.

Lemma MultiMap_find_intersect_ok m l av key out :
  mm_inv m l av ->
  wp (MultiMap_find_intersect hash key out) (fun r m' =>
    r = filter (fun v => (key, v) ∈ l) out /\ mm_inv m' l av /\ am_size m' = am_size m) m.
Proof.
  intros Hm. unfold MultiMap_find_intersect.
  enough (forall elems out m, mm_inv m l av -> wp (intersect_loop hash key elems out) (fun r m' =>
    r = out ∖ filter (fun v => (key, v) ∉ l) (list_to_set elems) /\ mm_inv m' l av /\
    am_size m' = am_size m) m) as Hg.
  { eapply wp_mono; [by apply Hg|]. cbv beta. intros r m' (-> & ? & ?). split_and!; [|done..].
    rewrite list_to_set_elements_L. apply leibniz_equiv. intros v.
    rewrite elem_of_difference, !elem_of_filter. destruct (decide ((key, v) ∈ l)); tauto. }
  clear m Hm out. induction elems as [|v elems IH]; intros out m Hm; cbn [intersect_loop].
  { apply wp_ret. split_and!; [|done..]. set_solver. }
  apply wp_bind. eapply wp_mono; [by eapply find_intersect_found_ok|]. cbv beta.
  intros ? m1 (-> & Hm1 & Hsz). eapply wp_mono; [by apply IH|]. cbv beta.
  intros ? m2 (-> & Hm2 & Hsz2). split_and!; [|done|congruence].
  apply leibniz_equiv. intros x. case_bool_decide; set_solver.
Qed.
(** ** Clearing *)

Lemma map_inv_ext m cs cs' av :
  (forall b, cs b = cs' b) -> map_inv (K := K) (V := V) m cs av -> map_inv m cs' av.
Proof.
  intros Hcs (pg & Hm & Hc & Hnd & Hdisj). exists pg.
  split_and!; [done|intros b|intros b|intros b1 b2 q]; rewrite <-?Hcs; auto. apply Hdisj.
Qed.

Definition cleared (c : list (Z * list (K * V))) : list (Z * list (K * V)) := (fun e => (e.1, [])) <$> c.

Lemma cleared_pages c : (cleared c).*1 = c.*1.
Proof. unfold cleared. rewrite <-list_fmap_compose. by apply list_fmap_ext. Qed.

Lemma cleared_entries c : mjoin (cleared c).*2 = [].
Proof. unfold cleared. induction c as [|e c IH]; [done|]. cbn. exact IH. Qed.

Lemma clear_chain_ok fuel m pg bk sz av p v c :
  st_is m pg bk sz av -> chain pg p v c -> NoDup c.*1 -> (length c <= fuel)%nat ->
  wp (clear_chain fuel (fst <$> head c)) (fun _ m' => exists pg' sz', st_is m' pg' bk sz' av /\
    chain pg' p v (cleared c) /\ forall q, q ∉ c.*1 -> pg' !! q = pg !! q) m.
Proof.
  revert m pg sz p v c. induction fuel as [|fuel IH]; intros m pg sz p v [|[q es] c] Hm Hc Hnd Hf;
    try (by apply wp_ret; exists pg, sz; split_and!); [cbn in Hf; lia|].
  destruct Hc as (-> & Hq & n & Hn & Hr & Hv & Hc). apply NoDup_cons in Hnd as [Hqc Hnd].
  cbn [clear_chain head fmap option_fmap option_map fst]. apply wp_bind.
  eapply wp_mono; [by eapply on_store_get|]. cbv beta. intros ? m1 [-> Hm1]. cbv beta iota delta [mnode_clear].
  set (n' := mkNode _ _ _ _ _). apply wp_bind. eapply wp_mono; [by eapply (on_store_put _ _ _ _ _ q n')|].
  cbv beta. intros _ m2 Hm2. apply wp_bind.
  eapply wp_mono; [eapply on_store_flush; [done|by rewrite lookup_insert_eq]|]. cbv beta. intros _ m3 Hm3.
  apply wp_bind, wp_modify.
  assert (st_is (set_size (u64 (am_size m3 - nd_size n)) m3) (<[q := n']> pg) bk (u64 (am_size m3 - nd_size n)) av) as Hm4
    by (by destruct Hm3 as (? & ? & ? & ? & _)).
  assert (chain (<[q := n']> pg) (nd_successor n) (nd_successor_version n) c) as Hc1.
  { eapply chain_frame; [|exact Hc]. intros r Hr'. rewrite lookup_insert_ne; [done|by intros ->]. }
  apply wp_bind. eapply wp_mono.
  { exact (get_successor_read _ _ _ _ _ q n' c Hm4 (lookup_insert_eq _ _ _) Hc1). }
  cbv beta. intros ? m5 [-> Hm5]. eapply wp_mono.
  { eapply IH; [exact Hm5|exact Hc1|done|cbn in Hf; lia]. }
  cbv beta. intros _ m6 (pg' & sz' & Hm6 & Hc' & Hoff'). exists pg', sz'. split_and!; [done| |].
  - cbn. split_and!; [done..|]. exists n'. rewrite Hoff', lookup_insert_eq by done.
    split_and!; [done| |done|done]. destruct Hr as [Hd Hwf Hsz Hvr Hsr]. by split.
  - intros r [Hrq Hrc]%not_elem_of_cons. rewrite Hoff' by done. by rewrite lookup_insert_ne.
Qed.

Lemma clear_bucket_ok bid m cs av :
  map_inv m cs av ->
  wp (node ← get_node bid false false; clear_chain (chain_fuel m) node)
    (fun _ m' => map_inv m' (fun b => if decide (b = bid) then cleared (cs b) else cs b) av) m.
Proof.
  intros (pg & Hm & Hc & Hnd & Hdisj). apply wp_bind.
  eapply wp_mono; [exact (get_node_read m pg _ _ av _ _ Hm (Hc bid))|]. cbv beta. intros ? m1 [-> Hm1].
  eapply wp_mono.
  { eapply clear_chain_ok; [exact Hm1|exact (Hc bid)|exact (Hnd bid)|].
    unfold chain_fuel. destruct Hm as (_ & -> & _). pose proof (chain_length _ _ _ _ (Hc bid) (Hnd bid)). lia. }
  cbv beta. intros _ m2 (pg' & sz' & Hm2 & Hc2 & Hoff).
  assert (forall b, get_bucket b m2 = get_bucket b m) as Hbk
    by (intros b; unfold get_bucket; by destruct Hm2 as (_ & _ & _ & -> & _)).
  assert (forall b, ((if decide (b = bid) then cleared (cs b) else cs b)).*1 = (cs b).*1) as Hp
    by (intros b; case_decide; [apply cleared_pages|done]).
  exists pg'. split_and!.
  - by destruct Hm2 as (? & ? & ? & ? & ?).
  - intros b. rewrite Hbk. case_decide as Eb; [by subst|]. eapply chain_frame; [|apply Hc].
    intros q Hq. apply Hoff. intros Hq'. destruct Eb. by eapply Hdisj.
  - intros b. rewrite Hp. apply Hnd.
  - intros b1 b2 q. rewrite !Hp. apply Hdisj.
Qed.

Lemma clear_buckets_ok bids m cs av :
  map_inv m cs av ->
  wp (clear_buckets bids) (fun _ m' => map_inv m' (fun b => if decide (b ∈ bids) then cleared (cs b) else cs b) av) m.
Proof.
  revert m cs. induction bids as [|bid bids IH]; intros m cs Hm; cbn [clear_buckets].
  { apply wp_ret. eapply map_inv_ext; [|exact Hm]. intros b. by rewrite decide_False by apply not_elem_of_nil. }
  apply wp_bind, wp_get, wp_bind.
  pose proof (clear_bucket_ok bid m cs av Hm) as Hw. apply wp_bind_inv in Hw.
  eapply wp_mono; [exact Hw|]. cbv beta. intros node m1 Hw1. apply wp_bind.
  eapply wp_mono; [exact Hw1|]. cbv beta. intros _ m2 Hm2. eapply wp_mono; [by apply IH|].
  cbv beta. intros _ m3 Hm3.
  eapply map_inv_ext; [|exact Hm3]. intros b. cbv beta.
  destruct (decide (b = bid)) as [->|Hb].
  - rewrite (decide_True (P := bid ∈ bid :: bids)) by left. case_decide; [|done].
    unfold cleared. rewrite <-list_fmap_compose. by apply list_fmap_ext.
  - destruct (decide (b ∈ bids)); [by rewrite decide_True by (by right)|].
    rewrite decide_False; [done|]. by intros [?|?]%elem_of_cons.
Qed.

Lemma MultiMap_clear_ok m l av :
  mm_inv m l av -> wp MultiMap_clear (fun _ m' => mm_inv m' [] av) m.
Proof.
  intros (cs & Hinv & Hsm & Hl). eapply wp_mono; [by apply clear_buckets_ok|]. cbv beta. intros _ m' Hm'.
  eexists. split_and!; [exact Hm'| |]; intros bid; cbv beta; case_decide as Hb.
  - unfold small_nodes. apply Forall_forall. intros es (e & -> & He)%list_elem_of_fmap.
    apply list_elem_of_fmap in He as (e' & -> & _). cbn. lia.
  - apply Hsm.
  - by rewrite cleared_entries.
  - rewrite Hl. assert (filter (in_bucket bid) l = []) as ->; [|done].
    apply elem_of_nil_inv. intros [k v] [Hk _]%list_elem_of_filter. destruct Hb. apply elem_of_seqZ.
    unfold in_bucket in Hk. cbn in Hk. subst bid. unfold mm_to_bucket.
    pose proof (Z.mod_pos_bound (hash k) NUM_BUCKETS ltac:(done)).
    rewrite wrap_small; [lia|]. unfold in_range, NUM_BUCKETS in *. lia.
Qed.
End Spec.

(** ** Sequences of operations *)

Inductive mm_op (K V : Type) : Type :=
| MInsert (key : K) (value : V)
| MRemove (key : K) (value : V).
Arguments MInsert {K V}.
Arguments MRemove {K V}.

Section Sequences.
Context {K V : Type} `{EqDecision K, Countable V, CodecLaws K, CodecLaws V}.
Context {S : Type} `{PageStoreLaws S node}.
Variables (sizeof_node : Z) (hash : K -> Z).
Hypothesis sizeof_node_small : 0 <= sizeof_node < MAX_NODE_SIZE - 24.

(** The specification: a bag of entries; removals are of entries that are in it *)
Fixpoint bag_run (ops : list (mm_op K V)) (l : list (K * V)) : option (list (K * V)) :=
  match ops with
  | [] => Some l
  | MInsert k v :: ops => bag_run ops ((k, v) :: l)
  | MRemove k v :: ops => l' ← remove_first (k, v) l; bag_run ops l'
  end.

Fixpoint MultiMap_run (ops : list (mm_op K V)) : ST (amap S) unit :=
  match ops with
  | [] => mret tt
  | MInsert k v :: ops => _ ← MultiMap_insert sizeof_node hash k v; MultiMap_run ops
  | MRemove k v :: ops => _ ← MultiMap_remove hash k v; MultiMap_run ops
  end.

Definition op_wf (op : mm_op K V) : Prop :=
  match op with MInsert k v | MRemove k v => codec_wf k /\ codec_wf v end.

Lemma mm_inv_perm m (l l' : list (K * V)) av :
  mm_inv hash m l av -> l ≡ₚ l' -> mm_inv hash m l' av.
Proof.
  intros (cs & Hinv & Hsm & Hl) Hp. exists cs. split_and!; [done..|]. intros bid. by rewrite Hl, Hp.
Qed.

Lemma MultiMap_run_ok ops m (l l' : list (K * V)) av :
  mm_inv hash m l av -> bag_run ops l = Some l' -> Forall op_wf ops ->
  2 * Z.of_nat (length ops) <= av ->
  wp (MultiMap_run ops) (fun _ m' => exists av', mm_inv hash m' l' av') m.
Proof.
  revert m l av. induction ops as [|[k v|k v] ops IH]; intros m l av Hm Hrun Hwf Hav.
  - injection Hrun as <-. apply wp_ret. eauto.
  - apply Forall_cons in Hwf as [[Hk Hv] Hwf]. cbn [length] in Hav. apply wp_bind.
    eapply wp_mono; [eapply MultiMap_insert_ok; [done|exact Hm|lia|done|done]|]. cbv beta.
    intros _ m1 (av' & Hm1 & Hav1 & _). eapply IH; [exact Hm1|exact Hrun|done|lia].
  - apply Forall_cons in Hwf as [[Hk Hv] Hwf]. cbn [length] in Hav. cbn in Hrun.
    apply bind_Some in Hrun as (l1 & Hrem & Hrun).
    pose proof (remove_first_Permutation _ _ _ Hrem) as Hp. apply wp_bind.
    eapply wp_mono; [eapply MultiMap_remove_ok; [done|exact Hm|rewrite Hp; left]|]. cbv beta.
    intros _ m1 (_ & _ & l2 & Hp2 & Hm1). eapply IH; [eapply mm_inv_perm; [exact Hm1|]|done|done|lia].
    apply (Permutation_cons_inv (a := (k, v))). by rewrite <-Hp2.
Qed.

End Sequences.

(** Keys of the multimap: [int64_t] *)
#[global] Instance int64_codec : Codec Z := {|
  codec_wf z := - 2 ^ 63 <= z < 2 ^ 63;
  enc z := le_encode 8 (wrap 64 z);
  dec bs := '(u, bs) ← int_dec 8 bs; Some (if u <? 2 ^ 63 then u else u - 2 ^ 64, bs);
|}.

#[global] Instance int64_codec_laws : CodecLaws Z.
Proof.
  split; cbn -[le_encode int_dec wrap].
  - intros z rest Hz. rewrite int_dec_enc by (apply wrap_range; lia). cbn -[wrap].
    do 2 f_equal. unfold wrap. destruct (Z.ltb_spec (z mod 2 ^ 64) (2 ^ 63)); dlia.
  - intros. rewrite le_encode_length. lia.
Qed.

(** ** Theorems *)

(** C9.  The multimap is a bag of entries: after any sequence of insertions and
    of removals of entries that are there, no operation has failed; [find] with
    [Union] adds exactly the values stored under the key, with [Intersect] keeps
    exactly the given values that are stored under it, and
    [estimate_value_count] is their number. *)
Theorem MultiMap_bag {K V} `{EqDecision K, Countable V, CodecLaws K, CodecLaws V}
    {S} `{PageStoreLaws S node} (sizeof_node : Z) (hash : K -> Z) (s : S)
    (ops : list (mm_op K V)) (l : list (K * V)) :
  0 <= sizeof_node < MAX_NODE_SIZE - 24 -> ps_wf s -> 2 * Z.of_nat (length ops) <= ps_avail s ->
  Z.of_nat (length l) < 2 ^ 64 -> Forall op_wf ops -> bag_run ops [] = Some l ->
  wp (MultiMap_run sizeof_node hash ops) (fun _ m => forall key (out : gset V),
    wp (MultiMap_find hash key out Union) (fun r _ => r = list_to_set (values_of key l) ∪ out) m /\
    wp (MultiMap_find hash key out Intersect) (fun r _ => r = filter (fun v => (key, v) ∈ l) out) m /\
    wp (MultiMap_estimate_value_count (V := V) hash key)
      (fun r _ => r = Z.of_nat (length (values_of key l))) m) (amap_init s).
Proof.
  intros Hsz Hw Hav Hlen Hwf Hrun. eapply wp_mono.
  { eapply MultiMap_run_ok; [done|by apply mm_inv_init|exact Hrun|done|done]. }
  cbv beta. intros _ m (av & Hm) key out. split_and!.
  - eapply wp_mono; [by eapply MultiMap_find_union_ok|]. by intros ? ? [? _].
  - eapply wp_mono; [by eapply MultiMap_find_intersect_ok|]. by intros ? ? [? _].
  - eapply wp_mono; [by eapply MultiMap_estimate_ok|]. by intros ? ? [? _].
Qed.

Lemma MultiMap_bag_witness :
  let ops := [MInsert 5 "a"%string; MInsert 5 "b"%string; MInsert 6 "a"%string; MRemove 5 "a"%string] in
  wp (MultiMap_run 64 hash_int64 ops) (fun _ m =>
    wp (MultiMap_find hash_int64 5 {["c"%string]} Union) (fun r _ => r = {["b"%string; "c"%string]}) m)
    (amap_init (page_map_empty (N := node))).
Proof.
  intros ops. eapply wp_mono.
  - apply (MultiMap_bag 64 hash_int64 page_map_empty ops [(6, "a"%string); (5, "b"%string)]).
    + unfold MAX_NODE_SIZE. lia.
    + split; [done|]. intros p [n Hn]. cbn in Hn. by rewrite lookup_empty in Hn.
    + vm_compute. discriminate.
    + reflexivity.
    + repeat constructor; vm_compute; done.
    + reflexivity.
  - cbv beta. intros u m Hm. destruct (Hm 5 {["c"%string]}) as [Hu _].
    eapply wp_mono; [exact Hu|]. intros r m' ->. vm_compute. reflexivity.
Defined.

(** [remove] of an entry that is not there breaks the map: the bucket (or
    the last node that was passed) records the next version for a node that
    was not changed, and every later access to the bucket throws
    [StalenessDetectedException]. *)
Theorem MultiMap_remove_absent :
  let m0 := (MultiMap_insert 64 hash_int64 5 "a"%string (amap_init (page_map_empty (N := node)))).2 in
  let run := MultiMap_remove hash_int64 5 "b"%string m0 in
  run.1 = Ok false /\
  (MultiMap_find_union hash_int64 5 ∅ m0).1 = Ok ({["a"%string]} : gset string) /\
  (MultiMap_find_union (V := string) hash_int64 5 ∅ run.2).1 = Throw Staleness_detected /\
  (MultiMap_insert 64 hash_int64 5 "c"%string run.2).1 = Throw Staleness_detected.
Proof. cbv zeta. split_and!; vm_compute; reflexivity. Qed.
