(* ===== verification/EncryptedIO.v ===== *)
(** * Encrypted files

    Models [src/enclave/EncryptedIO.cpp] and [src/enclave/LocalEncryptedIO.cpp]
    (the enclave build, with [ENCRYPT_FILES]): files are kept by the host and
    encrypted with AES-GCM under the disk key.  The cipher is a parameter. *)

From S2P Require Import Prelude.

(** What the buffer manager expects of its [EncryptedIO]: [io_get] is the
    content under a name that a read would return. *)
Class EncryptedIO (IO : Type) : Type := {
  io_get : IO -> string -> option (list Z);
  io_read_from_disk : string -> ST IO (option (list Z));
  io_write_to_disk : string -> list Z -> ST IO bool;
}.

Class EncryptedIOLaws (IO : Type) `{EncryptedIO IO} : Prop := {
  io_read_spec : forall f io,
    wp (io_read_from_disk f) (fun r io' => r = io_get io f /\ forall g, io_get io' g = io_get io g) io;
  io_write_spec : forall f d io,
    wp (io_write_to_disk f d) (fun ok io' => ok = true /\ io_get io' f = Some d /\
      forall g, g <> f -> io_get io' g = io_get io g) io;
}.

(** ** [LocalEncryptedIO] *)

(** [sgx_rijndael128GCM_encrypt] and [_decrypt] with a key and an initialisation
    vector; the tag is 16 bytes long. *)
Class AesGcm : Type := {
  gcm_encrypt : list Z -> list Z -> list Z -> list Z * list Z;
  gcm_decrypt : list Z -> list Z -> list Z -> list Z -> option (list Z);
}.

Class AesGcmLaws `{AesGcm} : Prop := {
  gcm_tag_length : forall key iv data, length (gcm_encrypt key iv data).2 = 16%nat;
  gcm_cdata_length : forall key iv data, length (gcm_encrypt key iv data).1 = length data;
  gcm_roundtrip : forall key iv data,
    let '(cdata, tag) := gcm_encrypt key iv data in gcm_decrypt key iv cdata tag = Some data;
}.

Definition SAMPLE_SP_IV_SIZE : nat := 12.
Definition SGX_AESGCM_MAC_SIZE : nat := 16.

Definition zero_iv : list Z := replicate SAMPLE_SP_IV_SIZE 0.

(** The files the host keeps for [get_file_size], [read_from_disk] and
    [write_to_disk], and the disk key *)
Record local_io : Type := mkLocalIO { host_files : gmap string (list Z); disk_key : list Z; }.

Section Local.
Context `{AesGcm}.

Definition decrypt_disk (key buffer : list Z) : option (list Z) :=
  let tag := take SGX_AESGCM_MAC_SIZE buffer in
  let data := drop SGX_AESGCM_MAC_SIZE buffer in
  gcm_decrypt key zero_iv data tag.

(** [None]: no such file, or its decryption failed *)
Definition LocalEncryptedIO_read (filename : string) : ST local_io (option (list Z)) := fun io =>
  (Ok (match host_files io !! filename with
       | None => None
       | Some buffer => decrypt_disk (disk_key io) buffer
       end), io).

(** The buffer is the tag followed by the encrypted data. *)
Definition LocalEncryptedIO_write (filename : string) (data : list Z) : ST local_io bool := fun io =>
  let '(cdata, tag) := gcm_encrypt (disk_key io) zero_iv data in
  (Ok true, mkLocalIO (<[filename := tag ++ cdata]> (host_files io)) (disk_key io)).

#[global] Instance local_encrypted_io : EncryptedIO local_io := {|
  io_get io f := match host_files io !! f with
                 | None => None
                 | Some buffer => decrypt_disk (disk_key io) buffer
                 end;
  io_read_from_disk := LocalEncryptedIO_read;
  io_write_to_disk := LocalEncryptedIO_write;
|}.

#[global] Instance local_encrypted_io_laws `{!AesGcmLaws} : EncryptedIOLaws local_io.
Proof.
  split.
  - intros f io. by split.
  - intros f d io. cbn. unfold LocalEncryptedIO_write, wp.
    pose proof (gcm_roundtrip (disk_key io) zero_iv d) as Hr.
    pose proof (gcm_tag_length (disk_key io) zero_iv d) as Hl.
    destruct (gcm_encrypt (disk_key io) zero_iv d) as [cdata tag]. cbn in *.
    split_and!; [done| |].
    + rewrite lookup_insert_eq. unfold decrypt_disk, SGX_AESGCM_MAC_SIZE.
      by rewrite <-Hl, take_app_length, drop_app_length.
    + intros g Hg. by rewrite lookup_insert_ne.
Qed.
End Local.

(** A cipher for which the laws hold: the tag is sixteen zeros *)
Definition null_cipher : AesGcm := {|
  gcm_encrypt _ _ data := (data, replicate 16 0);
  gcm_decrypt _ _ cdata _ := Some cdata;
|}.
Lemma null_cipher_laws : @AesGcmLaws null_cipher.
Proof. by split. Qed.
