(* ===== verification/Disk.v ===== *)
(** * The files of the host

    Models [src/server/Disk.h] and [Disk.cpp], where the host keeps the pages that
    the enclave has encrypted: a cache of files in shards, each under a mutex, which
    are written to the directory [m_disk_path] in batches if there is one.  The file
    system is a map from paths to contents; [std::hash] is a parameter.  A call that
    would wait for a mutex throws [Must_wait]. *)

From Stdlib Require Import Ascii.
From stdpp Require Import functions.
From S2P Require Import Prelude Bitstream EncryptedIO.

Definition DISK_NUM_SHARDS : Z := 64.
Definition FLUSH_BATCH : Z := 2 ^ 20.

(** [shard_t]; a [file_t] is its contents *)
Record disk_shard : Type := mkDiskShard {
  ds_locked : bool;
  ds_pending_size : Z;
  ds_pending : gset string;
  ds_files : gmap string (list Z);
}.

Record disk : Type := mkDisk {
  dk_path : string;
  dk_shards : Z -> disk_shard;
  dk_num_loads : Z;
  dk_byte_size : Z;
  dk_num_files : Z;
  dk_os : gmap string (list Z);
}.

Definition set_shard (sid : Z) (sh : disk_shard) (d : disk) : disk :=
  mkDisk (dk_path d) (<[sid := sh]> (dk_shards d)) (dk_num_loads d) (dk_byte_size d) (dk_num_files d) (dk_os d).
Definition set_counters (loads bytes files : Z) (d : disk) : disk :=
  mkDisk (dk_path d) (dk_shards d) loads bytes files (dk_os d).
Definition set_os (os : gmap string (list Z)) (d : disk) : disk :=
  mkDisk (dk_path d) (dk_shards d) (dk_num_loads d) (dk_byte_size d) (dk_num_files d) os.

Definition set_locked (b : bool) (sh : disk_shard) : disk_shard :=
  mkDiskShard b (ds_pending_size sh) (ds_pending sh) (ds_files sh).
Definition set_pending (size : Z) (names : gset string) (sh : disk_shard) : disk_shard :=
  mkDiskShard (ds_locked sh) size names (ds_files sh).
Definition set_files (files : gmap string (list Z)) (sh : disk_shard) : disk_shard :=
  mkDiskShard (ds_locked sh) (ds_pending_size sh) (ds_pending sh) files.

Definition file_size (data : list Z) : Z := Z.of_nat (length data).

Fixpoint has_slash (s : string) : bool :=
  match s with
  | EmptyString => false
  | String c s => Ascii.eqb c "/"%char || has_slash s
  end.

Fixpoint ends_with_slash (s : string) : bool :=
  match s with
  | EmptyString => false
  | String c EmptyString => Ascii.eqb c "/"%char
  | String _ s => ends_with_slash s
  end.

Section Disk.
Variable string_hash : string -> Z.

Definition disk_shard_of (filename : string) : Z := string_hash filename mod DISK_NUM_SHARDS.

(** The constructor, over the files that are there *)
Definition Disk_new (disk_path : string) (os : gmap string (list Z)) : disk :=
  let path := if negb (String.eqb disk_path EmptyString) && negb (ends_with_slash disk_path)
              then (disk_path ++ "/")%string else disk_path in
  mkDisk path (fun _ => mkDiskShard false 0 ∅ ∅) 0 0 0 os.

Definition the_shard (sid : Z) : ST disk disk_shard := d ← get_st; mret (dk_shards d sid).
Definition update_shard (sid : Z) (f : disk_shard -> disk_shard) : ST disk unit :=
  modify_st (fun d => set_shard sid (f (dk_shards d sid)) d).

Definition shard_lock (sid : Z) : ST disk unit :=
  sh ← the_shard sid; if ds_locked sh then throw Must_wait else update_shard sid (set_locked true).
Definition shard_unlock (sid : Z) : ST disk unit :=
  sh ← the_shard sid;
  if ds_locked sh then update_shard sid (set_locked false) else throw (Undefined "unlock of a mutex that is not locked").

(** [files[filename]] of a name that is not there is a null pointer. *)
Fixpoint flush_files (sid : Z) (names : list string) : ST disk unit :=
  match names with
  | [] => mret tt
  | filename :: names =>
      sh ← the_shard sid;
      match ds_files sh !! filename with
      | None => throw (Undefined "null pointer")
      | Some data =>
          _ ← modify_st (fun d => set_os (<[(dk_path d ++ filename)%string := data]> (dk_os d)) d);
          flush_files sid names
      end
  end.

Definition shard_flush (sid : Z) (batch : bool) : ST disk unit :=
  d ← get_st;
  let sh := dk_shards d sid in
  if batch && (ds_pending_size sh <? FLUSH_BATCH) then mret tt
  else
    _ ← (if String.eqb (dk_path d) EmptyString then mret tt else flush_files sid (elements (ds_pending sh)));
    update_shard sid (set_pending 0 ∅).

(** [None] is a null pointer. *)
Definition get_file (sid : Z) (filename : string) : ST disk (option (list Z)) :=
  d ← get_st;
  match ds_files (dk_shards d sid) !! filename with
  | Some data => mret (Some data)
  | None =>
      if String.eqb (dk_path d) EmptyString then mret None
      else
        match dk_os d !! (dk_path d ++ filename)%string with
        | None => throw (Fatal "Failed to open file")
        | Some data =>
            _ ← update_shard sid (fun sh => set_files (<[filename := data]> (ds_files sh)) sh);
            mret (Some data)
        end
  end.

(** The buffer is given with its length, a [uint32_t]. *)
Definition Disk_write (filename : string) (data : list Z) : ST disk bool :=
  if has_slash filename then throw (Runtime_error "Enclave is not allowed to create folders")
  else
    let sid := disk_shard_of filename in
    let length := file_size data in
    _ ← shard_lock sid;
    sh ← the_shard sid;
    _ ← modify_st (fun d =>
      match ds_files sh !! filename with
      | None => set_counters (dk_num_loads d) (dk_byte_size d) (u64 (dk_num_files d + 1)) d
      | Some old => set_counters (dk_num_loads d) (u64 (dk_byte_size d - file_size old)) (dk_num_files d) d
      end);
    _ ← update_shard sid (fun sh => set_files (<[filename := data]> (ds_files sh)) sh);
    _ ← modify_st (fun d => set_counters (dk_num_loads d) (u64 (dk_byte_size d + length)) (dk_num_files d) d);
    _ ← update_shard sid (fun sh => set_pending (u64 (ds_pending_size sh + length)) ({[filename]} ∪ ds_pending sh) sh);
    _ ← shard_flush sid true;
    _ ← shard_unlock sid;
    mret true.

Definition Disk_get_size (filename : string) : ST disk Z :=
  if has_slash filename then throw (Fatal "Enclave is not allowed to create folders")
  else
    let sid := disk_shard_of filename in
    _ ← shard_lock sid;
    f ← get_file sid filename;
    _ ← shard_unlock sid;
    mret (match f with Some data => s32 (file_size data) | None => -1 end).

Definition Disk_read (filename : string) (buffer_size : Z) : ST disk (list Z) :=
  if has_slash filename then throw (Fatal "Enclave is not allowed to create folders")
  else
    let sid := disk_shard_of filename in
    _ ← shard_lock sid;
    file ← get_file sid filename;
    match file with
    | None => throw (Fatal "No such file")
    | Some data =>
        if negb (file_size data =? buffer_size) then throw (Fatal "File sizes don't match")
        else
          _ ← modify_st (fun d => set_counters (u64 (dk_num_loads d + 1)) (dk_byte_size d) (dk_num_files d) d);
          _ ← shard_unlock sid;
          mret data
    end.

(** The shard stays locked if there is no such file. *)
Definition Disk_read_undecrypted (full_name : string) : ST disk (option (list Z)) :=
  let sid := disk_shard_of full_name in
  _ ← shard_lock sid;
  sh ← the_shard sid;
  _ ← modify_st (fun d => set_counters (u64 (dk_num_loads d + 1)) (dk_byte_size d) (dk_num_files d) d);
  match ds_files sh !! full_name with
  | None => mret None
  | Some data => _ ← shard_unlock sid; mret (Some data)
  end.

(** [std::remove] returns 0 if it has removed the file. *)
Definition Disk_remove (filename : string) : ST disk unit :=
  let sid := disk_shard_of filename in
  _ ← shard_lock sid;
  sh ← the_shard sid;
  _ ← match ds_files sh !! filename with
      | None => mret tt
      | Some _ =>
          _ ← update_shard sid (fun sh => set_files (delete filename (ds_files sh)) sh);
          _ ← shard_flush sid false;
          d ← get_st;
          let fullpath := (dk_path d ++ filename)%string in
          match dk_os d !! fullpath with
          | Some _ => _ ← modify_st (set_os (delete fullpath (dk_os d))); throw (Fatal "Failed to remove file")
          | None => mret tt
          end
      end;
  shard_unlock sid.

Definition clear_shard (sid : Z) : ST disk unit :=
  _ ← shard_lock sid;
  sh ← the_shard sid;
  _ ← modify_st (fun d => set_counters (dk_num_loads d) (dk_byte_size d)
        (u64 (dk_num_files d - Z.of_nat (size (ds_files sh)))) d);
  _ ← update_shard sid (set_files ∅);
  shard_unlock sid.

Fixpoint for_shards (f : Z -> ST disk unit) (sids : list Z) : ST disk unit :=
  match sids with
  | [] => mret tt
  | sid :: sids => _ ← f sid; for_shards f sids
  end.

Definition Disk_clear : ST disk unit := for_shards clear_shard (seqZ 0 DISK_NUM_SHARDS).

(** The destructor *)
Definition Disk_delete : ST disk unit := for_shards (fun sid => shard_flush sid false) (seqZ 0 DISK_NUM_SHARDS).

(** ** Dumps

    One file for everything: for each shard, the number of its files, and of each
    file the length of the name, the name, the size and the contents *)

Definition name_bytes (s : string) : list Z := ascii_byte <$> String.list_ascii_of_string s.
Definition name_of_bytes (bs : list Z) : string := String.string_of_list_ascii (byte_ascii <$> bs).

Definition dump_entry (f : string * list Z) : list Z :=
  le_encode 4 (Z.of_nat (String.length f.1)) ++ name_bytes f.1 ++ le_encode 8 (file_size f.2) ++ f.2.

Definition dump_files (files : gmap string (list Z)) : list Z :=
  le_encode 4 (Z.of_nat (size files)) ++ (map_to_list files ≫= dump_entry).

(** Every shard opens the file anew, and is unlocked by hand and by the guard. *)
Definition dump_shard (filename : string) (sid : Z) : ST disk unit :=
  _ ← shard_lock sid;
  sh ← the_shard sid;
  _ ← modify_st (fun d => set_os (<[filename := dump_files (ds_files sh)]> (dk_os d)) d);
  _ ← shard_unlock sid;
  shard_unlock sid.

Definition Disk_dump_everything (filename : string) : ST disk bool :=
  _ ← for_shards (dump_shard filename) (seqZ 0 DISK_NUM_SHARDS); mret true.

(** [fin.read]: [None] if there is less *)
Definition read_bytes (n : Z) (bs : list Z) : option (list Z * list Z) :=
  if Z.of_nat (length bs) <? n then None else Some (take (Z.to_nat n) bs, drop (Z.to_nat n) bs).

(** The name of an entry, and its contents *)
Definition load_name (bs : list Z) : option (string * list Z) :=
  '(len, bs) ← read_bytes 4 bs; '(name, bs) ← read_bytes (le_decode len) bs; mret (name_of_bytes name, bs).
Definition load_data (bs : list Z) : option (list Z * list Z) :=
  '(size, bs) ← read_bytes 8 bs; read_bytes (le_decode size) bs.

(** [false] is the [return 0] of [ENSURE_IO]. *)
Fixpoint load_entries (n : nat) (bs : list Z) : ST disk bool :=
  match n with
  | O => mret true
  | S n =>
      match load_name bs with
      | None => mret false
      | Some (filename, bs) =>
          let sid := disk_shard_of filename in
          _ ← update_shard sid (fun sh => set_files (delete filename (ds_files sh)) sh);
          _ ← modify_st (fun d => set_counters (dk_num_loads d) (dk_byte_size d) (u64 (dk_num_files d + 1)) d);
          match load_data bs with
          | None => mret false
          | Some (data, bs) =>
              _ ← update_shard sid (fun sh => set_files (<[filename := data]> (ds_files sh)) sh);
              load_entries n bs
          end
      end
  end.

Definition Disk_load_everything (filename : string) : ST disk bool :=
  _ ← for_shards shard_lock (seqZ 0 DISK_NUM_SHARDS);
  d ← get_st;
  match dk_os d !! filename with
  | None => _ ← for_shards shard_unlock (seqZ 0 DISK_NUM_SHARDS); mret false
  | Some bs =>
      match read_bytes 4 bs with
      | None => mret false
      | Some (num_files, bs) =>
          ok ← load_entries (Z.to_nat (le_decode num_files)) bs;
          if ok : bool then _ ← for_shards shard_unlock (seqZ 0 DISK_NUM_SHARDS); mret true else mret false
      end
  end.

(** *** The functions of the enclave's interface *)

Definition DISK_KEY_FILE : string := "___disk_key".

Definition dump_everything (filename : string) (disk_key : list Z) : ST disk bool :=
  ok ← Disk_write DISK_KEY_FILE disk_key;
  if negb ok then mret false
  else
    ok ← Disk_dump_everything filename;
    if negb ok then mret false else _ ← Disk_remove DISK_KEY_FILE; mret true.

Definition load_everything (filename : string) (length : Z) : ST disk (option (list Z)) :=
  if negb (length =? 16) then mret None
  else
    ok ← Disk_load_everything filename;
    if negb ok then mret None
    else disk_key ← Disk_read DISK_KEY_FILE length; _ ← Disk_remove DISK_KEY_FILE; mret (Some disk_key).

(** ** What is stored *)

(** The contents of a file, in the cache or in the directory *)
Definition contents (d : disk) (name : string) : option (list Z) :=
  match ds_files (dk_shards d (disk_shard_of name)) !! name with
  | Some data => Some data
  | None => if String.eqb (dk_path d) EmptyString then None else dk_os d !! (dk_path d ++ name)%string
  end.

(** [held] is the shard that is locked, if any. *)
Record disk_rep (held : option Z) (d : disk) : Prop := {
  dr_locked : forall sid, ds_locked (dk_shards d sid) = bool_decide (held = Some sid);
  dr_placed : forall sid name data, ds_files (dk_shards d sid) !! name = Some data -> disk_shard_of name = sid;
  dr_pending : forall sid name, name ∈ ds_pending (dk_shards d sid) -> is_Some (ds_files (dk_shards d sid) !! name);
  dr_saved : forall sid name data, ds_files (dk_shards d sid) !! name = Some data ->
    name ∈ ds_pending (dk_shards d sid) \/ dk_path d = EmptyString \/ dk_os d !! (dk_path d ++ name)%string = Some data;
}.

Definition same_files (d d' : disk) : Prop := dk_path d' = dk_path d /\ forall name, contents d' name = contents d name.

Lemma same_files_trans d1 d2 d3 : same_files d1 d2 -> same_files d2 d3 -> same_files d1 d3.
Proof. intros [E1 H1] [E2 H2]. split; [congruence|]. intros name. by rewrite H2. Qed.

Lemma Disk_new_rep path os : disk_rep None (Disk_new path os).
Proof. split; cbn; try done; set_solver. Qed.

Lemma path_inj (p n1 n2 : string) : (p ++ n1)%string = (p ++ n2)%string -> n1 = n2.
Proof. induction p as [|c p IH]; [done|]. intros [= E]. by apply IH. Qed.

(** A change of one shard *)
Lemma set_shard_same sid sh d : dk_shards (set_shard sid sh d) sid = sh.
Proof. apply fn_lookup_insert. Qed.

Lemma set_shard_other sid sh d sid' : sid' <> sid -> dk_shards (set_shard sid sh d) sid' = dk_shards d sid'.
Proof. intros. by apply fn_lookup_insert_ne. Qed.

Lemma set_shard_rep held held' sid sh d :
  disk_rep held d -> ds_locked sh = bool_decide (held' = Some sid) ->
  (forall sid', sid' <> sid -> held' = Some sid' <-> held = Some sid') ->
  (forall name data, ds_files sh !! name = Some data -> disk_shard_of name = sid) ->
  (forall name, name ∈ ds_pending sh -> is_Some (ds_files sh !! name)) ->
  (forall name data, ds_files sh !! name = Some data ->
    name ∈ ds_pending sh \/ dk_path d = EmptyString \/ dk_os d !! (dk_path d ++ name)%string = Some data) ->
  disk_rep held' (set_shard sid sh d).
Proof.
  intros [] Hl Hheld Hp Hpe Hs. split; intros sid'; destruct (decide (sid' = sid)) as [->|Hne];
    rewrite ?set_shard_same, ?set_shard_other by done; eauto.
  rewrite dr_locked0. apply bool_decide_ext. by rewrite Hheld.
Qed.

Lemma set_locked_contents b sid d name : contents (set_shard sid (set_locked b (dk_shards d sid)) d) name = contents d name.
Proof.
  unfold contents. cbn [dk_path dk_os set_shard]. destruct (decide (disk_shard_of name = sid)) as [E|Hne].
  - change (dk_shards (mkDisk _ _ _ _ _ _)) with (dk_shards (set_shard sid (set_locked b (dk_shards d sid)) d)).
    by rewrite E, set_shard_same.
  - change (dk_shards (mkDisk _ _ _ _ _ _)) with (dk_shards (set_shard sid (set_locked b (dk_shards d sid)) d)).
    by rewrite set_shard_other.
Qed.

Lemma shard_lock_ok sid d :
  disk_rep None d -> wp (shard_lock sid) (fun _ d' => disk_rep (Some sid) d' /\ same_files d d') d.
Proof.
  intros Hr. unfold wp, shard_lock, the_shard, mbind, ST_bind, get_st, mret, ST_ret. rewrite (dr_locked _ _ Hr).
  cbn -[contents]. split; [|split; [done|intros; apply set_locked_contents]].
  pose proof Hr as []. eapply set_shard_rep; cbn; eauto; [by rewrite bool_decide_true|naive_solver].
Qed.

Lemma shard_unlock_ok sid d :
  disk_rep (Some sid) d -> wp (shard_unlock sid) (fun _ d' => disk_rep None d' /\ same_files d d') d.
Proof.
  intros Hr. unfold wp, shard_unlock, the_shard, mbind, ST_bind, get_st, mret, ST_ret. rewrite (dr_locked _ _ Hr).
  rewrite bool_decide_true by done. cbn -[contents]. split; [|split; [done|intros; apply set_locked_contents]].
  pose proof Hr as []. eapply set_shard_rep; cbn; eauto. naive_solver.
Qed.

(** Counters and the file system *)
Lemma set_counters_rep held l b n d : disk_rep held d -> disk_rep held (set_counters l b n d).
Proof. by intros []. Qed.

Lemma flush_files_ok sid names d :
  Forall (fun name => is_Some (ds_files (dk_shards d sid) !! name)) names ->
  wp (flush_files sid names) (fun _ d' => exists os, d' = set_os os d /\
    (forall name, name ∈ names -> os !! (dk_path d ++ name)%string = ds_files (dk_shards d sid) !! name) /\
    (forall p, (forall name, name ∈ names -> p <> (dk_path d ++ name)%string) -> os !! p = dk_os d !! p)) d.
Proof.
  revert d. induction names as [|n names IH]; intros d Hn.
  - apply wp_ret. exists (dk_os d). split; [by destruct d|]. split; [set_solver|done].
  - apply Forall_cons in Hn as [[data Hd] Hn]. cbn [flush_files].
    apply wp_bind. unfold the_shard. apply wp_bind, wp_get, wp_ret. rewrite Hd.
    apply wp_bind, wp_modify. eapply wp_mono; [by apply IH|]. cbn. intros _ d' (os & -> & Hin & Hout).
    exists os. split; [done|]. split.
    + intros m Hm. destruct (decide (m ∈ names)) as [H|H]; [by apply Hin|].
      assert (m = n) as -> by set_solver. rewrite Hout, lookup_insert_eq; [done|].
      intros k Hk E. apply path_inj in E. by subst.
    + intros p Hp. rewrite Hout, lookup_insert_ne; [done| |]; [intros <-|intros k Hk]; eapply Hp; set_solver.
Qed.

(** [os]: the file system once the pending files of [sid] are written *)
Definition flushed (sid : Z) (d : disk) (os : gmap string (list Z)) : Prop :=
  dk_path d <> EmptyString ->
  (forall name, name ∈ ds_pending (dk_shards d sid) ->
    os !! (dk_path d ++ name)%string = ds_files (dk_shards d sid) !! name) /\
  (forall p, (forall name, name ∈ ds_pending (dk_shards d sid) -> p <> (dk_path d ++ name)%string) -> os !! p = dk_os d !! p).

Lemma flushed_cached held sid d os sid' name data :
  disk_rep held d -> flushed sid d os -> dk_path d <> EmptyString ->
  ds_files (dk_shards d sid') !! name = Some data -> (sid' <> sid -> name ∉ ds_pending (dk_shards d sid')) ->
  os !! (dk_path d ++ name)%string = Some data.
Proof.
  intros Hr Hf Hp Hd Hne. destruct (Hf Hp) as [Hin Hout].
  destruct (decide (name ∈ ds_pending (dk_shards d sid))) as [H|H].
  - rewrite Hin by done. apply (dr_pending _ _ Hr) in H as [data' Hd'].
    assert (sid' = sid) as -> by (apply (dr_placed _ _ Hr) in Hd, Hd'; congruence). congruence.
  - rewrite Hout by (intros k Hk E; apply path_inj in E; by subst).
    destruct (dr_saved _ _ Hr _ _ _ Hd) as [?|[?|?]]; [|done..]. destruct (decide (sid' = sid)) as [->|]; [done|].
    by destruct Hne.
Qed.

Lemma flushed_absent sid d os name :
  flushed sid d os -> dk_path d <> EmptyString -> name ∉ ds_pending (dk_shards d sid) ->
  os !! (dk_path d ++ name)%string = dk_os d !! (dk_path d ++ name)%string.
Proof. intros Hf Hp Hn. apply (Hf Hp). intros k Hk E. apply path_inj in E. by subst. Qed.

Definition after_flush (sid : Z) (os : gmap string (list Z)) (d : disk) : disk :=
  set_shard sid (set_pending 0 ∅ (dk_shards d sid)) (set_os os d).

Lemma after_flush_files sid os d sid' : ds_files (dk_shards (after_flush sid os d) sid') = ds_files (dk_shards d sid').
Proof.
  unfold after_flush. destruct (decide (sid' = sid)) as [->|]; by rewrite ?set_shard_same, ?set_shard_other by done.
Qed.

Lemma after_flush_rep held sid os d :
  disk_rep held d -> flushed sid d os -> disk_rep held (after_flush sid os d) /\ same_files d (after_flush sid os d).
Proof.
  intros Hr Hf. split; [split|split; [done|]].
  - intros sid'. rewrite <- (dr_locked _ _ Hr). unfold after_flush.
    destruct (decide (sid' = sid)) as [->|]; by rewrite ?set_shard_same, ?set_shard_other by done.
  - intros sid' name data. rewrite after_flush_files. by apply (dr_placed _ _ Hr).
  - intros sid' name. rewrite after_flush_files. unfold after_flush.
    destruct (decide (sid' = sid)) as [->|]; rewrite ?set_shard_same, ?set_shard_other by done; [set_solver|].
    apply (dr_pending _ _ Hr).
  - intros sid' name data. rewrite after_flush_files. intros Hd.
    destruct (decide (name ∈ ds_pending (dk_shards (after_flush sid os d) sid'))) as [|Hn]; [by left|right].
    destruct (decide (dk_path d = EmptyString)) as [|Hp]; [by left|right].
    apply (flushed_cached held sid d os sid' name data); try done. intros Hne. revert Hn. unfold after_flush.
    by rewrite set_shard_other.
  - intros name. unfold contents. rewrite after_flush_files. destruct (_ !! name) eqn:E; [done|]. cbn.
    destruct (String.eqb_spec (dk_path d) EmptyString) as [|Hp]; [done|]. apply (flushed_absent sid); [done..|].
    intros Hn. destruct (dr_pending _ _ Hr _ _ Hn) as [data Hd]. pose proof (dr_placed _ _ Hr _ _ _ Hd). by simplify_eq.
Qed.

(** A flush writes the pending files, and changes no contents. *)
Lemma shard_flush_ok held sid batch d :
  disk_rep held d ->
  wp (shard_flush sid batch) (fun _ d' => disk_rep held d' /\ same_files d d' /\
    (forall sid', sid' <> sid -> dk_shards d' sid' = dk_shards d sid') /\
    (batch = false -> ds_pending (dk_shards d' sid) = ∅)) d.
Proof.
  intros Hr. unfold shard_flush. apply wp_bind, wp_get. destruct (batch && _) eqn:Eb.
  { apply wp_ret. destruct batch; [done|]. discriminate. }
  apply wp_bind, wp_mono with (fun _ d' => exists os, d' = set_os os d /\ flushed sid d os).
  - unfold flushed. destruct (String.eqb_spec (dk_path d) EmptyString) as [E|Hp].
    + apply wp_ret. exists (dk_os d). split; [by destruct d|]. done.
    + eapply wp_mono; [apply flush_files_ok, Forall_forall; intros n Hn; by apply (dr_pending _ _ Hr), elem_of_elements|].
      intros _ d' (os & -> & H1 & H2). exists os. split; [done|]. intros _.
      split; [intros; apply H1; by apply elem_of_elements|].
      intros p H. apply H2. intros n Hn. apply H. by apply elem_of_elements.
  - intros _ d' (os & -> & Hf). apply wp_modify. change (dk_shards (set_os os d)) with (dk_shards d).
    fold (after_flush sid os d). destruct (after_flush_rep held sid os d Hr Hf) as [Hr' Hs].
    split; [done|]. split; [done|]. split; intros; unfold after_flush; by rewrite ?set_shard_same, ?set_shard_other by done.
Qed.

(** A file put in the cache, pending or as it is in the directory *)
Definition cached (name : string) (data : list Z) (pending : bool) (sh : disk_shard) (sh' : disk_shard) : Prop :=
  ds_locked sh' = ds_locked sh /\ ds_files sh' = <[name := data]> (ds_files sh) /\
  ds_pending sh' = if pending then {[name]} ∪ ds_pending sh else ds_pending sh.

Lemma cached_rep held name data pending sh' d :
  disk_rep held d -> cached name data pending (dk_shards d (disk_shard_of name)) sh' ->
  (pending = false -> contents d name = Some data /\ ds_files (dk_shards d (disk_shard_of name)) !! name = None) ->
  disk_rep held (set_shard (disk_shard_of name) sh' d).
Proof.
  intros Hr (El & Ef & Ep) Hc. apply set_shard_rep with held; rewrite ?El, ?Ef, ?Ep; [done|apply (dr_locked _ _ Hr)|done|..].
  - intros n dt. destruct (decide (n = name)) as [->|Hne]; [done|].
    rewrite lookup_insert_ne by done. apply (dr_placed _ _ Hr).
  - intros n Hn. destruct (decide (n = name)) as [->|Hne]; [by rewrite lookup_insert_eq|].
    rewrite lookup_insert_ne by done. apply (dr_pending _ _ Hr). destruct pending; set_solver.
  - intros n dt. destruct (decide (n = name)) as [->|Hne].
    + rewrite lookup_insert_eq. intros [= <-]. destruct pending; [left; set_solver|right].
      destruct (Hc eq_refl) as [Hd Hn]. unfold contents in Hd. rewrite Hn in Hd.
      destruct (String.eqb_spec (dk_path d) EmptyString); [by left|by right].
    + rewrite lookup_insert_ne by done. intros Hd.
      destruct (dr_saved _ _ Hr _ _ _ Hd) as [?|?]; [left; destruct pending; set_solver|by right].
Qed.

Lemma cached_contents name data pending sh' d n :
  cached name data pending (dk_shards d (disk_shard_of name)) sh' ->
  contents (set_shard (disk_shard_of name) sh' d) n = if decide (n = name) then Some data else contents d n.
Proof.
  intros (_ & Ef & _). unfold contents. set (d' := set_shard _ _ _).
  assert (E : ds_files (dk_shards d' (disk_shard_of n)) !! n =
              if decide (n = name) then Some data else ds_files (dk_shards d (disk_shard_of n)) !! n).
  { unfold d'. destruct (decide (disk_shard_of n = disk_shard_of name)) as [E|Hne].
    - rewrite E, set_shard_same, Ef. case_decide as Hn; [subst; apply lookup_insert_eq|by apply lookup_insert_ne].
    - rewrite set_shard_other by done. case_decide; [by subst|done]. }
  rewrite E. by case_decide.
Qed.

Lemma get_file_ok held name d :
  disk_rep held d -> dk_path d = EmptyString \/ is_Some (contents d name) ->
  wp (get_file (disk_shard_of name) name) (fun r d' => r = contents d name /\ disk_rep held d' /\ same_files d d') d.
Proof.
  intros Hr Hex. unfold get_file. apply wp_bind, wp_get. unfold contents in Hex |- *.
  destruct (ds_files _ !! name) as [data|] eqn:E; [by apply wp_ret|].
  destruct (String.eqb_spec (dk_path d) EmptyString) as [|Hp]; [by apply wp_ret|].
  destruct Hex as [?|[data Hd]]; [done|]. rewrite Hd. apply wp_bind, wp_modify, wp_ret. split; [done|].
  assert (Hc : cached name data false (dk_shards d (disk_shard_of name))
                 (set_files (<[name := data]> (ds_files (dk_shards d (disk_shard_of name)))) (dk_shards d (disk_shard_of name))))
    by done.
  assert (Hd' : contents d name = Some data) by (unfold contents; by rewrite E, (proj2 (String.eqb_neq _ _)) by done).
  split; [by eapply cached_rep|]. split; [done|].
  intros n. rewrite (cached_contents _ _ _ _ _ _ Hc). case_decide; congruence.
Qed.

(** Disks that differ in their counters only *)
Definition same_state (d d' : disk) : Prop :=
  dk_path d' = dk_path d /\ dk_os d' = dk_os d /\ forall sid, dk_shards d' sid = dk_shards d sid.

Lemma same_state_rep held d d' : same_state d d' -> disk_rep held d -> disk_rep held d'.
Proof. intros (E1 & E2 & E3) []. split; intros sid; rewrite E3, ?E1, ?E2; eauto. Qed.

Lemma same_state_contents d d' n : same_state d d' -> contents d' n = contents d n.
Proof. intros (E1 & E2 & E3). unfold contents. by rewrite E3, E1, E2. Qed.

(** ** The operations keep one map of files *)

Definition files_insert (name : string) (data : list Z) (d d' : disk) : Prop :=
  dk_path d' = dk_path d /\ forall n, contents d' n = if decide (n = name) then Some data else contents d n.

Lemma Disk_write_ok name data d :
  has_slash name = false -> disk_rep None d ->
  wp (Disk_write name data) (fun r d' => r = true /\ disk_rep None d' /\ files_insert name data d d') d.
Proof.
  intros Hn Hr. unfold Disk_write. rewrite Hn. apply wp_bind.
  eapply wp_mono; [by apply shard_lock_ok|]. intros _ d1 [Hr1 Hs1]. cbn beta.
  apply wp_bind. unfold the_shard. apply wp_bind, wp_get, wp_ret.
  apply wp_bind, wp_modify, wp_bind, wp_modify, wp_bind, wp_modify, wp_bind, wp_modify.
  set (d2 := set_shard _ _ _).
  assert (H2 : disk_rep (Some (disk_shard_of name)) d2 /\ files_insert name data d1 d2).
  { set (sh := dk_shards d1 (disk_shard_of name)).
    set (sh' := mkDiskShard (ds_locked sh) (u64 (ds_pending_size sh + file_size data))
                  ({[name]} ∪ ds_pending sh) (<[name := data]> (ds_files sh))).
    assert (Hc : cached name data true sh sh') by done.
    assert (He : same_state (set_shard (disk_shard_of name) sh' d1) d2).
    { unfold d2. destruct (ds_files _ !! name); (split; [done|split; [done|]]; intros sid; cbn;
        destruct (decide (sid = disk_shard_of name)) as [->|]; rewrite ?fn_lookup_insert, ?fn_lookup_insert_ne by done; done). }
    split; [eapply same_state_rep; [exact He|by eapply cached_rep]|].
    split; [apply He|]. intros n. rewrite (same_state_contents _ _ n He). by apply (cached_contents name data true). }
  destruct H2 as [Hr2 Hi]. apply wp_bind. eapply wp_mono; [by apply shard_flush_ok|].
  intros _ d3 (Hr3 & Hs3 & _). cbn beta. apply wp_bind. eapply wp_mono; [by apply shard_unlock_ok|].
  intros _ d4 [Hr4 Hs4]. cbn beta. apply wp_ret. split; [done|]. split; [done|].
  destruct Hs1 as [P1 S1], Hi as [P2 S2], Hs3 as [P3 S3], Hs4 as [P4 S4]. split; [congruence|].
  intros n. rewrite S4, S3, S2. case_decide; [done|]. apply S1.
Qed.

Lemma Disk_get_size_ok name d :
  has_slash name = false -> disk_rep None d -> dk_path d = EmptyString \/ is_Some (contents d name) ->
  wp (Disk_get_size name) (fun r d' => r = match contents d name with Some data => s32 (file_size data) | None => -1 end /\
    disk_rep None d' /\ same_files d d') d.
Proof.
  intros Hn Hr Hex. unfold Disk_get_size. rewrite Hn. apply wp_bind.
  eapply wp_mono; [by apply shard_lock_ok|]. intros _ d1 [Hr1 Hs1]. cbn beta. apply wp_bind.
  destruct Hs1 as [P1 S1]. eapply wp_mono; [apply get_file_ok; [done|by rewrite P1, S1]|].
  intros r d2 (-> & Hr2 & Hs2). cbn beta. apply wp_bind. eapply wp_mono; [by apply shard_unlock_ok|].
  intros _ d3 [Hr3 Hs3]. cbn beta. apply wp_ret. rewrite S1. split; [done|]. split; [done|].
  eapply same_files_trans; [|done]. by eapply same_files_trans.
Qed.

Lemma Disk_read_ok name data d :
  has_slash name = false -> disk_rep None d -> contents d name = Some data ->
  wp (Disk_read name (file_size data)) (fun r d' => r = data /\ disk_rep None d' /\ same_files d d') d.
Proof.
  intros Hn Hr Hex. unfold Disk_read. rewrite Hn. apply wp_bind.
  eapply wp_mono; [by apply shard_lock_ok|]. intros _ d1 [Hr1 [P1 S1]]. cbn beta. apply wp_bind.
  eapply wp_mono; [apply get_file_ok; [done|right; by rewrite S1, Hex]|].
  intros r d2 (-> & Hr2 & Hs2). cbn beta. rewrite S1, Hex, Z.eqb_refl. cbn [negb].
  apply wp_bind, wp_modify, wp_bind. eapply wp_mono; [by apply shard_unlock_ok, set_counters_rep|].
  intros _ d3 [Hr3 Hs3]. cbn beta. apply wp_ret. split; [done|]. split; [done|].
  eapply same_files_trans; [|exact Hs3]. by eapply same_files_trans.
Qed.

Lemma flush_shards_ok held sids d :
  disk_rep held d ->
  wp (for_shards (fun sid => shard_flush sid false) sids) (fun _ d' => disk_rep held d' /\ same_files d d' /\
    forall sid, sid ∈ sids \/ ds_pending (dk_shards d sid) = ∅ -> ds_pending (dk_shards d' sid) = ∅) d.
Proof.
  revert d. induction sids as [|sid sids IH]; intros d Hr.
  - apply wp_ret. split; [done|]. split; [done|]. set_solver.
  - cbn [for_shards]. apply wp_bind. eapply wp_mono; [by apply shard_flush_ok|].
    intros _ d1 (Hr1 & Hs1 & Ho1 & He1). cbn beta. eapply wp_mono; [by apply IH|].
    intros _ d2 (Hr2 & Hs2 & He2). split; [done|]. split; [by eapply same_files_trans|].
    intros sid' Hsid. apply He2. destruct (decide (sid' = sid)) as [->|Hne]; [right; by apply He1|].
    rewrite Ho1 by done. set_solver.
Qed.

(** The destructor leaves the contents of every file in the directory. *)
Lemma Disk_delete_ok d :
  disk_rep None d ->
  wp Disk_delete (fun _ d' => dk_path d' = dk_path d /\
    (dk_path d <> EmptyString -> forall name, dk_os d' !! (dk_path d ++ name)%string = contents d name)) d.
Proof.
  intros Hr. eapply wp_mono; [by apply flush_shards_ok|]. intros _ d' (Hr' & [Ep Hs] & He). split; [done|].
  intros Hp name. rewrite <- Hs. unfold contents. rewrite Ep, (proj2 (String.eqb_neq _ _)) by done.
  destruct (ds_files _ !! name) as [data|] eqn:E; [|done].
  destruct (dr_saved _ _ Hr' _ _ _ E) as [Hin|[?|H]]; [|congruence|by rewrite <- Ep].
  rewrite He in Hin; [set_solver|]. left. apply elem_of_seqZ. unfold disk_shard_of, DISK_NUM_SHARDS.
  pose proof (Z.mod_pos_bound (string_hash name) 64). lia.
Qed.

(** ** Sessions

    What the enclave asks of the host, and restarts of the host, over one map of files *)

Inductive file_op : Type :=
  | FWrite (name : string) (data : list Z)
  | FSize (name : string)
  | FRead (name : string) (buffer_size : Z)
  | FRestart.

Inductive file_answer : Type :=
  | AWritten (ok : bool)
  | ASize (n : Z)
  | AData (data : list Z)
  | ARestarted.

Definition file_step (disk_path : string) (op : file_op) : ST disk file_answer :=
  match op with
  | FWrite name data => ok ← Disk_write name data; mret (AWritten ok)
  | FSize name => n ← Disk_get_size name; mret (ASize n)
  | FRead name n => data ← Disk_read name n; mret (AData data)
  | FRestart => _ ← Disk_delete; _ ← modify_st (fun d => Disk_new disk_path (dk_os d)); mret ARestarted
  end.

Fixpoint file_session (disk_path : string) (ops : list file_op) : ST disk (list file_answer) :=
  match ops with
  | [] => mret []
  | op :: ops => a ← file_step disk_path op; l ← file_session disk_path ops; mret (a :: l)
  end.

(** The specification: [None] is an operation that is not to be called. *)
Definition spec_step (durable : bool) (files : string -> option (list Z)) (op : file_op) :
    option (file_answer * (string -> option (list Z))) :=
  match op with
  | FWrite name data => if has_slash name then None else Some (AWritten true, <[name := Some data]> files)
  | FSize name =>
      if has_slash name then None
      else match files name with
           | Some data => if file_size data <? 2 ^ 31 then Some (ASize (file_size data), files) else None
           | None => if durable then None else Some (ASize (-1), files)
           end
  | FRead name n =>
      if has_slash name then None
      else data ← files name; if file_size data =? n then Some (AData data, files) else None
  | FRestart => Some (ARestarted, if durable then files else fun _ => None)
  end.

Fixpoint spec_session (durable : bool) (files : string -> option (list Z)) (ops : list file_op) : option (list file_answer) :=
  match ops with
  | [] => Some []
  | op :: ops => '(a, files) ← spec_step durable files op; l ← spec_session durable files ops; Some (a :: l)
  end.

Definition durable (disk_path : string) : bool := negb (String.eqb disk_path EmptyString).

Definition stores (disk_path : string) (files : string -> option (list Z)) (d : disk) : Prop :=
  disk_rep None d /\ dk_path d = dk_path (Disk_new disk_path ∅) /\ forall name, contents d name = files name.

Lemma Disk_new_durable disk_path os : String.eqb (dk_path (Disk_new disk_path os)) EmptyString = negb (durable disk_path).
Proof. unfold durable, Disk_new. destruct disk_path as [|c s]; [done|]. cbn -[ends_with_slash]. by destruct (ends_with_slash _). Qed.

Lemma file_step_ok disk_path op files files' a d :
  spec_step (durable disk_path) files op = Some (a, files') -> stores disk_path files d ->
  wp (file_step disk_path op) (fun a' d' => a' = a /\ stores disk_path files' d') d.
Proof.
  intros Hop (Hr & Ep & Hc). pose proof (Disk_new_durable disk_path ∅) as Hdur. rewrite <- Ep in Hdur.
  destruct op as [name data|name|name n|]; cbn [file_step spec_step] in *; apply wp_bind.
  - destruct (has_slash name) eqn:Es; [done|]. simplify_eq. eapply wp_mono; [apply (Disk_write_ok name data); done|].
    intros ? d' (-> & Hr' & Ep' & Hi). apply wp_ret. split; [done|]. split; [done|]. split; [congruence|].
    intros n. rewrite Hi. case_decide; [subst; by rewrite fn_lookup_insert|]. rewrite fn_lookup_insert_ne by done. apply Hc.
  - destruct (has_slash name) eqn:Es; [done|]. eapply wp_mono; [apply Disk_get_size_ok; [done..|]|].
    { rewrite Hc. destruct (files name); [by right|]. left. apply String.eqb_eq. rewrite Hdur.
      by destruct (durable disk_path). }
    intros ? d' (-> & Hr' & Ep' & Hs). apply wp_ret. rewrite Hc.
    destruct (files name) as [data|]; [destruct (Z.ltb_spec (file_size data) (2 ^ 31)) as [Hlt|]|destruct (durable disk_path)];
      simplify_eq; (split; [|split; [done|split; [congruence|intros; by rewrite Hs]]]); [|done].
    f_equal. apply s32_small. unfold file_size in *. lia.
  - destruct (has_slash name) eqn:Es; [done|]. cbn in Hop. destruct (files name) as [data|] eqn:E; [|done]. cbn in Hop.
    destruct (Z.eqb_spec (file_size data) n) as [<-|]; simplify_eq.
    eapply wp_mono; [apply Disk_read_ok; [done..|by rewrite Hc]|]. intros ? d' (-> & Hr' & Ep' & Hs). apply wp_ret.
    split; [done|]. split; [done|]. split; [congruence|]. intros; by rewrite Hs.
  - simplify_eq. eapply wp_mono; [by apply Disk_delete_ok|]. intros _ d' [Ep' Hos]. cbn beta.
    apply wp_bind, wp_modify, wp_ret. split; [done|]. split; [apply Disk_new_rep|]. split; [done|].
    intros name. unfold contents. rewrite Disk_new_durable. cbn. destruct (durable disk_path); [|done]. cbn.
    rewrite <- Hc, <- Hos; [by rewrite Ep|]. by apply String.eqb_neq.
Qed.

Lemma file_session_ok disk_path ops files answers d :
  spec_session (durable disk_path) files ops = Some answers -> stores disk_path files d ->
  wp (file_session disk_path ops) (fun l _ => l = answers) d.
Proof.
  revert files answers d. induction ops as [|op ops IH]; intros files answers d Hs Hd; cbn [spec_session file_session] in *.
  - apply wp_ret. congruence.
  - destruct (spec_step _ files op) as [[a files']|] eqn:E; [|done]. cbn in Hs.
    destruct (spec_session _ files' ops) as [l|] eqn:El; [|done]. simplify_eq/=.
    apply wp_bind. eapply wp_mono; [by eapply file_step_ok|]. intros a' d' [-> Hd']. cbn beta.
    apply wp_bind. eapply wp_mono; [by eapply IH|]. intros l' d2 ->. by apply wp_ret.
Qed.

(** C11.  Writes, size queries and reads of files, with restarts of the server between them,
    answer as one map from names to contents does: a file is found again with the bytes that
    were last written to it, whatever has been flushed in between and from whichever of the
    64 shards, and after a restart if the server has a directory (else the map starts empty). *)
Theorem Disk_refines_files disk_path os ops answers :
  spec_session (durable disk_path)
    (fun name => if durable disk_path then os !! (dk_path (Disk_new disk_path os) ++ name)%string else None) ops = Some answers ->
  exists d, file_session disk_path ops (Disk_new disk_path os) = (Ok answers, d).
Proof.
  intros Hs. eapply file_session_ok in Hs.
  - apply wp_run in Hs as (l & d & Hrun & ->). by exists d.
  - split; [apply Disk_new_rep|]. split; [done|]. intros name. unfold contents. rewrite Disk_new_durable. cbn.
    by destruct (durable disk_path).
Qed.

(** ** Dumps *)

Lemma read_bytes_app bs rest n : n = Z.of_nat (length bs) -> read_bytes n (bs ++ rest) = Some (bs, rest).
Proof.
  intros ->. unfold read_bytes. rewrite length_app, (proj2 (Z.ltb_ge _ _)) by lia.
  by rewrite Nat2Z.id, take_app_length, drop_app_length.
Qed.

Lemma name_bytes_length s : length (name_bytes s) = String.length s.
Proof. unfold name_bytes. by rewrite length_fmap, list_ascii_length. Qed.

Definition entry_fits (f : string * list Z) : Prop := in_range 32 (Z.of_nat (String.length f.1)) /\ in_range 64 (file_size f.2).

Lemma load_dump_entry f rest :
  entry_fits f -> exists bs, load_name (dump_entry f ++ rest) = Some (f.1, bs) /\ load_data bs = Some (f.2, rest).
Proof.
  intros [Hn Hd]. unfold load_name, load_data, dump_entry. rewrite <- !(assoc_L (++)). exists (le_encode 8 (file_size f.2) ++ f.2 ++ rest). split.
  - rewrite read_bytes_app by (by rewrite le_encode_length). cbn -[le_encode le_decode read_bytes].
    rewrite le_decode_encode_small by done. rewrite read_bytes_app by (by rewrite name_bytes_length).
    cbn. unfold name_of_bytes, name_bytes. by rewrite string_of_bytes.
  - rewrite read_bytes_app by (by rewrite le_encode_length). cbn -[le_encode le_decode read_bytes].
    rewrite le_decode_encode_small by done. by rewrite read_bytes_app.
Qed.

(** The cache holds the files of [m], and the mutexes are held as [locked] says. *)
Record caches (locked : bool) (m : gmap string (list Z)) (d : disk) : Prop := {
  ca_files : forall name, ds_files (dk_shards d (disk_shard_of name)) !! name = m !! name;
  ca_locked : forall sid, 0 <= sid < DISK_NUM_SHARDS -> ds_locked (dk_shards d sid) = locked;
}.

Lemma set_files_caches locked m g sid d (m' : gmap string (list Z)) :
  caches locked m d -> (forall name, disk_shard_of name = sid -> g (ds_files (dk_shards d sid)) !! name = m' !! name) ->
  (forall name, disk_shard_of name <> sid -> m' !! name = m !! name) ->
  caches locked m' (set_shard sid (set_files (g (ds_files (dk_shards d sid))) (dk_shards d sid)) d).
Proof.
  intros [Hf Hl] Hin Hout. split.
  - intros name. destruct (decide (disk_shard_of name = sid)) as [E|Hne].
    + rewrite E, set_shard_same. by apply Hin.
    + by rewrite set_shard_other, Hout.
  - intros sid' Hs. destruct (decide (sid' = sid)) as [->|Hne]; [rewrite set_shard_same; by apply Hl|].
    rewrite set_shard_other by done. by apply Hl.
Qed.

Lemma load_entries_ok l rest m d :
  Forall entry_fits l -> NoDup l.*1 -> caches true m d ->
  wp (load_entries (length l) ((l ≫= dump_entry) ++ rest)) (fun r d' => r = true /\ caches true (list_to_map l ∪ m) d') d.
Proof.
  revert m d. induction l as [|[name data] l IH]; intros m d Hl Hnd Hc.
  - apply wp_ret. split; [done|]. cbn. by rewrite (left_id_L ∅ (∪)).
  - apply Forall_cons in Hl as [Hf Hl]. cbn in Hnd. apply NoDup_cons in Hnd as [Hni Hnd].
    destruct (load_dump_entry (name, data) ((l ≫= dump_entry) ++ rest) Hf) as (bs & En & Ed).
    cbn [length load_entries]. rewrite bind_cons, <- (assoc_L (++)), En. cbn [fst snd] in *.
    apply wp_bind, wp_modify, wp_bind, wp_modify. rewrite Ed. apply wp_bind, wp_modify.
    rewrite list_to_map_cons, <- insert_union_l, insert_union_r by (by apply not_elem_of_list_to_map_1).
    apply IH; [done..|].
    eapply (set_files_caches true (delete name m) (fun files => <[name := data]> files)).
    + pose proof (set_files_caches true m (delete name) (disk_shard_of name) d (delete name m) Hc) as H.
      destruct H as [H1 H2]; [| |by split].
      * intros n En'. destruct (decide (n = name)) as [->|]; [by rewrite !lookup_delete_eq|].
        rewrite !lookup_delete_ne by done. rewrite <- En'. apply (ca_files _ _ _ Hc).
      * intros n Hne. rewrite lookup_delete_ne; [done|]. by intros ->.
    + intros n En'. destruct (decide (n = name)) as [->|]; [by rewrite !lookup_insert_eq|].
      rewrite !lookup_insert_ne by done. cbn. rewrite fn_lookup_insert. cbn. rewrite lookup_delete_ne by done.
      rewrite <- En'. apply (ca_files _ _ _ Hc).
    + intros n Hne. rewrite lookup_insert_ne by (by intros ->). rewrite lookup_delete_ne; [done|]. by intros ->.
Qed.

Definition toggle (b : bool) (sid : Z) : ST disk unit := if b then shard_lock sid else shard_unlock sid.

Lemma toggle_run b sid d :
  ds_locked (dk_shards d sid) = negb b -> toggle b sid d = (Ok tt, set_shard sid (set_locked b (dk_shards d sid)) d).
Proof.
  intros E. destruct b; unfold toggle, shard_lock, shard_unlock, the_shard, mbind, ST_bind, get_st, mret, ST_ret; by rewrite E.
Qed.

Lemma toggle_all b sids d :
  NoDup sids -> Forall (fun sid => ds_locked (dk_shards d sid) = negb b) sids ->
  wp (for_shards (toggle b) sids) (fun _ d' => dk_path d' = dk_path d /\ dk_os d' = dk_os d /\ forall sid,
    ds_files (dk_shards d' sid) = ds_files (dk_shards d sid) /\
    ds_locked (dk_shards d' sid) = if decide (sid ∈ sids) then b else ds_locked (dk_shards d sid)) d.
Proof.
  revert d. induction sids as [|sid sids IH]; intros d Hnd Hl; [by apply wp_ret|].
  apply NoDup_cons in Hnd as [Hni Hnd]. apply Forall_cons in Hl as [E Hl]. cbn [for_shards].
  apply wp_bind, wp_run. eexists _, _. split; [by apply toggle_run|].
  eapply wp_mono; [apply IH; [done|]|].
  - apply Forall_forall. intros k Hk. rewrite set_shard_other by set_solver. by eapply Forall_forall in Hl.
  - intros _ d' (Ep & Eo & Hd). split; [by rewrite Ep|]. split; [by rewrite Eo|]. intros k. destruct (Hd k) as [-> ->].
    destruct (decide (k = sid)) as [->|Hne].
    + rewrite set_shard_same, decide_False, decide_True by set_solver. done.
    + rewrite set_shard_other by done. split; [done|]. apply decide_ext. set_solver.
Qed.

Lemma toggle_caches b m d :
  caches (negb b) m d -> wp (for_shards (toggle b) (seqZ 0 DISK_NUM_SHARDS)) (fun _ d' => caches b m d' /\ dk_os d' = dk_os d) d.
Proof.
  intros [Hf Hl]. eapply wp_mono; [apply toggle_all; [apply NoDup_seqZ|]|].
  - apply Forall_forall. intros sid Hs. apply Hl. apply elem_of_seqZ in Hs. lia.
  - intros _ d' (_ & Eo & Hd). split; [|done]. split.
    + intros name. by rewrite (proj1 (Hd _)).
    + intros sid Hs. rewrite (proj2 (Hd sid)), decide_True; [done|]. apply elem_of_seqZ. lia.
Qed.

(** C33.  Loading a dump restores the files of the shard that it was written from: every file
    is found in the cache of a new server under its name with its contents, no other file is,
    and no mutex stays held. *)
Theorem Disk_load_dump disk_path filename files os :
  map_Forall (fun name data => entry_fits (name, data)) files -> in_range 32 (Z.of_nat (size files)) ->
  os !! filename = Some (dump_files files) ->
  exists d, Disk_load_everything filename (Disk_new disk_path os) = (Ok true, d) /\ caches false files d.
Proof.
  intros Hfit Hsz Hos.
  cut (wp (Disk_load_everything filename) (fun r d => r = true /\ caches false files d) (Disk_new disk_path os)).
  { intros (r & d & Hrun & -> & Hc)%wp_run. by exists d. }
  unfold Disk_load_everything. apply wp_bind.
  change shard_lock with (toggle true). change shard_unlock with (toggle false).
  eapply wp_mono; [apply (toggle_caches true ∅); split; [intros; apply lookup_empty|done]|].
  intros _ d1 [Hc1 Eo]. apply wp_bind, wp_get. rewrite Eo. cbn [dk_os Disk_new]. rewrite Hos.
  unfold dump_files. rewrite read_bytes_app by (by rewrite le_encode_length). apply wp_bind.
  rewrite le_decode_encode_small by done. rewrite <- (app_nil_r (_ ≫= _)), Nat2Z.id, <- length_map_to_list.
  eapply wp_mono; [apply load_entries_ok; [|apply NoDup_fst_map_to_list|done]|].
  - apply Forall_forall. intros [n dt] Hin. apply elem_of_map_to_list in Hin. by apply Hfit.
  - intros ? d2 [-> Hc2]. rewrite list_to_map_to_list, (right_id_L ∅ (∪)) in Hc2. apply wp_bind.
    eapply wp_mono; [by apply (toggle_caches false)|]. intros _ d3 [Hc3 _]. by apply wp_ret.
Qed.

(** ** What goes wrong *)

Lemma bind_run {S A B} (m : ST S A) (k : A -> ST S B) s a s' : m s = (Ok a, s') -> (m ≫= k) s = k a s'.
Proof. unfold mbind, ST_bind. by intros ->. Qed.

Lemma bind_throw {S A B} (m : ST S A) (k : A -> ST S B) s e s' : m s = (Throw e, s') -> (m ≫= k) s = (Throw e, s').
Proof. unfold mbind, ST_bind. by intros ->. Qed.

Lemma flush_files_null sid name names d :
  name ∈ names -> ds_files (dk_shards d sid) !! name = None ->
  exists d', flush_files sid names d = (Throw (Undefined "null pointer"), d').
Proof.
  revert d. induction names as [|n names IH]; intros d Hin Hn; [set_solver|]. cbn [flush_files].
  erewrite bind_run by reflexivity. destruct (ds_files _ !! n) as [data|] eqn:E; [|by eexists].
  erewrite bind_run by reflexivity. apply IH; [|done]. set_solver.
Qed.

(** A flush after [name] has left the cache *)
Lemma flush_removed sid name data d :
  dk_path d <> EmptyString -> ds_files (dk_shards d sid) !! name = None ->
  (forall n, n ∈ ds_pending (dk_shards d sid) -> n <> name -> is_Some (ds_files (dk_shards d sid) !! n)) ->
  name ∈ ds_pending (dk_shards d sid) \/ dk_os d !! (dk_path d ++ name)%string = Some data ->
  (exists d', shard_flush sid false d = (Throw (Undefined "null pointer"), d')) \/
  (exists d', shard_flush sid false d = (Ok tt, d') /\ dk_path d' = dk_path d /\ dk_os d' !! (dk_path d ++ name)%string = Some data).
Proof.
  intros Hp Hn Hpe Hc. unfold shard_flush. erewrite bind_run by reflexivity. cbn [andb].
  rewrite (proj2 (String.eqb_neq _ _)) by done.
  destruct (decide (name ∈ ds_pending (dk_shards d sid))) as [Hin|Hni].
  - left. destruct (flush_files_null sid name (elements (ds_pending (dk_shards d sid))) d) as [d' E];
      [by apply elem_of_elements|done|]. exists d'. by erewrite bind_throw by exact E.
  - right. destruct Hc as [?|Hos]; [done|].
    pose proof (flush_files_ok sid (elements (ds_pending (dk_shards d sid))) d) as Hw.
    apply wp_run in Hw as ([] & d' & E & os & -> & _ & Hout).
    + erewrite bind_run by exact E. eexists. split; [reflexivity|]. split; [done|]. cbn. rewrite Hout; [done|].
      intros k Hk%elem_of_elements Ek. apply path_inj in Ek. by subst.
    + apply Forall_forall. intros n Hin%elem_of_elements. apply Hpe; [done|]. by intros ->.
Qed.

(** Removing a file never succeeds if the server has a directory: either the file is
    still to be flushed, and the flush follows a null pointer, or it has been flushed, and the
    server stops after removing it, since [std::remove] returns 0 when it has removed the file. *)
Theorem Disk_remove_fails name data d :
  disk_rep None d -> dk_path d <> EmptyString -> ds_files (dk_shards d (disk_shard_of name)) !! name = Some data ->
  exists e d', Disk_remove name d = (Throw e, d') /\ (e = Undefined "null pointer" \/ e = Fatal "Failed to remove file").
Proof.
  intros Hr Hp Hd. unfold Disk_remove.
  rewrite (bind_run _ _ _ _ _ (toggle_run true (disk_shard_of name) d (dr_locked _ _ Hr _))).
  set (sid := disk_shard_of name) in *. set (d1 := set_shard _ _ d). erewrite bind_run by reflexivity.
  assert (E1 : dk_shards d1 sid = set_locked true (dk_shards d sid)) by apply set_shard_same.
  rewrite E1. cbn [ds_files set_locked]. rewrite Hd.
  set (d2 := set_shard sid (set_files (delete name (ds_files (dk_shards d1 sid))) (dk_shards d1 sid)) d1).
  assert (E2 : dk_shards d2 sid = set_files (delete name (ds_files (dk_shards d1 sid))) (dk_shards d1 sid)) by apply set_shard_same.
  destruct (flush_removed sid name data d2) as [[d3 Ef]|(d3 & Ef & Ep & Eo)]; [done|rewrite E2; apply lookup_delete_eq| | |..].
  - rewrite E2, E1. cbn. intros n Hin Hne. rewrite lookup_delete_ne by done. by apply (dr_pending _ _ Hr).
  - rewrite E2, E1. cbn. destruct (dr_saved _ _ Hr _ _ _ Hd) as [?|[?|?]]; [by left|done|by right].
  - exists (Undefined "null pointer"), d3. split; [|by left]. apply bind_throw.
    erewrite bind_run by reflexivity. fold d2. by apply bind_throw.
  - eexists (Fatal "Failed to remove file"), _. split; [|by right]. apply bind_throw.
    erewrite bind_run by reflexivity. fold d2. erewrite bind_run by exact Ef. erewrite bind_run by reflexivity.
    rewrite Ep, Eo. reflexivity.
Qed.

(** A dump never succeeds either: every shard's mutex is unlocked by hand and then once
    more by its guard.  The files are still there. *)
Theorem Disk_dump_fails filename d :
  disk_rep None d ->
  exists d', Disk_dump_everything filename d = (Throw (Undefined "unlock of a mutex that is not locked"), d') /\
    dk_path d' = dk_path d /\ forall sid, ds_files (dk_shards d' sid) = ds_files (dk_shards d sid).
Proof.
  intros Hr. set (d1 := set_shard 0 (set_locked true (dk_shards d 0)) d).
  set (d2 := set_os (<[filename := dump_files (ds_files (dk_shards d1 0))]> (dk_os d1)) d1).
  exists (set_shard 0 (set_locked false (dk_shards d2 0)) d2). split; [|split; [done|]].
  2:{ intros sid. destruct (decide (sid = 0)) as [->|]; [by rewrite set_shard_same; cbn; rewrite fn_lookup_insert|].
      rewrite set_shard_other by done. cbn [d2 set_os dk_shards]. unfold d1. by rewrite set_shard_other. }
  unfold Disk_dump_everything. change (seqZ 0 DISK_NUM_SHARDS) with (0 :: seqZ 1 63). cbn [for_shards].
  apply bind_throw, bind_throw. unfold dump_shard.
  erewrite (bind_run (shard_lock 0)) by apply (toggle_run true 0 d (dr_locked _ _ Hr _)).
  erewrite bind_run by reflexivity. erewrite bind_run by reflexivity.
  erewrite (bind_run (shard_unlock 0)) by (apply (toggle_run false 0); cbn; by rewrite fn_lookup_insert).
  unfold shard_unlock. erewrite bind_run by reflexivity. cbn. rewrite fn_lookup_insert. reflexivity.
Qed.

End Disk.

(** ** Examples, with the length of a name as its hash *)

Definition example_hash (s : string) : Z := Z.of_nat (String.length s).

Definition example_ops : list file_op :=
  [FWrite "a" [1; 2]; FWrite "bb" [3]; FSize "a"; FWrite "a" [4]; FRestart; FRead "a" 1; FRead "bb" 1; FRead "old" 2].

Lemma Disk_refines_files_witness : exists d,
  file_session example_hash "data" example_ops (Disk_new "data" {[ "data/old" := [8; 9] ]})
  = (Ok [AWritten true; AWritten true; ASize 2; AWritten true; ARestarted; AData [4]; AData [3]; AData [8; 9]], d).
Proof.
  refine (Disk_refines_files example_hash "data" _ example_ops _ _). vm_compute. reflexivity.
Defined.

Definition example_files : gmap string (list Z) := {[ "a" := [1; 2] ; "bb" := [] ]}.

Lemma Disk_load_dump_witness : exists d,
  Disk_load_everything example_hash "dump" (Disk_new "data" {[ "dump" := dump_files example_files ]}) = (Ok true, d) /\
  caches example_hash false example_files d.
Proof.
  apply Disk_load_dump.
  - apply map_Forall_insert_2; [|apply map_Forall_singleton]; split; vm_compute; (split; [discriminate|reflexivity]).
  - vm_compute. split; [discriminate|reflexivity].
  - vm_compute. reflexivity.
Defined.

Definition example_disk : disk := (Disk_write example_hash "a" [1; 2] (Disk_new "data" ∅)).2.

Lemma example_disk_rep : disk_rep example_hash None example_disk.
Proof.
  pose proof (Disk_write_ok example_hash "a" [1; 2] (Disk_new "data" ∅) eq_refl (Disk_new_rep _ _ _)) as Hw.
  apply wp_run in Hw as (r & d & Hrun & _ & Hr & _). unfold example_disk. by rewrite Hrun.
Qed.

Lemma Disk_remove_fails_witness : exists e d',
  Disk_remove example_hash "a" example_disk = (Throw e, d') /\
  (e = Undefined "null pointer" \/ e = Fatal "Failed to remove file").
Proof. apply (Disk_remove_fails example_hash "a" [1; 2]); [apply example_disk_rep|vm_compute; discriminate|vm_compute; reflexivity]. Defined.

Lemma Disk_dump_fails_witness : exists d',
  Disk_dump_everything "dump" example_disk = (Throw (Undefined "unlock of a mutex that is not locked"), d') /\
  dk_path d' = dk_path example_disk /\ forall sid, ds_files (dk_shards d' sid) = ds_files (dk_shards example_disk sid).
Proof. apply (Disk_dump_fails example_hash). apply example_disk_rep. Defined.
