(* ===== verification/BufferManager.v ===== *)
(** * The buffer manager

    Models [src/enclave/BufferManager.h], [BufferManager.inl],
    [BufferManager.cpp], [Page.h], [Page.inl] and [PageHandle.h]: a cache of
    pages with pinning, eviction and write-back.  The metadata of all shards is
    one map here (a page belongs to shard [page_no % NUM_SHARDS]); each shard has
    its eviction list and its byte count.  Every operation is one step, as under
    the locks of its shard; [check_evict] throws [Must_wait] where the code
    waits for another thread to unpin a page. *)

From stdpp Require Import pretty.
From S2P Require Import Prelude PageStore EncryptedIO.

Definition BUF_NUM_SHARDS : Z := 32.

(** [internal_page_meta_t] *)
Record meta (N : Type) : Type := mkMeta {
  mt_page : N;
  mt_dirty : bool;
  mt_size : Z;
  mt_pin : Z;
}.
Arguments mkMeta {N}.
Arguments mt_page {N}.
Arguments mt_dirty {N}.
Arguments mt_size {N}.
Arguments mt_pin {N}.

Record bufmgr (N IO : Type) : Type := mkBuf {
  bm_metas : gmap Z (meta N);
  bm_loaded : gmap Z Z;
  bm_evict : gmap Z (list Z);
  bm_io : IO;
  bm_next : Z;
}.
Arguments mkBuf {N IO}.
Arguments bm_metas {N IO}.
Arguments bm_loaded {N IO}.
Arguments bm_evict {N IO}.
Arguments bm_io {N IO}.
Arguments bm_next {N IO}.

Definition shard_of (page_no : Z) : Z := page_no mod BUF_NUM_SHARDS.

Section Setters.
Context {N IO : Type}.
Implicit Types s : bufmgr N IO.

Definition loaded_size (sid : Z) s : Z := default 0 (bm_loaded s !! sid).
Definition evict_list (sid : Z) s : list Z := default [] (bm_evict s !! sid).

Definition set_metas (f : gmap Z (meta N) -> gmap Z (meta N)) s : bufmgr N IO :=
  mkBuf (f (bm_metas s)) (bm_loaded s) (bm_evict s) (bm_io s) (bm_next s).
Definition set_loaded sid z s : bufmgr N IO :=
  mkBuf (bm_metas s) (<[sid := z]> (bm_loaded s)) (bm_evict s) (bm_io s) (bm_next s).
Definition set_evict sid l s : bufmgr N IO :=
  mkBuf (bm_metas s) (bm_loaded s) (<[sid := l]> (bm_evict s)) (bm_io s) (bm_next s).
Definition set_io io s : bufmgr N IO := mkBuf (bm_metas s) (bm_loaded s) (bm_evict s) io (bm_next s).
Definition set_next n s : bufmgr N IO := mkBuf (bm_metas s) (bm_loaded s) (bm_evict s) (bm_io s) n.
End Setters.

Section Operations.
Context {N IO : Type} `{EncryptedIO IO}.

(** The virtual functions of [Page], the constructor from a stream, the size of
    [internal_page_meta_t], the prefix of the files and [m_buffer_size] of a
    shard *)
Context (page_serialize : N -> list Z) (page_load : list Z -> N) (page_byte_size : N -> Z).
Context (sizeof_meta : Z) (file_prefix : string) (buffer_size : Z).

Definition meta_size (m : meta N) : Z := sizeof_meta + mt_size m.

Definition page_filename (page_no : Z) : string := file_prefix +:+ "_page_" +:+ pretty page_no.

Definition read_from_disk (page_no : Z) : ST (bufmgr N IO) (list Z) :=
  r ← zoom bm_io set_io (io_read_from_disk (page_filename page_no));
  match r with
  | Some d => mret d
  | None => throw (Fatal "Failed to read_from_disk")
  end.

Definition write_to_disk (page_no : Z) (data : list Z) : ST (bufmgr N IO) unit :=
  ok ← zoom bm_io set_io (io_write_to_disk (page_filename page_no) data);
  if ok : bool then mret tt else throw (Fatal "Failed to write_to_disk").

Definition find_meta (page_no : Z) : ST (bufmgr N IO) (meta N) :=
  s ← get_st;
  match bm_metas s !! page_no with
  | Some m => mret m
  | None => throw (Fatal "Invalid state: no such meta")
  end.

Definition put_meta (page_no : Z) (m : meta N) : ST (bufmgr N IO) unit :=
  modify_st (set_metas <[page_no := m]>).

Definition pin_page (page_no : Z) : ST (bufmgr N IO) unit :=
  m ← find_meta page_no;
  _ ← put_meta page_no (mkMeta (mt_page m) (mt_dirty m) (mt_size m) (mt_pin m + 1));
  if mt_pin m =? 0 then
    let sid := shard_of page_no in
    modify_st (fun s => set_evict sid (filter (fun q => q <> page_no) (evict_list sid s)) s)
  else mret tt.

Definition unpin_page (page_no : Z) : ST (bufmgr N IO) unit :=
  m ← find_meta page_no;
  if mt_pin m =? 0 then throw (Fatal "Invalid state: pin count is 0")
  else
    _ ← put_meta page_no (mkMeta (mt_page m) (mt_dirty m) (mt_size m) (mt_pin m - 1));
    if mt_pin m =? 1 then
      let sid := shard_of page_no in
      modify_st (fun s => if decide (page_no ∈ evict_list sid s) then s
                          else set_evict sid (page_no :: evict_list sid s) s)
    else mret tt.

Definition mark_page_dirty (page_no : Z) : ST (bufmgr N IO) unit :=
  m ← find_meta page_no;
  let m' := mkMeta (mt_page m) true (page_byte_size (mt_page m)) (mt_pin m) in
  _ ← put_meta page_no m';
  let sid := shard_of page_no in
  modify_st (fun s => set_loaded sid
    (u64 (loaded_size sid s + s32 (- s32 (meta_size m) + s32 (meta_size m')))) s).

(** Writes the page, if it is dirty; the caller unmarks it *)
Definition write_if_dirty (page_no : Z) (m : meta N) : ST (bufmgr N IO) unit :=
  if mt_dirty m then write_to_disk page_no (page_serialize (mt_page m)) else mret tt.

Definition flush_page (page_no : Z) : ST (bufmgr N IO) unit :=
  m ← find_meta page_no;
  _ ← put_meta page_no (mkMeta (mt_page m) false (mt_size m) (mt_pin m));
  write_if_dirty page_no m.

Definition unload_page (page_no : Z) : ST (bufmgr N IO) unit :=
  m ← find_meta page_no;
  _ ← modify_st (set_metas (delete page_no));
  if negb (mt_pin m =? 0) then throw (Fatal "Invalid state: pin count is != 0")
  else
    _ ← write_if_dirty page_no m;
    let sid := shard_of page_no in
    modify_st (fun s => set_loaded sid (u64 (loaded_size sid s - meta_size m)) s).

(** [fuel] bounds the pages that can be evicted. *)
Fixpoint evict_loop (fuel : nat) (sid expected : Z) : ST (bufmgr N IO) unit :=
  s ← get_st;
  if loaded_size sid s >? expected then
    match last (evict_list sid s), fuel with
    | None, _ => throw Must_wait
    | Some _, O => throw (Undefined "out of fuel")
    | Some p, S fuel =>
        _ ← modify_st (set_evict sid (removelast (evict_list sid s)));
        _ ← unload_page p;
        evict_loop fuel sid expected
    end
  else mret tt.

Definition check_evict (sid : Z) : ST (bufmgr N IO) unit :=
  s ← get_st;
  if loaded_size sid s <? buffer_size then mret tt
  else evict_loop (length (evict_list sid s)) sid (8 * buffer_size / 10).

(** [get_page_internal]: whether a handle was returned; it pins the page *)
Definition get_page_internal (page_no : Z) (load : bool) : ST (bufmgr N IO) bool :=
  if page_no =? INVALID_PAGE_NO then throw (Fatal "Got invalid page id")
  else
    s ← get_st;
    match bm_metas s !! page_no with
    | Some _ => _ ← pin_page page_no; mret true
    | None =>
        if negb load then mret false
        else
          let sid := shard_of page_no in
          _ ← check_evict sid;
          bstream ← read_from_disk page_no;
          let page := page_load bstream in
          let m := mkMeta page false (page_byte_size page) 0 in
          _ ← modify_st (fun s => set_loaded sid (u64 (loaded_size sid s + meta_size m)) s);
          _ ← put_meta page_no m;
          _ ← pin_page page_no;
          mret true
    end.

(** Returns the page number of the handle. *)
Definition new_page (page : N) : ST (bufmgr N IO) Z :=
  s ← get_st;
  let page_no := bm_next s in
  _ ← modify_st (set_next (u32 (bm_next s + 1)));
  let sid := shard_of page_no in
  _ ← check_evict sid;
  let m := mkMeta page true (page_byte_size page) 0 in
  _ ← modify_st (fun s => set_loaded sid (u64 (loaded_size sid s + meta_size m)) s);
  _ ← put_meta page_no m;
  valid ← get_page_internal page_no true;
  if valid : bool then mret page_no else throw (Fatal "Failed to create new shard page").

(** What a client does with a page between obtaining a handle and dropping it *)
Definition with_page {A} (page_no : Z) (body : ST (bufmgr N IO) A) : ST (bufmgr N IO) A :=
  valid ← get_page_internal page_no true;
  if valid : bool then a ← body; _ ← unpin_page page_no; mret a
  else throw (Undefined "empty PageHandle dereferenced").

Definition read_page (page_no : Z) : ST (bufmgr N IO) N :=
  with_page page_no (m ← find_meta page_no; mret (mt_page m)).

(** A change of the page through the handle, followed by [mark_page_dirty] *)
Definition write_page (page_no : Z) (n : N) : ST (bufmgr N IO) unit :=
  with_page page_no (
    m ← find_meta page_no;
    _ ← put_meta page_no (mkMeta n (mt_dirty m) (mt_size m) (mt_pin m));
    mark_page_dirty page_no).

Definition create_page (n : N) : ST (bufmgr N IO) Z :=
  p ← new_page n; _ ← unpin_page p; mret p.

(** [clear_cache] of a shard: every page that is not pinned is unloaded *)
Fixpoint clear_pages (pages : list (Z * meta N)) : ST (bufmgr N IO) unit :=
  match pages with
  | [] => mret tt
  | (p, m) :: pages =>
      _ ← (if mt_pin m =? 0 then
             let sid := shard_of p in
             _ ← modify_st (fun s => set_evict sid (filter (fun q => q <> p) (evict_list sid s)) s);
             unload_page p
           else mret tt);
      clear_pages pages
  end.

Definition clear_cache : ST (bufmgr N IO) unit :=
  s ← get_st; clear_pages (map_to_list (bm_metas s)).

Fixpoint flush_pages (pages : list Z) : ST (bufmgr N IO) unit :=
  match pages with
  | [] => mret tt
  | p :: pages => _ ← flush_page p; flush_pages pages
  end.

Definition flush_all_pages : ST (bufmgr N IO) unit :=
  s ← get_st; flush_pages (map_to_list (bm_metas s)).*1.

(** [discard_cache(page_no)]: the page is dropped without being written *)
Definition discard_cache (page_no : Z) : ST (bufmgr N IO) unit :=
  s ← get_st;
  match bm_metas s !! page_no with
  | None => mret tt
  | Some m =>
      let sid := shard_of page_no in
      _ ← modify_st (fun s => set_evict sid (filter (fun q => q <> page_no) (evict_list sid s)) s);
      if negb (mt_pin m =? 0) then throw (Fatal "Invalid state: pin count > 0")
      else
        _ ← modify_st (fun s => set_loaded sid (u64 (loaded_size sid s - meta_size m)) s);
        modify_st (set_metas (delete page_no))
  end.

(** [reload_page]: the page is replaced by what is on disk *)
Definition reload_page (page_no : Z) : ST (bufmgr N IO) unit :=
  m ← find_meta page_no;
  bstream ← read_from_disk page_no;
  let page := page_load bstream in
  let m' := mkMeta page (mt_dirty m) (page_byte_size page) (mt_pin m) in
  let sid := shard_of page_no in
  _ ← put_meta page_no m';
  modify_st (fun s => set_loaded sid
    (u64 (u64 (loaded_size sid s - meta_size m) + meta_size m')) s).

End Operations.

Definition bufmgr_init {N IO} (io : IO) : bufmgr N IO := mkBuf ∅ ∅ ∅ io 1.

(** ** Sequences of operations *)

Inductive page_op (N : Type) : Type :=
  | op_new (n : N)
  | op_get (p : Z)
  | op_put (p : Z) (n : N)
  | op_flush (p : Z)
  | op_flush_all
  | op_clear_cache.
Arguments op_new {N}.
Arguments op_get {N}.
Arguments op_put {N}.
Arguments op_flush {N}.
Arguments op_flush_all {N}.
Arguments op_clear_cache {N}.

Inductive page_out (N : Type) : Type := out_no (p : Z) | out_page (n : N) | out_unit.
Arguments out_no {N}.
Arguments out_page {N}.
Arguments out_unit {N}.

Section Runs.
Context {S N : Type} `{PageStore S N} (flush_all clear : ST S unit).

Definition run_op (o : page_op N) : ST S (page_out N) :=
  match o with
  | op_new n => p ← ps_new n; mret (out_no p)
  | op_get p => n ← ps_get p; mret (out_page n)
  | op_put p n => _ ← ps_put p n; mret out_unit
  | op_flush p => _ ← ps_flush p; mret out_unit
  | op_flush_all => _ ← flush_all; mret out_unit
  | op_clear_cache => _ ← clear; mret out_unit
  end.

Fixpoint run_ops (os : list (page_op N)) : ST S (list (page_out N)) :=
  match os with
  | [] => mret []
  | o :: os => r ← run_op o; rs ← run_ops os; mret (r :: rs)
  end.
End Runs.

(** ** Invariant

    [bm_inv x s pg]: the manager [s] stands for the pages [pg].  A loaded page is
    what [pg] says, and so is the file of every page that is not loaded or not
    dirty; a shard's eviction list is its unpinned pages (except [x], which is
    being taken in or out), its byte count the sum of the sizes. *)

Section Invariant.
Context {N IO : Type} `{EncryptedIOLaws IO}.
Context (page_serialize : N -> list Z) (page_load : list Z -> N) (page_byte_size : N -> Z).
Context (sizeof_meta : Z) (file_prefix : string) (buffer_size : Z).
Hypothesis page_load_serialize : forall n, page_load (page_serialize n) = n.
Hypothesis sizeof_meta_pos : 0 <= sizeof_meta.
Hypothesis page_size_range : forall n,
  0 <= page_byte_size n /\ sizeof_meta + page_byte_size n < 2 ^ 31.
Hypothesis buffer_size_pos : 0 <= buffer_size.
Implicit Types (s : bufmgr N IO) (pg : gmap Z N) (m : meta N).

Abbreviation fname := (page_filename file_prefix).
Abbreviation msize := (meta_size sizeof_meta).

Definition add_size (sid p : Z) m (acc : Z) : Z :=
  if decide (shard_of p = sid) then acc + msize m else acc.

Definition shard_bytes (sid : Z) (metas : gmap Z (meta N)) : Z := map_fold (add_size sid) 0 metas.

Record bm_inv (x : option Z) s pg : Prop := {
  bi_next : 1 <= bm_next s <= INVALID_PAGE_NO;
  bi_dom : forall p, is_Some (pg !! p) -> 1 <= p < bm_next s;
  bi_meta : forall p m, bm_metas s !! p = Some m ->
    pg !! p = Some (mt_page m) /\
    (mt_dirty m = false -> io_get (bm_io s) (fname p) = Some (page_serialize (mt_page m))) /\
    mt_size m = page_byte_size (mt_page m) /\ 0 <= mt_pin m;
  bi_disk : forall p n, bm_metas s !! p = None -> pg !! p = Some n ->
    io_get (bm_io s) (fname p) = Some (page_serialize n);
  bi_evict : forall sid p, p ∈ evict_list sid s <->
    shard_of p = sid /\ Some p <> x /\ exists m, bm_metas s !! p = Some m /\ mt_pin m = 0;
  bi_nodup : forall sid, NoDup (evict_list sid s);
  bi_size : forall sid, loaded_size sid s = u64 (shard_bytes sid (bm_metas s));
}.

(** *** File names *)

Lemma page_filename_inj p q : fname p = fname q -> p = q.
Proof.
  unfold page_filename. intros E. apply (inj (String.append file_prefix)) in E.
  apply (inj (String.append "_page_")) in E. by apply (inj pretty) in E.
Qed.

(** *** Byte counts *)

Lemma shard_bytes_insert sid metas p m :
  metas !! p = None -> shard_bytes sid (<[p := m]> metas) = add_size sid p m (shard_bytes sid metas).
Proof.
  intros Hp. unfold shard_bytes. apply map_fold_insert_L; [|done].
  intros. unfold add_size. repeat case_decide; lia.
Qed.

Lemma shard_bytes_delete sid metas p m :
  metas !! p = Some m -> shard_bytes sid metas = add_size sid p m (shard_bytes sid (delete p metas)).
Proof.
  intros Hp. rewrite <-(insert_delete_id metas p m Hp) at 1. apply shard_bytes_insert.
  apply lookup_delete_eq.
Qed.

Lemma shard_bytes_update sid metas p m m' :
  metas !! p = Some m ->
  shard_bytes sid (<[p := m']> metas) =
  shard_bytes sid metas + (if decide (shard_of p = sid) then msize m' - msize m else 0).
Proof.
  intros Hp. rewrite (shard_bytes_delete sid metas p m Hp).
  rewrite <-insert_delete_eq, shard_bytes_insert by apply lookup_delete_eq.
  unfold add_size. case_decide; lia.
Qed.

(** A shard without pages takes no space. *)
Lemma shard_bytes_empty sid metas :
  (forall p m, metas !! p = Some m -> shard_of p <> sid) -> shard_bytes sid metas = 0.
Proof.
  induction metas as [|p m metas Hp IH] using map_ind; intros Hno; [done|].
  rewrite shard_bytes_insert by done. unfold add_size. rewrite decide_False.
  - apply IH. intros q m' Hq. apply (Hno q m'). rewrite lookup_insert_ne; [done|]. congruence.
  - apply (Hno p m). apply lookup_insert_eq.
Qed.

Lemma u64_add a b : u64 (u64 a + b) = u64 (a + b).
Proof. unfold wrap. by rewrite Zplus_mod_idemp_l. Qed.

Lemma u64_sub a b : u64 (u64 a - b) = u64 (a - b).
Proof. unfold wrap. by rewrite Zminus_mod_idemp_l. Qed.


(** *** Primitive steps *)

Lemma find_meta_ok s p m Q :
  bm_metas s !! p = Some m -> Q m s -> wp (find_meta p) Q s.
Proof. intros Hp HQ. unfold find_meta. apply wp_bind, wp_get. by rewrite Hp. Qed.

Lemma read_from_disk_ok s p d :
  io_get (bm_io s) (fname p) = Some d ->
  wp (read_from_disk file_prefix p) (fun r s' => r = d /\
    (forall g, io_get (bm_io s') g = io_get (bm_io s) g) /\ s' = set_io (bm_io s') s) s.
Proof.
  intros Hd. unfold read_from_disk. apply wp_bind, wp_zoom.
  eapply wp_mono; [apply io_read_spec|]. cbv beta. intros ? io' [-> Hio]. rewrite Hd.
  by apply wp_ret.
Qed.

Lemma write_to_disk_ok s p d :
  wp (write_to_disk file_prefix p d) (fun _ s' =>
    io_get (bm_io s') (fname p) = Some d /\
    (forall q, q <> p -> io_get (bm_io s') (fname q) = io_get (bm_io s) (fname q)) /\
    s' = set_io (bm_io s') s) s.
Proof.
  unfold write_to_disk. apply wp_bind, wp_zoom.
  eapply wp_mono; [apply io_write_spec|]. cbv beta. intros ? io' (-> & Hd & Hio). apply wp_ret.
  split_and!; [done| |done]. intros q Hq. apply Hio. by intros ?%page_filename_inj.
Qed.

(** The file of a page after [write_if_dirty] is up to date. *)
Lemma write_if_dirty_ok s p m :
  (mt_dirty m = false -> io_get (bm_io s) (fname p) = Some (page_serialize (mt_page m))) ->
  wp (write_if_dirty page_serialize file_prefix p m) (fun _ s' =>
    io_get (bm_io s') (fname p) = Some (page_serialize (mt_page m)) /\
    (forall q, q <> p -> io_get (bm_io s') (fname q) = io_get (bm_io s) (fname q)) /\
    s' = set_io (bm_io s') s) s.
Proof.
  intros Hd. unfold write_if_dirty. destruct (mt_dirty m); [apply write_to_disk_ok|].
  apply wp_ret. split_and!; [by apply Hd|done|by destruct s].
Qed.

(** *** Eviction *)

Lemma bm_inv_pages_eq x s pg p m :
  bm_inv x s pg -> bm_metas s !! p = Some m -> 1 <= p < bm_next s.
Proof. intros Hi Hp. apply (bi_dom _ _ _ Hi). destruct (bi_meta _ _ _ Hi p m Hp) as [-> _]. eauto. Qed.

Lemma unload_page_ok s pg p m :
  bm_inv (Some p) s pg -> bm_metas s !! p = Some m -> mt_pin m = 0 ->
  wp (unload_page page_serialize sizeof_meta file_prefix p) (fun _ s' => bm_inv None s' pg /\
    bm_metas s' = delete p (bm_metas s) /\ bm_evict s' = bm_evict s /\ bm_next s' = bm_next s) s.
Proof.
  intros Hi Hp Hpin. destruct (bi_meta _ _ _ Hi p m Hp) as (Hpg & Hdisk & Hsz & _).
  unfold unload_page. apply wp_bind. eapply find_meta_ok; [done|].
  apply wp_bind, wp_modify. rewrite Hpin, Z.eqb_refl. cbn [negb]. apply wp_bind.
  eapply wp_mono; [by apply write_if_dirty_ok|]. cbv beta. intros _ s1 (Hd1 & Hoff & ->).
  apply wp_modify. split_and!; [|done..].
  destruct Hi as [Hnext Hdom Hmeta Hdk Hev Hnd Hsize]. split; cbn -[INVALID_PAGE_NO] in *; [done|done| | | |done|].
  - intros q m' Hq. apply lookup_delete_Some in Hq as [Hqp Hq].
    destruct (Hmeta q m' Hq) as (? & Hdq & ? & ?). split_and!; [done| |done..].
    intros Hdirty. rewrite Hoff by done. by apply Hdq.
  - intros q n Hq Hn. destruct (decide (q = p)) as [->|Hqp]; [congruence|].
    rewrite Hoff by done. rewrite lookup_delete_ne in Hq by done. by apply Hdk.
  - intros sid q. specialize (Hev sid q). unfold evict_list in *. cbn. rewrite Hev. clear Hev.
    split.
    + intros (Hs & Hne & m' & Hq & Hz). split_and!; [done..|]. exists m'.
      rewrite lookup_delete_ne; [done|]. congruence.
    + intros (Hs & _ & m' & [Hqp Hq]%lookup_delete_Some & Hz). split_and!; [done|congruence|eauto].
  - intros sid. unfold loaded_size at 1. cbn. specialize (Hsize sid).
    rewrite (shard_bytes_delete _ _ _ _ Hp) in Hsize. unfold add_size in Hsize.
    unfold loaded_size in *. cbn. destruct (decide (shard_of p = sid)) as [<-|Hs].
    + rewrite lookup_insert_eq. cbn. rewrite Hsize, u64_sub. f_equal. lia.
    + by rewrite lookup_insert_ne.
Qed.

(** No page of the shard is in use. *)
Definition shard_idle (sid : Z) s : Prop :=
  forall p m, bm_metas s !! p = Some m -> shard_of p = sid -> mt_pin m = 0.

Lemma evict_list_empty s pg sid :
  bm_inv None s pg -> shard_idle sid s -> evict_list sid s = [] -> loaded_size sid s = 0.
Proof.
  intros Hi Hidle He. rewrite (bi_size _ _ _ Hi). rewrite shard_bytes_empty; [done|].
  intros p m Hp Hs. assert (p ∈ evict_list sid s) as Hin.
  { apply (bi_evict _ _ _ Hi). split_and!; [done..|]. eauto. }
  rewrite He in Hin. by apply elem_of_nil in Hin.
Qed.

Lemma removelast_last (l : list Z) p : last l = Some p -> l = removelast l ++ [p].
Proof.
  induction l as [|a l IH]; [done|]. destruct l as [|b l]; [by intros [= ->]|].
  intros Hl. change (removelast (a :: b :: l)) with (a :: removelast (b :: l)).
  cbn [app]. f_equal. by apply IH.
Qed.

Lemma evict_list_set sid l s : evict_list sid (set_evict sid l s) = l.
Proof. unfold evict_list. cbn. by rewrite lookup_insert_eq. Qed.

Lemma evict_list_set_ne sid sid' l s :
  sid' <> sid -> evict_list sid' (set_evict sid l s) = evict_list sid' s.
Proof. intros. unfold evict_list. cbn. by rewrite lookup_insert_ne. Qed.

(** A page is taken off its list. *)
Lemma bm_inv_unlist s pg p l :
  bm_inv None s pg -> NoDup l ->
  (forall q, q ∈ l <-> q <> p /\ q ∈ evict_list (shard_of p) s) ->
  bm_inv (Some p) (set_evict (shard_of p) l s) pg.
Proof.
  intros [Hnext Hdom Hmeta Hdk Hev Hnd Hsize] Hndl Hl. split; try done.
  - intros sid q. destruct (decide (sid = shard_of p)) as [->|Hsid].
    + rewrite evict_list_set, Hl, Hev. cbn. naive_solver congruence.
    + rewrite evict_list_set_ne, Hev by done. cbn. naive_solver congruence.
  - intros sid. destruct (decide (sid = shard_of p)) as [->|Hsid];
      [by rewrite evict_list_set|by rewrite evict_list_set_ne].
Qed.

(** The victim of an eviction is the last of the list. *)
Lemma bm_inv_victim s pg sid p :
  bm_inv None s pg -> last (evict_list sid s) = Some p ->
  shard_of p = sid /\ (exists m, bm_metas s !! p = Some m /\ mt_pin m = 0) /\
  bm_inv (Some p) (set_evict sid (removelast (evict_list sid s)) s) pg.
Proof.
  intros Hi Hl. pose proof (removelast_last _ _ Hl) as E.
  assert (p ∈ evict_list sid s) as Hin by (rewrite E; apply elem_of_app; right; left).
  pose proof (bi_nodup _ _ _ Hi sid) as Hnd. rewrite E in Hnd.
  apply NoDup_app in Hnd as (Hnd & Hnp & _).
  apply (bi_evict _ _ _ Hi) in Hin as (<- & _ & Hm). split_and!; [done..|].
  apply bm_inv_unlist; [done..|]. intros q. rewrite E at 2.
  rewrite elem_of_app, list_elem_of_singleton. split; [|naive_solver].
  intros Hq. split; [|by left]. intros ->. by apply (Hnp p Hq), list_elem_of_singleton.
Qed.

Lemma evict_loop_ok fuel s pg sid expected :
  bm_inv None s pg -> shard_idle sid s -> 0 <= expected -> (length (evict_list sid s) <= fuel)%nat ->
  wp (evict_loop page_serialize sizeof_meta file_prefix fuel sid expected) (fun _ s' =>
    bm_inv None s' pg /\ bm_next s' = bm_next s /\ bm_metas s' ⊆ bm_metas s /\
    loaded_size sid s' <= expected) s.
Proof.
  revert s. induction fuel as [|fuel IH]; intros s Hi Hidle He Hf; cbn [evict_loop];
    apply wp_bind, wp_get; (destruct (loaded_size sid s >? expected) eqn:Hl;
    [|apply wp_ret; rewrite Z.gtb_ltb in Hl; bool_hyps; by split_and!]); rewrite Z.gtb_ltb in Hl; bool_hyps;
    (destruct (last (evict_list sid s)) as [p|] eqn:Hp;
     [|apply last_None in Hp; rewrite (evict_list_empty s pg sid) in Hl by done; lia]).
  { destruct (evict_list sid s); [done|cbn in Hf; lia]. }
  destruct (bm_inv_victim s pg sid p Hi Hp) as (Hs & (m & Hm & Hpin) & Hi1).
  apply wp_bind, wp_modify, wp_bind. eapply wp_mono; [by eapply unload_page_ok|]. cbv beta.
  intros _ s2 (Hi2 & Hm2 & He2 & Hn2). cbn in Hm2, He2, Hn2.
  assert (bm_metas s2 ⊆ bm_metas s) as Hsub by (rewrite Hm2; apply delete_subseteq).
  eapply wp_mono; [apply IH; [done| |done|]|].
  - intros q mq Hq. apply Hidle. by eapply lookup_weaken.
  - pose proof (removelast_last _ _ Hp) as E. apply (f_equal length) in E.
    rewrite length_app in E. unfold evict_list at 1. rewrite He2, lookup_insert_eq. cbn in *. lia.
  - cbv beta. intros _ s3 (? & ? & ? & ?). split_and!; [done|congruence|by etrans|done].
Qed.

Lemma check_evict_ok s pg sid :
  bm_inv None s pg -> shard_idle sid s ->
  wp (check_evict page_serialize sizeof_meta file_prefix buffer_size sid) (fun _ s' =>
    bm_inv None s' pg /\ bm_next s' = bm_next s /\ bm_metas s' ⊆ bm_metas s /\
    loaded_size sid s' <= buffer_size) s.
Proof.
  intros Hi Hidle. apply wp_bind, wp_get.
  destruct (Z.ltb_spec (loaded_size sid s) buffer_size); [apply wp_ret; split_and!; [done..|lia]|].
  assert (0 <= 8 * buffer_size / 10 <= buffer_size).
  { split; [apply Z.div_pos; lia|apply Z.div_le_upper_bound; lia]. }
  eapply wp_mono; [apply evict_loop_ok; [done..|lia|done]|]. cbv beta.
  intros _ s' (? & ? & ? & ?). split_and!; [done..|lia].
Qed.

(** *** Pinning *)

(** The invariant reads the eviction lists and counts through their accessors. *)
Lemma bm_inv_ext x s s' pg :
  bm_inv x s pg -> bm_metas s' = bm_metas s -> bm_io s' = bm_io s -> bm_next s' = bm_next s ->
  (forall sid, loaded_size sid s' = loaded_size sid s) ->
  (forall sid, evict_list sid s' = evict_list sid s) -> bm_inv x s' pg.
Proof.
  intros [] Em Eio En El Ee. split; rewrite ?Em, ?Eio, ?En; intros; rewrite ?El, ?Ee; auto.
Qed.

(** Only the pin count of a page changes, and the list is adapted to it. *)
Lemma bm_inv_repin x x' s pg p m pin l :
  bm_inv x s pg -> bm_metas s !! p = Some m -> 0 <= pin -> x = None \/ x = Some p -> x' = None ->
  NoDup l ->
  (forall q, q ∈ l <-> (q <> p /\ q ∈ evict_list (shard_of p) s) \/ (q = p /\ pin = 0)) ->
  bm_inv x' (set_evict (shard_of p) l
    (set_metas <[p := mkMeta (mt_page m) (mt_dirty m) (mt_size m) pin]> s)) pg.
Proof.
  intros [Hnext Hdom Hmeta Hdk Hev Hnd Hsize] Hm Hpin Hx -> Hndl Hl.
  split; cbn -[INVALID_PAGE_NO] in *; try done.
  - intros q m' Hq. destruct (decide (q = p)) as [->|Hqp].
    + rewrite lookup_insert_eq in Hq. injection Hq as <-. cbn.
      destruct (Hmeta p m Hm) as (? & ? & ? & ?). by split_and!.
    + rewrite lookup_insert_ne in Hq by done. by apply Hmeta.
  - intros q n Hq. destruct (decide (q = p)) as [->|Hqp]; [by rewrite lookup_insert_eq in Hq|].
    rewrite lookup_insert_ne in Hq by done. by apply Hdk.
  - intros sid q. destruct (decide (sid = shard_of p)) as [->|Hsid].
    + rewrite evict_list_set, Hl. specialize (Hev (shard_of p) q).
      destruct (decide (q = p)) as [->|Hqp].
      * split; [intros [[? _]|[_ ->]]; [done|]|].
        -- split_and!; [done|done|]. eexists. by rewrite lookup_insert_eq.
        -- intros (_ & _ & m' & Hq & Hz). rewrite lookup_insert_eq in Hq. injection Hq as <-. by right.
      * rewrite lookup_insert_ne by done. unfold evict_list in *. cbn. rewrite Hev.
        split; [intros [(_ & ? & _ & ?)|[? _]]; done|]. intros (? & _ & ?). left. split_and!; try done.
        destruct Hx as [->| ->]; congruence.
    + rewrite evict_list_set_ne by done. specialize (Hev sid q). unfold evict_list in *. cbn. rewrite Hev.
      split; intros (Hs & Hne & m' & Hq & Hz); split_and!; try done.
      * exists m'. rewrite lookup_insert_ne; [done|]. by intros ->.
      * destruct Hx as [->| ->]; [done|]. intros [= ->]. by rewrite Hs in Hsid.
      * exists m'. rewrite lookup_insert_ne in Hq; [done|]. by intros ->.
  - intros sid. destruct (decide (sid = shard_of p)) as [->|Hsid].
    + by rewrite evict_list_set.
    + rewrite evict_list_set_ne by done. apply Hnd.
  - intros sid. rewrite (shard_bytes_update _ _ _ _ _ Hm). unfold meta_size. cbn.
    replace (if decide (shard_of p = sid) then _ else _) with 0 by (case_decide; lia).
    rewrite Z.add_0_r. apply Hsize.
Qed.

Lemma pin_page_ok x s pg p m :
  bm_inv x s pg -> bm_metas s !! p = Some m -> x = None \/ (x = Some p /\ mt_pin m = 0) ->
  wp (pin_page p) (fun _ s' => bm_inv None s' pg /\ bm_next s' = bm_next s /\
    bm_metas s' = <[p := mkMeta (mt_page m) (mt_dirty m) (mt_size m) (mt_pin m + 1)]> (bm_metas s)) s.
Proof.
  intros Hi Hm Hx. destruct (bi_meta _ _ _ Hi p m Hm) as (_ & _ & _ & Hpin).
  unfold pin_page. apply wp_bind. eapply find_meta_ok; [done|].
  apply wp_bind. unfold put_meta. apply wp_modify.
  assert (evict_list (shard_of p) (set_metas <[p := mkMeta (mt_page m) (mt_dirty m) (mt_size m)
    (mt_pin m + 1)]> s) = evict_list (shard_of p) s) as Ee by done.
  destruct (Z.eqb_spec (mt_pin m) 0) as [Hz|Hz].
  - apply wp_modify. rewrite Ee. split_and!; [|done..].
    eapply bm_inv_repin; [done|done|lia|naive_solver|done| |].
    + apply NoDup_filter, (bi_nodup _ _ _ Hi).
    + intros q. rewrite list_elem_of_filter. naive_solver lia.
  - apply wp_ret. split_and!; [|done..]. destruct Hx as [->|[_ ?]]; [|done].
    eapply bm_inv_ext; [eapply (bm_inv_repin _ None _ _ _ _ (mt_pin m + 1) (evict_list (shard_of p) s));
      [done|done|lia|by left|done|apply (bi_nodup _ _ _ Hi)|]|done..|].
    + intros q. pose proof (bi_evict _ _ _ Hi (shard_of p) q). naive_solver lia.
    + intros sid. destruct (decide (sid = shard_of p)) as [->|];
        [by rewrite evict_list_set|by rewrite evict_list_set_ne].
Qed.

Lemma unpin_page_ok s pg p m :
  bm_inv None s pg -> bm_metas s !! p = Some m -> 0 < mt_pin m ->
  wp (unpin_page p) (fun _ s' => bm_inv None s' pg /\ bm_next s' = bm_next s /\
    bm_metas s' = <[p := mkMeta (mt_page m) (mt_dirty m) (mt_size m) (mt_pin m - 1)]> (bm_metas s)) s.
Proof.
  intros Hi Hm Hpin. unfold unpin_page. apply wp_bind. eapply find_meta_ok; [done|].
  destruct (Z.eqb_spec (mt_pin m) 0); [lia|]. apply wp_bind. unfold put_meta. apply wp_modify.
  set (s1 := set_metas _ s). pose proof (bi_evict _ _ _ Hi (shard_of p)) as Hev.
  assert (p ∉ evict_list (shard_of p) s) as Hnp.
  { rewrite Hev. intros (_ & _ & m' & Hm' & Hz). assert (m' = m) as -> by congruence. lia. }
  destruct (Z.eqb_spec (mt_pin m) 1) as [Hz|Hz].
  - apply wp_modify. change (evict_list (shard_of p) s1) with (evict_list (shard_of p) s).
    rewrite decide_False by done. split_and!; [|done..].
    eapply bm_inv_repin; [done|done|lia|by left|done| |].
    + apply NoDup_cons. split; [done|apply (bi_nodup _ _ _ Hi)].
    + intros q. rewrite elem_of_cons. destruct (decide (q = p)) as [->|]; naive_solver lia.
  - apply wp_ret. split_and!; [|done..].
    eapply bm_inv_ext; [eapply (bm_inv_repin _ None _ _ _ _ (mt_pin m - 1) (evict_list (shard_of p) s));
      [done|done|lia|by left|done|apply (bi_nodup _ _ _ Hi)|]|done..|].
    + intros q. destruct (decide (q = p)) as [->|]; naive_solver lia.
    + intros sid. destruct (decide (sid = shard_of p)) as [->|];
        [by rewrite evict_list_set|by rewrite evict_list_set_ne].
Qed.

(** *** Handles *)

(** A page joins the loaded ones, not yet on the eviction list. *)
Lemma bm_inv_load s pg p n dirty :
  bm_inv None s pg -> bm_metas s !! p = None -> 1 <= p < bm_next s ->
  let m := mkMeta n dirty (page_byte_size n) 0 in
  (dirty = false -> io_get (bm_io s) (fname p) = Some (page_serialize n)) ->
  bm_inv (Some p) (set_metas <[p := m]> (set_loaded (shard_of p)
    (u64 (loaded_size (shard_of p) s + msize m)) s)) (<[p := n]> pg).
Proof.
  intros [Hnext Hdom Hmeta Hdk Hev Hnd Hsize] Hp Hr m Hd.
  split; cbn -[INVALID_PAGE_NO] in *; try done.
  - intros q. destruct (decide (q = p)) as [->|Hqp]; [done|].
    rewrite lookup_insert_ne by done. apply Hdom.
  - intros q m' Hq. destruct (decide (q = p)) as [->|Hqp].
    + rewrite lookup_insert_eq in Hq. rewrite lookup_insert_eq. injection Hq as <-. by split_and!.
    + rewrite lookup_insert_ne in Hq by done. rewrite lookup_insert_ne by done. by apply Hmeta.
  - intros q n' Hq. destruct (decide (q = p)) as [->|Hqp]; [by rewrite lookup_insert_eq in Hq|].
    rewrite lookup_insert_ne in Hq by done. rewrite lookup_insert_ne by done. by apply Hdk.
  - intros sid q. specialize (Hev sid q). unfold evict_list in *. cbn. rewrite Hev.
    destruct (decide (q = p)) as [->|Hqp].
    + split; [intros (_ & _ & ? & ? & _); congruence|by intros (_ & [] & _)].
    + rewrite lookup_insert_ne by done. split; intros (? & ? & ?); split_and!; congruence || done.
  - intros sid. rewrite shard_bytes_insert by done. unfold loaded_size at 1, add_size. cbn.
    destruct (decide (shard_of p = sid)) as [<-|Hs].
    + rewrite lookup_insert_eq. cbn. rewrite Hsize. apply u64_add.
    + rewrite lookup_insert_ne by done. apply Hsize.
Qed.

(** Every page but [p] is unpinned. *)
Definition idle_but (p : Z) s : Prop := forall q m, q <> p -> bm_metas s !! q = Some m -> mt_pin m = 0.
Definition idle s : Prop := forall q m, bm_metas s !! q = Some m -> mt_pin m = 0.

Abbreviation get_page := (get_page_internal page_serialize page_load page_byte_size sizeof_meta
  file_prefix buffer_size).

Lemma get_page_ok s pg p n :
  bm_inv None s pg -> idle s -> pg !! p = Some n ->
  wp (get_page p true) (fun r s' => r = true /\ bm_inv None s' pg /\ bm_next s' = bm_next s /\
    idle_but p s' /\ exists m, bm_metas s' !! p = Some m /\ mt_page m = n /\ mt_pin m = 1) s.
Proof.
  intros Hi Hidle Hn. unfold get_page_internal.
  pose proof (bi_dom _ _ _ Hi p (mk_is_Some _ _ Hn)) as Hr. pose proof (bi_next _ _ _ Hi).
  destruct (Z.eqb_spec p INVALID_PAGE_NO); [lia|]. apply wp_bind, wp_get.
  destruct (bm_metas s !! p) as [m|] eqn:Hm.
  - destruct (bi_meta _ _ _ Hi p m Hm) as (Hpg & _). apply wp_bind.
    eapply wp_mono; [eapply pin_page_ok; [done|done|by left]|]. cbv beta.
    intros _ s1 (Hi1 & Hn1 & Hm1). apply wp_ret. split_and!; [done..| |].
    + intros q mq Hq. rewrite Hm1, lookup_insert_ne by done. apply Hidle.
    + eexists. rewrite Hm1, lookup_insert_eq. split_and!; [done|cbn; congruence|].
      cbn. rewrite (Hidle p m Hm). done.
  - cbn [negb]. apply wp_bind. eapply wp_mono; [apply check_evict_ok; [done|by intros q m Hq _; eapply Hidle]|].
    cbv beta. intros _ s1 (Hi1 & Hn1 & Hsub & _).
    assert (bm_metas s1 !! p = None) as Hm1 by (by eapply lookup_weaken_None).
    apply wp_bind. eapply wp_mono; [apply read_from_disk_ok; by apply (bi_disk _ _ _ Hi1)|].
    cbv beta. intros ? s2 (-> & Hio & Es2). rewrite page_load_serialize.
    assert (bm_inv None s2 pg) as Hi2.
    { rewrite Es2. destruct Hi1. split; cbn -[INVALID_PAGE_NO]; intros; rewrite ?Hio; eauto. }
    assert (bm_metas s2 = bm_metas s1) as Hm2 by (by rewrite Es2).
    apply wp_bind, wp_modify, wp_bind. unfold put_meta. apply wp_modify, wp_bind.
    pose proof (bi_dom _ _ _ Hi2 p (mk_is_Some _ _ Hn)) as Hr2.
    assert (bm_metas s2 !! p = None) as Hm2' by congruence.
    pose proof (bm_inv_load s2 pg p n false Hi2 Hm2' Hr2) as Hload. cbv zeta in Hload.
    rewrite (insert_id pg p n Hn) in Hload.
    eapply wp_mono; [eapply (pin_page_ok (Some p) _ pg p (mkMeta n false (page_byte_size n) 0));
      [apply Hload; intros _; by apply (bi_disk _ _ _ Hi2)|apply lookup_insert_eq|by right]|].
    cbv beta. intros _ s3 (Hi3 & Hn3 & Hm3). apply wp_ret. split_and!; [done|done| | |].
    + rewrite Hn3. cbn. rewrite Es2. cbn. congruence.
    + intros q mq Hq. rewrite Hm3, lookup_insert_ne by done. cbn. rewrite lookup_insert_ne, Hm2 by done.
      intros ?. eapply Hidle. by eapply lookup_weaken.
    + eexists. by rewrite Hm3, lookup_insert_eq.
Qed.

(** *** Sessions with a page *)

Lemma with_page_ok {A} (body : ST (bufmgr N IO) A) s pg p n (Q : A -> gmap Z N -> Prop) :
  bm_inv None s pg -> idle s -> pg !! p = Some n ->
  (forall s1 m, bm_inv None s1 pg -> idle_but p s1 -> bm_metas s1 !! p = Some m ->
    mt_page m = n -> mt_pin m = 1 ->
    wp body (fun a s2 => exists pg' m', bm_inv None s2 pg' /\ bm_next s2 = bm_next s1 /\
      idle_but p s2 /\ bm_metas s2 !! p = Some m' /\ mt_pin m' = 1 /\ Q a pg') s1) ->
  wp (with_page page_serialize page_load page_byte_size sizeof_meta file_prefix buffer_size p body)
    (fun a s' => exists pg', bm_inv None s' pg' /\ idle s' /\ bm_next s' = bm_next s /\ Q a pg') s.
Proof.
  intros Hi Hidle Hn Hbody. apply wp_bind. eapply wp_mono; [by eapply get_page_ok|]. cbv beta.
  intros ? s1 (-> & Hi1 & Hn1 & Hidle1 & m & Hm & Hp & Hpin).
  apply wp_bind. eapply wp_mono; [by eapply Hbody|]. cbv beta.
  intros a s2 (pg' & m' & Hi2 & Hn2 & Hidle2 & Hm2 & Hpin2 & HQ).
  apply wp_bind. eapply wp_mono; [eapply unpin_page_ok; [done|done|lia]|]. cbv beta.
  intros _ s3 (Hi3 & Hn3 & Hm3). apply wp_ret. exists pg'. split_and!; [done| |congruence|done].
  intros q mq. rewrite Hm3. destruct (decide (q = p)) as [->|Hq].
  - rewrite lookup_insert_eq. intros [= <-]. cbn. lia.
  - rewrite lookup_insert_ne by done. by apply Hidle2.
Qed.

(** The content of a loaded page is replaced and the page is marked dirty. *)
Lemma bm_inv_write s pg p m n :
  bm_inv None s pg -> bm_metas s !! p = Some m ->
  let m' := mkMeta n true (page_byte_size n) (mt_pin m) in
  bm_inv None (set_loaded (shard_of p)
    (u64 (loaded_size (shard_of p) s + (msize m' - msize m))) (set_metas <[p := m']> s)) (<[p := n]> pg).
Proof.
  intros [Hnext Hdom Hmeta Hdk Hev Hnd Hsize] Hm m'. destruct (Hmeta p m Hm) as (Hpg & _ & _ & Hpin).
  split; cbn -[INVALID_PAGE_NO] in *; try done.
  - intros q. destruct (decide (q = p)) as [->|Hqp]; [intros _; apply Hdom; eauto|].
    rewrite lookup_insert_ne by done. apply Hdom.
  - intros q mq Hq. destruct (decide (q = p)) as [->|Hqp].
    + rewrite lookup_insert_eq in Hq. rewrite lookup_insert_eq. injection Hq as <-. by split_and!.
    + rewrite lookup_insert_ne in Hq by done. rewrite lookup_insert_ne by done. by apply Hmeta.
  - intros q n' Hq. destruct (decide (q = p)) as [->|Hqp]; [by rewrite lookup_insert_eq in Hq|].
    rewrite lookup_insert_ne in Hq by done. rewrite lookup_insert_ne by done. by apply Hdk.
  - intros sid q. specialize (Hev sid q). unfold evict_list in *. cbn. rewrite Hev.
    destruct (decide (q = p)) as [->|Hqp]; [|by rewrite lookup_insert_ne].
    rewrite lookup_insert_eq, Hm. split; intros (? & ? & mq & [= <-] & ?); split_and!; eauto.
  - intros sid. rewrite (shard_bytes_update _ _ _ _ _ Hm). unfold loaded_size at 1. cbn.
    destruct (decide (shard_of p = sid)) as [<-|Hs].
    + rewrite lookup_insert_eq. cbn. rewrite Hsize. apply u64_add.
    + rewrite lookup_insert_ne, Z.add_0_r by done. apply Hsize.
Qed.

Lemma read_page_ok s pg p n :
  bm_inv None s pg -> idle s -> pg !! p = Some n ->
  wp (read_page page_serialize page_load page_byte_size sizeof_meta file_prefix buffer_size p)
    (fun r s' => r = n /\ bm_inv None s' pg /\ idle s' /\ bm_next s' = bm_next s) s.
Proof.
  intros Hi Hidle Hn. eapply wp_mono.
  - eapply (with_page_ok _ _ _ _ _ (fun a pg' => a = n /\ pg' = pg)); [done..|].
    intros s1 m Hi1 Hid1 Hm Hp Hpin. apply wp_bind. eapply find_meta_ok; [done|]. apply wp_ret.
    exists pg, m. by split_and!.
  - cbv beta. intros r s' (pg' & ? & ? & ? & -> & ->). by split_and!.
Qed.

Lemma write_page_ok s pg p n n0 :
  bm_inv None s pg -> idle s -> pg !! p = Some n0 ->
  wp (write_page page_serialize page_load page_byte_size sizeof_meta file_prefix buffer_size p n)
    (fun _ s' => bm_inv None s' (<[p := n]> pg) /\ idle s' /\ bm_next s' = bm_next s) s.
Proof.
  intros Hi Hidle Hn. eapply wp_mono.
  - eapply (with_page_ok _ _ _ _ _ (fun _ pg' => pg' = <[p := n]> pg)); [done..|].
    intros s1 m Hi1 Hid1 Hm Hp Hpin. apply wp_bind. eapply find_meta_ok; [done|].
    apply wp_bind. unfold put_meta. apply wp_modify. unfold mark_page_dirty. apply wp_bind.
    eapply find_meta_ok; [apply lookup_insert_eq|]. apply wp_bind. unfold put_meta. apply wp_modify, wp_modify.
    destruct (bi_meta _ _ _ Hi1 p m Hm) as (_ & _ & Hsz & _).
    eexists _, _. split; [eapply bm_inv_ext; [apply (bm_inv_write s1 pg p m n Hi1 Hm)|..|done]|];
      cbn; rewrite ?insert_insert_eq; [done..| |].
    + intros sid. unfold loaded_size, meta_size. cbn. destruct (decide (sid = shard_of p)) as [->|];
        [|by rewrite !lookup_insert_ne]. rewrite !lookup_insert_eq. cbn. do 2 f_equal.
      pose proof (page_size_range n). pose proof (page_size_range (mt_page m)). rewrite Hsz.
      rewrite !s32_small; rewrite ?s32_small; lia.
    + split_and!; [done| |by rewrite lookup_insert_eq|done|done].
      intros q mq Hq. cbn. rewrite !lookup_insert_ne by done. by apply Hid1.
  - cbv beta. intros r s' (pg' & ? & ? & ? & ->). by split_and!.
Qed.

(** A page has been written out. *)
Lemma bm_inv_flushed s pg p m io :
  bm_inv None s pg -> bm_metas s !! p = Some m ->
  io_get io (fname p) = Some (page_serialize (mt_page m)) ->
  (forall q, q <> p -> io_get io (fname q) = io_get (bm_io s) (fname q)) ->
  bm_inv None (set_io io (set_metas <[p := mkMeta (mt_page m) false (mt_size m) (mt_pin m)]> s)) pg.
Proof.
  intros [Hnext Hdom Hmeta Hdk Hev Hnd Hsize] Hm Hio Hoff.
  destruct (Hmeta p m Hm) as (Hpg & _ & Hsz & Hpin).
  split; cbn -[INVALID_PAGE_NO] in *; try done.
  - intros q mq Hq. destruct (decide (q = p)) as [->|Hqp].
    + rewrite lookup_insert_eq in Hq. injection Hq as <-. by split_and!.
    + rewrite lookup_insert_ne in Hq by done. rewrite Hoff by done. by apply Hmeta.
  - intros q n Hq. destruct (decide (q = p)) as [->|Hqp]; [by rewrite lookup_insert_eq in Hq|].
    rewrite lookup_insert_ne in Hq by done. rewrite Hoff by done. by apply Hdk.
  - intros sid q. specialize (Hev sid q). unfold evict_list in *. cbn. rewrite Hev.
    destruct (decide (q = p)) as [->|Hqp]; [|by rewrite lookup_insert_ne].
    rewrite lookup_insert_eq, Hm. split; intros (? & ? & mq & [= <-] & ?); split_and!; eauto.
  - intros sid. rewrite (shard_bytes_update _ _ _ _ _ Hm). unfold meta_size. cbn.
    replace (if decide (shard_of p = sid) then _ else _) with 0 by (case_decide; lia).
    rewrite Z.add_0_r. apply Hsize.
Qed.

Lemma flush_page_ok s pg p m :
  bm_inv None s pg -> bm_metas s !! p = Some m ->
  wp (flush_page page_serialize file_prefix p) (fun _ s' => bm_inv None s' pg /\
    bm_next s' = bm_next s /\
    bm_metas s' = <[p := mkMeta (mt_page m) false (mt_size m) (mt_pin m)]> (bm_metas s)) s.
Proof.
  intros Hi Hm. destruct (bi_meta _ _ _ Hi p m Hm) as (_ & Hd & _).
  unfold flush_page. apply wp_bind. eapply find_meta_ok; [done|].
  apply wp_bind. unfold put_meta. apply wp_modify.
  eapply wp_mono; [by apply write_if_dirty_ok|]. cbv beta. intros _ s1 (Hio & Hoff & ->).
  split_and!; [|done..]. by apply bm_inv_flushed.
Qed.

Lemma flush_session_ok s pg p n :
  bm_inv None s pg -> idle s -> pg !! p = Some n ->
  wp (with_page page_serialize page_load page_byte_size sizeof_meta file_prefix buffer_size p
       (flush_page page_serialize file_prefix p))
    (fun _ s' => bm_inv None s' pg /\ idle s' /\ bm_next s' = bm_next s) s.
Proof.
  intros Hi Hidle Hn. eapply wp_mono.
  - eapply (with_page_ok _ _ _ _ _ (fun _ pg' => pg' = pg)); [done..|].
    intros s1 m Hi1 Hid1 Hm Hp Hpin. eapply wp_mono; [by eapply flush_page_ok|]. cbv beta.
    intros _ s2 (Hi2 & Hn2 & Hm2). exists pg. eexists. rewrite Hm2, lookup_insert_eq.
    split_and!; [done|done| |done|done|done].
    intros q mq Hq. rewrite Hm2, lookup_insert_ne by done. by apply Hid1.
  - cbv beta. intros r s' (pg' & ? & ? & ? & ->). by split_and!.
Qed.

Lemma create_page_ok s pg n :
  bm_inv None s pg -> idle s -> bm_next s < INVALID_PAGE_NO ->
  wp (create_page page_serialize page_load page_byte_size sizeof_meta file_prefix buffer_size n)
    (fun p s' => p = bm_next s /\ bm_inv None s' (<[p := n]> pg) /\ idle s' /\
      bm_next s' = bm_next s + 1) s.
Proof.
  intros Hi Hidle Hlt. set (p := bm_next s). pose proof (bi_next _ _ _ Hi) as Hnx.
  assert (pg !! p = None) as Hp by (apply eq_None_not_Some; intros ?%(bi_dom _ _ _ Hi); lia).
  assert (u32 (p + 1) = p + 1) as Hw by (apply wrap_small; rewrite INVALID_PAGE_NO_val in *; unfold in_range; lia).
  unfold create_page. apply wp_bind. unfold new_page. apply wp_bind, wp_get. fold p.
  apply wp_bind, wp_modify. rewrite Hw. apply wp_bind.
  assert (bm_inv None (set_next (p + 1) s) pg) as Hi0.
  { destruct Hi. split; cbn -[INVALID_PAGE_NO]; try done; [lia|].
    intros q Hq. apply bi_dom0 in Hq. lia. }
  eapply wp_mono; [apply check_evict_ok; [done|by intros q m Hq _; eapply Hidle]|].
  cbv beta. intros _ s1 (Hi1 & Hn1 & Hsub & _). cbn in Hn1, Hsub.
  assert (bm_metas s1 !! p = None) as Hm1.
  { apply eq_None_not_Some. intros [m Hm]. destruct (bi_meta _ _ _ Hi1 p m Hm) as [? _]. congruence. }
  assert (1 <= p < bm_next s1) as Hr1 by lia.
  pose proof (bm_inv_load s1 pg p n true Hi1 Hm1 Hr1 ltac:(done)) as Hload. cbv zeta in Hload.
  apply wp_bind, wp_modify, wp_bind. unfold put_meta. apply wp_modify, wp_bind.
  unfold get_page_internal. destruct (Z.eqb_spec p INVALID_PAGE_NO); [lia|].
  apply wp_bind, wp_get. cbn [bm_metas set_metas set_loaded]. rewrite lookup_insert_eq. apply wp_bind.
  eapply wp_mono; [eapply (pin_page_ok (Some p)); [exact Hload|apply lookup_insert_eq|by right]|].
  cbv beta. intros _ s2 (Hi2 & Hn2 & Hm2). apply wp_ret, wp_ret, wp_bind.
  eapply wp_mono; [eapply unpin_page_ok; [exact Hi2|rewrite Hm2; apply lookup_insert_eq|done]|].
  cbv beta. intros _ s3 (Hi3 & Hn3 & Hm3). apply wp_ret. split_and!; [done|done| |].
  - intros q m. rewrite Hm3, Hm2. cbn. rewrite !insert_insert_eq.
    destruct (decide (q = p)) as [->|Hq]; [rewrite lookup_insert_eq; by intros [= <-]|].
    rewrite lookup_insert_ne by done. intros Hm. eapply Hidle. by eapply lookup_weaken.
  - rewrite Hn3, Hn2. cbn. done.
Qed.

(** *** Clearing and flushing the whole cache *)

Lemma bm_inv_unlist_filter s pg p :
  bm_inv None s pg -> bm_inv (Some p) (set_evict (shard_of p)
    (filter (fun q => q <> p) (evict_list (shard_of p) s)) s) pg.
Proof.
  intros Hi. apply bm_inv_unlist; [done|apply NoDup_filter, (bi_nodup _ _ _ Hi)|].
  intros q. by rewrite list_elem_of_filter.
Qed.

Lemma clear_pages_ok pages s pg :
  bm_inv None s pg -> NoDup pages.*1 -> (forall p m, (p, m) ∈ pages -> bm_metas s !! p = Some m) ->
  wp (clear_pages page_serialize sizeof_meta file_prefix pages) (fun _ s' =>
    bm_inv None s' pg /\ bm_next s' = bm_next s /\ bm_metas s' ⊆ bm_metas s /\
    forall p m, (p, m) ∈ pages -> mt_pin m = 0 -> bm_metas s' !! p = None) s.
Proof.
  revert s. induction pages as [|[p m] pages IH]; intros s Hi Hnd Hin.
  { apply wp_ret. split_and!; try done. by intros p m ?%elem_of_nil. }
  cbn in Hnd. apply NoDup_cons in Hnd as [Hp Hnd]. cbn [clear_pages]. apply wp_bind.
  pose proof (Hin p m ltac:(left)) as Hm. destruct (Z.eqb_spec (mt_pin m) 0) as [Hz|Hz].
  - apply wp_bind, wp_modify.
    eapply wp_mono; [eapply unload_page_ok; [by apply bm_inv_unlist_filter|done|done]|].
    cbv beta. intros _ s1 (Hi1 & Hm1 & _ & Hn1). cbn in Hm1, Hn1.
    eapply wp_mono; [apply IH; [done..|]|].
    + intros q m' Hq. rewrite Hm1, lookup_delete_ne; [apply Hin; by right|].
      intros ->. apply Hp. apply list_elem_of_fmap. by exists (q, m').
    + cbv beta. intros _ s2 (Hi2 & Hn2 & Hsub & Hnone). rewrite Hm1 in Hsub. split_and!; [done|congruence| |].
      * etrans; [done|apply delete_subseteq].
      * intros q m' [[= -> ->]|Hq]%elem_of_cons ?; [|by eapply Hnone].
        apply eq_None_not_Some. intros [m2 Hq]. eapply lookup_weaken in Hq; [|done].
        by rewrite lookup_delete_eq in Hq.
  - apply wp_ret. eapply wp_mono; [apply IH; [done..|]|].
    + intros q m' Hq. apply Hin. by right.
    + cbv beta. intros _ s2 (Hi2 & Hn2 & Hsub & Hnone). split_and!; try done.
      intros q m' [[= -> ->]|Hq]%elem_of_cons ?; [done|by eapply Hnone].
Qed.

Lemma clear_cache_ok s pg :
  bm_inv None s pg ->
  wp (clear_cache page_serialize sizeof_meta file_prefix) (fun _ s' => bm_inv None s' pg /\
    bm_next s' = bm_next s /\ bm_metas s' ⊆ bm_metas s /\
    forall p m, bm_metas s' !! p = Some m -> mt_pin m <> 0) s.
Proof.
  intros Hi. apply wp_bind, wp_get. eapply wp_mono; [apply clear_pages_ok; [done|apply NoDup_fst_map_to_list|]|].
  - by intros p m ?%elem_of_map_to_list.
  - cbv beta. intros _ s1 (? & ? & Hsub & Hnone). split_and!; try done. intros p m Hm Hz.
    erewrite Hnone in Hm; [done| |done]. apply elem_of_map_to_list. by eapply lookup_weaken.
Qed.

Definition undirty m : meta N := mkMeta (mt_page m) false (mt_size m) (mt_pin m).

Lemma flush_pages_ok pages s pg :
  bm_inv None s pg -> (forall p, p ∈ pages -> is_Some (bm_metas s !! p)) ->
  wp (flush_pages page_serialize file_prefix pages) (fun _ s' =>
    bm_inv None s' pg /\ bm_next s' = bm_next s /\
    forall p, bm_metas s' !! p =
      (if decide (p ∈ pages) then undirty <$> bm_metas s !! p else bm_metas s !! p)) s.
Proof.
  revert s. induction pages as [|p pages IH]; intros s Hi Hin.
  { apply wp_ret. split_and!; [done..|]. intros p. by rewrite decide_False by apply not_elem_of_nil. }
  cbn [flush_pages]. destruct (Hin p ltac:(left)) as [m Hm].
  apply wp_bind. eapply wp_mono; [by eapply flush_page_ok|]. cbv beta.
  intros _ s1 (Hi1 & Hn1 & Hm1). eapply wp_mono; [apply IH; [done|]|].
  - intros q Hq. rewrite Hm1. destruct (decide (q = p)) as [->|]; [by rewrite lookup_insert_eq|].
    rewrite lookup_insert_ne by done. apply Hin. by right.
  - cbv beta. intros _ s2 (Hi2 & Hn2 & Hm2). split_and!; [done|congruence|]. intros q.
    rewrite Hm2, Hm1. destruct (decide (q = p)) as [->|Hq].
    + rewrite lookup_insert_eq, Hm, (decide_True (P := p ∈ p :: pages)) by left. by case_decide.
    + rewrite lookup_insert_ne by done. rewrite (decide_ext (q ∈ p :: pages) (q ∈ pages)); [done|].
      rewrite elem_of_cons. naive_solver.
Qed.

Lemma flush_all_pages_ok s pg :
  bm_inv None s pg ->
  wp (flush_all_pages page_serialize file_prefix) (fun _ s' => bm_inv None s' pg /\
    bm_next s' = bm_next s /\ bm_metas s' = undirty <$> bm_metas s) s.
Proof.
  intros Hi. apply wp_bind, wp_get. eapply wp_mono; [apply flush_pages_ok; [done|]|].
  - intros p ([q m] & -> & Hm%elem_of_map_to_list)%list_elem_of_fmap. by eexists.
  - cbv beta. intros _ s1 (? & ? & Hm). split_and!; [done..|]. apply map_eq. intros p.
    rewrite Hm, lookup_fmap. case_decide as Hp; [done|].
    destruct (bm_metas s !! p) as [m|] eqn:E; [|done]. destruct Hp. apply list_elem_of_fmap.
    exists (p, m). split; [done|]. by apply elem_of_map_to_list.
Qed.

(** *** The store the manager implements *)

(** Page [p], wherever it is kept *)
Definition page_content s (p : Z) : option N :=
  match bm_metas s !! p with
  | Some m => Some (mt_page m)
  | None => page_load <$> io_get (bm_io s) (fname p)
  end.

(** The pages that were created *)
Definition bm_pages s : gmap Z N :=
  omap (page_content s) (set_to_map (fun p => (p, p)) (list_to_set (seqZ 1 (bm_next s - 1)) : gset Z)).

(** Between two operations: no handle is held, every created page is known *)
Definition bm_quiet s pg : Prop :=
  bm_inv None s pg /\ idle s /\ forall p, 1 <= p < bm_next s -> is_Some (pg !! p).

Lemma bm_pages_eq s pg : bm_quiet s pg -> bm_pages s = pg.
Proof.
  intros (Hi & _ & Hfull). apply map_eq. intros p. unfold bm_pages. rewrite lookup_omap.
  destruct (set_to_map _ _ !! p) as [q|] eqn:E; cbn.
  - apply lookup_set_to_map in E as (q' & Hq & [= <- <-]); [|done].
    apply elem_of_list_to_set, elem_of_seqZ in Hq. destruct (Hfull q') as [n Hn]; [lia|].
    unfold page_content. destruct (bm_metas s !! q') as [m|] eqn:Hm.
    + destruct (bi_meta _ _ _ Hi _ _ Hm) as [? _]. congruence.
    + rewrite (bi_disk _ _ _ Hi _ _ Hm Hn). cbn. by rewrite page_load_serialize.
  - symmetry. apply eq_None_not_Some. intros Hp%(bi_dom _ _ _ Hi).
    apply eq_None_not_Some in E. apply E. exists p. apply lookup_set_to_map; [done|].
    exists p. split; [|done]. apply elem_of_list_to_set, elem_of_seqZ. lia.
Qed.

Abbreviation bread := (read_page page_serialize page_load page_byte_size sizeof_meta file_prefix buffer_size).
Abbreviation bwrite := (write_page page_serialize page_load page_byte_size sizeof_meta file_prefix buffer_size).
Abbreviation bcreate := (create_page page_serialize page_load page_byte_size sizeof_meta file_prefix buffer_size).
Abbreviation bwith := (with_page page_serialize page_load page_byte_size sizeof_meta file_prefix buffer_size).

Definition bufmgr_store : PageStore (bufmgr N IO) N := {|
  ps_pages := bm_pages;
  ps_avail s := INVALID_PAGE_NO - bm_next s;
  ps_wf s := exists pg, bm_quiet s pg;
  ps_new := bcreate;
  ps_get := bread;
  ps_put := bwrite;
  ps_flush p := bwith p (flush_page page_serialize file_prefix p);
|}.

Lemma create_page_quiet s pg n :
  bm_quiet s pg -> bm_next s < INVALID_PAGE_NO ->
  wp (bcreate n) (fun p s' => p = bm_next s /\ bm_quiet s' (<[p := n]> pg) /\ bm_next s' = bm_next s + 1) s.
Proof.
  intros (Hi & Hidle & Hfull) Hlt. eapply wp_mono; [by apply create_page_ok|]. cbv beta.
  intros p s' (-> & Hi' & Hid' & Hn'). split_and!; [done| |done]. split_and!; [done..|].
  intros q Hq. destruct (decide (q = bm_next s)) as [->|Hne]; [by rewrite lookup_insert_eq|].
  rewrite lookup_insert_ne by done. apply Hfull. lia.
Qed.

Lemma read_page_quiet s pg p n :
  bm_quiet s pg -> pg !! p = Some n ->
  wp (bread p) (fun n' s' => n' = n /\ bm_quiet s' pg /\ bm_next s' = bm_next s) s.
Proof.
  intros (Hi & Hidle & Hfull) Hn. eapply wp_mono; [by eapply read_page_ok|]. cbv beta.
  intros n' s' (-> & ? & ? & Hn'). split_and!; [done| |done]. split_and!; [done..|]. by rewrite Hn'.
Qed.

Lemma write_page_quiet s pg p n0 n :
  bm_quiet s pg -> pg !! p = Some n0 ->
  wp (bwrite p n) (fun _ s' => bm_quiet s' (<[p := n]> pg) /\ bm_next s' = bm_next s) s.
Proof.
  intros (Hi & Hidle & Hfull) Hn. eapply wp_mono; [by eapply write_page_ok|]. cbv beta.
  intros _ s' (? & ? & Hn'). split; [|done]. split_and!; [done..|]. rewrite Hn'. intros q Hq.
  destruct (decide (q = p)) as [->|Hne]; [by rewrite lookup_insert_eq|].
  rewrite lookup_insert_ne by done. by apply Hfull.
Qed.

Lemma flush_session_quiet s pg p n :
  bm_quiet s pg -> pg !! p = Some n ->
  wp (bwith p (flush_page page_serialize file_prefix p)) (fun _ s' =>
    bm_quiet s' pg /\ bm_next s' = bm_next s) s.
Proof.
  intros (Hi & Hidle & Hfull) Hn. eapply wp_mono; [by eapply flush_session_ok|]. cbv beta.
  intros _ s' (? & ? & Hn'). split; [|done]. split_and!; [done..|]. by rewrite Hn'.
Qed.

Lemma bufmgr_store_laws : @PageStoreLaws _ _ bufmgr_store.
Proof.
  split; cbn -[INVALID_PAGE_NO].
  - intros n s [pg Hq] Hav. rewrite (bm_pages_eq _ _ Hq). pose proof (bi_dom _ _ _ (proj1 Hq)) as Hdom.
    eapply wp_mono; [apply create_page_quiet; [done|lia]|]. cbv beta. intros p s' (-> & Hq' & Hn').
    split_and!; [eauto| |lia|by rewrite (bm_pages_eq _ _ Hq')|lia].
    apply eq_None_not_Some. intros ?%Hdom. lia.
  - intros n s [pg Hq] Hav. rewrite (bm_pages_eq _ _ Hq). pose proof (bi_dom _ _ _ (proj1 Hq)) as Hdom.
    pose proof (bi_next _ _ _ (proj1 Hq)). eapply wp_mono; [apply create_page_quiet; [done|lia]|].
    cbv beta. intros p s' (-> & _). split; [lia|]. intros q ?%Hdom. lia.
  - intros p n s [pg Hq]. rewrite (bm_pages_eq _ _ Hq). intros Hn.
    eapply wp_mono; [by apply read_page_quiet|]. cbv beta. intros n' s' (-> & Hq' & Hn').
    split_and!; [done|eauto|by rewrite (bm_pages_eq _ _ Hq')|lia].
  - intros p n s [pg Hq]. rewrite (bm_pages_eq _ _ Hq). intros [n0 Hn].
    eapply wp_mono; [by eapply write_page_quiet|]. cbv beta. intros _ s' (Hq' & Hn').
    split_and!; [eauto|by rewrite (bm_pages_eq _ _ Hq')|lia].
  - intros p s [pg Hq]. rewrite (bm_pages_eq _ _ Hq). intros [n0 Hn].
    eapply wp_mono; [by eapply flush_session_quiet|]. cbv beta. intros _ s' (Hq' & Hn').
    split_and!; [eauto|by rewrite (bm_pages_eq _ _ Hq')|lia].
Qed.

Abbreviation bflush_all := (flush_all_pages page_serialize file_prefix).
Abbreviation bclear := (clear_cache page_serialize sizeof_meta file_prefix).
Abbreviation run_cached := (@run_ops _ _ bufmgr_store bflush_all bclear).
Abbreviation run_plain := (run_ops (S := page_map N) (mret tt) (mret tt)).

(** The manager stands for the plain map of pages. *)
Definition bm_refines s (a : page_map N) : Prop := bm_quiet s (pm_pages a) /\ bm_next s = pm_next a.

Lemma flush_all_quiet s pg :
  bm_quiet s pg -> wp bflush_all (fun _ s' => bm_quiet s' pg /\ bm_next s' = bm_next s) s.
Proof.
  intros (Hi & Hidle & Hfull). eapply wp_mono; [by apply flush_all_pages_ok|]. cbv beta.
  intros _ s' (? & Hn & Hm). split; [|done]. split_and!; [done| |by rewrite Hn].
  intros q m. rewrite Hm, lookup_fmap, fmap_Some. intros (m0 & Hm0 & ->). exact (Hidle q m0 Hm0).
Qed.

Lemma clear_cache_quiet s pg :
  bm_quiet s pg -> wp bclear (fun _ s' => bm_quiet s' pg /\ bm_next s' = bm_next s) s.
Proof.
  intros (Hi & Hidle & Hfull). eapply wp_mono; [by apply clear_cache_ok|]. cbv beta.
  intros _ s' (? & Hn & Hsub & _). split; [|done]. split_and!; [done| |by rewrite Hn].
  intros q m Hq. eapply Hidle. by eapply lookup_weaken.
Qed.

Lemma run_op_sim o s a r a' :
  bm_refines s a -> pm_next a < INVALID_PAGE_NO ->
  run_op (S := page_map N) (mret tt) (mret tt) o a = (Ok r, a') ->
  pm_next a' <= pm_next a + 1 /\
  wp (@run_op _ _ bufmgr_store bflush_all bclear o) (fun r' s' => r' = r /\ bm_refines s' a') s.
Proof.
  intros [Hq Hn] Hlt. unfold bm_refines.
  destruct o as [n|p|p n|p| |]; cbn [run_op]; intros (x & a1 & E1 & [= <- <-])%ST_bind_ok; revert E1; cbn;
    try destruct (pm_pages a !! p) as [n0|] eqn:Hp; intros [= <- <-]; cbn [pm_next pm_pages];
    (split; [lia|]); apply wp_bind.
  - eapply wp_mono; [apply create_page_quiet; [done|lia]|]. cbv beta. intros p s' (-> & ? & ?).
    apply wp_ret. rewrite Hn in *. by split_and!.
  - eapply wp_mono; [by apply read_page_quiet|]. cbv beta. intros n' s' (-> & ? & ?).
    apply wp_ret. rewrite Hn in *. by split_and!.
  - eapply wp_mono; [by eapply write_page_quiet|]. cbv beta. intros _ s' (? & ?).
    apply wp_ret. rewrite Hn in *. by split_and!.
  - eapply wp_mono; [by eapply flush_session_quiet|]. cbv beta. intros _ s' (? & ?).
    apply wp_ret. rewrite Hn in *. by split_and!.
  - eapply wp_mono; [by apply flush_all_quiet|]. cbv beta. intros _ s' (? & ?).
    apply wp_ret. rewrite Hn in *. by split_and!.
  - eapply wp_mono; [by apply clear_cache_quiet|]. cbv beta. intros _ s' (? & ?).
    apply wp_ret. rewrite Hn in *. by split_and!.
Qed.

Lemma run_ops_sim os s a rs a' :
  bm_refines s a -> pm_next a + Z.of_nat (length os) <= INVALID_PAGE_NO ->
  run_plain os a = (Ok rs, a') -> wp (run_cached os) (fun rs' s' => rs' = rs /\ bm_refines s' a') s.
Proof.
  revert s a rs. induction os as [|o os IH]; intros s a rs Hr Hlen; cbn [run_ops].
  { intros [= <- <-]. by apply wp_ret. }
  cbn [length] in Hlen. intros (r & a1 & E1 & (rs1 & a2 & E2 & [= <- <-])%ST_bind_ok)%ST_bind_ok.
  destruct (run_op_sim o s a r a1 Hr) as [Hle Hop]; [lia|done|].
  apply wp_bind. eapply wp_mono; [exact Hop|]. cbv beta. intros r' s1 [-> Hr1].
  apply wp_bind. eapply wp_mono; [eapply IH; [done|lia|done]|]. cbv beta. intros rs' s2 [-> Hr2].
  by apply wp_ret.
Qed.

Lemma bm_refines_init (io : IO) : bm_refines (bufmgr_init io) page_map_empty.
Proof.
  split; [|done]. split_and!; [|by intros q m ?|cbn; intros; lia].
  split; cbn -[INVALID_PAGE_NO]; try done.
  - by intros p [? ?].
  - intros sid p. unfold evict_list. cbn. split; [by intros ?%elem_of_nil|naive_solver].
  - intros sid. unfold evict_list. cbn. apply NoDup_nil_2.
Qed.

(** C6.  The cache is transparent.  Whatever sequence of page creations, reads,
    writes, flushes and whole-cache flushes or evictions is run on a fresh
    buffer manager, whatever pages it evicts and reloads on the way through the
    encrypted files: it never waits, never fails, and returns what a plain map
    from page numbers to pages returns, and it ends up standing for the same
    pages.  The page numbers must not run out. *)
Theorem BufferManager_transparent (io : IO) (os : list (page_op N)) rs a' :
  1 + Z.of_nat (length os) <= INVALID_PAGE_NO -> run_plain os page_map_empty = (Ok rs, a') ->
  exists s', run_cached os (bufmgr_init io) = (Ok rs, s') /\ bm_pages s' = pm_pages a'.
Proof.
  intros Hlen Hrun. pose proof (run_ops_sim os _ _ _ _ (bm_refines_init io) Hlen Hrun) as Hw.
  apply wp_run in Hw as (rs' & s' & E & -> & Hq & _). exists s'. split; [done|].
  by apply bm_pages_eq.
Qed.

(** C32.  [check_evict] terminates within its fuel, loses no page, and leaves the
    shard within its share of the buffer, provided that no page of the shard is
    pinned (otherwise it waits for one to be unpinned). *)
Theorem check_evict_bounds s pg sid :
  bm_inv None s pg -> shard_idle sid s ->
  exists s', check_evict page_serialize sizeof_meta file_prefix buffer_size sid s = (Ok tt, s') /\
    bm_inv None s' pg /\ loaded_size sid s' <= buffer_size.
Proof.
  intros Hi Hidle. pose proof (check_evict_ok s pg sid Hi Hidle) as Hw.
  apply wp_run in Hw as ([] & s' & ? & ? & _ & _ & ?). eauto.
Qed.

End Invariant.

(** ** Instances on concrete data

    Pages are byte strings here, their size is at most 100 bytes, a shard may
    keep 50 bytes. *)

Definition demo_size (d : list Z) : Z := Z.min 100 (Z.of_nat (length d)).
Definition demo_io : local_io := mkLocalIO ∅ (replicate 16 7).

(** 33 pages, so that shard 1 has two, and it evicts *)
Definition demo_ops : list (page_op (list Z)) :=
  (op_new <$> ((fun i => replicate 60 (Z.of_nat i)) <$> seq 0 34)) ++
  [op_put 1 [1; 2; 3]; op_get 33; op_get 1; op_flush 2; op_clear_cache; op_get 2; op_flush_all; op_get 33].

Definition demo_outs : list (page_out (list Z)) :=
  (out_no <$> seqZ 1 34) ++ [out_unit; out_page (replicate 60 32); out_page [1; 2; 3]; out_unit;
    out_unit; out_page (replicate 60 1); out_unit; out_page (replicate 60 32)].

#[local] Existing Instance null_cipher.
#[local] Existing Instance null_cipher_laws.

Abbreviation demo_run := (@run_ops _ _ (bufmgr_store (N := list Z) (IO := local_io) id id demo_size 40 "f" 50)
  (flush_all_pages id "f") (clear_cache id 40 "f")).

Lemma demo_size_range d : 0 <= demo_size d /\ 40 + demo_size d < 2 ^ 31.
Proof. unfold demo_size. lia. Qed.

Lemma BufferManager_transparent_witness :
  exists s', demo_run demo_ops (bufmgr_init demo_io) = (Ok demo_outs, s').
Proof.
  destruct (BufferManager_transparent (N := list Z) id id demo_size 40 "f" 50
    (fun n => eq_refl) ltac:(lia) demo_size_range ltac:(lia) demo_io demo_ops demo_outs
    (run_ops (S := page_map (list Z)) (mret tt) (mret tt) demo_ops page_map_empty).2)
    as (s' & E & _); [vm_compute; congruence|vm_compute; reflexivity|].
  exists s'. exact E.
Defined.

Definition demo_one : bufmgr (list Z) local_io :=
  (demo_run [op_new (replicate 60 5)] (bufmgr_init demo_io)).2.

Lemma check_evict_bounds_witness :
  loaded_size 1 demo_one = 100 /\
  exists s', check_evict id 40 "f" 50 1 demo_one = (Ok tt, s') /\ loaded_size 1 s' <= 50.
Proof.
  split; [vm_compute; reflexivity|].
  pose proof (run_ops_sim (N := list Z) id id demo_size 40 "f" 50 (fun n => eq_refl) ltac:(lia)
    demo_size_range ltac:(lia) [op_new (replicate 60 5)] (bufmgr_init demo_io) page_map_empty
    [out_no 1] (mkPageMap {[1 := replicate 60 5]} 2)) as Hw.
  apply wp_run in Hw as (rs & s & E & _ & (Hi & Hidle & _) & _);
    [|apply bm_refines_init; apply demo_size_range|vm_compute; congruence|reflexivity].
  assert (s = demo_one) as -> by (unfold demo_one; by rewrite E).
  destruct (check_evict_bounds (N := list Z) id demo_size 40 "f" 50 demo_size_range ltac:(lia)
    demo_one _ 1 Hi) as (s' & Hc & _ & Hs); [by intros p m Hp _; eapply Hidle|].
  exists s'. by split.
Defined.
