(* ===== verification/RWLock.v ===== *)
(** * The readers-writer lock

    Models [src/common/util/RWLockable.h] and [RWLockable.inl]: a spin lock on
    one atomic counter, which is the number of readers, or -1 for a writer.
    Threads interleave at the granularity of the atomic accesses: a call loads
    the counter, decides on the value it loaded, and then tries to exchange it;
    [compare_exchange_weak] may also fail for no reason. *)

From S2P Require Import Prelude.

Inductive LockType : Type := LRead | LWrite.

#[global] Instance LockType_eq_dec : EqDecision LockType.
Proof. solve_decision. Defined.

(** ** The calls *)

Inductive rw_call : Type :=
  | c_read_lock
  | c_write_lock
  | c_read_to_write
  | c_write_to_read
  | c_try_read
  | c_try_write.

(** What a call does with the value it loaded *)
Inductive rw_action : Type :=
  | a_spin
  | a_return_false
  | a_throw
  | a_cas (desired : Z).

Definition try_read_lock (val : Z) : rw_action :=
  if val <? 0 then a_return_false else a_cas (s32 (val + 1)).

Definition read_to_write_lock (val : Z) : rw_action :=
  if val <? 0 then a_throw else if val >? 1 then a_spin else a_cas (-1).

Definition read_lock (val : Z) : rw_action :=
  if val <? 0 then a_spin else a_cas (s32 (val + 1)).

Definition write_to_read_lock (val : Z) : rw_action :=
  if negb (val =? -1) then a_throw else a_cas 1.

Definition try_write_lock (val : Z) : rw_action :=
  if (val <? 0) || (val >? 0) then a_return_false else a_cas (-1).

Definition write_lock (val : Z) : rw_action :=
  if (val <? 0) || (val >? 0) then a_spin else a_cas (-1).

Definition rw_decide (c : rw_call) : Z -> rw_action :=
  match c with
  | c_read_lock => read_lock
  | c_write_lock => write_lock
  | c_read_to_write => read_to_write_lock
  | c_write_to_read => write_to_read_lock
  | c_try_read => try_read_lock
  | c_try_write => try_write_lock
  end.

Definition read_unlock (count : Z) : Z := s32 (count - 1).
Definition write_unlock (count : Z) : Z := 0.

(** ** Threads *)

(** [t_call c None] is about to load the counter, [t_call c (Some val)] has
    loaded [val]. *)
Inductive rw_thread : Type :=
  | t_none
  | t_read
  | t_write
  | t_threw
  | t_call (c : rw_call) (loaded : option Z).

(** What the caller must hold, and what it holds after the exchange *)
Definition call_pre (c : rw_call) : rw_thread :=
  match c with
  | c_read_to_write => t_read
  | c_write_to_read => t_write
  | _ => t_none
  end.

Definition call_post (c : rw_call) : rw_thread :=
  match c with
  | c_read_lock | c_try_read | c_write_to_read => t_read
  | c_write_lock | c_try_write | c_read_to_write => t_write
  end.

(** What a thread does next; [ev_fail] is the exchange that fails for no reason.
    [try_read_to_write_lock] is [ev_unlock] followed by [c_try_write]. *)
Inductive rw_event : Type := ev_call (c : rw_call) | ev_go | ev_fail | ev_unlock.

Definition thread_step (e : rw_event) (count : Z) (t : rw_thread) : option (Z * rw_thread) :=
  match e, t with
  | ev_call c, (t_none | t_read | t_write) =>
      match call_pre c, t with
      | t_none, t_none | t_read, t_read | t_write, t_write => Some (count, t_call c None)
      | _, _ => None
      end
  | ev_go, t_call c None => Some (count, t_call c (Some count))
  | ev_go, t_call c (Some val) =>
      match rw_decide c val with
      | a_spin => Some (count, t_call c None)
      | a_return_false => Some (count, t_none)
      | a_throw => Some (count, t_threw)
      | a_cas desired => if count =? val then Some (desired, call_post c) else Some (count, t_call c None)
      end
  | ev_fail, t_call c (Some val) =>
      match rw_decide c val with
      | a_cas _ => Some (count, t_call c None)
      | _ => None
      end
  | ev_unlock, t_read => Some (read_unlock count, t_none)
  | ev_unlock, t_write => Some (write_unlock count, t_none)
  | _, _ => None
  end.

Record rw_state : Type := mkRw { rw_count : Z; rw_threads : list rw_thread; }.

Definition rw_init (n : nat) : rw_state := mkRw 0 (replicate n t_none).

Definition rw_exec (i : nat) (e : rw_event) (s : rw_state) : option rw_state :=
  t ← rw_threads s !! i;
  '((count, t') : Z * rw_thread) ← thread_step e (rw_count s) t;
  Some (mkRw count (<[i := t']> (rw_threads s))).

Inductive rw_step (s s' : rw_state) : Prop :=
  | rw_step_intro i e : rw_exec i e s = Some s' -> rw_step s s'.

Fixpoint rw_run (sched : list (nat * rw_event)) (s : rw_state) : option rw_state :=
  match sched with
  | [] => Some s
  | (i, e) :: sched => s1 ← rw_exec i e s; rw_run sched s1
  end.

(** ** Holders *)

(** A thread holds the lock for reading while it upgrades it, and for writing
    while it downgrades it. *)
Definition holds (k : LockType) (t : rw_thread) : bool :=
  match k, t with
  | LRead, (t_read | t_call c_read_to_write _) => true
  | LWrite, (t_write | t_call c_write_to_read _) => true
  | _, _ => false
  end.

Definition holders (k : LockType) (ts : list rw_thread) : Z :=
  foldr (fun t n => Z.b2z (holds k t) + n) 0 ts.

Arguments holders : simpl never.

Lemma holders_cons k t ts : holders k (t :: ts) = Z.b2z (holds k t) + holders k ts.
Proof. done. Qed.

Lemma holders_insert k ts i t t' :
  ts !! i = Some t ->
  holders k (<[i := t']> ts) = holders k ts - Z.b2z (holds k t) + Z.b2z (holds k t').
Proof.
  revert i. induction ts as [|t0 ts IH]; intros [|i]; [done..| |].
  - intros [= ->]. cbn [insert list_insert]. rewrite !holders_cons. lia.
  - intros Hi. change (<[S i := t']> (t0 :: ts)) with (t0 :: <[i := t']> ts).
    rewrite !holders_cons, (IH i Hi). lia.
Qed.

Lemma holders_le k ts : 0 <= holders k ts <= Z.of_nat (length ts).
Proof. induction ts as [|t ts IH]; [done|]. rewrite holders_cons. cbn [length]. destruct (holds k t); cbn; lia. Qed.

Lemma holders_lookup k ts i t : ts !! i = Some t -> Z.b2z (holds k t) <= holders k ts.
Proof.
  intros Hi. pose proof (holders_insert k ts i t t_none Hi) as E.
  pose proof (holders_le k (<[i := t_none]> ts)). destruct k, (holds _ t); cbn in *; lia.
Qed.

Lemma holders_two k ts i j t u :
  i <> j -> ts !! i = Some t -> ts !! j = Some u -> holds k t = true -> holds k u = true ->
  2 <= holders k ts.
Proof.
  intros Hij Hi Hj Ht Hu. pose proof (holders_insert k ts i t t_none Hi) as E.
  pose proof (holders_lookup k (<[i := t_none]> ts) j u) as Hl.
  rewrite list_lookup_insert_ne in Hl by done. specialize (Hl Hj). rewrite Ht, Hu in *.
  destruct k; cbn in *; lia.
Qed.

(** ** Invariant *)

(** No thread has thrown; a value loaded while the lock is held is a value the
    counter can have then. *)
Definition thread_ok (t : rw_thread) : Prop :=
  match t with
  | t_threw => False
  | t_call c_read_to_write (Some val) => 1 <= val
  | t_call c_write_to_read (Some val) => val = -1
  | _ => True
  end.

Record rw_inv (s : rw_state) : Prop := {
  ri_len : Z.of_nat (length (rw_threads s)) < 2 ^ 31;
  ri_ok : Forall thread_ok (rw_threads s);
  ri_count :
    (holders LWrite (rw_threads s) = 0 /\ rw_count s = holders LRead (rw_threads s)) \/
    (holders LWrite (rw_threads s) = 1 /\ holders LRead (rw_threads s) = 0 /\ rw_count s = -1);
}.

Lemma rw_inv_init n : Z.of_nat n < 2 ^ 31 -> rw_inv (rw_init n).
Proof.
  intros Hn. assert (forall k, holders k (replicate n t_none) = 0) as Hh.
  { intros k. clear Hn. induction n as [|n IH]; [done|]. cbn [replicate]. rewrite holders_cons, IH. by destruct k. }
  split; cbn; [by rewrite length_replicate|by apply Forall_replicate|]. left. by rewrite !Hh.
Qed.

(** The counter after a step, in terms of the holders *)
Lemma thread_step_inv e count t count' t' r w :
  thread_step e count t = Some (count', t') -> thread_ok t ->
  Z.b2z (holds LRead t) <= r < 2 ^ 31 -> Z.b2z (holds LWrite t) <= w ->
  (w = 0 /\ count = r) \/ (w = 1 /\ r = 0 /\ count = -1) ->
  let r' := r - Z.b2z (holds LRead t) + Z.b2z (holds LRead t') in
  let w' := w - Z.b2z (holds LWrite t) + Z.b2z (holds LWrite t') in
  r' < 2 ^ 31 ->
  thread_ok t' /\ ((w' = 0 /\ count' = r') \/ (w' = 1 /\ r' = 0 /\ count' = -1)).
Proof.
  intros Hs Hok Hr Hw Hc r' w' Hr'. subst r' w'.
  destruct e as [c| | |], t as [| | | |c' [val|]]; cbn in Hs; try done.
  1-3: destruct c; cbn in Hs; simplify_eq; cbn in *; (split; [done|lia]).
  - destruct c'; cbn in Hs; unfold read_lock, write_lock, read_to_write_lock, write_to_read_lock,
      try_read_lock, try_write_lock in Hs; repeat case_match; simplify_eq; bool_hyps; cbn in *;
      rewrite ?s32_small by lia; (split; [done || lia|lia]).
  - destruct c'; simplify_eq; cbn in *; (split; [done || lia|lia]).
  - destruct c'; cbn in Hs; repeat case_match; simplify_eq; cbn in *; (split; [done|lia]).
  - simplify_eq. cbn in *. unfold read_unlock. rewrite s32_small by lia. split; [done|lia].
  - simplify_eq. cbn in *. unfold write_unlock. split; [done|lia].
Qed.

Lemma rw_exec_inv i e s s' : rw_exec i e s = Some s' -> rw_inv s -> rw_inv s'.
Proof.
  unfold rw_exec. intros Hs [Hlen Hok Hc].
  destruct (rw_threads s !! i) as [t|] eqn:Ht; [cbn in Hs|done].
  destruct (thread_step e (rw_count s) t) as [[c' t']|] eqn:Hst; cbn in Hs; [|done]. injection Hs as <-.
  pose proof (holders_insert LRead _ _ _ t' Ht) as Er. pose proof (holders_insert LWrite _ _ _ t' Ht) as Ew.
  pose proof (holders_lookup LRead _ _ _ Ht). pose proof (holders_lookup LWrite _ _ _ Ht).
  pose proof (holders_le LRead (rw_threads s)).
  pose proof (holders_le LRead (<[i := t']> (rw_threads s))) as Hle. rewrite length_insert in Hle.
  assert (thread_ok t) as Hokt by (by eapply Forall_lookup_1).
  destruct (thread_step_inv _ _ _ _ _ (holders LRead (rw_threads s)) (holders LWrite (rw_threads s)) Hst Hokt ltac:(lia) ltac:(done) Hc ltac:(lia)) as [Hok' Hc'].
  split; cbn; [by rewrite length_insert|by apply Forall_insert|]. by rewrite Er, Ew.
Qed.

Lemma rw_reach_inv s s' : rtc rw_step s s' -> rw_inv s -> rw_inv s'.
Proof. induction 1 as [|s s1 s' [i e Hst] _ IH]; [done|]. intros Hi. by eapply IH, rw_exec_inv. Qed.

Lemma rw_run_reach sched s s' : rw_run sched s = Some s' -> rtc rw_step s s'.
Proof.
  revert s. induction sched as [|[i e] sched IH]; intros s; cbn; [by intros [= ->]|].
  destruct (rw_exec i e s) as [s1|] eqn:E; cbn; [|done]. intros Hr.
  eapply rtc_l; [by econstructor|by apply IH].
Qed.

(** *** Upgrades *)

Definition upgrading (i : nat) (s : rw_state) : Prop :=
  exists val, rw_threads s !! i = Some (t_call c_read_to_write val).

(** With two holders, an exchange that expects one fails. *)
Lemma upgrading_step k e i j s s' :
  rw_inv s -> i <> j -> upgrading i s -> upgrading j s -> rw_exec k e s = Some s' -> upgrading i s'.
Proof.
  intros Hi Hij [vi Hvi] [vj Hvj] Hs.
  pose proof (holders_two LRead _ i j _ _ Hij Hvi Hvj eq_refl eq_refl) as H2.
  assert (2 <= rw_count s) as Hc by (destruct (ri_count _ Hi); lia).
  unfold rw_exec in Hs. destruct (rw_threads s !! k) as [t|] eqn:Ht; [cbn in Hs|done].
  destruct (thread_step e (rw_count s) t) as [[c' t']|] eqn:Hst; cbn in Hs; [|done]. injection Hs as <-.
  unfold upgrading. cbn [rw_threads]. destruct (decide (k = i)) as [->|Hki];
    [|rewrite list_lookup_insert_ne by done; eauto].
  rewrite list_lookup_insert_eq by (by eapply lookup_lt_Some).
  assert (t = t_call c_read_to_write vi) as -> by congruence.
  destruct e, vi as [v|]; cbn in Hst; unfold read_to_write_lock in Hst; repeat case_match;
    simplify_eq; bool_hyps; eauto; try lia.
  pose proof (Forall_lookup_1 _ _ _ _ (ri_ok _ Hi) Hvi) as Hv. cbn in Hv. lia.
Qed.

(** ** Theorems *)

(** C27.  The lock excludes: however the threads interleave, and however often
    the weak exchange fails, a thread that holds the lock for writing is the
    only one that holds it; the counter is exactly the number of readers, or -1
    for a writer; and no call on the lock throws. *)
Theorem RWLockable_mutual_exclusion n s :
  Z.of_nat n < 2 ^ 31 -> rtc rw_step (rw_init n) s ->
  (forall i j t u, i <> j -> rw_threads s !! i = Some t -> rw_threads s !! j = Some u ->
    holds LWrite t = true -> holds LRead u = false /\ holds LWrite u = false) /\
  rw_count s = (if holders LWrite (rw_threads s) =? 0 then holders LRead (rw_threads s) else -1) /\
  t_threw ∉ rw_threads s.
Proof.
  intros Hn Hr. pose proof (rw_reach_inv _ _ Hr (rw_inv_init n Hn)) as [Hlen Hok Hc]. split_and!.
  - intros i j t u Hij Hi Hj Ht. pose proof (holders_lookup LWrite _ _ _ Hi) as Hw. rewrite Ht in Hw.
    pose proof (holders_lookup LRead _ _ _ Hj) as Hr'. cbn in Hw. split; apply not_true_is_false; intros Hu.
    + rewrite Hu in Hr'. cbn in Hr'. lia.
    + pose proof (holders_two _ _ _ _ _ _ Hij Hi Hj Ht Hu). lia.
  - destruct (Z.eqb_spec (holders LWrite (rw_threads s)) 0); lia.
  - intros Hin. by apply (proj1 (Forall_forall _ _) Hok) in Hin.
Qed.

(** Two threads that upgrade the same lock wait for each other for ever:
    once both are inside [read_to_write_lock] no step of any thread lets either
    of them out.  [BufferManager::shard_t::get_page_internal] and
    [LockHandle::get_shard] upgrade in this way. *)
Theorem read_to_write_lock_deadlock n s s' i j :
  Z.of_nat n < 2 ^ 31 -> rtc rw_step (rw_init n) s -> i <> j -> upgrading i s -> upgrading j s ->
  rtc rw_step s s' -> upgrading i s' /\ upgrading j s'.
Proof.
  intros Hn Hr Hij Hui Huj Hr'. apply rw_reach_inv in Hr as Hi; [|by apply rw_inv_init].
  clear Hr. induction Hr' as [|s s1 s' [k e Hst] _ IH]; [done|].
  apply IH; [by eapply upgrading_step|by eapply (upgrading_step k e j i)|by eapply rw_exec_inv].
Qed.

(** ** Concrete runs *)

(** Thread 0 writes and downgrades, thread 1 then reads too. *)
Definition demo_sched : list (nat * rw_event) :=
  [(0%nat, ev_call c_write_lock); (1%nat, ev_call c_read_lock); (0%nat, ev_go); (1%nat, ev_go);
   (0%nat, ev_fail); (0%nat, ev_go); (0%nat, ev_go); (1%nat, ev_go); (1%nat, ev_go); (1%nat, ev_go)].

Lemma RWLockable_mutual_exclusion_witness :
  exists s, rtc rw_step (rw_init 2) s /\ rw_threads s = [t_write; t_call c_read_lock None] /\
    rw_count s = -1 /\ t_threw ∉ rw_threads s.
Proof.
  exists (mkRw (-1) [t_write; t_call c_read_lock None]).
  assert (rtc rw_step (rw_init 2) (mkRw (-1) [t_write; t_call c_read_lock None])) as Hr
    by (apply (rw_run_reach demo_sched); reflexivity).
  destruct (RWLockable_mutual_exclusion 2 _ ltac:(lia) Hr) as (_ & Hc & Ht).
  split_and!; [exact Hr|reflexivity|exact Hc|exact Ht].
Defined.

Definition upgrade_sched : list (nat * rw_event) :=
  [(0%nat, ev_call c_read_lock); (0%nat, ev_go); (0%nat, ev_go);
   (1%nat, ev_call c_read_lock); (1%nat, ev_go); (1%nat, ev_go);
   (0%nat, ev_call c_read_to_write); (1%nat, ev_call c_read_to_write)].

Lemma read_to_write_lock_deadlock_witness :
  exists s, rtc rw_step (rw_init 2) s /\ forall s', rtc rw_step s s' -> upgrading 0 s' /\ upgrading 1 s'.
Proof.
  exists (mkRw 2 [t_call c_read_to_write None; t_call c_read_to_write None]).
  assert (rtc rw_step (rw_init 2) (mkRw 2 [t_call c_read_to_write None; t_call c_read_to_write None])) as Hr
    by (apply (rw_run_reach upgrade_sched); reflexivity).
  split; [exact Hr|]. intros s'.
  apply (read_to_write_lock_deadlock 2 _ s' 0 1 ltac:(lia) Hr ltac:(lia)); eexists; reflexivity.
Defined.
