(* ===== verification/LockHandle.v ===== *)
(** * Lock handles

    Models [src/enclave/LockHandle.h] and [LockHandle.cpp]: the book-keeping of
    the shard locks an operation holds.  A handle may have a parent through
    which it acquires its locks; a state is therefore a chain of handles, the
    innermost first and the one without a parent last, with the lock counter of
    every shard ([RWLock.v]).  Other threads' holds are in the counters; a lock
    call that would spin throws [Must_wait]. *)

From S2P Require Import Prelude RWLock.

Record lock_info : Type := mkInfo { li_read : Z; li_write : Z; }.

Record handle : Type := mkHandle { h_locks : gmap Z lock_info; h_nonblocking : bool; }.

Abbreviation counts := (gmap Z Z).
Abbreviation lh_state := (list handle * counts)%type.

Definition count_of (cs : counts) (shard_no : Z) : Z := default 0 (cs !! shard_no).

Definition info_new (t : LockType) : lock_info :=
  match t with LRead => mkInfo 1 0 | LWrite => mkInfo 0 1 end.

Definition info_incr (t : LockType) (i : lock_info) : lock_info :=
  match t with
  | LRead => mkInfo (u16 (li_read i + 1)) (li_write i)
  | LWrite => mkInfo (li_read i) (u16 (li_write i + 1))
  end.

Definition info_decr (t : LockType) (i : lock_info) : lock_info :=
  match t with
  | LRead => mkInfo (u16 (li_read i - 1)) (li_write i)
  | LWrite => mkInfo (li_read i) (u16 (li_write i - 1))
  end.

Definition lock_type (i : lock_info) : LockType := if li_write i >? 0 then LWrite else LRead.

Definition put_lock (shard_no : Z) (i : lock_info) (h : handle) : handle :=
  mkHandle (<[shard_no := i]> (h_locks h)) (h_nonblocking h).
Definition erase_lock (shard_no : Z) (h : handle) : handle :=
  mkHandle (delete shard_no (h_locks h)) (h_nonblocking h).

Definition LockHandle_new (nonblocking : bool) : handle := mkHandle ∅ nonblocking.

(** A call on a shard's lock that no other thread interferes with: whether it
    was successful, and the counter after it *)
Definition rw_once (c : rw_call) (count : Z) : result (bool * Z) :=
  match rw_decide c count with
  | a_spin => Throw Must_wait
  | a_return_false => Ok (false, count)
  | a_throw => Throw (Runtime_error "invalid state")
  | a_cas desired => Ok (true, desired)
  end.

Definition try_read_to_write_lock (count : Z) : result (bool * Z) :=
  rw_once c_try_write (read_unlock count).

(** [get_shard] of a handle without a parent *)
Definition root_get_shard (shard_no : Z) (t : LockType) (nonblocking : bool) (h : handle) (cs : counts) :
    result unit * lh_state :=
  let nonblocking := nonblocking || h_nonblocking h in
  match h_locks h !! shard_no with
  | None =>
      let call := match t, nonblocking with
                  | LWrite, true => c_try_write
                  | LWrite, false => c_write_lock
                  | LRead, true => c_try_read
                  | LRead, false => c_read_lock
                  end in
      match rw_once call (count_of cs shard_no) with
      | Throw e => (Throw e, ([h], cs))
      | Ok (false, c) => (Throw Would_block, ([h], <[shard_no := c]> cs))
      | Ok (true, c) => (Ok tt, ([put_lock shard_no (info_new t) h], <[shard_no := c]> cs))
      end
  | Some info =>
      if decide (t = LWrite /\ li_write info = 0) then
        if li_read info =? 0 then (Throw (Fatal "Invalid state: read count is 0"), ([h], cs))
        else
          match (if nonblocking then try_read_to_write_lock (count_of cs shard_no)
                 else rw_once c_read_to_write (count_of cs shard_no)) with
          | Throw e => (Throw e, ([h], cs))
          | Ok (false, c) => (Throw Would_block, ([erase_lock shard_no h], <[shard_no := c]> cs))
          | Ok (true, c) => (Ok tt, ([put_lock shard_no (info_incr t info) h], <[shard_no := c]> cs))
          end
      else (Ok tt, ([put_lock shard_no (info_incr t info) h], cs))
  end.

Fixpoint get_shard (shard_no : Z) (t : LockType) (nonblocking : bool) (chain : list handle) (cs : counts) :
    result unit * lh_state :=
  match chain with
  | [] => (Throw (Undefined "no handle"), ([], cs))
  | h :: parents =>
      match parents with
      | [] => root_get_shard shard_no t nonblocking h cs
      | _ =>
          let '(r, (parents', cs')) := get_shard shard_no t (nonblocking || h_nonblocking h) parents cs in
          match h_locks h !! shard_no, r with
          | None, Ok _ => (Ok tt, (put_lock shard_no (info_new t) h :: parents', cs'))
          | None, Throw e => (Throw e, (h :: parents', cs'))
          | Some info, Ok _ => (Ok tt, (put_lock shard_no (info_incr t info) h :: parents', cs'))
          | Some info, Throw Would_block => (Throw Would_block, (erase_lock shard_no h :: parents', cs'))
          | Some info, Throw e => (Throw e, (h :: parents', cs'))
          end
      end
  end.

(** [release_shard] of a handle without a parent *)
Definition root_release_shard (shard_no : Z) (t : LockType) (info : lock_info) (h : handle) (cs : counts) :
    result unit * lh_state :=
  let info := info_decr t info in
  if (li_read info =? 0) && (li_write info =? 0) then
    let c := match t with
             | LRead => read_unlock (count_of cs shard_no)
             | LWrite => write_unlock (count_of cs shard_no)
             end in
    (Ok tt, ([erase_lock shard_no h], <[shard_no := c]> cs))
  else if decide (t = LWrite /\ li_write info = 0) then
    match rw_once c_write_to_read (count_of cs shard_no) with
    | Throw e => (Throw e, ([put_lock shard_no info h], cs))
    | Ok (_, c) => (Ok tt, ([put_lock shard_no info h], <[shard_no := c]> cs))
    end
  else (Ok tt, ([put_lock shard_no info h], cs)).

Fixpoint release_shard (shard_no : Z) (t : LockType) (chain : list handle) (cs : counts) :
    result unit * lh_state :=
  match chain with
  | [] => (Throw (Undefined "no handle"), ([], cs))
  | h :: parents =>
      match h_locks h !! shard_no with
      | None => (Throw (Runtime_error "No such lock!"), (chain, cs))
      | Some info =>
          match parents with
          | [] => root_release_shard shard_no t info h cs
          | _ =>
              let info := info_decr t info in
              let '(r, (parents', cs')) := release_shard shard_no t parents cs in
              let h' := if (li_write info =? 0) && (li_read info =? 0) then erase_lock shard_no h
                        else put_lock shard_no info h in
              match r with
              | Ok _ => (Ok tt, (h' :: parents', cs'))
              | Throw e => (Throw e, (put_lock shard_no info h :: parents', cs'))
              end
          end
      end
  end.

Fixpoint release_n (n : nat) (shard_no : Z) (t : LockType) (chain : list handle) (cs : counts) :
    result unit * lh_state :=
  match n with
  | O => (Ok tt, (chain, cs))
  | S n =>
      match release_shard shard_no t chain cs with
      | (Ok _, (chain, cs)) => release_n n shard_no t chain cs
      | (Throw e, st) => (Throw e, st)
      end
  end.

(** [clear] of a handle with a parent: its locks are released in the parent *)
Fixpoint clear_into (locks : list (Z * lock_info)) (parents : list handle) (cs : counts) :
    result unit * lh_state :=
  match locks with
  | [] => (Ok tt, (parents, cs))
  | (shard_no, info) :: locks =>
      match release_n (Z.to_nat (li_read info)) shard_no LRead parents cs with
      | (Ok _, (parents, cs)) =>
          match release_n (Z.to_nat (li_write info)) shard_no LWrite parents cs with
          | (Ok _, (parents, cs)) => clear_into locks parents cs
          | (Throw e, st) => (Throw e, st)
          end
      | (Throw e, st) => (Throw e, st)
      end
  end.

(** [clear] of a handle without a parent: the shards are unlocked *)
Fixpoint unlock_all (locks : list (Z * lock_info)) (cs : counts) : counts :=
  match locks with
  | [] => cs
  | (shard_no, info) :: locks =>
      let c := match lock_type info with
               | LWrite => write_unlock (count_of cs shard_no)
               | LRead => read_unlock (count_of cs shard_no)
               end in
      unlock_all locks (<[shard_no := c]> cs)
  end.

Definition LockHandle_clear (chain : list handle) (cs : counts) : result unit * lh_state :=
  match chain with
  | [] => (Throw (Undefined "no handle"), ([], cs))
  | [h] => (Ok tt, ([mkHandle ∅ (h_nonblocking h)], unlock_all (map_to_list (h_locks h)) cs))
  | h :: parents =>
      let '(r, (parents', cs')) := clear_into (map_to_list (h_locks h)) parents cs in
      (r, (mkHandle ∅ (h_nonblocking h) :: parents', cs'))
  end.

(** ** How operations use handles *)

(** A shard is locked or released through the innermost handle, a handle is
    created inside it, or it is destroyed. *)
Inductive lh_use : Type :=
  | use_get (shard_no : Z) (t : LockType) (nonblocking : bool)
  | use_release (shard_no : Z) (t : LockType)
  | use_push (nonblocking : bool)
  | use_pop.

Definition li_get (t : LockType) (i : lock_info) : Z :=
  match t with LRead => li_read i | LWrite => li_write i end.

Definition cnt (t : LockType) (h : handle) (sid : Z) : Z :=
  match h_locks h !! sid with Some i => li_get t i | None => 0 end.

(** [None] where the thread waits, where a lock is released that the handle does
    not have, and where the outermost handle would be destroyed.  An operation
    goes on after [would_block_exception]. *)
Definition lh_exec (u : lh_use) (st : lh_state) : option lh_state :=
  match u with
  | use_get shard_no t nonblocking =>
      match get_shard shard_no t nonblocking st.1 st.2 with
      | (Ok _, st') | (Throw Would_block, st') => Some st'
      | _ => None
      end
  | use_release shard_no t =>
      match head st.1 with
      | Some h =>
          if 0 <? cnt t h shard_no then
            match release_shard shard_no t st.1 st.2 with (Ok _, st') => Some st' | _ => None end
          else None
      | None => None
      end
  | use_push nonblocking => Some (LockHandle_new nonblocking :: st.1, st.2)
  | use_pop =>
      match st.1 with
      | _ :: _ :: _ =>
          match LockHandle_clear st.1 st.2 with
          | (Ok _, (_ :: parents, cs)) => Some (parents, cs)
          | _ => None
          end
      | _ => None
      end
  end.

Fixpoint lh_run (us : list lh_use) (st : lh_state) : option lh_state :=
  match us with
  | [] => Some st
  | u :: us => st1 ← lh_exec u st; lh_run us st1
  end.

(** Destroys the handles, the innermost first. *)
Fixpoint close_all (n : nat) (st : lh_state) : result unit * lh_state :=
  match n, LockHandle_clear st.1 st.2 with
  | S n, (Ok _, (_ :: ((_ :: _) as parents), cs)) => close_all n (parents, cs)
  | _, out => out
  end.

(** ** Invariant

    [others sid] is the counter of shard [sid] without this chain's hold on it.
    An inner handle never counts more than its parent; the outermost one has
    the shard locked as its counts say. *)

Definition info_ok (n : Z) (i : lock_info) : Prop :=
  0 <= li_read i <= n /\ 0 <= li_write i <= n /\ 0 < li_read i + li_write i.

Definition handle_ok (n : Z) (h : handle) : Prop := map_Forall (fun _ => info_ok n) (h_locks h).

Definition held_count (r w other : Z) (count : Z) : Prop :=
  if w >? 0 then count = -1 /\ other = 0
  else if r >? 0 then count = other + 1 /\ 0 <= other
  else count = other.

Section Invariant.
Context (others : Z -> Z) (others_range : forall sid, -1 <= others sid < 2 ^ 31 - 1).

Definition root_ok (h : handle) (cs : counts) : Prop :=
  forall sid, held_count (cnt LRead h sid) (cnt LWrite h sid) (others sid) (count_of cs sid).

Definition covered (h p : handle) : Prop := forall t sid, cnt t h sid <= cnt t p sid.

Fixpoint chain_ok (n : Z) (chain : list handle) (cs : counts) : Prop :=
  match chain with
  | [] => False
  | h :: parents => handle_ok n h /\
      match parents with
      | [] => root_ok h cs
      | p :: _ => covered h p /\ chain_ok n parents cs
      end
  end.

(** How the counts of a handle change *)
Definition adds (d : Z) (t : LockType) (sid : Z) (h h' : handle) : Prop :=
  forall t' sid', cnt t' h' sid' = cnt t' h sid' + (if decide (t' = t /\ sid' = sid) then d else 0).

Definition drops (sid : Z) (h h' : handle) : Prop :=
  forall t' sid', cnt t' h' sid' = if decide (sid' = sid) then 0 else cnt t' h sid'.

Lemma count_of_insert cs sid c sid' :
  count_of (<[sid := c]> cs) sid' = if decide (sid' = sid) then c else count_of cs sid'.
Proof.
  unfold count_of. case_decide as E; [subst; by rewrite lookup_insert_eq|by rewrite lookup_insert_ne].
Qed.

Lemma cnt_put t h sid i sid' :
  cnt t (put_lock sid i h) sid' = if decide (sid' = sid) then li_get t i else cnt t h sid'.
Proof.
  unfold cnt. cbn. case_decide as E; [subst; by rewrite lookup_insert_eq|by rewrite lookup_insert_ne].
Qed.

Lemma erase_drops sid h : drops sid h (erase_lock sid h).
Proof.
  intros t sid'. unfold cnt. cbn.
  case_decide as E; [subst; by rewrite lookup_delete_eq|by rewrite lookup_delete_ne].
Qed.

Lemma handle_ok_put n h sid i : handle_ok n h -> info_ok n i -> handle_ok n (put_lock sid i h).
Proof. intros Hh Hi. by apply map_Forall_insert_2. Qed.

Lemma handle_ok_erase n h sid : handle_ok n h -> handle_ok n (erase_lock sid h).
Proof. intros Hh. by apply map_Forall_delete. Qed.

Lemma handle_ok_mono n n' h : n <= n' -> handle_ok n h -> handle_ok n' h.
Proof. intros Hn Hh sid i Hi. apply Hh in Hi. unfold info_ok in *. lia. Qed.

Lemma chain_ok_mono n n' chain cs : n <= n' -> chain_ok n chain cs -> chain_ok n' chain cs.
Proof.
  intros Hn. induction chain as [|h [|p parents] IH]; cbn; [done| |].
  - intros [? ?]. split; [by eapply handle_ok_mono|done].
  - intros (? & ? & ?). split; [by eapply handle_ok_mono|]. split; [done|by apply IH].
Qed.

Lemma cnt_nonneg n h t sid : handle_ok n h -> 0 <= n -> 0 <= cnt t h sid <= n.
Proof.
  intros Hh Hn. unfold cnt. destruct (h_locks h !! sid) as [i|] eqn:Hi; [|done].
  apply Hh in Hi. unfold info_ok in Hi. destruct t; cbn; lia.
Qed.

(** An entry is there exactly when something is counted. *)
Lemma cnt_entry n h sid :
  handle_ok n h ->
  match h_locks h !! sid with
  | Some i => info_ok n i /\ cnt LRead h sid = li_read i /\ cnt LWrite h sid = li_write i
  | None => cnt LRead h sid = 0 /\ cnt LWrite h sid = 0
  end.
Proof.
  intros Hh. unfold cnt. destruct (h_locks h !! sid) as [i|] eqn:Hi; [|done]. by apply Hh in Hi.
Qed.

Lemma put_incr_adds n t sid h i :
  handle_ok n h -> n + 1 < 2 ^ 16 -> h_locks h !! sid = Some i ->
  handle_ok (n + 1) (put_lock sid (info_incr t i) h) /\ adds 1 t sid h (put_lock sid (info_incr t i) h).
Proof.
  intros Hh Hn Hi. pose proof (cnt_entry n h sid Hh) as He. rewrite Hi in He.
  destruct He as (Hok & Er & Ew). unfold info_ok in Hok. split.
  - apply handle_ok_put; [apply (handle_ok_mono n); [lia|done]|].
    unfold info_ok. destruct t; cbn; rewrite wrap_small by (unfold in_range; lia); lia.
  - intros t' sid'. rewrite cnt_put. repeat case_decide; destruct_and?; subst; try done.
    + destruct t; cbn; rewrite wrap_small by (unfold in_range; lia); lia.
    + destruct t, t'; cbn; try lia; naive_solver.
    + lia.
Qed.

Lemma put_new_adds n t sid h :
  handle_ok n h -> 0 <= n -> h_locks h !! sid = None ->
  handle_ok (n + 1) (put_lock sid (info_new t) h) /\ adds 1 t sid h (put_lock sid (info_new t) h).
Proof.
  intros Hh Hn Hi. pose proof (cnt_entry n h sid Hh) as He. rewrite Hi in He. destruct He as (Er & Ew). split.
  - apply handle_ok_put; [apply (handle_ok_mono n); [lia|done]|]. unfold info_ok. destruct t; cbn; lia.
  - intros t' sid'. rewrite cnt_put. repeat case_decide; destruct_and?; subst; try done.
    + destruct t; cbn; lia.
    + destruct t, t'; cbn; try lia; naive_solver.
    + lia.
Qed.

(** *** Acquiring *)

Lemma root_ok_upd h h' cs c sid :
  root_ok h cs -> (forall t sid', sid' <> sid -> cnt t h' sid' = cnt t h sid') ->
  held_count (cnt LRead h' sid) (cnt LWrite h' sid) (others sid) c ->
  root_ok h' (<[sid := c]> cs).
Proof.
  intros Hr Hoff Hon sid'. rewrite count_of_insert. case_decide as E; [by subst|].
  rewrite !Hoff by done. apply Hr.
Qed.

Lemma adds_off d t sid h h' : adds d t sid h h' -> forall t' sid', sid' <> sid -> cnt t' h' sid' = cnt t' h sid'.
Proof. intros Ha t' sid' Hs. rewrite Ha, decide_False by naive_solver. lia. Qed.

Lemma drops_off sid h h' : drops sid h h' -> forall t' sid', sid' <> sid -> cnt t' h' sid' = cnt t' h sid'.
Proof. intros Hd t' sid' Hs. by rewrite Hd, decide_False. Qed.

(** What [get_shard] may do to a chain: count the lock in every handle, or, if
    it would block, drop what was held of the shard, or wait *)
Definition get_spec (n : Z) (t : LockType) (sid : Z) (chain : list handle) (out : result unit * lh_state) : Prop :=
  let '(r, (chain', cs')) := out in
  exists h h', head chain = Some h /\ head chain' = Some h' /\ chain_ok (n + 1) chain' cs' /\
    length chain' = length chain /\
    match r with
    | Ok _ => adds 1 t sid h h'
    | Throw Would_block => forall t' sid', sid' <> sid -> cnt t' h' sid' = cnt t' h sid'
    | Throw Must_wait => h' = h
    | Throw _ => False
    end.

Ltac counting := unfold held_count, rw_once, rw_decide, read_lock, write_lock, read_to_write_lock,
  write_to_read_lock, RWLock.try_read_lock, try_write_lock, read_unlock, write_unlock, info_ok in *.

(** The absurd cases of a count that is compared with itself *)
Ltac finish := first [lia | match goal with H : ~ (?a = ?a /\ ?b = ?b) |- _ => by destruct H end].

Lemma root_get_new n t sid nb h cs :
  0 <= n -> handle_ok n h -> root_ok h cs -> h_locks h !! sid = None ->
  get_spec n t sid [h] (root_get_shard sid t nb h cs).
Proof.
  intros Hn Hh Hr Hi. pose proof (others_range sid). pose proof (Hr sid) as Hsid.
  pose proof (cnt_entry n h sid Hh) as He. rewrite Hi in He. destruct He as [Er Ew].
  destruct (put_new_adds n t sid h Hh Hn Hi) as [Hh' Ha].
  assert (handle_ok (n + 1) h) as Hh1 by (apply (handle_ok_mono n); [lia|done]).
  rewrite Er, Ew in Hsid. unfold root_get_shard. rewrite Hi.
  set (call := match t with LRead => _ | LWrite => _ end).
  destruct (rw_once call (count_of cs sid)) as [[[] c]|e] eqn:Ec.
  - exists h, (put_lock sid (info_new t) h). split_and!; [done..| |done|done]. split; [done|].
    apply (root_ok_upd h); [done|by eapply adds_off|]. rewrite !(Ha _ sid), Er, Ew. subst call.
    counting. destruct t, (nb || h_nonblocking h); repeat case_match; simplify_eq; bool_hyps;
      rewrite ?s32_small by lia; finish.
  - exists h, h. split_and!; [done..| |done|done]. split; [done|].
    apply (root_ok_upd h); [done..|]. rewrite Er, Ew. subst call.
    counting. destruct t, (nb || h_nonblocking h); repeat case_match; simplify_eq; bool_hyps; lia.
  - exists h, h. split_and!; [done..| |done|]; [by split|]. subst call.
    counting. destruct t, (nb || h_nonblocking h); repeat case_match; simplify_eq; done.
Qed.

Lemma root_get_old n t sid nb h cs i :
  n + 1 < 2 ^ 16 -> handle_ok n h -> root_ok h cs -> h_locks h !! sid = Some i ->
  get_spec n t sid [h] (root_get_shard sid t nb h cs).
Proof.
  intros Hn Hh Hr Hi. pose proof (others_range sid). pose proof (Hr sid) as Hsid.
  pose proof (cnt_entry n h sid Hh) as He. rewrite Hi in He. destruct He as (Hok & Er & Ew).
  destruct (put_incr_adds n t sid h i Hh Hn Hi) as [Hh' Ha].
  assert (handle_ok (n + 1) h) as Hh1 by (apply (handle_ok_mono n); [lia|done]).
  rewrite Er, Ew in Hsid. unfold root_get_shard. rewrite Hi.
  destruct (decide (t = LWrite /\ li_write i = 0)) as [[-> Hw]|Hnw].
  - destruct (Z.eqb_spec (li_read i) 0) as [Hz|Hz]; [unfold info_ok in Hok; lia|].
    set (call := if nb || h_nonblocking h then _ else _).
    destruct call as [[[] c]|e] eqn:Ec.
    + exists h, (put_lock sid (info_incr LWrite i) h). split_and!; [done..| |done|done]. split; [done|].
      apply (root_ok_upd h); [done|by eapply adds_off|]. rewrite !(Ha _ sid), Er, Ew. subst call.
      unfold try_read_to_write_lock in Ec. counting.
      destruct (nb || h_nonblocking h); rewrite ?s32_small in Ec by (repeat case_match; lia);
        repeat case_match; simplify_eq; bool_hyps; finish.
    + exists h, (erase_lock sid h). split_and!; [done..| |done|apply drops_off, erase_drops].
      split; [by apply handle_ok_erase|]. apply (root_ok_upd h); [done|apply drops_off, erase_drops|].
      rewrite !(erase_drops sid h _ sid), !decide_True by done. subst call.
      unfold try_read_to_write_lock in Ec. counting.
      destruct (nb || h_nonblocking h); rewrite ?s32_small in Ec by (repeat case_match; lia);
        repeat case_match; simplify_eq; bool_hyps; lia.
    + exists h, h. split_and!; [done..| |done|]; [by split|]. subst call.
      unfold try_read_to_write_lock in Ec. counting.
      destruct (nb || h_nonblocking h); rewrite ?s32_small in Ec by (repeat case_match; lia);
        repeat case_match; simplify_eq; bool_hyps; done || lia.
  - exists h, (put_lock sid (info_incr t i) h). split_and!; [done..| |done|done]. split; [done|].
    intros sid'. destruct (decide (sid' = sid)) as [->|Hs];
      [|rewrite !(adds_off _ _ _ _ _ Ha) by done; apply Hr].
    rewrite !(Ha _ sid), Er, Ew. counting.
    destruct t; repeat case_match; bool_hyps; try finish; try (destruct Hnw; split; [done|lia]).
Qed.

Lemma chain_ok_cons n h p parents cs :
  head parents = Some p -> handle_ok n h -> covered h p -> chain_ok n parents cs -> chain_ok n (h :: parents) cs.
Proof. destruct parents; [done|]. by intros [= ->]. Qed.

Lemma chain_ok_head n chain cs h : head chain = Some h -> chain_ok n chain cs -> handle_ok n h.
Proof. destruct chain; [done|]. by intros [= ->] [? _]. Qed.

Lemma covered_adds d t sid h h' p p' :
  adds d t sid h h' -> adds d t sid p p' -> covered h p -> covered h' p'.
Proof. intros Hh Hp Hc t' sid'. rewrite Hh, Hp. specialize (Hc t' sid'). case_decide; lia. Qed.

(** A handle that counts nothing of the shard is covered by any change there. *)
Lemma covered_off n sid h h' p p' :
  0 <= n -> handle_ok n p' ->
  (forall t, cnt t h' sid = 0) -> (forall t sid', sid' <> sid -> cnt t h' sid' = cnt t h sid') ->
  (forall t sid', sid' <> sid -> cnt t p' sid' = cnt t p sid') -> covered h p -> covered h' p'.
Proof.
  intros Hn Hp H0 Hh Hpo Hc t sid'. destruct (decide (sid' = sid)) as [->|Hs].
  - rewrite H0. by apply (cnt_nonneg n).
  - rewrite Hh, Hpo by done. apply Hc.
Qed.

Lemma get_shard_cons sid t nb h p parents cs :
  get_shard sid t nb (h :: p :: parents) cs =
  let '(r, (parents', cs')) := get_shard sid t (nb || h_nonblocking h) (p :: parents) cs in
  match h_locks h !! sid, r with
  | None, Ok _ => (Ok tt, (put_lock sid (info_new t) h :: parents', cs'))
  | None, Throw e => (Throw e, (h :: parents', cs'))
  | Some info, Ok _ => (Ok tt, (put_lock sid (info_incr t info) h :: parents', cs'))
  | Some info, Throw Would_block => (Throw Would_block, (erase_lock sid h :: parents', cs'))
  | Some info, Throw e => (Throw e, (h :: parents', cs'))
  end.
Proof. done. Qed.

Lemma get_shard_ok n t sid nb chain cs :
  0 <= n -> n + 1 < 2 ^ 16 -> chain_ok n chain cs ->
  get_spec n t sid chain (get_shard sid t nb chain cs).
Proof.
  intros H0 Hn. revert nb. induction chain as [|h parents IH]; intros nb; [done|].
  destruct parents as [|p parents].
  { intros [Hh Hr]. cbn [get_shard]. destruct (h_locks h !! sid) as [i|] eqn:Hi;
      [by eapply root_get_old|by apply root_get_new]. }
  intros (Hh & Hcov & Hc). specialize (IH (nb || h_nonblocking h) Hc). rewrite get_shard_cons.
  destruct (get_shard sid t (nb || h_nonblocking h) (p :: parents) cs) as [r [parents' cs']].
  destruct IH as (p0 & p' & [= <-] & Hp' & Hc' & Hlen & Hr).
  assert (handle_ok (n + 1) h) as Hh1 by (apply (handle_ok_mono n); [lia|done]).
  pose proof (chain_ok_head _ _ _ _ Hp' Hc') as Hpok.
  pose proof (cnt_entry n h sid Hh) as He.
  destruct (h_locks h !! sid) as [i|] eqn:Hi, r as [[]|[]]; try done.
  - destruct (put_incr_adds n t sid h i Hh Hn Hi) as [Hh' Ha]. exists h. eexists.
    split_and!; [done..| |cbn in *; lia|done]. eapply chain_ok_cons; [done..| |done]. by eapply covered_adds.
  - exists h. eexists. split_and!; [done..| |cbn in *; lia|apply drops_off, erase_drops].
    eapply chain_ok_cons; [done|by apply handle_ok_erase| |done].
    eapply (covered_off (n + 1) sid); [lia|done| |apply drops_off, erase_drops|done|done].
    intros t'. by rewrite (erase_drops sid h t' sid), decide_True.
  - exists h, h. subst p'. split_and!; [done..| |cbn in *; lia|done]. by eapply chain_ok_cons.
  - destruct (put_new_adds n t sid h Hh H0 Hi) as [Hh' Ha]. exists h. eexists.
    split_and!; [done..| |cbn in *; lia|done]. eapply chain_ok_cons; [done..| |done]. by eapply covered_adds.
  - exists h, h. split_and!; [done..| |cbn in *; lia|done]. eapply chain_ok_cons; [done..| |done].
    eapply (covered_off (n + 1) sid); [lia|done| |done|done|done]. intros []; naive_solver.
  - exists h, h. subst p'. split_and!; [done..| |cbn in *; lia|done]. by eapply chain_ok_cons.
Qed.

(** *** Releasing *)

Lemma info_decr_val n t i :
  info_ok n i -> n < 2 ^ 16 -> 0 < li_get t i ->
  info_decr t i = match t with
                  | LRead => mkInfo (li_read i - 1) (li_write i)
                  | LWrite => mkInfo (li_read i) (li_write i - 1)
                  end.
Proof.
  unfold info_ok. intros. destruct t; cbn in *; rewrite wrap_small by (unfold in_range; lia); done.
Qed.

Lemma adds_both d t sid h h' :
  adds d t sid h h' ->
  cnt LRead h' sid = cnt LRead h sid + (match t with LRead => d | LWrite => 0 end) /\
  cnt LWrite h' sid = cnt LWrite h sid + (match t with LRead => 0 | LWrite => d end).
Proof. intros Ha. rewrite !Ha. destruct t; split; case_decide; try done; naive_solver. Qed.

Definition after_decr (t : LockType) (sid : Z) (i : lock_info) (h : handle) : handle :=
  if (li_read (info_decr t i) =? 0) && (li_write (info_decr t i) =? 0) then erase_lock sid h
  else put_lock sid (info_decr t i) h.

Lemma after_decr_ok n t sid h i :
  handle_ok n h -> n < 2 ^ 16 -> h_locks h !! sid = Some i -> 0 < li_get t i ->
  handle_ok n (after_decr t sid i h) /\ adds (-1) t sid h (after_decr t sid i h).
Proof.
  intros Hh Hn Hi Hpos. pose proof (cnt_entry n h sid Hh) as He. rewrite Hi in He.
  destruct He as (Hok & Er & Ew). unfold info_ok in Hok.
  unfold after_decr. rewrite (info_decr_val n) by done. destruct ((_ =? 0) && (_ =? 0)) eqn:Hz; bool_hyps.
  - split; [by apply handle_ok_erase|]. intros t' sid'. rewrite (erase_drops sid h t' sid').
    destruct (decide (sid' = sid)) as [->|Hs]; [|rewrite decide_False by naive_solver; lia].
    destruct t, t'; cbn in *; case_decide; destruct_and?; try done; try lia; finish.
  - split; [apply handle_ok_put; [done|]|].
    + unfold info_ok. destruct t; cbn in *; lia.
    + intros t' sid'. rewrite cnt_put.
      destruct (decide (sid' = sid)) as [->|Hs]; [|rewrite decide_False by naive_solver; lia].
      destruct t, t'; cbn in *; case_decide; destruct_and?; try done; try lia; finish.
Qed.

Definition release_spec (n d : Z) (t : LockType) (sid : Z) (len : nat) (h : handle)
    (out : result unit * lh_state) : Prop :=
  exists chain' cs' h', out = (Ok tt, (chain', cs')) /\ head chain' = Some h' /\ chain_ok n chain' cs' /\
    adds (- d) t sid h h' /\ length chain' = len.

Lemma root_release_ok n t sid h cs i :
  handle_ok n h -> n < 2 ^ 16 -> root_ok h cs -> h_locks h !! sid = Some i -> 0 < li_get t i ->
  release_spec n 1 t sid 1 h (root_release_shard sid t i h cs).
Proof.
  intros Hh Hn Hr Hi Hpos. destruct (after_decr_ok n t sid h i Hh Hn Hi Hpos) as [Hh' Ha].
  pose proof (cnt_entry n h sid Hh) as He. rewrite Hi in He. destruct He as (Hok & Er & Ew).
  pose proof (others_range sid). pose proof (Hr sid) as Hsid. rewrite Er, Ew in Hsid.
  pose proof (adds_off _ _ _ _ _ Ha) as Hoff. destruct (adds_both _ _ _ _ _ Ha) as [HaR HaW].
  assert (forall c, held_count (cnt LRead (after_decr t sid i h) sid) (cnt LWrite (after_decr t sid i h) sid)
    (others sid) c -> release_spec n 1 t sid 1 h (Ok tt, ([after_decr t sid i h], <[sid := c]> cs))) as Hgoal.
  { intros c Hc. do 3 eexists. split_and!; [done..| |done|done]. split; [done|]. by apply (root_ok_upd h). }
  assert (held_count (cnt LRead (after_decr t sid i h) sid) (cnt LWrite (after_decr t sid i h) sid)
    (others sid) (count_of cs sid) -> release_spec n 1 t sid 1 h (Ok tt, ([after_decr t sid i h], cs))) as Hkeep.
  { intros Hc. do 3 eexists. split_and!; [done..| |done|done]. split; [done|]. intros sid'.
    destruct (decide (sid' = sid)) as [->|]; [done|]. rewrite !Hoff by done. apply Hr. }
  rewrite HaR, HaW, Er, Ew in Hgoal, Hkeep. unfold after_decr in *. unfold root_release_shard.
  rewrite (info_decr_val n) in * by done. counting.
  destruct ((_ =? 0) && (_ =? 0)) eqn:Hz; bool_hyps; [|case_decide as Hd].
  - destruct t; cbn in *; apply Hgoal; rewrite ?s32_small by (repeat case_match; lia);
      repeat case_match; bool_hyps; lia.
  - destruct Hd as [-> Hd]. cbn in *. destruct (negb (count_of cs sid =? -1)) eqn:Hneg; bool_hyps.
    + repeat case_match; bool_hyps; lia.
    + apply Hgoal. repeat case_match; bool_hyps; lia.
  - apply Hkeep. destruct t; cbn in *; repeat case_match; bool_hyps; try lia.
    all: destruct Hd; split; [done|lia].
Qed.

Lemma release_shard_ok n t sid chain cs h :
  n < 2 ^ 16 -> chain_ok n chain cs -> head chain = Some h -> 0 < cnt t h sid ->
  release_spec n 1 t sid (length chain) h (release_shard sid t chain cs).
Proof.
  intros Hn. revert h. induction chain as [|h0 parents IH]; intros h; [done|].
  intros Hc [= ->] Hpos. pose proof (chain_ok_head n (h :: parents) cs h eq_refl Hc) as Hh.
  pose proof (cnt_entry n h sid Hh) as He. cbn [release_shard].
  destruct (h_locks h !! sid) as [i|] eqn:Hi; [|destruct t; lia]. destruct He as (Hok & Er & Ew).
  assert (0 < li_get t i) as Hpos' by (destruct t; cbn in *; lia).
  destruct parents as [|p parents]; [destruct Hc as [_ Hr]; by apply root_release_ok|].
  destruct Hc as (_ & Hcov & Hc). pose proof (Hcov t sid).
  destruct (IH p Hc eq_refl ltac:(lia)) as (parents' & cs' & p' & -> & Hp' & Hc' & Ha' & Hlen').
  destruct (after_decr_ok n t sid h i Hh Hn Hi Hpos') as [Hh' Ha].
  exists (after_decr t sid i h :: parents'), cs', (after_decr t sid i h).
  split_and!; [unfold after_decr; by rewrite andb_comm|done| |done|cbn in *; lia].
  eapply chain_ok_cons; [done..| |done]. by eapply covered_adds.
Qed.

Lemma release_n_ok n k t sid chain cs h :
  n < 2 ^ 16 -> chain_ok n chain cs -> head chain = Some h -> Z.of_nat k <= cnt t h sid ->
  release_spec n (Z.of_nat k) t sid (length chain) h (release_n k sid t chain cs).
Proof.
  intros Hn. revert chain cs h. induction k as [|k IH]; intros chain cs h Hc Hh Hk.
  { exists chain, cs, h. split_and!; [done..| |done]. intros t' sid'. case_decide; cbn; lia. }
  cbn [release_n]. destruct (release_shard_ok n t sid chain cs h Hn Hc Hh ltac:(lia))
    as (chain1 & cs1 & h1 & -> & Hh1 & Hc1 & Ha1 & <-).
  destruct (IH chain1 cs1 h1 Hc1 Hh1) as (chain2 & cs2 & h2 & -> & Hh2 & Hc2 & Ha2 & <-).
  { rewrite Ha1, decide_True by done. lia. }
  exists chain2, cs2, h2. split_and!; [done..| |done]. intros t' sid'. rewrite Ha2, Ha1. case_decide; lia.
Qed.

Lemma clear_into_ok n locks parents cs p :
  n < 2 ^ 16 -> chain_ok n parents cs -> head parents = Some p -> NoDup locks.*1 ->
  (forall sid i, (sid, i) ∈ locks -> 0 <= li_read i <= cnt LRead p sid /\ 0 <= li_write i <= cnt LWrite p sid) ->
  exists parents' cs', clear_into locks parents cs = (Ok tt, (parents', cs')) /\
    chain_ok n parents' cs' /\ length parents' = length parents.
Proof.
  intros Hn. revert parents cs p. induction locks as [|[sid i] locks IH]; intros parents cs p Hc Hp Hnd Hin.
  { by exists parents, cs. }
  cbn in Hnd. apply NoDup_cons in Hnd as [Hsid Hnd]. destruct (Hin sid i ltac:(left)) as [Hr Hw].
  cbn [clear_into]. destruct (release_n_ok n (Z.to_nat (li_read i)) LRead sid parents cs p Hn Hc Hp ltac:(lia))
    as (ps1 & cs1 & p1 & -> & Hp1 & Hc1 & Ha1 & <-). destruct (adds_both _ _ _ _ _ Ha1) as [_ Ew1].
  destruct (release_n_ok n (Z.to_nat (li_write i)) LWrite sid ps1 cs1 p1 Hn Hc1 Hp1 ltac:(lia))
    as (ps2 & cs2 & p2 & -> & Hp2 & Hc2 & Ha2 & <-).
  apply (IH ps2 cs2 p2 Hc2 Hp2 Hnd). intros sid' i' Hin'.
  assert (sid' <> sid) as Hne by (intros ->; apply Hsid, list_elem_of_fmap; by exists (sid, i')).
  rewrite !(adds_off _ _ _ _ _ Ha2), !(adds_off _ _ _ _ _ Ha1) by done. apply Hin. by right.
Qed.

Lemma unlock_all_ok n locks cs :
  NoDup locks.*1 ->
  (forall sid i, (sid, i) ∈ locks -> info_ok n i /\
    held_count (li_read i) (li_write i) (others sid) (count_of cs sid)) ->
  forall sid, count_of (unlock_all locks cs) sid =
    if decide (sid ∈ locks.*1) then others sid else count_of cs sid.
Proof.
  revert cs. induction locks as [|[sid0 i] locks IH]; intros cs Hnd Hin sid.
  { by rewrite decide_False by apply not_elem_of_nil. }
  cbn in Hnd. apply NoDup_cons in Hnd as [Hsid Hnd]. cbn [unlock_all].
  destruct (Hin sid0 i ltac:(left)) as [Hok Hh]. pose proof (others_range sid0).
  rewrite IH; [|done|].
  - rewrite count_of_insert. cbn. destruct (decide (sid = sid0)) as [->|Hne].
    + rewrite (decide_True (P := sid0 ∈ sid0 :: _)) by left. rewrite decide_False by done.
      unfold lock_type. counting. rewrite s32_small by (repeat case_match; lia).
      repeat case_match; bool_hyps; try done; lia.
    + rewrite (decide_ext (sid ∈ sid0 :: locks.*1) (sid ∈ locks.*1)); [done|].
      rewrite elem_of_cons. naive_solver.
  - intros sid' i' Hin'. rewrite count_of_insert, decide_False; [apply Hin; by right|].
    intros ->. apply Hsid, list_elem_of_fmap. by exists (sid0, i').
Qed.

(** *** Sequences of uses *)

Lemma pop_ok n h p parents cs :
  0 <= n < 2 ^ 16 -> chain_ok n (h :: p :: parents) cs ->
  exists p' parents' cs', LockHandle_clear (h :: p :: parents) cs =
    (Ok tt, (mkHandle ∅ (h_nonblocking h) :: p' :: parents', cs')) /\
    length parents' = length parents /\ chain_ok n (p' :: parents') cs'.
Proof.
  intros Hn (Hh & Hcov & Hc). cbn [LockHandle_clear].
  destruct (clear_into_ok n (map_to_list (h_locks h)) (p :: parents) cs p ltac:(lia) Hc eq_refl)
    as (parents' & cs' & -> & Hc' & Hlen); [apply NoDup_fst_map_to_list| |].
  - intros sid i Hi%elem_of_map_to_list. pose proof (cnt_entry n h sid Hh) as He. rewrite Hi in He.
    destruct He as ((? & ? & _) & Er & Ew). pose proof (Hcov LRead sid). pose proof (Hcov LWrite sid). lia.
  - destruct parents' as [|p' parents']; [done|]. exists p', parents', cs'. cbn in Hlen.
    split; [done|]. split; [lia|done].
Qed.

Lemma lh_exec_ok n u st st' :
  0 <= n -> n + 1 < 2 ^ 16 -> chain_ok n st.1 st.2 -> lh_exec u st = Some st' -> chain_ok (n + 1) st'.1 st'.2.
Proof.
  intros H0 Hn Hc. destruct st as [chain cs], u as [sid t nb|sid t|nb|]; cbn [lh_exec fst snd].
  - pose proof (get_shard_ok n t sid nb chain cs H0 Hn Hc) as Hs.
    destruct (get_shard sid t nb chain cs) as [r [chain' cs']].
    destruct Hs as (h & h' & _ & _ & Hc' & _ & Hr).
    destruct r as [[]|[]]; try done; by intros [= <-].
  - destruct (head chain) as [h|] eqn:Hh; [|done]. destruct (Z.ltb_spec 0 (cnt t h sid)) as [Hp|]; [|done].
    destruct (release_shard_ok n t sid chain cs h ltac:(lia) Hc Hh Hp) as (chain' & cs' & h' & -> & _ & Hc' & _ & _).
    intros [= <-]. apply (chain_ok_mono n); [lia|done].
  - intros [= <-]. apply (chain_ok_mono n); [lia|]. destruct chain as [|h parents]; [done|].
    eapply chain_ok_cons; [done|by apply map_Forall_empty| |done].
    intros t sid. apply (cnt_nonneg n); [by apply (chain_ok_head n (h :: parents) cs)|done].
  - destruct chain as [|h [|p parents]]; [done..|].
    destruct (pop_ok n h p parents cs ltac:(lia) Hc) as (p' & parents' & cs' & -> & _ & Hc').
    intros [= <-]. apply (chain_ok_mono n); [lia|done].
Qed.

Lemma lh_run_ok n us st st' :
  0 <= n -> n + Z.of_nat (length us) < 2 ^ 16 -> chain_ok n st.1 st.2 -> lh_run us st = Some st' ->
  chain_ok (n + Z.of_nat (length us)) st'.1 st'.2.
Proof.
  revert n st. induction us as [|u us IH]; intros n st H0 Hn Hc; cbn [lh_run length].
  { intros [= <-]. by rewrite Z.add_0_r. }
  destruct (lh_exec u st) as [st1|] eqn:E; cbn; [|done]. cbn in Hn. intros Hr.
  replace (n + Z.of_nat (S (length us))) with ((n + 1) + Z.of_nat (length us)) by lia.
  eapply IH; [lia|lia| |done]. eapply (lh_exec_ok n); [lia|lia|done|done].
Qed.

Lemma close_all_ok n k chain cs :
  0 <= n < 2 ^ 16 -> length chain = Datatypes.S k -> chain_ok n chain cs ->
  exists h cs', close_all k (chain, cs) = (Ok tt, ([h], cs')) /\ h_locks h = ∅ /\
    forall sid, count_of cs' sid = others sid.
Proof.
  intros Hn. revert chain cs. induction k as [|k IH]; intros [|h [|p parents]] cs Hlen Hc; try done.
  - destruct Hc as [Hh Hr]. do 2 eexists. split_and!; [done..|]. intros sid.
    rewrite (unlock_all_ok n); [|apply NoDup_fst_map_to_list|].
    + case_decide as Hin; [done|]. specialize (Hr sid). pose proof (cnt_entry n h sid Hh) as He.
      destruct (h_locks h !! sid) as [i|] eqn:Hi.
      * destruct Hin. apply list_elem_of_fmap. exists (sid, i). split; [done|]. by apply elem_of_map_to_list.
      * destruct He as [Er Ew]. by rewrite Er, Ew in Hr.
    + intros sid' i Hi%elem_of_map_to_list. specialize (Hr sid'). pose proof (cnt_entry n h sid' Hh) as He.
      rewrite Hi in He. destruct He as (? & Er & Ew). by rewrite Er, Ew in Hr.
  - destruct (pop_ok n h p parents cs Hn Hc) as (p' & parents' & cs' & E & Hlen' & Hc').
    cbn [close_all fst snd]. rewrite E. apply (IH (p' :: parents') cs'); [cbn in *; lia|done].
Qed.

Lemma chain_ok_holds n chain cs h t sid :
  0 <= n -> chain_ok n chain cs -> h ∈ chain -> 0 < cnt t h sid ->
  match t with
  | LWrite => count_of cs sid = -1 /\ others sid = 0
  | LRead => count_of cs sid <> 0 /\ 0 <= others sid
  end.
Proof.
  intros H0. induction chain as [|h0 parents IH] in h |- *; [by intros []|]. intros Hc Hin Hpos.
  destruct parents as [|p parents].
  - destruct Hc as [Hh Hr]. apply list_elem_of_singleton in Hin as ->. specialize (Hr sid).
    pose proof (cnt_nonneg n h0 LRead sid Hh H0). pose proof (cnt_nonneg n h0 LWrite sid Hh H0).
    unfold held_count in Hr. destruct t; repeat case_match; bool_hyps; lia.
  - destruct Hc as (Hh & Hcov & Hc). apply elem_of_cons in Hin as [->|Hin]; [|by apply (IH h)].
    apply (IH p); [done|left|]. pose proof (Hcov t sid). lia.
Qed.

(** *** Handles that do not block *)

Lemma try_no_wait c count : c = c_try_read \/ c = c_try_write -> rw_once c count <> Throw Must_wait.
Proof. intros [-> | ->]; unfold rw_once, rw_decide, RWLock.try_read_lock, try_write_lock; repeat case_match; congruence. Qed.

Lemma root_get_nonblocking sid t nb h cs : h_nonblocking h = true ->
  exists h', (root_get_shard sid t nb h cs).2.1 = [h'] /\ h_nonblocking h' = true /\
    (root_get_shard sid t nb h cs).1 <> Throw Must_wait.
Proof.
  intros Hnb. unfold root_get_shard. rewrite Hnb, orb_true_r. destruct (h_locks h !! sid) as [i|].
  - destruct (decide _); [|by eexists]. destruct (li_read i =? 0); [by eexists|].
    unfold try_read_to_write_lock. pose proof (try_no_wait c_try_write (read_unlock (count_of cs sid)) ltac:(by right)) as Hw.
    destruct (rw_once _ _) as [[[] ?]|x]; eexists; (split; [done|split; [done|]]); cbn; congruence.
  - assert (forall c, c = c_try_read \/ c = c_try_write -> exists h', (match rw_once c (count_of cs sid) with
      | Throw e => (Throw e, ([h], cs))
      | Ok (false, c) => (Throw Would_block, ([h], <[sid := c]> cs))
      | Ok (true, c) => (Ok tt, ([put_lock sid (info_new t) h], <[sid := c]> cs)) end).2.1 = [h'] /\
      h_nonblocking h' = true /\ (match rw_once c (count_of cs sid) with
      | Throw e => (Throw e, ([h], cs))
      | Ok (false, c) => (Throw Would_block, ([h], <[sid := c]> cs))
      | Ok (true, c) => (Ok tt, ([put_lock sid (info_new t) h], <[sid := c]> cs)) end).1 <> Throw Must_wait) as Hall.
    { intros c Hc. pose proof (try_no_wait c (count_of cs sid) Hc) as Hw.
      destruct (rw_once c (count_of cs sid)) as [[[] ?]|x]; eexists; (split; [done|split; [done|]]); cbn; congruence. }
    destruct t; apply Hall; [by left|by right].
Qed.

(** [get_shard] of an outermost handle that does not block *)
Lemma get_nonblocking_ok n t sid h cs :
  0 <= n -> n + 1 < 2 ^ 16 -> chain_ok n [h] cs -> h_nonblocking h = true ->
  exists r h' cs', get_shard sid t false [h] cs = (r, ([h'], cs')) /\ chain_ok (n + 1) [h'] cs' /\
    h_nonblocking h' = true /\ ((r = Ok tt /\ adds 1 t sid h h') \/ r = Throw Would_block).
Proof.
  intros Hn0 Hn Hc Hnb. pose proof (get_shard_ok n t sid false [h] cs Hn0 Hn Hc) as Hs.
  destruct (root_get_nonblocking sid t false h cs Hnb) as (h' & E & Hnb' & Hw).
  change (root_get_shard sid t false h cs) with (get_shard sid t false [h] cs) in *.
  destruct (get_shard sid t false [h] cs) as [r [chain cs']]. cbn in E, Hw. subst chain.
  destruct Hs as (h0 & h1 & [= <-] & [= <-] & Hc' & _ & Hr). exists r, h', cs'. split_and!; try done.
  destruct r as [[]|[]]; try done; [by left|by right].
Qed.

Lemma root_release_nonblocking sid t i h cs h' r cs' :
  root_release_shard sid t i h cs = (r, ([h'], cs')) -> h_nonblocking h' = h_nonblocking h.
Proof. unfold root_release_shard. intros E. repeat case_match; by simplify_eq. Qed.

(** A handle inside it that locks one shard for reading and is destroyed *)
Lemma child_lock_ok n sid h cs :
  0 <= n -> n + 1 < 2 ^ 16 -> chain_ok n [h] cs -> h_nonblocking h = true ->
  exists r c h' cs', get_shard sid LRead false [LockHandle_new false; h] cs = (r, ([c; h'], cs')) /\
    exists h2 cs2, LockHandle_clear [c; h'] cs' = (Ok tt, ([mkHandle ∅ false; h2], cs2)) /\
      chain_ok (n + 1) [h2] cs2 /\ h_nonblocking h2 = true /\
      ((r = Ok tt /\ forall t sid', cnt t h2 sid' = cnt t h sid') \/ r = Throw Would_block).
Proof.
  intros Hn0 Hn Hc Hnb. destruct (get_nonblocking_ok n LRead sid h cs Hn0 Hn Hc Hnb) as (r & h' & cs' & E & Hc' & Hnb' & Hr).
  rewrite get_shard_cons. cbn [h_nonblocking LockHandle_new orb h_locks]. rewrite E, lookup_empty. destruct Hr as [[-> Ha]| ->].
  - exists (Ok tt). do 3 eexists. split; [done|]. cbn [LockHandle_clear put_lock LockHandle_new h_locks h_nonblocking].
    rewrite insert_empty, map_to_list_singleton. cbn [clear_into]. unfold info_new. cbn [li_read li_write].
    change (Z.to_nat 1) with 1%nat. change (Z.to_nat 0) with 0%nat. cbn [release_n].
    assert (0 < cnt LRead h' sid) as Hpos.
    { rewrite (Ha LRead sid), decide_True by done. destruct Hc as [Hh _]. pose proof (cnt_nonneg n h LRead sid Hh Hn0). lia. }
    destruct (release_shard_ok (n + 1) LRead sid [h'] cs' h' ltac:(lia) Hc' eq_refl Hpos)
      as (chain2 & cs2 & h2 & Er & Eh & Hc2 & Ha2 & Hlen).
    rewrite Er. destruct chain2 as [|h2' [|? ?]]; try done. injection Eh as ->.
    exists h2, cs2. split; [done|]. split; [done|]. split.
    + cbn [release_shard] in Er. destruct (h_locks h' !! sid) as [i|]; [|done].
      by rewrite (root_release_nonblocking _ _ _ _ _ _ _ _ Er).
    + left. split; [done|]. intros t sid'. rewrite (Ha2 t sid'), (Ha t sid'). case_decide; lia.
  - exists (Throw Would_block). do 3 eexists. split; [done|]. exists h', cs'. split_and!; [done..|by right].
Qed.

Lemma chain_ok_ext n h cs cs' :
  (forall sid, count_of cs' sid = count_of cs sid) -> chain_ok n [h] cs -> chain_ok n [h] cs'.
Proof. intros E [Hh Hr]. split; [done|]. intros sid. rewrite E. apply Hr. Qed.

End Invariant.

Lemma lh_start_ok nonblocking cs n : chain_ok (count_of cs) n [LockHandle_new nonblocking] cs.
Proof. split; [by apply map_Forall_empty|done]. Qed.

(** A handle of its own that locks one shard for reading and is destroyed *)
Lemma free_lock_ok sid cs : (forall sid, -1 <= count_of cs sid < 2 ^ 31 - 1) ->
  exists r h cs', get_shard sid LRead false [LockHandle_new false] cs = (r, ([h], cs')) /\
    (r = Ok tt \/ r = Throw Would_block \/ r = Throw Must_wait) /\
    exists h2 cs2, LockHandle_clear [h] cs' = (Ok tt, ([h2], cs2)) /\ forall sid, count_of cs2 sid = count_of cs sid.
Proof.
  intros Hr. pose proof (get_shard_ok (count_of cs) Hr 0 LRead sid false [LockHandle_new false] cs ltac:(lia) ltac:(lia)
    (lh_start_ok false cs 0)) as Hs.
  destruct (get_shard sid LRead false [LockHandle_new false] cs) as [r [chain cs']].
  destruct Hs as (h0 & h & _ & Eh & Hc & Hlen & Hcase). destruct chain as [|h1 [|? ?]]; try done. injection Eh as ->.
  exists r, h, cs'. split; [done|]. split; [destruct r as [[]|[]]; auto; done|].
  destruct (close_all_ok (count_of cs) Hr (0 + 1) 0 [h] cs' ltac:(lia) eq_refl Hc) as (h2 & cs2 & E & _ & Hcs).
  by exists h2, cs2.
Qed.

(** ** Theorems *)

(** C28.  Lock accounting.  Whatever shards an operation locks, upgrades and
    releases through however many nested handles, and whatever attempts were
    refused with [would_block_exception] on the way: destroying the handles
    succeeds, and every shard's lock is as if the operation had never run. *)
Theorem LockHandle_balanced nonblocking cs us st :
  (forall sid, -1 <= count_of cs sid < 2 ^ 31 - 1) -> Z.of_nat (length us) < 2 ^ 16 ->
  lh_run us ([LockHandle_new nonblocking], cs) = Some st ->
  exists h cs', close_all (length st.1 - 1) st = (Ok tt, ([h], cs')) /\ h_locks h = ∅ /\
    forall sid, count_of cs' sid = count_of cs sid.
Proof.
  intros Hr Hlen Hrun. pose proof (lh_run_ok (count_of cs) Hr 0 us ([LockHandle_new nonblocking], cs) st ltac:(lia) ltac:(lia)
    (lh_start_ok nonblocking cs 0) Hrun) as Hc.
  destruct st as [chain cs1]. cbn [fst snd] in *. destruct chain as [|h parents] eqn:Ech; [done|].
  apply (close_all_ok (count_of cs) Hr (0 + Z.of_nat (length us))); [lia|cbn; lia|done].
Qed.

(** A handle that counts a write lock on a shard has it exclusively (the
    counter is -1 and no other thread held the lock), and one that counts a
    read lock has the shard locked. *)
Theorem LockHandle_holds nonblocking cs us st h t sid :
  (forall sid, -1 <= count_of cs sid < 2 ^ 31 - 1) -> Z.of_nat (length us) < 2 ^ 16 ->
  lh_run us ([LockHandle_new nonblocking], cs) = Some st -> h ∈ st.1 -> 0 < cnt t h sid ->
  match t with
  | LWrite => count_of st.2 sid = -1 /\ count_of cs sid = 0
  | LRead => count_of st.2 sid <> 0 /\ 0 <= count_of cs sid
  end.
Proof.
  intros Hr Hlen Hrun. pose proof (lh_run_ok (count_of cs) Hr 0 us ([LockHandle_new nonblocking], cs) st ltac:(lia) ltac:(lia)
    (lh_start_ok nonblocking cs 0) Hrun) as Hc.
  eapply (chain_ok_holds (count_of cs)); [|done]. lia.
Qed.

(** Two handles with the same parent break the accounting: if one of them
    fails to upgrade a shard the other has locked for reading, the parent
    forgets its lock, and the destructor of the other handle throws. *)
Theorem LockHandle_siblings_throw :
  let others : counts := {[7 := 1]} in
  let '(_, (c1, cs1)) := get_shard 7 LRead false [LockHandle_new false; LockHandle_new true] others in
  let '(r2, (c2, cs2)) := get_shard 7 LWrite false (LockHandle_new false :: tail c1) cs1 in
  r2 = Throw Would_block /\
  (LockHandle_clear (take 1 c1 ++ tail c2) cs2).1 = Throw (Runtime_error "No such lock!").
Proof. by split. Qed.

(** ** Instances *)

(** Another thread reads shard 7; a nested handle locks 3, upgrades it, fails to
    upgrade 7, and the outer one goes on. *)
Definition demo_uses : list lh_use :=
  [use_get 3 LRead false; use_push true; use_get 3 LWrite false; use_get 7 LRead false;
   use_get 7 LWrite true; use_release 3 LWrite; use_get 3 LWrite false; use_push false; use_get 3 LRead false].

Definition demo_counts : counts := {[7 := 1]}.

Lemma demo_counts_range sid : -1 <= count_of demo_counts sid < 2 ^ 31 - 1.
Proof.
  unfold count_of, demo_counts. destruct (decide (sid = 7)) as [->|]; [by vm_compute|].
  rewrite lookup_singleton_ne by done. cbn. lia.
Qed.

Definition demo_after : lh_state := default ([], ∅) (lh_run demo_uses ([LockHandle_new false], demo_counts)).

Lemma LockHandle_balanced_witness :
  count_of demo_after.2 3 = -1 /\
  exists h cs', close_all 2 demo_after = (Ok tt, ([h], cs')) /\ count_of cs' 3 = 0 /\ count_of cs' 7 = 1.
Proof.
  split; [vm_compute; reflexivity|].
  destruct (LockHandle_balanced false demo_counts demo_uses demo_after) as (h & cs' & E & _ & Hc);
    [exact demo_counts_range|vm_compute; reflexivity|vm_compute; reflexivity|].
  exists h, cs'. split; [exact E|]. rewrite !Hc. split; reflexivity.
Defined.

Lemma LockHandle_holds_witness : count_of demo_after.2 3 = -1 /\ count_of demo_counts 3 = 0.
Proof.
  apply (LockHandle_holds false demo_counts demo_uses demo_after (hd (LockHandle_new false) (tail demo_after.1)) LWrite 3);
    [exact demo_counts_range|vm_compute; reflexivity|vm_compute; reflexivity| |vm_compute; reflexivity].
  vm_compute. right. left.
Defined.
