(* ===== verification/Json.v ===== *)
(** * JSON documents

    The JSON library ([json/json.h], a dependency) as the ledger uses it: a
    document is written as an array with [json::Writer], stored as bytes, and
    read back through views.  [JsonLaws] is its documented behaviour on
    documents it has written itself. *)

From Stdlib Require Import Ascii.
From S2P Require Import Prelude.

(** Paths that name no operator *)
Definition plain_path (path : string) : bool :=
  forallb (fun c => negb (Ascii.eqb c "$")) (String.list_ascii_of_string path).

(** Names of a field that a path can hold as they are *)
Definition plain_name (name : string) : bool :=
  forallb (fun c => negb (Ascii.eqb c "$") && negb (Ascii.eqb c ".")) (String.list_ascii_of_string name).

Class Json (D : Type) : Type := {
  doc_null : D;
  doc_valid : D -> bool;
  doc_empty : D -> bool;
  doc_bytes : D -> list Z;
  doc_parse : list Z -> D;
  doc_array : list D -> D;
  doc_map : list (string * D) -> D;
  doc_int : Z -> D;
  doc_str : string -> D;
  doc_bool : bool -> D;
  doc_item : D -> Z -> D;
  as_integer : D -> Z;
  as_string : D -> string;
  doc_path : D -> string -> D;
  doc_add : D -> string -> D -> D;
  doc_insert : D -> string -> D -> D;
  (** views of paths; the ones that are forced throw [json_error] if one is missing *)
  doc_path_force : D -> string -> option D;
  doc_view : D -> list string -> D;
  doc_view_force : D -> list string -> option D;
  doc_equal : D -> D -> bool;
  doc_hash : D -> Z;
  doc_size : D -> Z;
  doc_keys : D -> option (list string);
  doc_is_array : D -> bool;
  doc_field : string -> D -> D;
  matches_predicates : D -> D -> bool;
}.

Class JsonLaws (D : Type) `{Json D} : Prop := {
  doc_null_invalid : doc_valid doc_null = false;
  doc_null_empty : doc_empty doc_null = true;
  doc_array_valid : forall ds, doc_valid (doc_array ds) = true;
  doc_parse_bytes : forall d, doc_valid d = true -> doc_parse (doc_bytes d) = d;
  doc_item_array : forall ds i d, ds !! i = Some d -> doc_item (doc_array ds) (Z.of_nat i) = d;
  doc_size_array : forall ds, doc_size (doc_array ds) = Z.of_nat (length ds);
  doc_path_map : forall kvs name d, NoDup kvs.*1 -> (name, d) ∈ kvs -> plain_name name = true ->
    doc_path (doc_map kvs) name = d;
  as_integer_int : forall z, - 2 ^ 63 <= z < 2 ^ 63 -> as_integer (doc_int z) = z;
  as_string_str : forall s, as_string (doc_str s) = s;
  doc_hash_range : forall d, - 2 ^ 63 <= doc_hash d < 2 ^ 63;
  doc_view_size : forall d paths, doc_size (doc_view d paths) <= Z.of_nat (length paths);
  doc_view_equal : forall d d' paths, doc_equal (doc_view d paths) (doc_view d' paths) = true ->
    doc_view_force d paths = doc_view_force d' paths;
  matches_all : forall d, matches_predicates d doc_null = true;
  (** a predicate that gives a plain value at a path *)
  matches_equal : forall d p path v, matches_predicates d p = true -> plain_path path = true ->
    doc_path_force p path = Some v -> doc_keys v = None ->
    exists w, doc_view_force d [path] = Some w /\ doc_hash w = doc_hash (doc_view p [path]);
  (** a predicate that gives the values at a path *)
  matches_in : forall d p path, matches_predicates d p = true -> plain_path path = true ->
    let arr := doc_path (doc_view p [path]) (path ++ ".$in") in
    doc_empty arr = false -> doc_is_array arr = true ->
    exists w i, doc_view_force d [path] = Some w /\ 0 <= i < doc_size arr /\
      doc_hash w = doc_hash (doc_field path (doc_item arr i));
}.

(** ** An instance: trees *)

Abbreviation jtree := (gen_tree (Z + string)).

Definition jt_null : jtree := GenNode 2 [].
Definition jt_array (ds : list jtree) : jtree := GenNode 0 ds.
Definition jt_map (kvs : list (string * jtree)) : jtree :=
  GenNode 1 (mjoin ((fun kv => [GenLeaf (inr kv.1); kv.2]) <$> kvs)).

(** The words of a tree in postfix form *)
Definition jt_token (t : nat * nat + (Z + string)) : list Z :=
  match t with
  | inl (len, n) => [0; Z.of_nat len; Z.of_nat n]
  | inr (inl z) => [1; z]
  | inr (inr s) => 2 :: ((fun c => Z.of_N (N_of_ascii c)) <$> String.list_ascii_of_string s) ++ [-1]
  end.

(** [acc] is the string that is being read, if any. *)
Fixpoint jt_tokens (acc : option (list ascii)) (ws : list Z) : list (nat * nat + (Z + string)) :=
  match acc, ws with
  | Some cs, w :: ws =>
      if w <? 0 then inr (inr (String.string_of_list_ascii cs)) :: jt_tokens None ws
      else jt_tokens (Some (cs ++ [ascii_of_N (Z.to_N w)])) ws
  | None, 0 :: len :: n :: ws => inl (Z.to_nat len, Z.to_nat n) :: jt_tokens None ws
  | None, 1 :: z :: ws => inr (inl z) :: jt_tokens None ws
  | None, 2 :: ws => jt_tokens (Some []) ws
  | _, _ => []
  end.

Lemma jt_tokens_string cs acc ws :
  jt_tokens (Some acc) (((fun c => Z.of_N (N_of_ascii c)) <$> cs) ++ -1 :: ws) =
  inr (inr (String.string_of_list_ascii (acc ++ cs))) :: jt_tokens None ws.
Proof.
  revert acc. induction cs as [|c cs IH]; intros acc; cbn.
  - by rewrite app_nil_r.
  - destruct (Z.ltb_spec (Z.of_N (N_of_ascii c)) 0); [lia|]. by rewrite IH, N2Z.id, ascii_N_embedding, <-app_assoc.
Qed.

Lemma jt_tokens_of ts : jt_tokens None (ts ≫= jt_token) = ts.
Proof.
  induction ts as [|[[len n]|[z|s]] ts IH]; [done|..]; cbn [mbind list_bind jt_token app] in *.
  - cbn [jt_tokens]. by rewrite !Nat2Z.id, IH.
  - cbn [jt_tokens]. by rewrite IH.
  - cbn [jt_tokens]. rewrite <-app_assoc. cbn [app].
    rewrite jt_tokens_string, IH. cbn [app]. by rewrite String.string_of_list_ascii_of_string.
Qed.

(** The fields of a map; the first of a name counts. *)
Fixpoint jt_lookup (key : string) (kvs : list jtree) : option jtree :=
  match kvs with
  | GenLeaf (inr k) :: v :: kvs => if decide (k = key) then Some v else jt_lookup key kvs
  | _ => None
  end.

Definition jt_get (key : string) (d : jtree) : option jtree :=
  match d with GenNode 1 kvs => jt_lookup key kvs | _ => None end.

Fixpoint jt_names (kvs : list jtree) : list string :=
  match kvs with
  | GenLeaf (inr k) :: _ :: kvs => k :: jt_names kvs
  | _ => []
  end.

Definition jt_set (d : jtree) (key : string) (v : jtree) : jtree :=
  match d with
  | GenNode 1 kvs => GenNode 1 (GenLeaf (inr key) :: v :: kvs)
  | _ => d
  end.

Definition jt_is_null (d : jtree) : bool := match d with GenNode 2 [] => true | _ => false end.

(** What is at a path: dots separate names, unless a name has them itself. *)
Fixpoint jt_walk (d : jtree) (acc path : string) : option jtree :=
  match path with
  | EmptyString => jt_get acc d
  | String c path =>
      match (if Ascii.eqb c "." then jt_get acc d else None) with
      | Some d' => jt_walk d' EmptyString path
      | None => jt_walk d (acc ++ String c EmptyString) path
      end
  end.

Definition jt_view (d : jtree) (paths : list string) : jtree :=
  jt_map (omap (fun p => pair p <$> jt_walk d EmptyString p) paths).

Definition jt_view_force (d : jtree) (paths : list string) : option jtree :=
  jt_map <$> mapM (fun p => pair p <$> jt_walk d EmptyString p) paths.

(** Predicates: maps are matched field by field, [$in] takes an array. *)
Fixpoint jt_matches (d p : jtree) {struct p} : bool :=
  match p with
  | GenNode 1 kvs =>
      (fix go (kvs : list jtree) : bool :=
        match kvs with
        | GenLeaf (inr k) :: v :: kvs =>
            (if decide (k = "$in"%string) then match v with GenNode 0 ds => bool_decide (d ∈ ds) | _ => false end
             else if plain_path k then
               match jt_walk d EmptyString k with Some w => jt_matches w v | None => false end
             else false) && go kvs
        | _ => true
        end) kvs
  | _ => bool_decide (d = p)
  end.

Definition jt_bytes (d : jtree) : list Z := gen_tree_to_list d ≫= jt_token.

#[global] Instance jtree_json : Json jtree := {|
  doc_null := jt_null;
  doc_valid d := negb (jt_is_null d);
  doc_empty := jt_is_null;
  doc_bytes := jt_bytes;
  doc_parse l := default jt_null (gen_tree_of_list [] (jt_tokens None l));
  doc_array := jt_array;
  doc_map := jt_map;
  doc_int z := GenLeaf (inl z);
  doc_str s := GenLeaf (inr s);
  doc_bool b := GenLeaf (inl (Z.b2z b));
  doc_item d i := match d with GenNode 0 ds => default jt_null (ds !! Z.to_nat i) | _ => jt_null end;
  as_integer d := match d with GenLeaf (inl z) => z | _ => 0 end;
  as_string d := match d with GenLeaf (inr s) => s | _ => EmptyString end;
  doc_path d p := default jt_null (jt_walk d EmptyString p);
  doc_add := jt_set;
  doc_insert := jt_set;
  doc_path_force d p := jt_walk d EmptyString p;
  doc_view := jt_view;
  doc_view_force := jt_view_force;
  doc_equal d d' := bool_decide (d = d');
  doc_hash d := fold_left (fun h w => (31 * h + w) mod 2 ^ 63) (jt_bytes d) 0;
  doc_size d := match d with
                | GenNode 0 ds => Z.of_nat (length ds)
                | GenNode 1 kvs => Z.of_nat (length (jt_names kvs))
                | _ => 0
                end;
  doc_keys d := match d with GenNode 1 kvs => Some (jt_names kvs) | _ => None end;
  doc_is_array d := match d with GenNode 0 _ => true | _ => false end;
  doc_field k v := jt_map [(k, v)];
  matches_predicates d p := jt_is_null p || jt_matches d p;
|}.

Lemma jt_names_map kvs : jt_names (mjoin ((fun kv : string * jtree => [GenLeaf (inr kv.1); kv.2]) <$> kvs)) = kvs.*1.
Proof. induction kvs as [|[k v] kvs IH]; [done|]. cbn. f_equal. exact IH. Qed.

Lemma jt_map_inj kvs kvs' : jt_map kvs = jt_map kvs' -> kvs = kvs'.
Proof.
  unfold jt_map. intros [= E]. revert kvs' E.
  induction kvs as [|[k v] kvs IH]; intros [|[k' v'] kvs'] E; try done.
  cbn in E. injection E as -> -> E. f_equal. by apply IH.
Qed.

(** The non-forced view says which paths there are. *)
Lemma jt_view_equal d d' paths : jt_view d paths = jt_view d' paths -> jt_view_force d paths = jt_view_force d' paths.
Proof.
  intros E%jt_map_inj. unfold jt_view_force. f_equal.
  enough (forall p, p ∈ paths -> jt_walk d EmptyString p = jt_walk d' EmptyString p) as Heq.
  { clear E. induction paths as [|p paths IH]; [done|]. cbn. rewrite Heq by left.
    rewrite IH; [done|]. intros q Hq. apply Heq. by right. }
  assert (forall d p v, p ∈ paths -> jt_walk d EmptyString p = Some v <->
    (p, v) ∈ omap (fun p => pair p <$> jt_walk d EmptyString p) paths) as Hin.
  { clear E. intros e p v Hp. rewrite list_elem_of_omap. split.
    - intros Hv. exists p. by rewrite Hv.
    - intros (q & _ & (w & Hw & [= -> ->])%fmap_Some). done. }
  intros p Hp. apply option_eq. intros v. by rewrite !Hin, E.
Qed.

Lemma string_app_assoc (s1 s2 s3 : string) : ((s1 ++ s2) ++ s3)%string = (s1 ++ (s2 ++ s3))%string.
Proof.
  induction s1 as [|c s1 IH]; [done|].
  change (String c ((s1 ++ s2) ++ s3) = String c (s1 ++ (s2 ++ s3)))%string. by rewrite IH.
Qed.

Lemma string_app_nil (s : string) : (s ++ EmptyString)%string = s.
Proof.
  induction s as [|c s IH]; [done|]. change (String c (s ++ EmptyString) = String c s)%string. by rewrite IH.
Qed.

Lemma string_app_longer s c t : (s ++ String c t)%string <> s.
Proof. induction s as [|c' s IH]; [done|]. cbn. by intros [= E]. Qed.

Lemma jt_get_single k k' v : jt_get k (jt_map [(k', v)]) = if decide (k' = k) then Some v else None.
Proof. done. Qed.

Lemma jt_walk_dot d acc path :
  jt_walk d acc (String "." path) =
  match jt_get acc d with Some d' => jt_walk d' EmptyString path | None => jt_walk d (acc ++ ".") path end.
Proof. done. Qed.

(** A view keeps the path as a name. *)
Lemma jt_walk_view acc r q v :
  jt_walk (jt_map [((acc ++ r)%string, v)]) acc (r ++ String "." q) = jt_walk v EmptyString q.
Proof.
  revert acc. induction r as [|c r IH]; intros acc.
  - rewrite string_app_nil. change (EmptyString ++ String "." q)%string with (String "." q).
    by rewrite jt_walk_dot, jt_get_single, decide_True.
  - change (String c r ++ String "." q)%string with (String c (r ++ String "." q)). cbn [jt_walk].
    rewrite jt_get_single, decide_False by apply string_app_longer.
    replace (if Ascii.eqb c "." then None else None) with (@None jtree) by (by destruct (Ascii.eqb c ".")).
    replace (acc ++ String c r)%string with ((acc ++ String c EmptyString) ++ r)%string by (by rewrite string_app_assoc).
    apply IH.
Qed.

Lemma jt_walk_none d acc path : (forall k, jt_get k d = None) -> jt_walk d acc path = None.
Proof.
  intros Hd. revert acc. induction path as [|c path IH]; intros acc; cbn [jt_walk]; rewrite Hd; [done|].
  by destruct (Ascii.eqb c ".").
Qed.

(** Walking a path in two parts *)
Lemma jt_walk_app d acc k rest w :
  jt_walk d acc k = Some w -> jt_walk d acc (k ++ String "." rest) = jt_walk w EmptyString rest.
Proof.
  revert d acc. induction k as [|c k IH]; intros d acc; cbn [jt_walk].
  - intros E. change (EmptyString ++ String "." rest)%string with (String "." rest). by rewrite jt_walk_dot, E.
  - change (String c k ++ String "." rest)%string with (String c (k ++ String "." rest)). cbn [jt_walk].
    destruct (if Ascii.eqb c "." then jt_get acc d else None); apply IH.
Qed.

(** The first name on a path *)
Lemma jt_walk_first p acc path v :
  jt_walk p acc path = Some v -> exists k u, jt_get k p = Some u /\
    (((acc ++ path)%string = k /\ u = v) \/
     exists rest, (acc ++ path)%string = (k ++ String "." rest)%string /\ jt_walk u EmptyString rest = Some v /\
       (String.length rest < String.length path)%nat).
Proof.
  revert p acc. induction path as [|c path IH]; intros p acc; cbn [jt_walk].
  - intros E. exists acc, v. rewrite string_app_nil. auto.
  - destruct (Ascii.eqb_spec c ".") as [->|Hc]; [destruct (jt_get acc p) as [u|] eqn:E|].
    + intros Hw. exists acc, u. split; [done|]. right. exists path. split_and!; [done|done|cbn; lia].
    + intros (k & u & Hk & Hu)%IH. exists k, u. split; [done|]. rewrite string_app_assoc in Hu.
      destruct Hu as [?|(rest & ? & ? & ?)]; [by left|right]. exists rest. split_and!; [done|done|cbn; lia].
    + intros (k & u & Hk & Hu)%IH. exists k, u. split; [done|]. rewrite string_app_assoc in Hu.
      destruct Hu as [?|(rest & ? & ? & ?)]; [by left|right]. exists rest. split_and!; [done|done|cbn; lia].
Qed.

Lemma plain_path_app s t : plain_path (s ++ t) = plain_path s && plain_path t.
Proof.
  unfold plain_path. induction s as [|c s IH]; [done|]. change (String c s ++ t)%string with (String c (s ++ t)).
  cbn [String.list_ascii_of_string forallb]. by rewrite IH, andb_assoc.
Qed.

Lemma jt_matches_get d p k v :
  jt_matches d p = true -> jt_get k p = Some v ->
  if decide (k = "$in"%string) then exists ds, v = GenNode 0 ds /\ d ∈ ds
  else exists w, jt_walk d EmptyString k = Some w /\ jt_matches w v = true.
Proof.
  destruct p as [|[|[|n]] kvs]; try done. cbn [jt_matches jt_get].
  remember (length kvs) as n eqn:Hn. revert kvs Hn.
  induction n as [n IH] using lt_wf_ind; intros kvs ->.
  destruct kvs as [|[[|k']|] [|v' kvs]]; try done. cbn [jt_lookup].
  intros [Hf Hgo]%andb_true_iff. destruct (decide (k' = k)) as [->|].
  - intros [= ->]. case_decide.
    + destruct v as [|[|] ds]; try done. exists ds. by apply bool_decide_eq_true in Hf.
    + destruct (plain_path k); [|done]. destruct (jt_walk d EmptyString k) as [w|]; [|done]. by exists w.
  - intros Hv. eapply (IH (length kvs)); [cbn; lia|done|done|done].
Qed.

Lemma jt_matches_walk path d p v :
  jt_matches d p = true -> plain_path path = true -> jt_walk p EmptyString path = Some v ->
  exists w, jt_walk d EmptyString path = Some w /\ jt_matches w v = true.
Proof.
  remember (String.length path) as n eqn:Hn. revert path Hn d p.
  induction n as [n IH] using lt_wf_ind; intros path -> d p Hm Hpl Hw.
  destruct (jt_walk_first _ _ _ _ Hw) as (k & u & Hk & Hu). change (EmptyString ++ path)%string with path in Hu.
  pose proof (jt_matches_get _ _ _ _ Hm Hk) as Hget.
  destruct Hu as [[-> ->]|(rest & -> & Hu & Hl)].
  - case_decide; [subst; done|done].
  - rewrite plain_path_app in Hpl. apply andb_true_iff in Hpl as [Hpk Hpr].
    case_decide; [subst; done|]. destruct Hget as (w & Hkw & Hwu).
    rewrite (jt_walk_app _ _ _ _ _ Hkw). eapply IH; [exact Hl|done|done|exact Hpr|done].
Qed.

Lemma jt_view_in p path :
  let arr := default jt_null (jt_walk (jt_view p [path]) EmptyString (path ++ ".$in")) in
  jt_is_null arr = false -> exists v, jt_walk p EmptyString path = Some v /\ jt_get "$in" v = Some arr.
Proof.
  intros arr Harr. unfold arr, jt_view in *. clear arr. cbn [omap list_omap] in *.
  destruct (jt_walk p EmptyString path) as [v|]; cbn [fmap option_fmap option_map] in *;
    [|by rewrite jt_walk_none in Harr].
  exists v. split; [done|]. pose proof (jt_walk_view EmptyString path "$in" v) as Hin.
  change (EmptyString ++ path)%string with path in Hin. change (String "." "$in") with ".$in"%string in Hin.
  rewrite Hin in *. change (jt_walk v EmptyString "$in") with (jt_get "$in" v) in *.
  by destruct (jt_get "$in" v).
Qed.

Lemma jt_view_force_one d path w : jt_walk d EmptyString path = Some w -> jt_view_force d [path] = Some (jt_map [(path, w)]).
Proof. intros Hw. unfold jt_view_force. cbn [mapM]. by rewrite Hw. Qed.

Lemma jt_view_one d path w : jt_walk d EmptyString path = Some w -> jt_view d [path] = jt_map [(path, w)].
Proof. intros Hw. unfold jt_view. cbn [omap list_omap]. by rewrite Hw. Qed.

Lemma jt_hash_range d : 0 <= fold_left (fun h w => (31 * h + w) mod 2 ^ 63) (jt_bytes d) 0 < 2 ^ 63.
Proof.
  enough (forall ws h, 0 <= h < 2 ^ 63 -> 0 <= fold_left (fun h w => (31 * h + w) mod 2 ^ 63) ws h < 2 ^ 63) as Hg
    by (apply Hg; lia).
  induction ws as [|w ws IH]; intros h Hh; [done|]. cbn [fold_left]. apply IH, Z.mod_pos_bound. lia.
Qed.

Lemma jt_lookup_map kvs name (d : jtree) : NoDup kvs.*1 -> (name, d) ∈ kvs -> jt_get name (jt_map kvs) = Some d.
Proof.
  induction kvs as [|[k v] kvs IH]; [by intros _ ?%elem_of_nil|]. cbn. intros [Hk Hnd]%NoDup_cons.
  rewrite elem_of_cons. intros [[= -> ->]|Hin]; [by rewrite decide_True|]. rewrite decide_False; [by apply IH|].
  intros ->. apply Hk. apply (list_elem_of_fmap_2' fst _ _ _ Hin). done.
Qed.

Lemma jt_walk_name d acc name : plain_name name = true -> jt_walk d acc name = jt_get (acc ++ name) d.
Proof.
  revert acc. induction name as [|c name IH]; intros acc; [by rewrite string_app_nil|].
  cbn. intros [[_ Hc]%andb_true_iff Hn]%andb_true_iff. destruct (Ascii.eqb c "."); [done|].
  rewrite IH by done. by rewrite string_app_assoc.
Qed.

#[global] Instance jtree_json_laws : JsonLaws jtree.
Proof.
  split; cbn -[jt_matches Z.pow jt_view jt_view_force jt_bytes jt_map plain_name]; try done.
  - intros d _. unfold jt_bytes. rewrite jt_tokens_of, <-(app_nil_r (gen_tree_to_list d)), gen_tree_of_to_list. done.
  - intros ds i d Hi. by rewrite Nat2Z.id, Hi.
  - intros kvs name d Hnd Hin Hn. rewrite jt_walk_name by done.
    change (EmptyString ++ name)%string with name. by rewrite (jt_lookup_map _ _ d).
  - intros d. pose proof (jt_hash_range d). lia.
  - intros d paths. unfold jt_view, jt_map. rewrite jt_names_map, length_fmap. apply inj_le.
    induction paths as [|p paths IH]; [done|]. cbn. destruct (jt_walk d EmptyString p); cbn; lia.
  - intros d d' paths E%bool_decide_eq_true. by apply jt_view_equal.
  - intros d p path v [Hn|Hm]%orb_true_iff Hpl Hv Hk.
    { destruct p as [|[|[|[|]]] [|]]; try done. by rewrite jt_walk_none in Hv. }
    destruct (jt_matches_walk _ _ _ _ Hm Hpl Hv) as (w & Hw & Hwv).
    assert (w = v) as -> by (destruct v as [|[|[|]]]; try done; by apply bool_decide_eq_true in Hwv).
    exists (jt_map [(path, v)]). by rewrite (jt_view_force_one _ _ _ Hw), (jt_view_one _ _ _ Hv).
  - intros d p path Hpm Hpl Hne Harr. destruct (jt_view_in _ _ Hne) as (v & Hv & Hin).
    destruct (default _ _) as [|[|] ds] eqn:E; try done. clear Harr Hne E.
    assert (jt_matches d p = true) as Hm.
    { apply orb_true_iff in Hpm as [Hn|]; [|done]. destruct p as [|[|[|[|]]] [|]]; try done.
      by rewrite jt_walk_none in Hv. }
    destruct (jt_matches_walk _ _ _ _ Hm Hpl Hv) as (w & Hw & Hwv).
    pose proof (jt_matches_get _ _ _ _ Hwv Hin) as (ds' & [= <-] & Hds).
    apply list_elem_of_lookup in Hds as [i Hi]. exists (jt_map [(path, w)]), (Z.of_nat i).
    rewrite (jt_view_force_one _ _ _ Hw), Nat2Z.id, Hi. apply lookup_lt_Some in Hi. split_and!; [done|lia|lia|done].
Qed.
