(* ===== verification/Index.v ===== *)
(** * Secondary indexes

    Models [src/enclave/Index.h] and [src/enclave/Index.cpp]: the virtual class
    [Index] as a type class with its laws, and [HashIndex], which files the keys
    of documents in a multimap ([MultiMap.v]) under the hash of the indexed
    field. *)

From Stdlib Require Import Ascii.
From S2P Require Import Prelude Bitstream PageStore Hash HashMapNode AbstractMap MultiMap Json.

(** [ix_rep x l room]: index [x] holds the entries [l], pairs of a hash and a
    key, and can take [room] more.  [ix_hash x d] is the hash under which [x]
    files document [d], if [d] has the fields; [ix_query x view] are the hashes
    at which [x] looks for the part [view] of a predicate (none if the operand
    of [$in] is no array); [ix_exact x p] says that looking there is enough for
    predicate [p]; [ix_usable paths] are the paths there may be indexes on. *)
Class Index (X D : Type) : Type := {
  ix_paths : X -> list string;
  ix_hash : X -> D -> option Z;
  ix_query : X -> D -> option (list Z);
  ix_exact : X -> D -> Prop;
  ix_usable : list string -> Prop;
  ix_key : string -> Prop;
  ix_rep : X -> list (Z * string) -> Z -> Prop;
  ix_compare : X -> D -> D -> bool;
  ix_matches_query : X -> D -> bool;
  ix_insert : D -> string -> ST X bool;
  ix_remove : D -> string -> ST X bool;
  ix_clear : ST X unit;
  ix_find : D -> gset string -> SetOperation -> ST X (gset string);
  ix_estimate_value_count : D -> ST X Z;
}.

(** What operations keep: what the index does depends on its paths and its
    entries only. *)
Definition ix_same {X D} `{Index X D} (x x' : X) : Prop :=
  ix_paths x' = ix_paths x /\ (forall d, ix_hash x' d = ix_hash x d) /\
  (forall d, ix_query x' d = ix_query x d) /\ (forall p, ix_exact x p -> ix_exact x' p) /\
  (forall p, ix_matches_query x' p = ix_matches_query x p).

Lemma ix_same_refl {X D} `{Index X D} (x : X) : ix_same x x.
Proof. by split_and!. Qed.

Lemma ix_same_trans {X D} `{Index X D} (x y z : X) : ix_same x y -> ix_same y z -> ix_same x z.
Proof.
  intros (Hp & Hh & Hq & He & Hm) (Hp' & Hh' & Hq' & He' & Hm'). split_and!; [congruence|intros..].
  - by rewrite Hh'.
  - by rewrite Hq'.
  - by apply He', He.
  - by rewrite Hm'.
Qed.

(** The keys filed under one of the hashes *)
Definition keys_at (hs : list Z) (l : list (Z * string)) : gset string :=
  list_to_set (filter (fun e => e.1 ∈ hs) l).*2.

Definition set_op (op : SetOperation) (out found : gset string) : gset string :=
  match op with Union => out ∪ found | Intersect => out ∩ found end.

Class IndexLaws (X D : Type) `{Json D} `{Index X D} : Prop := {
  ix_one_path : forall paths, ix_usable paths -> length paths = 1%nat;
  ix_rep_usable : forall x l room, ix_rep x l room -> ix_usable (ix_paths x);
  ix_compare_spec : forall x d d', ix_compare x d d' = true -> ix_hash x d = ix_hash x d';
  ix_insert_spec : forall x l room d k, ix_rep x l room -> 0 < room -> ix_key k ->
    wp (ix_insert d k) (fun _ x' => ix_same x x' /\
      ix_rep x' (match ix_hash x d with Some h => (h, k) :: l | None => l end) (room - 1)) x;
  ix_remove_spec : forall x l room d k, ix_rep x l room ->
    (forall h, ix_hash x d = Some h -> (h, k) ∈ l) ->
    wp (ix_remove d k) (fun _ x' => ix_same x x' /\ exists l', ix_rep x' l' room /\
      l ≡ₚ match ix_hash x d with Some h => (h, k) :: l' | None => l' end) x;
  ix_clear_spec : forall x l room, ix_rep x l room ->
    wp ix_clear (fun _ x' => ix_same x x' /\ ix_rep x' [] room) x;
  ix_find_spec : forall x l room view hs out op, ix_rep x l room -> ix_query x view = Some hs ->
    wp (ix_find view out op) (fun r x' => r = set_op op out (keys_at hs l) /\ ix_same x x' /\ ix_rep x' l room) x;
  ix_estimate_spec : forall x l room view, ix_rep x l room ->
    wp (ix_estimate_value_count view) (fun _ x' => ix_same x x' /\ ix_rep x' l room) x;
  ix_query_complete : forall x d p hs, matches_predicates d p = true -> ix_matches_query x p = true ->
    ix_usable (ix_paths x) -> ix_exact x p -> ix_query x (doc_view p (ix_paths x)) = Some hs ->
    exists h, ix_hash x d = Some h /\ h ∈ hs;
}.

(** ** The hash index *)

Record HashIndex (S : Type) : Type := mkHashIndex {
  hi_name : string;
  hi_paths : list string;
  hi_map : amap S;
}.
Arguments mkHashIndex {S}.
Arguments hi_name {S}.
Arguments hi_paths {S}.
Arguments hi_map {S}.

Section HashIndex.
Context {D : Type} `{Json D} {S : Type} `{PageStore S node}.

(** The fields that are indexed *)
Variables (sizeof_node : Z) (fields : list string).
Implicit Types (x : HashIndex S) (document predicate view : D) (key : string).

(** The constructor; [s] is where its map keeps its pages. *)
Definition HashIndex_new (s : S) (name : string) (paths : list string) : result (HashIndex S) :=
  if Z.of_nat (length paths) =? 1 then Ok (mkHashIndex name paths (amap_init s))
  else Throw (Runtime_error "HashIndex doesn't support multiple paths for now").

Definition on_map {A} (m : ST (amap S) A) : ST (HashIndex S) A :=
  zoom hi_map (fun mp x => mkHashIndex (hi_name x) (hi_paths x) mp) m.

Definition Index_compare x (first second : D) : bool :=
  doc_equal (doc_view first (hi_paths x)) (doc_view second (hi_paths x)).

(** Operators other than [$in] are not supported. *)
Definition operator_ok (key : string) : bool :=
  match key with
  | String c _ => if Ascii.eqb c "$"%char then bool_decide (key = "$in"%string) else true
  | EmptyString => true
  end.

Definition path_matches predicate (path : string) : bool :=
  match doc_path_force predicate path with
  | None => false
  | Some view => match doc_keys view with Some keys => forallb operator_ok keys | None => true end
  end.

Definition HashIndex_matches_query x predicate : bool := forallb (path_matches predicate) (hi_paths x).

Definition HashIndex_insert document key : ST (HashIndex S) bool :=
  x ← get_st;
  match doc_view_force document (hi_paths x) with
  | None => mret false
  | Some view => _ ← on_map (MultiMap_insert sizeof_node hash_int64 (doc_hash view) key); mret true
  end.

Definition HashIndex_remove document key : ST (HashIndex S) bool :=
  x ← get_st;
  match doc_view_force document (hi_paths x) with
  | None => mret false
  | Some view => on_map (MultiMap_remove hash_int64 (doc_hash view) key)
  end.

Definition HashIndex_clear : ST (HashIndex S) unit := on_map MultiMap_clear.

(** The hashes of the documents with one of the values of [arr] at [vkey] *)
Definition in_hashes (vkey : string) (arr : D) : list Z :=
  (fun i => doc_hash (doc_field vkey (doc_item arr i))) <$> seqZ 0 (doc_size arr).

Fixpoint union_loop (hs : list Z) (set : gset string) : ST (HashIndex S) (gset string) :=
  match hs with
  | [] => mret set
  | h :: hs => set ← on_map (MultiMap_find hash_int64 h set Union); union_loop hs set
  end.

Definition HashIndex_find predicate (out : gset string) (op : SetOperation) : ST (HashIndex S) (gset string) :=
  x ← get_st;
  match hi_paths x with
  | [vkey] =>
      let arr := doc_path predicate (vkey ++ ".$in") in
      if doc_empty arr then on_map (MultiMap_find hash_int64 (doc_hash predicate) out op)
      else if negb (doc_is_array arr) then throw (Runtime_error "$in operand is not an array")
      else match op with
      | Union => union_loop (in_hashes vkey arr) out
      | Intersect => set ← union_loop (in_hashes vkey arr) ∅; mret (filter (fun k => k ∈ set) out)
      end
  | _ => throw (Fatal "Invalid state: need exactly one path")
  end.

Definition HashIndex_estimate_value_count predicate : ST (HashIndex S) Z :=
  x ← get_st;
  match hi_paths x with
  | [vkey] =>
      let arr := doc_path predicate (vkey ++ ".$in") in
      if doc_empty arr then on_map (MultiMap_estimate_value_count (V := string) hash_int64 (doc_hash predicate))
      else mret 0
  | _ => throw (Fatal "Invalid state")
  end.

(** What the index promises: the hashes it looks at *)
Definition HashIndex_query x view : option (list Z) :=
  match hi_paths x with
  | [vkey] =>
      let arr := doc_path view (vkey ++ ".$in") in
      if doc_empty arr then Some [doc_hash view]
      else if negb (doc_is_array arr) then None
      else Some (in_hashes vkey arr)
  | _ => None
  end.

(** The predicate gives a plain value or the values at the path. *)
Definition HashIndex_exact x predicate : Prop :=
  Forall (fun path => forall v, doc_path_force predicate path = Some v ->
    doc_keys v = None \/ doc_empty (doc_path (doc_view predicate [path]) (path ++ ".$in")) = false) (hi_paths x).

Definition HashIndex_usable (paths : list string) : Prop :=
  exists path, paths = [path] /\ plain_path path = true /\ path ∈ fields.

Definition HashIndex_rep x (l : list (Z * string)) (room : Z) : Prop :=
  HashIndex_usable (hi_paths x) /\ Z.of_nat (length l) + Z.max 0 room < 2 ^ 64 /\
  exists av, mm_inv hash_int64 (hi_map x) l av /\ 2 * room <= av.

Definition HashIndex_index : Index (HashIndex S) D := {|
  ix_paths := hi_paths;
  ix_hash x d := doc_hash <$> doc_view_force d (hi_paths x);
  ix_query := HashIndex_query;
  ix_exact := HashIndex_exact;
  ix_usable := HashIndex_usable;
  ix_key := codec_wf;
  ix_rep := HashIndex_rep;
  ix_compare := Index_compare;
  ix_matches_query := HashIndex_matches_query;
  ix_insert := HashIndex_insert;
  ix_remove := HashIndex_remove;
  ix_clear := HashIndex_clear;
  ix_find := HashIndex_find;
  ix_estimate_value_count := HashIndex_estimate_value_count;
|}.
End HashIndex.

Section Laws.
Context {D : Type} `{JsonLaws D} {S : Type} `{PageStoreLaws S node}.
Variables (sizeof_node : Z) (fields : list string).
Hypothesis sizeof_node_small : 0 <= sizeof_node < MAX_NODE_SIZE - 24.
#[local] Instance the_index : Index (HashIndex S) D := HashIndex_index sizeof_node fields.
Implicit Types (x : HashIndex S) (d p view : D).

Lemma ix_same_paths x x' : hi_paths x' = hi_paths x -> ix_same x x'.
Proof.
  intros E. unfold ix_same. cbn. unfold HashIndex_query, HashIndex_exact, HashIndex_matches_query. rewrite E. done.
Qed.

Lemma keys_at_one h (l : list (Z * string)) : list_to_set (values_of h l) = keys_at [h] l.
Proof.
  unfold keys_at, values_of. f_equal. f_equal. apply list_filter_iff. intros e. by rewrite list_elem_of_singleton.
Qed.

Lemma keys_at_cons h hs l : keys_at (h :: hs) l = keys_at [h] l ∪ keys_at hs l.
Proof.
  unfold keys_at. apply leibniz_equiv. intros k. rewrite elem_of_union, !elem_of_list_to_set, !list_elem_of_fmap.
  setoid_rewrite list_elem_of_filter. setoid_rewrite elem_of_cons. setoid_rewrite elem_of_nil. naive_solver.
Qed.

Lemma on_map_ok {A} (f : ST (amap S) A) (Q : A -> Prop) x l room :
  HashIndex_rep fields x l room ->
  (forall av, mm_inv hash_int64 (hi_map x) l av -> wp f (fun r m' => Q r /\ mm_inv hash_int64 m' l av) (hi_map x)) ->
  wp (on_map f) (fun r x' => Q r /\ ix_same x x' /\ HashIndex_rep fields x' l room) x.
Proof.
  intros (Hp & Hl & av & Hm & Hav) Hf. apply wp_zoom. eapply wp_mono; [by apply Hf|]. cbv beta.
  intros r m' [Hr Hm']. split_and!; [done|by apply ix_same_paths|]. split_and!; [done|done|]. by exists av.
Qed.

Lemma map_find_ok x l room h (out : gset string) op :
  HashIndex_rep fields x l room ->
  wp (on_map (MultiMap_find hash_int64 h out op))
    (fun r x' => r = set_op op out (keys_at [h] l) /\ ix_same x x' /\ HashIndex_rep fields x' l room) x.
Proof.
  intros Hx. apply on_map_ok; [done|]. intros av Hm. destruct op; cbn [MultiMap_find set_op].
  - eapply wp_mono; [by eapply MultiMap_find_union_ok|]. cbv beta. intros r m' (-> & Hm' & _).
    split; [|done]. rewrite keys_at_one. apply union_comm_L.
  - eapply wp_mono; [by eapply MultiMap_find_intersect_ok|]. cbv beta. intros r m' (-> & Hm' & _).
    split; [|done]. rewrite <-keys_at_one. apply leibniz_equiv. intros k.
    rewrite elem_of_filter, elem_of_intersection, elem_of_list_to_set. unfold values_of.
    rewrite list_elem_of_fmap. setoid_rewrite list_elem_of_filter. split.
    + intros [Hk ?]. split; [done|]. by exists (h, k).
    + intros [? ([h' k'] & -> & Hh & He)]. cbn in *. by subst.
Qed.

Lemma union_loop_ok hs x l room (set : gset string) :
  HashIndex_rep fields x l room ->
  wp (union_loop hs set) (fun r x' => r = set ∪ keys_at hs l /\ ix_same x x' /\ HashIndex_rep fields x' l room) x.
Proof.
  revert x set. induction hs as [|h hs IH]; intros x set Hx; cbn [union_loop].
  - apply wp_ret. split_and!; [|by apply ix_same_paths|done]. unfold keys_at.
    assert (filter (fun e : Z * string => e.1 ∈ []) l = []) as ->; [|set_solver].
    apply elem_of_nil_inv. by intros e [[]%elem_of_nil _]%list_elem_of_filter.
  - apply wp_bind. eapply wp_mono; [by apply map_find_ok|]. cbv beta. intros ? x1 (-> & Hs1 & Hx1).
    eapply wp_mono; [by apply IH|]. cbv beta. intros ? x2 (-> & Hs2 & Hx2).
    split_and!; [|by eapply ix_same_trans|done]. cbn. rewrite (keys_at_cons h hs). set_solver.
Qed.

Lemma HashIndex_find_ok x l room view hs out op :
  HashIndex_rep fields x l room -> HashIndex_query x view = Some hs ->
  wp (HashIndex_find view out op)
    (fun r x' => r = set_op op out (keys_at hs l) /\ ix_same x x' /\ HashIndex_rep fields x' l room) x.
Proof.
  intros Hx Hq. apply wp_bind, wp_get. unfold HashIndex_query in Hq.
  destruct (hi_paths x) as [|vkey [|]] eqn:Ep; try done. cbv zeta in *.
  destruct (doc_empty _); [injection Hq as <-; by apply map_find_ok|].
  destruct (negb _); [done|]. injection Hq as <-. destruct op; [by apply union_loop_ok|].
  apply wp_bind. eapply wp_mono; [by apply union_loop_ok|]. cbv beta. intros ? x' (-> & Hs & Hx').
  apply wp_ret. split_and!; [|done..]. cbn [set_op]. apply leibniz_equiv. intros k.
  rewrite elem_of_filter, union_empty_l_L, elem_of_intersection. tauto.
Qed.

Lemma HashIndex_query_complete x d p hs :
  matches_predicates d p = true -> HashIndex_matches_query x p = true ->
  HashIndex_usable fields (hi_paths x) -> HashIndex_exact x p ->
  HashIndex_query x (doc_view p (hi_paths x)) = Some hs ->
  exists h, doc_hash <$> doc_view_force d (hi_paths x) = Some h /\ h ∈ hs.
Proof.
  intros Hm Hmq (path & Ep & Hpl & _) Hex Hq. unfold HashIndex_query, HashIndex_matches_query, HashIndex_exact in *.
  rewrite Ep in *. cbv zeta in Hq. cbn in Hmq. rewrite andb_true_r in Hmq.
  apply Forall_cons in Hex as [Hex _]. unfold path_matches in Hmq.
  destruct (doc_path_force p path) as [v|] eqn:Ev; [|done]. specialize (Hex v eq_refl).
  destruct (doc_empty _) eqn:Ee.
  - injection Hq as <-. destruct Hex as [Hk|]; [|congruence].
    destruct (matches_equal _ _ _ _ Hm Hpl Ev Hk) as (w & Hw & Eh). exists (doc_hash w).
    split; [by rewrite Hw|rewrite Eh; left].
  - destruct (negb (doc_is_array _)) eqn:Ea; [done|]. injection Hq as <-. apply negb_false_iff in Ea.
    destruct (matches_in _ _ _ Hm Hpl Ee Ea) as (w & i & Hw & Hi & Eh). exists (doc_hash w). rewrite Hw.
    split; [done|]. rewrite Eh. unfold in_hashes. apply list_elem_of_fmap. exists i.
    split; [done|]. apply elem_of_seqZ. lia.
Qed.

Lemma HashIndex_insert_ok x l room d k :
  HashIndex_rep fields x l room -> 0 < room -> codec_wf k ->
  wp (HashIndex_insert sizeof_node d k) (fun _ x' => ix_same x x' /\
    HashIndex_rep fields x' (match doc_hash <$> doc_view_force d (hi_paths x) with Some h => (h, k) :: l | None => l end)
      (room - 1)) x.
Proof.
  intros (Hp & Hl & av & Hm & Hav) Hr Hk. apply wp_bind, wp_get.
  destruct (doc_view_force d (hi_paths x)) as [view|]; cbn [fmap option_fmap option_map].
  - apply wp_bind, wp_zoom. eapply wp_mono.
    { eapply MultiMap_insert_ok; [done|exact Hm|lia|apply doc_hash_range|done]. }
    cbv beta. intros _ m' (av' & Hm' & Hav' & _). apply wp_ret. split; [by apply ix_same_paths|].
    split_and!; [done|cbn; lia|]. exists av'. split; [done|lia].
  - apply wp_ret. split; [by apply ix_same_paths|]. split_and!; [done|lia|]. exists av. split; [done|lia].
Qed.

Lemma HashIndex_remove_ok x l room d k :
  HashIndex_rep fields x l room -> (forall h, doc_hash <$> doc_view_force d (hi_paths x) = Some h -> (h, k) ∈ l) ->
  wp (HashIndex_remove d k) (fun _ x' => ix_same x x' /\ exists l', HashIndex_rep fields x' l' room /\
    l ≡ₚ match doc_hash <$> doc_view_force d (hi_paths x) with Some h => (h, k) :: l' | None => l' end) x.
Proof.
  intros (Hp & Hl & av & Hm & Hav) Hin. apply wp_bind, wp_get.
  destruct (doc_view_force d (hi_paths x)) as [view|]; cbn [fmap option_fmap option_map] in *.
  - apply wp_zoom. eapply wp_mono; [eapply MultiMap_remove_ok; [done|exact Hm|by apply Hin]|].
    cbv beta. intros r m' (_ & _ & l' & Hperm & Hm'). split; [by apply ix_same_paths|].
    exists l'. split; [|done]. split_and!; [done| |by exists av].
    apply Permutation_length in Hperm. cbn in Hperm. lia.
  - apply wp_ret. split; [by apply ix_same_paths|]. exists l. split; [|done]. split_and!; [done..|]. by exists av.
Qed.

Lemma HashIndex_laws : IndexLaws (HashIndex S) D.
Proof.
  split.
  - by intros paths (path & -> & _).
  - by intros x l room (Hp & _).
  - intros x d d' E. cbn in *. unfold Index_compare in E. by rewrite (doc_view_equal _ _ _ E).
  - intros. by apply HashIndex_insert_ok.
  - intros x l room d k Hx Hin. apply HashIndex_remove_ok; [exact Hx|exact Hin].
  - intros x l room (Hp & Hl & av & Hm & Hav). apply wp_zoom.
    eapply wp_mono; [exact (MultiMap_clear_ok hash_int64 _ _ _ Hm)|]. cbv beta. intros _ m' Hm'.
    split; [by apply ix_same_paths|]. split_and!; [done|cbn; lia|]. by exists av.
  - intros x l room view hs out op Hx Hq. by apply HashIndex_find_ok.
  - intros x l room view Hx. apply wp_bind, wp_get. assert (Hx' := Hx). destruct Hx' as ((vkey & -> & _) & Hl & _). cbv zeta. destruct (doc_empty _).
    + eapply wp_mono; [apply (on_map_ok _ (fun _ => True)); [exact Hx|]|by intros ? ? (_ & ?)].
      intros av Hm. eapply wp_mono; [eapply MultiMap_estimate_ok; [done|lia]|]. by intros ? ? (_ & ? & _).
    + apply wp_ret. split; [by apply ix_same_paths|done].
  - intros x d p hs. apply HashIndex_query_complete.
Qed.

Lemma HashIndex_new_rep s name paths room :
  ps_wf s -> 2 * room <= ps_avail s -> room < 2 ^ 64 -> HashIndex_usable fields paths -> exists x,
    HashIndex_new s name paths = Ok x /\ ix_rep x [] room.
Proof.
  intros Hw Hav Hr Hu. unfold HashIndex_new. destruct (Hu) as (path & -> & _). eexists. split; [done|].
  split_and!; [done|cbn; lia|]. eexists. split; [by apply mm_inv_init|done].
Qed.
End Laws.
