(* ===== verification/Identity.v ===== *)
(** * Identities and operation contexts

    Models [src/common/util/Identity.h], [src/common/util/IdentityDatabase.cpp]
    and [src/enclave/OpContext.h]: who invokes an operation, and the database
    that binds a name to the public key it was first seen with. *)

From Stdlib Require Import Ascii.
From S2P Require Import Prelude.

Inductive IdentityType : Type := IdServer | IdClient.

(** [public_key] is the 64 bytes of [sgx_ec256_public_t]. *)
Record Identity : Type := mkIdentity {
  id_type : IdentityType;
  id_name : string;
  id_public_key : list Z;
}.

Definition INVALID_PUBLIC_KEY : list Z := replicate 64 0.
Definition INVALID_IDENTITY : Identity := mkIdentity IdServer EmptyString INVALID_PUBLIC_KEY.

Definition identity_to_string (i : Identity) : string :=
  match id_type i with
  | IdServer => ("server://" ++ id_name i)%string
  | IdClient => ("client://" ++ id_name i)%string
  end.

(** Identities are compared by name. *)
Definition identity_eqb (first second : Identity) : bool := bool_decide (id_name first = id_name second).

Definition identity_valid (i : Identity) : bool := negb (bool_decide (id_name i = EmptyString)).

(** ** [IdentityDatabase] *)

Definition quoted (s : string) : string := String (Ascii.ascii_of_nat 34) (s ++ String (Ascii.ascii_of_nat 34) EmptyString)%string.

Abbreviation identity_db := (gmap string Identity).

Definition IdentityDatabase_get (name : string) (public_key : list Z) : ST identity_db Identity := fun db =>
  if decide (public_key = INVALID_PUBLIC_KEY) then (Throw (Attestation_error "Not a valid public key!"), db)
  else
    match db !! name with
    | None =>
        let i := mkIdentity IdServer name public_key in
        (Ok i, <[name := i]> db)
    | Some i =>
        if decide (id_public_key i = public_key) then (Ok i, db)
        else (Throw (Attestation_error ("Key's for " ++ quoted name ++ " don't match")), db)
    end.

Definition has_identity (name : string) (db : identity_db) : bool := bool_decide (is_Some (db !! name)).

(** The identifier is a hash of the public key. *)
Definition has_identity_uid (hash : list Z -> Z) (uid : Z) (db : identity_db) : bool :=
  existsb (fun kv => hash (id_public_key kv.2) =? uid) (map_to_list db).

(** ** [OpContext] *)

Record OpContext : Type := mkContext { ctx_identity : Identity; ctx_program : string; }.

Definition ctx_valid (c : OpContext) : bool := negb (identity_eqb (ctx_identity c) INVALID_IDENTITY).
Definition called_by_program (c : OpContext) : bool := negb (bool_decide (ctx_program c = EmptyString)).

Definition ctx_to_string (c : OpContext) : string :=
  if called_by_program c then (identity_to_string (ctx_identity c) ++ ":" ++ ctx_program c)%string
  else identity_to_string (ctx_identity c).

(** ** Lookups in sequence *)

Fixpoint get_all (reqs : list (string * list Z)) : ST identity_db unit :=
  match reqs with
  | [] => mret tt
  | (name, key) :: reqs => fun db => get_all reqs (IdentityDatabase_get name key db).2
  end.

Definition db_wf (db : identity_db) : Prop :=
  map_Forall (fun name i => id_name i = name /\ id_public_key i <> INVALID_PUBLIC_KEY) db.

Lemma IdentityDatabase_get_wf name key db : db_wf db -> db_wf (IdentityDatabase_get name key db).2.
Proof.
  intros Hwf. unfold IdentityDatabase_get. case_decide; [done|].
  destruct (db !! name) as [i|]; [by case_decide|]. by apply map_Forall_insert_2.
Qed.

Lemma IdentityDatabase_get_keeps name key db : db ⊆ (IdentityDatabase_get name key db).2.
Proof.
  unfold IdentityDatabase_get. case_decide; [done|].
  destruct (db !! name) as [i|] eqn:E; [by case_decide|]. by apply insert_subseteq.
Qed.

Lemma get_all_keeps reqs db : db ⊆ (get_all reqs db).2.
Proof.
  revert db. induction reqs as [|[name key] reqs IH]; intros db; [done|]. cbn.
  etrans; [apply (IdentityDatabase_get_keeps name key)|apply IH].
Qed.

(** C36.  A name is bound to the public key it was first seen with, for ever:
    whatever requests come in between, the same name with the same key is
    answered with the same identity, and with any other key it is refused. *)
Theorem IdentityDatabase_binds db name key i db1 reqs key' :
  db_wf db -> IdentityDatabase_get name key db = (Ok i, db1) ->
  let db2 := (get_all reqs db1).2 in
  id_name i = name /\ id_public_key i = key /\
  (key' = key -> IdentityDatabase_get name key' db2 = (Ok i, db2)) /\
  (key' <> key -> exists why, IdentityDatabase_get name key' db2 = (Throw (Attestation_error why), db2)).
Proof.
  intros Hwf Hget db2.
  assert (id_name i = name /\ id_public_key i = key /\ key <> INVALID_PUBLIC_KEY /\ db1 !! name = Some i)
    as (Hn & Hk & Hkey & Hdb1).
  { unfold IdentityDatabase_get in Hget. case_decide; [done|].
    destruct (db !! name) as [i0|] eqn:E.
    - case_decide; [|done]. injection Hget as <- <-. split_and!; [by apply Hwf in E as [? _]|done..].
    - injection Hget as <- <-. by rewrite lookup_insert_eq. }
  assert (db2 !! name = Some i) as Hdb2 by (eapply lookup_weaken; [exact Hdb1|apply get_all_keeps]).
  split_and!; [done..| |].
  - intros ->. unfold IdentityDatabase_get. rewrite decide_False, Hdb2, decide_True by done. done.
  - intros Hne. unfold IdentityDatabase_get. case_decide; [by eexists|].
    rewrite Hdb2, decide_False by congruence. by eexists.
Qed.

Lemma IdentityDatabase_binds_witness :
  IdentityDatabase_get "alice" [1] (get_all [("bob"%string, [2]); ("alice"%string, [3])]
    {["alice"%string := mkIdentity IdServer "alice" [1]]}).2 =
  (Ok (mkIdentity IdServer "alice" [1]), {["alice"%string := mkIdentity IdServer "alice" [1];
     "bob"%string := mkIdentity IdServer "bob" [2]]}).
Proof.
  destruct (IdentityDatabase_binds ∅ "alice" [1] (mkIdentity IdServer "alice" [1])
    {["alice"%string := mkIdentity IdServer "alice" [1]]}
    [("bob"%string, [2]); ("alice"%string, [3])] [1]) as (_ & _ & Hs & _);
    [apply map_Forall_empty|reflexivity|]. rewrite Hs by reflexivity. reflexivity.
Defined.
