(* ===== verification/ObjectEvent.v ===== *)
(** * Object events

    Models [src/enclave/ObjectEventHandle.h] and [ObjectEventHandle.cpp], and the
    documents that [Ledger::put_next_version] and [Ledger::put_tombstone] write:
    an event of the ledger is a JSON array whose positions are the [FIELD_]
    constants. *)

From S2P Require Import Prelude EventId Json.

Inductive ObjectEventType : Type := NewVersion | ReadEvent | Deletion | OtherEvent (code : Z).

#[global] Instance ObjectEventType_eq_dec : EqDecision ObjectEventType.
Proof. solve_decision. Defined.

Definition event_type_code (t : ObjectEventType) : Z :=
  match t with NewVersion => 0 | ReadEvent => 1 | Deletion => 2 | OtherEvent c => c end.

(** [static_cast<ObjectEventType>] *)
Definition event_type_of (code : Z) : ObjectEventType :=
  if code =? 0 then NewVersion else if code =? 1 then ReadEvent
  else if code =? 2 then Deletion else OtherEvent code.

Definition FIELD_TYPE : Z := 0.
Definition FIELD_SOURCE : Z := 1.
Definition FIELD_PREVIOUS_BLOCK : Z := 2.
Definition FIELD_PREVIOUS_INDEX : Z := 3.
Definition FIELD_VALUE : Z := 4.
Definition FIELD_VERSION_NO : Z := 5.
Definition FIELD_TRANSACTION_BLOCK : Z := 6.
Definition FIELD_TRANSACTION_INDEX : Z := 7.

Section Events.
Context {D : Type} `{Json D}.
Implicit Types h doc : D.

(** A handle is its document; the default one is the invalid document. *)
Definition handle_valid h : bool := doc_valid h.
Definition ev_source h : string := as_string (doc_item h FIELD_SOURCE).
Definition ev_previous_index h : Z := u16 (as_integer (doc_item h FIELD_PREVIOUS_INDEX)).
Definition ev_previous_block h : Z := u32 (as_integer (doc_item h FIELD_PREVIOUS_BLOCK)).
Definition ev_has_predecessor h : bool := negb (ev_previous_block h =? INVALID_BLOCK).
Definition ev_get_type h : ObjectEventType := event_type_of (as_integer (doc_item h FIELD_TYPE)).
Definition ev_version_number h : Z := u32 (as_integer (doc_item h FIELD_VERSION_NO)).
Definition ev_is_initial_version h : bool := ev_version_number h =? INITIAL_VERSION_NO.

Definition ev_transaction_ref h : ledger_pos_t :=
  LedgerPos (u32 (as_integer (doc_item h FIELD_TRANSACTION_BLOCK)))
        (u16 (as_integer (doc_item h FIELD_TRANSACTION_INDEX))).

Definition ev_value h : result D :=
  if handle_valid h then Ok (doc_item h FIELD_VALUE)
  else Throw (Runtime_error "Cannot get object value: not a valid handle!").

Definition ev_value_path h (path : string) : result D :=
  if decide (path = EmptyString) then ev_value h else Ok (doc_path (doc_item h FIELD_VALUE) path).

Definition ev_get_policy h : result D :=
  match ev_value h with
  | Ok v => Ok (doc_path v "policy")
  | Throw e => Throw e
  end.

(** The documents the ledger writes *)
Definition version_doc (source : string) (prev_block prev_index : Z) doc (version : Z)
    (transaction_ref : ledger_pos_t) : D :=
  doc_array [doc_int (event_type_code NewVersion); doc_str source; doc_int prev_block; doc_int prev_index;
             doc; doc_int version; doc_int (lp_block transaction_ref); doc_int (lp_index transaction_ref)].

Definition tombstone_doc (source : string) (prev_block prev_index : Z) (transaction_ref : ledger_pos_t) : D :=
  doc_array [doc_int (event_type_code Deletion); doc_str source; doc_int prev_block; doc_int prev_index;
             doc_int (lp_block transaction_ref); doc_int (lp_index transaction_ref)].

End Events.

Section Laws.
Context {D : Type} `{JsonLaws D}.

Lemma doc_item_at (ds : list D) i d : 0 <= i -> ds !! Z.to_nat i = Some d -> doc_item (doc_array ds) i = d.
Proof. intros Hi Hd. rewrite <-(Z2Nat.id i) by done. by apply doc_item_array. Qed.

(** Views of a document that is written as an array *)
Ltac field := unfold version_doc, tombstone_doc, handle_valid, ev_source, ev_previous_index, ev_previous_block,
  ev_has_predecessor, ev_get_type, ev_version_number, ev_transaction_ref, ev_value, ev_get_policy,
  FIELD_TYPE, FIELD_SOURCE, FIELD_PREVIOUS_BLOCK, FIELD_PREVIOUS_INDEX, FIELD_VALUE, FIELD_VERSION_NO,
  FIELD_TRANSACTION_BLOCK, FIELD_TRANSACTION_INDEX;
  repeat (erewrite doc_item_at; [|lia|reflexivity]);
  rewrite ?doc_array_valid, ?as_string_str, ?as_integer_int by (cbn; lia).

Record ev_fields (h : D) (t : ObjectEventType) (source : string) (pb pi : Z) : Prop := {
  ef_valid : handle_valid h = true;
  ef_type : ev_get_type h = t;
  ef_source : ev_source h = source;
  ef_block : ev_previous_block h = pb;
  ef_index : ev_previous_index h = pi;
  ef_bytes : doc_parse (doc_bytes h) = h;
}.

Lemma version_doc_fields source pb pi doc v tx :
  in_range 32 pb -> in_range 16 pi ->
  ev_fields (version_doc source pb pi doc v tx) NewVersion source pb pi.
Proof.
  unfold in_range. intros Hb Hi. split; field; try done.
  - by apply wrap_small.
  - by apply wrap_small.
  - apply doc_parse_bytes, doc_array_valid.
Qed.

Lemma tombstone_doc_fields source pb pi tx :
  in_range 32 pb -> in_range 16 pi ->
  ev_fields (tombstone_doc source pb pi tx) Deletion source pb pi.
Proof.
  unfold in_range. intros Hb Hi. split; field; try done.
  - by apply wrap_small.
  - by apply wrap_small.
  - apply doc_parse_bytes, doc_array_valid.
Qed.

Lemma version_doc_value source pb pi doc v tx :
  in_range 32 v ->
  ev_value (version_doc source pb pi doc v tx) = Ok doc /\
  ev_version_number (version_doc source pb pi doc v tx) = v.
Proof. unfold in_range. intros Hv. split; field; [done|by apply wrap_small]. Qed.

Lemma version_doc_tx source pb pi doc v tx :
  in_range 32 (lp_block tx) -> in_range 16 (lp_index tx) ->
  ev_transaction_ref (version_doc source pb pi doc v tx) = tx.
Proof. unfold in_range. intros Hb Hi. field. rewrite !wrap_small by done. by destruct tx. Qed.

End Laws.
