(* ===== verification/Shard.v ===== *)
(** * Shards of the ledger

    Models [src/enclave/Shard.h] and [Shard.cpp] for a server with local files
    (not [is_remote()]), and [Ledger::organize_ledger]: each shard appends its
    events to its pending block; when that is large enough it is sealed and
    followed by a new one.  Blocks are pages ([PageStore.v]).  The operations
    run under the lock of the shard. *)

From S2P Require Import Prelude EventId Bitstream Block PageStore.

(** [sh_pending] is [m_pending_block_id] of every shard. *)
Record shards (S : Type) : Type := mkShards { sh_store : S; sh_pending : gmap Z Z; }.
Arguments mkShards {S}.
Arguments sh_store {S}.
Arguments sh_pending {S}.

Section Operations.
Context {B : Type} `{Bitstream B} {S : Type} `{PageStore S (Block B)}.
Variable padding : Z.
Implicit Types st : shards S.

Definition set_store (s : S) st : shards S := mkShards s (sh_pending st).

Definition get_page (page_no : Z) : ST (shards S) (Block B) := zoom sh_store set_store (ps_get page_no).

(** An operation on the block of a page, in place *)
Definition on_page {A} (page_no : Z) (m : ST (Block B) A) : ST (shards S) A :=
  b ← get_page page_no;
  let '(r, b') := m b in
  _ ← zoom sh_store set_store (ps_put page_no b');
  lift_res r.

Definition flush_block (page_no : Z) : ST (shards S) unit := zoom sh_store set_store (ps_flush page_no).

Definition pending_block_id (sid : Z) : ST (shards S) Z :=
  st ← get_st;
  match sh_pending st !! sid with
  | Some pid => mret pid
  | None => throw (Undefined "no such shard")
  end.

Definition Shard_get_block (sid page_no : Z) : ST (shards S) (Block B) :=
  pid ← pending_block_id sid;
  if page_no =? pid then get_page page_no
  else if page_no <? pid then
    hdl ← get_page page_no;
    if Block_is_pending hdl then throw Staleness_detected else mret hdl
  else get_page page_no.

Definition Shard_generate_block (sid : Z) : ST (shards S) Z :=
  page_no ← zoom sh_store set_store (ps_new (Block_new padding));
  _ ← modify_st (fun st => mkShards (sh_store st) (<[sid := page_no]> (sh_pending st)));
  _ ← get_page page_no;
  mret page_no.

(** The lock is not given up in between, so one round is enough. *)
Definition Shard_get_pending_block (sid : Z) : ST (shards S) (Z * Block B) :=
  pid ← pending_block_id sid;
  block ← Shard_get_block sid pid;
  mret (pid, block).

(** How the ledger reads an event, and how it appends one *)
Definition read_event (sid block index : Z) : ST (shards S) (list Z) :=
  b ← Shard_get_block sid block;
  lift_res (Block_get b index).

Definition append_event (sid : Z) (event : list Z) : ST (shards S) (Z * Z) :=
  '((pid, _) : Z * Block B) ← Shard_get_pending_block sid;
  index ← on_page pid (Block_insert event);
  _ ← flush_block pid;
  mret (pid, index).

Definition organize_ledger (sid : Z) : ST (shards S) unit :=
  '((pid, pending) : Z * Block B) ← Shard_get_pending_block sid;
  if (bs_size (blk_data pending) <? MIN_BLOCK_SIZE)%nat then mret tt
  else
    _ ← on_page pid Block_seal;
    newb ← Shard_generate_block sid;
    _ ← flush_block newb;
    flush_block pid.

(** [Ledger::Ledger]: every shard starts with a block. *)
Fixpoint generate_blocks (sids : list Z) : ST (shards S) unit :=
  match sids with
  | [] => mret tt
  | sid :: sids => _ ← Shard_generate_block sid; generate_blocks sids
  end.

End Operations.

(** ** The log a set of shards stands for

    A page of the log is a block: the shard it belongs to, whether it is sealed,
    and its events. *)

Abbreviation log := (gmap Z (Z * bool * list (list Z))).

(** The log only grows: blocks stay, entries stay where they are, and a sealed
    block does not change any more. *)
Definition log_le (l l' : log) : Prop :=
  forall p sid sealed docs, l !! p = Some (sid, sealed, docs) ->
    exists sealed' more, l' !! p = Some (sid, sealed', docs ++ more) /\
      (sealed = true -> sealed' = true /\ more = []).

#[global] Instance log_le_refl : Reflexive log_le.
Proof. intros l p sid sealed docs Hp. exists sealed, []. by rewrite app_nil_r. Qed.

#[global] Instance log_le_trans : Transitive log_le.
Proof.
  intros l1 l2 l3 H12 H23 p sid sealed docs Hp.
  destruct (H12 _ _ _ _ Hp) as (s2 & m2 & H2 & Hs2). destruct (H23 _ _ _ _ H2) as (s3 & m3 & H3 & Hs3).
  exists s3, (m2 ++ m3). rewrite app_assoc. split; [done|]. intros ->.
  destruct (Hs2 eq_refl) as [-> ->]. destruct (Hs3 eq_refl) as [-> ->]. done.
Qed.

Definition log_entry (l : log) (e : event_id_t) (d : list Z) : Prop :=
  exists sealed docs, l !! ev_block e = Some (ev_shard e, sealed, docs) /\
    0 <= ev_index e /\ docs !! Z.to_nat (ev_index e) = Some d.

Lemma log_entry_mono l l' e d : log_le l l' -> log_entry l e d -> log_entry l' e d.
Proof.
  intros Hle (sealed & docs & Hp & Hi & Hd). destruct (Hle _ _ _ _ Hp) as (s' & more & Hp' & _).
  exists s', (docs ++ more). split_and!; [done..|]. rewrite lookup_app_l; [done|]. by eapply lookup_lt_Some.
Qed.

Section Rep.
Context {B : Type} `{BitstreamLaws B} {S : Type} `{PageStoreLaws S (Block B)}.
Variable padding : Z.
Implicit Types (st : shards S) (l : log).

Definition page_rep (b : option (Block B)) (e : option (Z * bool * list (list Z))) : Prop :=
  match b, e with
  | Some b, Some (_, sealed, docs) => exists padding nf, Block_rep b sealed padding nf docs
  | None, None => True
  | _, _ => False
  end.

Record shards_rep st l : Prop := {
  sr_wf : ps_wf (sh_store st);
  sr_pages : forall p, page_rep (ps_pages (sh_store st) !! p) (l !! p);
  sr_pending : forall sid pid, sh_pending st !! sid = Some pid -> exists docs, l !! pid = Some (sid, false, docs);
  sr_order : forall p sid sealed docs, l !! p = Some (sid, sealed, docs) ->
    0 < p < INVALID_PAGE_NO /\
    exists pid, sh_pending st !! sid = Some pid /\ p <= pid /\ (p <> pid -> sealed = true);
}.

Definition pending_is (P : Block B -> Prop) (sid : Z) st : Prop :=
  forall pid b, sh_pending st !! sid = Some pid -> ps_pages (sh_store st) !! pid = Some b -> P b.

(** The pending block of a shard is below the size at which it is sealed. *)
Definition shard_small : Z -> shards S -> Prop :=
  pending_is (fun b => (bs_size (blk_data b) < MIN_BLOCK_SIZE)%nat).

(** The pending block has got at most [k] events of less than [cap] bytes since it
    was last found to be small. *)
Definition shard_load (cap k : Z) : Z -> shards S -> Prop :=
  pending_is (fun b => header_num_files (blk_data b) <= 1280 + 50 * k /\
    Z.of_nat (bs_size (blk_data b)) <= 5120 + (200 + cap) * k).

(** Reading changes what is cached, nothing else. *)
Record shards_same st st' : Prop := {
  ss_wf : ps_wf (sh_store st');
  ss_pages : ps_pages (sh_store st') = ps_pages (sh_store st);
  ss_pending : sh_pending st' = sh_pending st;
  ss_avail : ps_avail (sh_store st') = ps_avail (sh_store st);
}.

Lemma shards_same_refl st : ps_wf (sh_store st) -> shards_same st st.
Proof. by split. Qed.

Lemma shards_same_trans st1 st2 st3 : shards_same st1 st2 -> shards_same st2 st3 -> shards_same st1 st3.
Proof. intros [] []. split; congruence || done. Qed.

Lemma shards_rep_same st st' l : shards_same st st' -> shards_rep st l -> shards_rep st' l.
Proof. intros [Hw Hp Hpe _] []. split; rewrite ?Hp, ?Hpe; done. Qed.

Lemma pending_is_same P st st' sid : shards_same st st' -> pending_is P sid st -> pending_is P sid st'.
Proof. intros [_ Hp Hpe _] Hs. unfold pending_is. rewrite Hp, Hpe. apply Hs. Qed.

Lemma rep_page st l p sid sealed docs :
  shards_rep st l -> l !! p = Some (sid, sealed, docs) ->
  exists b pad nf, ps_pages (sh_store st) !! p = Some b /\ Block_rep b sealed pad nf docs.
Proof.
  intros Hr Hp. pose proof (sr_pages _ _ Hr p) as Hpg. rewrite Hp in Hpg. unfold page_rep in Hpg.
  destruct (ps_pages (sh_store st) !! p) as [b|]; [|done]. destruct Hpg as (pad & nf & ?). by exists b, pad, nf.
Qed.

(** *** Reading *)

Lemma shard_page_ok st p b :
  ps_wf (sh_store st) -> ps_pages (sh_store st) !! p = Some b ->
  wp (get_page p) (fun b' st' => b' = b /\ shards_same st st') st.
Proof.
  intros Hw Hp. apply wp_zoom. eapply wp_mono; [by apply ps_get_spec|]. cbv beta.
  intros b' s' (-> & ? & ? & ?). by split_and!.
Qed.

Lemma pending_block_id_ok st sid pid Q :
  sh_pending st !! sid = Some pid -> Q pid st -> wp (pending_block_id sid) Q st.
Proof. intros Hp HQ. unfold pending_block_id. apply wp_bind, wp_get. rewrite Hp. by apply wp_ret. Qed.

Lemma Block_is_pending_rep b sealed pad nf docs :
  Block_rep b sealed pad nf docs -> Block_is_pending b = negb sealed.
Proof.
  intros [Hb]. unfold Block_is_pending. by rewrite (header_sealed_layout _ sealed _ _ _ _ Hb).
Qed.

Lemma Shard_get_block_ok st l p sid sealed docs :
  shards_rep st l -> l !! p = Some (sid, sealed, docs) ->
  wp (Shard_get_block sid p) (fun b st' => shards_same st st' /\ ps_pages (sh_store st) !! p = Some b /\
    exists pad nf, Block_rep b sealed pad nf docs) st.
Proof.
  intros Hr Hp. destruct (rep_page _ _ _ _ _ _ Hr Hp) as (b & pad & nf & Hb & Hrep).
  destruct (sr_order _ _ Hr _ _ _ _ Hp) as (Hrange & pid & Hpid & Hle & Hsealed).
  assert (wp (get_page p) (fun b' st' => shards_same st st' /\ ps_pages (sh_store st) !! p = Some b' /\
    exists pad nf, Block_rep b' sealed pad nf docs) st) as Hget.
  { eapply wp_mono; [apply shard_page_ok; [apply (sr_wf _ _ Hr)|done]|]. cbv beta. intros b' st' [-> ?]. eauto. }
  unfold Shard_get_block. apply wp_bind. eapply pending_block_id_ok; [done|].
  destruct (Z.eqb_spec p pid) as [_|Hne]; [done|]. destruct (Z.ltb_spec p pid); [|done].
  apply wp_bind. eapply wp_mono; [exact Hget|]. cbv beta. intros b' st' (? & ? & pad' & nf' & Hrep').
  rewrite (Block_is_pending_rep _ _ _ _ _ Hrep'). replace (negb sealed) with false by (by rewrite (Hsealed Hne)).
  apply wp_ret. eauto 6.
Qed.

Lemma read_event_ok st l e d :
  shards_rep st l -> log_entry l e d ->
  wp (read_event (ev_shard e) (ev_block e) (ev_index e)) (fun d' st' => d' = d /\ shards_same st st') st.
Proof.
  intros Hr (sealed & docs & Hp & Hi & Hd). unfold read_event. apply wp_bind.
  eapply wp_mono; [by eapply Shard_get_block_ok|]. cbv beta. intros b st' (Hs & _ & pad & nf & Hrep).
  rewrite <-(Z2Nat.id (ev_index e)) by done. by rewrite (Block_get_ok _ _ _ _ _ _ _ Hrep Hd).
Qed.

Lemma Shard_get_pending_block_ok st l sid pid docs :
  shards_rep st l -> sh_pending st !! sid = Some pid -> l !! pid = Some (sid, false, docs) ->
  wp (Shard_get_pending_block sid) (fun r st' => r.1 = pid /\ shards_same st st' /\
    ps_pages (sh_store st) !! pid = Some r.2 /\ exists pad nf, Block_rep r.2 false pad nf docs) st.
Proof.
  intros Hr Hpid Hp. unfold Shard_get_pending_block. apply wp_bind. eapply pending_block_id_ok; [done|].
  apply wp_bind. eapply wp_mono; [by eapply Shard_get_block_ok|]. cbv beta.
  intros b st' (? & ? & ?). by apply wp_ret.
Qed.

(** *** Writing *)

Lemma on_page_ok {A} st p b (m : ST (Block B) A) a b' :
  ps_wf (sh_store st) -> ps_pages (sh_store st) !! p = Some b -> m b = (Ok a, b') ->
  wp (on_page p m) (fun a' st' => a' = a /\ ps_wf (sh_store st') /\ sh_pending st' = sh_pending st /\
    ps_pages (sh_store st') = <[p := b']> (ps_pages (sh_store st)) /\
    ps_avail (sh_store st') = ps_avail (sh_store st)) st.
Proof.
  intros Hw Hp Hm. unfold on_page. apply wp_bind. eapply wp_mono; [by apply shard_page_ok|]. cbv beta.
  intros b0 st1 [-> [Hw1 Hpg1 Hpe1 Hav1]]. rewrite Hm. apply wp_bind, wp_zoom.
  eapply wp_mono; [apply ps_put_spec; [done|by rewrite Hpg1, Hp]|]. cbv beta.
  intros _ s2 (Hw2 & Hpg2 & Hav2). split_and!; cbn; congruence || done.
Qed.

Lemma flush_block_ok st p b :
  ps_wf (sh_store st) -> ps_pages (sh_store st) !! p = Some b ->
  wp (flush_block p) (fun _ st' => shards_same st st') st.
Proof.
  intros Hw Hp. apply wp_zoom. eapply wp_mono; [apply ps_flush_spec; [done|by rewrite Hp]|].
  cbv beta. intros _ s' (? & ? & ?). by split.
Qed.

(** A block of the log is replaced by one that extends it. *)
Lemma shards_rep_update st st' l p b' sid sealed docs more pad nf :
  shards_rep st l -> l !! p = Some (sid, sealed, docs) ->
  ps_wf (sh_store st') -> sh_pending st' = sh_pending st ->
  ps_pages (sh_store st') = <[p := b']> (ps_pages (sh_store st)) -> Block_rep b' sealed pad nf (docs ++ more) ->
  shards_rep st' (<[p := (sid, sealed, docs ++ more)]> l).
Proof.
  intros [Hw Hpg Hpe Ho] Hp Hw' Hpe' Hpg' Hrep. split; [done| | |].
  - intros q. rewrite Hpg'. destruct (decide (q = p)) as [->|]; [rewrite !lookup_insert_eq; cbn; eauto|].
    by rewrite !lookup_insert_ne.
  - intros sid' pid. rewrite Hpe'. intros Hpid. destruct (Hpe _ _ Hpid) as [docs' Hd].
    destruct (decide (pid = p)) as [->|]; [|rewrite lookup_insert_ne by done; eauto].
    rewrite lookup_insert_eq. exists (docs ++ more). congruence.
  - intros q sid' s' docs'. rewrite Hpe'. destruct (decide (q = p)) as [->|]; [|rewrite lookup_insert_ne by done; apply Ho].
    rewrite lookup_insert_eq. intros [= <- <- <-]. by eapply Ho.
Qed.
Lemma Block_rep_size b sealed pad nf docs :
  Block_rep b sealed pad nf docs -> bs_size (blk_data b) = (4 + 4 * nf + docs_size docs)%nat.
Proof.
  intros [Hb _ _ Hsl _ _]. pose proof (bs_bytes_length (blk_data b)) as Hsz.
  rewrite Hb, layout_length, index_words_length in Hsz by lia. done.
Qed.

Lemma log_le_append l p sid docs event :
  l !! p = Some (sid, false, docs) -> log_le l (<[p := (sid, false, docs ++ [event])]> l).
Proof.
  intros Hp q sid' sealed docs' Hq. destruct (decide (q = p)) as [->|].
  - rewrite lookup_insert_eq. exists false, [event]. split; [|intros ->]; congruence.
  - rewrite lookup_insert_ne by done. exists sealed, []. by rewrite app_nil_r.
Qed.

Lemma header_num_files_rep b sealed pad nf docs :
  Block_rep b sealed pad nf docs -> header_num_files (blk_data b) = Z.of_nat nf.
Proof. intros [Hb _ _ _ H16 _]. by apply (header_num_files_layout _ _ _ _ _ _ Hb). Qed.

Lemma shard_small_load cap st l sid : shards_rep st l -> shard_small sid st -> shard_load cap 0 sid st.
Proof.
  intros Hr Hsm pid b Hpid Hb. pose proof (Hsm _ _ Hpid Hb) as Hsz. cbv beta in Hsz.
  destruct (sr_pending _ _ Hr _ _ Hpid) as [docs Hd].
  destruct (rep_page _ _ _ _ _ _ Hr Hd) as (b' & pad & nf & Hb' & Hrep). assert (b' = b) as -> by congruence.
  rewrite (header_num_files_rep _ _ _ _ _ Hrep). rewrite (Block_rep_size _ _ _ _ _ Hrep) in *.
  assert (Z.of_nat MIN_BLOCK_SIZE = 5120) as Emin by done. lia.
Qed.

Lemma shard_load_mono cap k k' sid st : 0 <= cap -> k <= k' -> shard_load cap k sid st -> shard_load cap k' sid st.
Proof.
  intros Hc Hk Hl pid b Hpid Hb. destruct (Hl _ _ Hpid Hb).
  assert ((200 + cap) * k <= (200 + cap) * k') by (apply Z.mul_le_mono_nonneg_l; lia). lia.
Qed.

(** What an append has done to the shards: the event is the last one of the pending block. *)
Definition appended (cap k : Z) st l sid pid docs event st' : Prop :=
  shards_rep st' (<[pid := (sid, false, docs ++ [event])]> l) /\ sh_pending st' = sh_pending st /\
  ps_avail (sh_store st') = ps_avail (sh_store st) /\ Z.of_nat (length docs) < 2 ^ 16 /\
  shard_load cap (k + 1) sid st' /\
  (forall P sid', sid' <> sid -> pending_is P sid' st -> pending_is P sid' st').

Lemma appended_same cap k st st1 st2 st3 l sid pid docs event :
  shards_same st st1 -> appended cap k st1 l sid pid docs event st2 -> shards_same st2 st3 ->
  appended cap k st l sid pid docs event st3.
Proof.
  intros Hsa (Hr & Hpe & Hav & Hlen & Hld & Hoth) Hsb. split_and!.
  - by eapply shards_rep_same.
  - rewrite (ss_pending _ _ Hsb), Hpe. apply Hsa.
  - rewrite (ss_avail _ _ Hsb), Hav. apply Hsa.
  - done.
  - by eapply pending_is_same.
  - intros P sid' Hne Hp. eapply pending_is_same; [done|]. apply Hoth; [done|]. by eapply pending_is_same.
Qed.

Lemma insert_event_ok cap k st l sid pid docs event :
  shards_rep st l -> shard_load cap k sid st -> sh_pending st !! sid = Some pid ->
  l !! pid = Some (sid, false, docs) -> Z.of_nat (length event) < cap ->
  0 <= k < 1000 -> (k + 1) * cap <= 2 ^ 31 ->
  wp (on_page pid (Block_insert event)) (fun i st' => i = Z.of_nat (length docs) /\
    appended cap k st l sid pid docs event st') st.
Proof.
  intros Hr Hsm Hpid Hp Hev Hk Hcap. destruct (rep_page _ _ _ _ _ _ Hr Hp) as (b & pad & nf & Hb & Hrep).
  destruct (Hsm _ _ Hpid Hb) as [Hnf Hsz]. rewrite (Block_rep_size _ _ _ _ _ Hrep) in Hsz.
  rewrite (header_num_files_rep _ _ _ _ _ Hrep) in Hnf. pose proof (rep_slots _ _ _ _ _ Hrep) as Hsl.
  assert ((slots_after nf (length docs) <= nf + 50)%nat) as Hsa by (unfold slots_after; destruct (_ <? _)%nat; lia).
  destruct (Block_insert_ok b pad nf docs event Hrep) as (b' & Hins & Hrep' & _); [lia|nia|].
  eapply wp_mono; [eapply (on_page_ok _ _ b); [apply Hr|done..]|].
  cbv beta. intros idx st2 (-> & Hw2 & Hpe2 & Hpg2 & Hav2).
  split; [done|]. split_and!; [|done|done|lia| |].
  - by eapply (shards_rep_update st st2 l pid b').
  - intros pid' b0. rewrite Hpe2, Hpid. intros [= <-]. rewrite Hpg2, lookup_insert_eq. intros [= <-].
    rewrite (header_num_files_rep _ _ _ _ _ Hrep'), (Block_rep_size _ _ _ _ _ Hrep').
    rewrite docs_size_app. unfold docs_size at 2. cbn [mjoin list_join app]. rewrite app_nil_r. nia.
  - intros P sid' Hne Hs' pid' b0 Hpid' Hb0. rewrite Hpe2 in Hpid'.
    apply (Hs' pid' b0 Hpid'). rewrite Hpg2 in Hb0.
    destruct (decide (pid' = pid)) as [->|]; [|by rewrite lookup_insert_ne in Hb0].
    destruct (sr_pending _ _ Hr _ _ Hpid') as [docs' Hd']. congruence.
Qed.

Lemma append_event_ok cap k st l sid pid docs event :
  shards_rep st l -> shard_load cap k sid st -> sh_pending st !! sid = Some pid ->
  l !! pid = Some (sid, false, docs) -> Z.of_nat (length event) < cap ->
  0 <= k < 1000 -> (k + 1) * cap <= 2 ^ 31 ->
  wp (append_event sid event) (fun r st' => r = (pid, Z.of_nat (length docs)) /\
    appended cap k st l sid pid docs event st') st.
Proof.
  intros Hr Hsm Hpid Hp Hev Hk Hcap. unfold append_event. apply wp_bind.
  eapply wp_mono; [by eapply Shard_get_pending_block_ok|]. cbv beta.
  intros [pid' b] st1 (Epid & Hs1 & Hb & pad & nf & Hrep). cbn [fst snd] in *. subst pid'.
  apply wp_bind. eapply wp_mono; [apply (insert_event_ok cap k st1 l sid pid docs event)|]; try done.
  { by eapply shards_rep_same. }
  { by eapply pending_is_same. }
  { by rewrite (ss_pending _ _ Hs1). }
  cbv beta. intros idx st2 [-> Hap]. pose proof (proj1 Hap) as Hr2.
  destruct (rep_page _ _ pid sid false (docs ++ [event]) Hr2 (lookup_insert_eq _ _ _)) as (b' & _ & _ & Hb' & _).
  apply wp_bind. eapply wp_mono; [apply (flush_block_ok _ _ b'); [apply Hr2|done]|].
  cbv beta. intros _ st3 Hs3. apply wp_ret. split; [done|]. by eapply appended_same.
Qed.

(** *** Sealing *)

Lemma organize_rep st st' l pid sid docs b newp :
  shards_rep st l -> sh_pending st !! sid = Some pid -> l !! pid = Some (sid, false, docs) ->
  (exists pad nf, Block_rep b true pad nf docs) -> ps_wf (sh_store st') ->
  ps_pages (sh_store st') = <[newp := Block_new padding]> (<[pid := b]> (ps_pages (sh_store st))) ->
  sh_pending st' = <[sid := newp]> (sh_pending st) -> 0 < newp < INVALID_PAGE_NO ->
  (forall q, is_Some (ps_pages (sh_store st) !! q) -> q < newp) ->
  let l' := <[newp := (sid, false, [])]> (<[pid := (sid, true, docs)]> l) in
  shards_rep st' l' /\ log_le l l'.
Proof.
  intros Hr Hpid Hp Hrep Hw' Hpg' Hpe' Hnew Hfresh l'.
  assert (forall q x, l !! q = Some x -> q < newp) as Hlt.
  { intros q [[sid' sealed] docs'] Hq. destruct (rep_page _ _ _ _ _ _ Hr Hq) as (b0 & _ & _ & Hb & _).
    apply Hfresh. by rewrite Hb. }
  pose proof (Hlt _ _ Hp). destruct Hr as [Hw Hpg Hpe Ho]. split; [split; [done| | |]|].
  - intros q. rewrite Hpg'. unfold l'. destruct (decide (q = newp)) as [->|].
    { rewrite !lookup_insert_eq. cbn. do 2 eexists. apply Block_new_rep. }
    rewrite !(lookup_insert_ne _ newp) by done.
    destruct (decide (q = pid)) as [->|]; [rewrite !lookup_insert_eq; done|by rewrite !lookup_insert_ne].
  - intros sid' pid'. rewrite Hpe'. unfold l'. destruct (decide (sid' = sid)) as [->|].
    { rewrite lookup_insert_eq. intros [= <-]. exists []. by rewrite lookup_insert_eq. }
    rewrite lookup_insert_ne by done. intros Hpid'. destruct (Hpe _ _ Hpid') as [docs' Hd'].
    exists docs'. pose proof (Hlt _ _ Hd'). rewrite !lookup_insert_ne; [done| |lia]. intros ->. congruence.
  - intros q sid' sealed docs'. unfold l'. rewrite Hpe'. destruct (decide (q = newp)) as [->|].
    { rewrite lookup_insert_eq. intros [= <- <- <-]. split; [done|]. exists newp. rewrite lookup_insert_eq. done. }
    rewrite lookup_insert_ne by done. destruct (decide (q = pid)) as [->|].
    { rewrite lookup_insert_eq. intros [= <- <- <-]. split; [by eapply Ho|]. exists newp.
      rewrite lookup_insert_eq. split_and!; [done|lia|done]. }
    rewrite lookup_insert_ne by done. intros Hq. pose proof (Hlt _ _ Hq).
    destruct (Ho _ _ _ _ Hq) as (Hrange & pp & Hpp & Hle & Hse). split; [done|].
    destruct (decide (sid' = sid)) as [->|]; [|exists pp; by rewrite lookup_insert_ne].
    exists newp. rewrite lookup_insert_eq. split_and!; [done|lia|]. intros _. apply Hse. congruence.
  - intros q sid' sealed docs' Hq. pose proof (Hlt _ _ Hq). unfold l'. rewrite lookup_insert_ne by lia.
    destruct (decide (q = pid)) as [->|].
    + rewrite lookup_insert_eq. exists true, []. rewrite app_nil_r. split; [congruence|done].
    + rewrite lookup_insert_ne by done. exists sealed, []. by rewrite app_nil_r.
Qed.
Lemma new_page_ok st sid :
  ps_wf (sh_store st) -> 0 < ps_avail (sh_store st) ->
  wp (Shard_generate_block padding sid) (fun p st' => ps_wf (sh_store st') /\
    0 < p < INVALID_PAGE_NO /\ (forall q, is_Some (ps_pages (sh_store st) !! q) -> q < p) /\
    ps_pages (sh_store st') = <[p := Block_new padding]> (ps_pages (sh_store st)) /\
    sh_pending st' = <[sid := p]> (sh_pending st) /\
    ps_avail (sh_store st') = ps_avail (sh_store st) - 1) st.
Proof.
  intros Hw Hav. unfold Shard_generate_block. apply wp_bind, wp_zoom.
  pose proof (ps_new_spec (Block_new padding) _ Hw Hav) as Hspec.
  pose proof (ps_new_order (Block_new padding) _ Hw Hav) as Horder.
  apply wp_run in Hspec as (p & s' & E & Hw' & _ & _ & Hpg & Hav'). apply wp_run in Horder as (? & ? & E' & Hr & Hord).
  rewrite E in E'. injection E' as <- <-. apply wp_run. exists p, s'. split; [done|].
  apply wp_bind, wp_modify, wp_bind.
  eapply wp_mono; [apply (shard_page_ok _ _ (Block_new padding)); [done|cbn; by rewrite Hpg, lookup_insert_eq]|].
  cbv beta. intros b st3 [-> [Hw3 Hpg3 Hpe3 Hav3]]. cbn -[INVALID_PAGE_NO] in *.
  apply wp_ret. split_and!; try done; congruence || lia.
Qed.

(** The blocks of other shards stay as they are. *)
Lemma pending_is_other P st st' sid' :
  (forall pid, sh_pending st !! sid' = Some pid ->
    sh_pending st' !! sid' = Some pid /\ ps_pages (sh_store st') !! pid = ps_pages (sh_store st) !! pid) ->
  (is_Some (sh_pending st' !! sid') -> is_Some (sh_pending st !! sid')) ->
  pending_is P sid' st -> pending_is P sid' st'.
Proof.
  intros Hp Hs Hsm pid b Hpid Hb. destruct (Hs ltac:(by rewrite Hpid)) as [pid0 Hpid0].
  destruct (Hp _ Hpid0) as [E1 E2]. assert (pid = pid0) as -> by congruence. rewrite E2 in Hb. by eapply Hsm.
Qed.

Lemma Block_new_small : (bs_size (blk_data (Block_new (B := B) padding)) < MIN_BLOCK_SIZE)%nat.
Proof.
  rewrite (Block_rep_size _ _ _ _ _ (Block_new_rep padding)).
  assert (Z.of_nat MIN_BLOCK_SIZE = 5120) as Emin by done. cbn. lia.
Qed.

Lemma organize_ledger_ok st l sid pid docs :
  shards_rep st l -> sh_pending st !! sid = Some pid -> l !! pid = Some (sid, false, docs) ->
  0 < ps_avail (sh_store st) ->
  wp (organize_ledger padding sid) (fun _ st' => exists l', shards_rep st' l' /\ log_le l l' /\
    shard_small sid st' /\ (forall P sid', sid' <> sid -> pending_is P sid' st -> pending_is P sid' st') /\
    ps_avail (sh_store st) - 1 <= ps_avail (sh_store st') /\
    (forall sid', is_Some (sh_pending st' !! sid') <-> is_Some (sh_pending st !! sid'))) st.
Proof.
  intros Hr Hpid Hp Hav. unfold organize_ledger. apply wp_bind.
  eapply wp_mono; [by eapply Shard_get_pending_block_ok|]. cbv beta.
  intros [pid' b] st1 (Epid & Hs1 & Hb & pad & nf & Hrep). cbn [fst snd] in *. subst pid'.
  destruct (Nat.ltb_spec (bs_size (blk_data b)) MIN_BLOCK_SIZE) as [Hlt|Hge].
  { apply wp_ret. exists l. split_and!; [by eapply shards_rep_same|done| | | |].
    - eapply pending_is_same; [done|]. intros pid' b' Hpid' Hb'. congruence.
    - intros P sid' _. by apply pending_is_same.
    - rewrite (ss_avail _ _ Hs1). lia.
    - intros sid'. by rewrite (ss_pending _ _ Hs1). }
  destruct (Block_seal_ok b pad nf docs Hrep) as (b' & Hseal & Hrep').
  apply wp_bind. eapply wp_mono; [eapply (on_page_ok _ _ b); [apply Hs1|by rewrite (ss_pages _ _ Hs1)|done]|].
  cbv beta. intros _ st2 (_ & Hw2 & Hpe2 & Hpg2 & Hav2). destruct Hs1 as [Hw1 Hpg1 Hpe1 Hav1].
  apply wp_bind. eapply wp_mono; [apply new_page_ok; [done|lia]|].
  cbv beta. intros newp st3 (Hw3 & Hnp & Hord & Hpg3 & Hpe3 & Hav3).
  apply wp_bind. eapply wp_mono; [apply (flush_block_ok _ _ (Block_new padding)); [done|by rewrite Hpg3, lookup_insert_eq]|].
  cbv beta. intros _ st4 [Hw4 Hpg4 Hpe4 Hav4].
  assert (pid < newp) as Hlt by (apply Hord; by rewrite Hpg2, lookup_insert_eq).
  eapply wp_mono; [apply (flush_block_ok _ _ b'); [done|]|].
  { by rewrite Hpg4, Hpg3, lookup_insert_ne, Hpg2, lookup_insert_eq by lia. }
  cbv beta. intros _ st5 [Hw5 Hpg5 Hpe5 Hav5].
  destruct (organize_rep st st5 l pid sid docs b' newp Hr Hpid Hp) as [Hr' Hle]; [by eauto|done|congruence| |done| |].
  { congruence. }
  { intros q [b0 Hq]. apply Hord. rewrite Hpg2, Hpg1. destruct (decide (q = pid)) as [->|];
      [by rewrite lookup_insert_eq|rewrite lookup_insert_ne by done; by rewrite Hq]. }
  eexists. split_and!; [exact Hr'|done| | |lia|].
  - intros pid' b0. rewrite Hpe5, Hpe4, Hpe3, lookup_insert_eq. intros [= <-].
    rewrite Hpg5, Hpg4, Hpg3, lookup_insert_eq. intros [= <-]. apply Block_new_small.
  - intros P sid' Hne. eapply pending_is_other.
    + intros pid' Hpid'. destruct (sr_pending _ _ Hr _ _ Hpid') as [docs' Hd'].
      destruct (rep_page _ _ _ _ _ _ Hr Hd') as (b0 & _ & _ & Hb0 & _).
      assert (pid' <> pid) by (intros ->; congruence).
      assert (pid' < newp) by (apply Hord; by rewrite Hpg2, Hpg1, lookup_insert_ne, Hb0 by done).
      split; [rewrite Hpe5, Hpe4, Hpe3, lookup_insert_ne by done; congruence|].
      by rewrite Hpg5, Hpg4, Hpg3, lookup_insert_ne, Hpg2, Hpg1, lookup_insert_ne by lia.
    + rewrite Hpe5, Hpe4, Hpe3, lookup_insert_ne by done. by rewrite Hpe2, Hpe1.
  - intros sid'. rewrite Hpe5, Hpe4, Hpe3, Hpe2, Hpe1. destruct (decide (sid' = sid)) as [->|].
    + rewrite lookup_insert_eq, Hpid. split; eauto.
    + by rewrite lookup_insert_ne.
Qed.
(** *** Initialisation *)

Lemma generate_rep st st' l sid newp :
  shards_rep st l -> sh_pending st !! sid = None -> ps_wf (sh_store st') ->
  ps_pages (sh_store st') = <[newp := Block_new padding]> (ps_pages (sh_store st)) ->
  sh_pending st' = <[sid := newp]> (sh_pending st) -> 0 < newp < INVALID_PAGE_NO ->
  (forall q, is_Some (ps_pages (sh_store st) !! q) -> q < newp) ->
  shards_rep st' (<[newp := (sid, false, [])]> l).
Proof.
  intros Hr Hsid Hw' Hpg' Hpe' Hnew Hfresh.
  assert (forall q x, l !! q = Some x -> q < newp) as Hlt.
  { intros q [[sid' sealed] docs'] Hq. destruct (rep_page _ _ _ _ _ _ Hr Hq) as (b0 & _ & _ & Hb & _).
    apply Hfresh. by rewrite Hb. }
  destruct Hr as [Hw Hpg Hpe Ho]. split; [done| | |].
  - intros q. rewrite Hpg'. destruct (decide (q = newp)) as [->|]; [|by rewrite !lookup_insert_ne].
    rewrite !lookup_insert_eq. cbn. do 2 eexists. apply Block_new_rep.
  - intros sid' pid'. rewrite Hpe'. destruct (decide (sid' = sid)) as [->|].
    { rewrite lookup_insert_eq. intros [= <-]. exists []. by rewrite lookup_insert_eq. }
    rewrite lookup_insert_ne by done. intros Hpid'. destruct (Hpe _ _ Hpid') as [docs' Hd'].
    exists docs'. pose proof (Hlt _ _ Hd'). by rewrite lookup_insert_ne by lia.
  - intros q sid' sealed docs'. rewrite Hpe'. destruct (decide (q = newp)) as [->|].
    { rewrite lookup_insert_eq. intros [= <- <- <-]. split; [done|]. exists newp. by rewrite lookup_insert_eq. }
    rewrite lookup_insert_ne by done. intros Hq. destruct (Ho _ _ _ _ Hq) as (? & pp & Hpp & ?).
    split; [done|]. exists pp. rewrite lookup_insert_ne; [done|]. intros ->. congruence.
Qed.

Definition all_small st : Prop := forall sid, shard_small sid st.

Lemma generate_blocks_ok sids st l :
  shards_rep st l -> all_small st -> NoDup sids -> (forall sid, sid ∈ sids -> sh_pending st !! sid = None) ->
  Z.of_nat (length sids) <= ps_avail (sh_store st) ->
  wp (generate_blocks padding sids) (fun _ st' => exists l', shards_rep st' l' /\ all_small st' /\
    (forall sid, is_Some (sh_pending st' !! sid) <-> sid ∈ sids \/ is_Some (sh_pending st !! sid)) /\
    ps_avail (sh_store st') = ps_avail (sh_store st) - Z.of_nat (length sids)) st.
Proof.
  revert st l. induction sids as [|sid sids IH]; intros st l Hr Hsm Hnd Hnone Hav.
  { apply wp_ret. exists l. split_and!; [done..| |cbn; lia]. intros sid.
    split; [by right|]. by intros [?%elem_of_nil|?]. }
  apply NoDup_cons in Hnd as [Hsid Hnd]. cbn [length] in *. cbn [generate_blocks]. apply wp_bind.
  eapply wp_mono; [apply new_page_ok; [apply Hr|lia]|].
  cbv beta. intros newp st1 (Hw1 & Hnp & Hord & Hpg1 & Hpe1 & Hav1).
  assert (shards_rep st1 (<[newp := (sid, false, [])]> l)) as Hr1
    by (eapply generate_rep; [done|apply Hnone; left|done..]).
  eapply wp_mono; [apply (IH _ _ Hr1)|].
  - intros sid'. destruct (decide (sid' = sid)) as [->|Hne].
    + intros pid b. rewrite Hpe1, lookup_insert_eq. intros [= <-].
      rewrite Hpg1, lookup_insert_eq. intros [= <-]. apply Block_new_small.
    + apply (pending_is_other _ st); [| |apply Hsm]; rewrite Hpe1, lookup_insert_ne by done; [|done].
      intros pid Hpid. split; [done|]. destruct (sr_pending _ _ Hr _ _ Hpid) as [docs Hd].
      destruct (rep_page _ _ _ _ _ _ Hr Hd) as (b0 & _ & _ & Hb0 & _).
      assert (pid < newp) by (apply Hord; by rewrite Hb0). by rewrite Hpg1, lookup_insert_ne by lia.
  - done.
  - intros sid' Hin. rewrite Hpe1, lookup_insert_ne; [apply Hnone; by right|]. by intros ->.
  - lia.
  - cbv beta. intros _ st2 (l2 & Hr2 & Hsm2 & Hp2 & Hav2). exists l2. split_and!; [done..| |lia].
    intros sid'. rewrite Hp2, Hpe1, elem_of_cons. destruct (decide (sid' = sid)) as [->|].
    + rewrite lookup_insert_eq. split; [intros _; by left; left|intros _; right; by eexists].
    + rewrite lookup_insert_ne by done. clear -n. tauto.
Qed.

Lemma shards_rep_empty s : ps_wf s -> ps_pages s = ∅ -> shards_rep (mkShards s ∅) ∅ /\ all_small (mkShards s ∅).
Proof.
  intros Hw Hp. split; [split; cbn; [done| |done|done]|done]. intros p. by rewrite Hp, !lookup_empty.
Qed.

(** *** Appending *)

(** An append followed by [organize_ledger], as [apply_write] does it *)
Definition append_and_organize (sid : Z) (event : list Z) : ST (shards S) event_id_t :=
  '((block, index) : Z * Z) ← append_event sid event;
  _ ← organize_ledger padding sid;
  mret (EventId sid block index).

Lemma append_and_organize_ok st l sid event :
  shards_rep st l -> all_small st -> is_Some (sh_pending st !! sid) -> Z.of_nat (length event) < 2 ^ 31 ->
  0 < ps_avail (sh_store st) ->
  wp (append_and_organize sid event) (fun e st' => exists l', shards_rep st' l' /\ log_le l l' /\
    all_small st' /\ log_entry l' e event /\ ev_shard e = sid /\ in_range 32 (ev_block e) /\
    in_range 16 (ev_index e) /\ 0 < ev_block e /\
    (forall e' d, log_entry l e' d -> ev_shard e' = sid -> order_event e' e = OlderThan) /\
    ps_avail (sh_store st) - 1 <= ps_avail (sh_store st') /\
    (forall sid', is_Some (sh_pending st' !! sid') <-> is_Some (sh_pending st !! sid'))) st.
Proof.
  intros Hr Hsm [pid Hpid] Hlen Hav. destruct (sr_pending _ _ Hr _ _ Hpid) as [docs Hd].
  destruct (sr_order _ _ Hr _ _ _ _ Hd) as [Hrange _].
  unfold append_and_organize. apply wp_bind.
  eapply wp_mono; [eapply (append_event_ok (2 ^ 31) 0); [done|by eapply shard_small_load|done..]|]. cbv beta.
  intros [b i] st1 ([= -> ->] & Hr1 & Hpe1 & Hav1 & Hi & _ & Hsm1). apply wp_bind.
  set (l1 := <[pid := (sid, false, docs ++ [event])]> l) in *.
  eapply wp_mono; [eapply (organize_ledger_ok st1 l1 sid pid); [done|congruence| |lia]|].
  { unfold l1. by rewrite lookup_insert_eq. }
  cbv beta. intros _ st2 (l2 & Hr2 & Hle2 & Hsm2 & Hoth & Hav2 & Hpe2). apply wp_ret. exists l2.
  assert (log_le l l1) as Hle1 by (by apply log_le_append).
  split_and!; [done|by etrans| | |done| | |cbn; lia| |lia|]; try (unfold in_range; cbn -[INVALID_PAGE_NO];
    rewrite INVALID_PAGE_NO_val in *; lia).
  - intros sid'. destruct (decide (sid' = sid)) as [->|]; [done|]. apply Hoth; [done|]. by apply Hsm1, Hsm.
  - apply (log_entry_mono l1); [done|]. exists false, (docs ++ [event]). cbn. unfold l1.
    rewrite lookup_insert_eq, Nat2Z.id. split_and!; [done|lia|].
    by rewrite lookup_app_r, Nat.sub_diag by lia.
  - intros e' d (sealed & docs' & Hb & Hi' & Hd') Hs. rewrite Hs in Hb.
    destruct (sr_order _ _ Hr _ _ _ _ Hb) as (_ & pid' & Hpid' & Hle & _).
    assert (pid' = pid) as -> by congruence. unfold order_event. cbn. rewrite Hs, Z.eqb_refl. cbn.
    destruct (Z.ltb_spec (ev_block e') pid); [done|]. assert (ev_block e' = pid) as E by lia.
    rewrite E, Z.eqb_refl. apply lookup_lt_Some in Hd'. assert (docs' = docs) as -> by congruence.
    destruct (Z.ltb_spec (ev_index e') (Z.of_nat (length docs))); [done|lia].
  - intros sid'. by rewrite Hpe2, Hpe1.
Qed.

Fixpoint append_all (evs : list (Z * list Z)) : ST (shards S) (list event_id_t) :=
  match evs with
  | [] => mret []
  | (sid, event) :: evs => e ← append_and_organize sid event; es ← append_all evs; mret (e :: es)
  end.

Definition ev_ok (ev : Z * list Z) : Prop := 0 <= ev.1 < 64 /\ Z.of_nat (length ev.2) < 2 ^ 31.

(** Later events of a shard are newer; events of different shards are unordered. *)
Definition in_order (e e' : event_id_t) : Prop := ev_shard e = ev_shard e' -> order_event e e' = OlderThan.

Lemma append_all_ok evs st l :
  shards_rep st l -> all_small st -> (forall sid, 0 <= sid < 64 -> is_Some (sh_pending st !! sid)) ->
  Forall ev_ok evs -> Z.of_nat (length evs) <= ps_avail (sh_store st) ->
  wp (append_all evs) (fun es st' => exists l', shards_rep st' l' /\ log_le l l' /\ all_small st' /\
    Forall2 (fun e ev => ev_shard e = ev.1 /\ log_entry l' e ev.2) es evs /\
    (forall e d, log_entry l e d -> Forall (in_order e) es) /\ StronglySorted in_order es) st.
Proof.
  revert st l. induction evs as [|[sid event] evs IH]; intros st l Hr Hsm Hall Hok Hav; cbn [append_all].
  { apply wp_ret. exists l. split_and!; try done; constructor. }
  apply Forall_cons in Hok as [[Hsid Hlen] Hok]. cbn [length fst snd] in *. apply wp_bind.
  eapply wp_mono; [apply (append_and_organize_ok st l); [done|done|by apply Hall|done|lia]|]. cbv beta.
  intros e st1 (l1 & Hr1 & Hle1 & Hsm1 & He & Es & _ & _ & _ & Hord & Hav1 & Hpe1).
  apply wp_bind. eapply wp_mono; [apply (IH st1 l1); [done|done| |done|lia]|].
  { intros sid' Hs'. apply Hpe1. by apply Hall. }
  cbv beta. intros es st2 (l2 & Hr2 & Hle2 & Hsm2 & Hes & Hnew & Hsort). apply wp_ret. exists l2.
  split_and!; [done|by etrans|done| | |].
  - constructor; [|done]. split; [done|]. by eapply log_entry_mono.
  - intros e0 d He0. constructor; [|by eapply Hnew, log_entry_mono].
    intros Hs. eapply Hord; [done|]. congruence.
  - constructor; [done|]. by eapply Hnew.
Qed.
End Rep.

(** ** Theorem *)

Definition NUM_SHARDS_LEDGER : Z := 64.

Definition fresh_shards {B} `{Bitstream B} {S} `{PageStore S (Block B)} (padding : Z) (s : S) : shards S :=
  (generate_blocks padding (seqZ 0 NUM_SHARDS_LEDGER) (mkShards s ∅)).2.

(** C25.  The shards are an append-only log: every event that is appended can be
    read back for ever under the identifier the append returned, whatever is
    appended to its shard or to others afterwards and however often blocks are
    sealed in between; and the identifiers of one shard are in the order of the
    appends, so that [order] tells which event is the older one. *)
Theorem Shard_log {B} `{BitstreamLaws B} {S} `{PageStoreLaws S (Block B)} (padding : Z) (s : S)
    (evs : list (Z * list Z)) :
  ps_wf s -> ps_pages s = ∅ -> NUM_SHARDS_LEDGER + Z.of_nat (length evs) <= ps_avail s -> Forall ev_ok evs ->
  exists es st', append_all padding evs (fresh_shards padding s) = (Ok es, st') /\
    Forall2 (fun e ev => exists st2,
      read_event (ev_shard e) (ev_block e) (ev_index e) st' = (Ok ev.2, st2)) es evs /\
    StronglySorted in_order es.
Proof.
  intros Hw Hp Hav Hok. destruct (shards_rep_empty s Hw Hp) as [Hr0 Hsm0].
  unfold NUM_SHARDS_LEDGER in *.
  pose proof (generate_blocks_ok padding (seqZ 0 64) _ _ Hr0 Hsm0 (NoDup_seqZ 0 64) ltac:(done)
    ltac:(rewrite length_seqZ; cbn [sh_store]; lia)) as Hg.
  apply wp_run in Hg as ([] & st1 & Eg & l1 & Hr1 & Hsm1 & Hpe1 & Hav1).
  rewrite length_seqZ in Hav1. cbn [sh_store] in Hav1.
  unfold fresh_shards, NUM_SHARDS_LEDGER. rewrite Eg. cbn [snd].
  pose proof (append_all_ok padding evs st1 l1 Hr1 Hsm1) as Ha.
  apply wp_run in Ha as (es & st2 & Ea & l2 & Hr2 & _ & _ & Hes & _ & Hsort); [| |done|lia].
  2: { intros sid Hsid. apply Hpe1. left. apply elem_of_seqZ. lia. }
  exists es, st2. split_and!; [done| |done]. eapply Forall2_impl; [exact Hes|].
  intros e [sid d] [_ He]. pose proof (read_event_ok _ _ _ _ Hr2 He) as Hrd.
  apply wp_run in Hrd as (? & st3 & E3 & -> & _). by exists st3.
Qed.

(** On concrete blocks: three events of 2600 bytes, so that the first block of
    shard 5 is sealed after the second one *)
Definition demo_events : list (Z * list Z) :=
  [(5, replicate 2600 1); (5, replicate 2600 2); (9, [7]); (5, [8; 9])].

Lemma Shard_log_witness :
  exists st', append_all 0 demo_events (fresh_shards (B := buffer) 0 page_map_empty) =
    (Ok [EventId 5 6 0; EventId 5 6 1; EventId 9 10 0; EventId 5 65 0], st').
Proof.
  destruct (Shard_log (B := buffer) 0 page_map_empty demo_events) as (es & st' & E & _);
    [split; [reflexivity|by intros p [? ?]]|reflexivity|vm_compute; congruence| |].
  - repeat constructor; cbn -[length]; rewrite ?length_replicate; lia.
  - exists st'. rewrite E. f_equal. f_equal.
    assert ((append_all 0 demo_events (fresh_shards (B := buffer) 0 page_map_empty)).1 = Ok es) as E1 by (by rewrite E).
    vm_compute in E1. by injection E1 as <-.
Defined.
