(* ===== verification/TransactionLedger.v ===== *)
(** * The ledger of the transactions

    Models [src/enclave/TransactionLedger.h], [TransactionLedger.cpp],
    [TransactionHandle.h] and [TransactionHandle.cpp]: every committed
    transaction is appended, as a JSON document, to blocks like the ones of the
    object ledger ([Block.v]), and read back through a handle. *)

From stdpp Require Import pretty.
From S2P Require Import Prelude EventId Bitstream Block PageStore Json Identity ObjectEvent Shard.

(** [op_set_t]: two [std::set<event_id_t>] *)
Record op_set_t : Type := mkOpSet { os_reads : list event_id_t; os_writes : list event_id_t; }.

#[global] Instance op_set_eq_dec : EqDecision op_set_t.
Proof. solve_decision. Defined.

(** The arguments of [TransactionLedger::insert] *)
Record tx_entry : Type := mkTxEntry {
  te_contexts : gmap Z OpContext;
  te_root : Z;
  te_id : Z;
  te_local : op_set_t;
  te_remote : gmap Z op_set_t;
}.

(** [std::to_string] of an unsigned integer *)
Definition to_string_unsigned (z : Z) : string := pretty (Z.to_N z).

(** ** The document of a transaction *)

Section Documents.
Context {D : Type} `{Json D}.
Implicit Types h doc : D.

Definition write_event (entry : event_id_t) : list D :=
  [doc_int (ev_shard entry); doc_int (ev_block entry); doc_int (ev_index entry)].

Definition write_op_set (set : op_set_t) : list D :=
  [doc_array (os_reads set ≫= write_event); doc_array (os_writes set ≫= write_event)].

Definition write_context (c : Z * OpContext) : string * D :=
  (to_string_unsigned c.1, doc_str (ctx_to_string c.2)).

Definition write_remote (r : Z * op_set_t) : list D := doc_int (s64 r.1) :: write_op_set r.2.

Definition transaction_doc (t : tx_entry) : D :=
  doc_array [doc_map (write_context <$> sorted_entries (te_contexts t));
             doc_int (s64 (te_root t)); doc_int (te_id t);
             doc_array (write_op_set (te_local t));
             doc_array (sorted_entries (te_remote t) ≫= write_remote)].

(** *** [TransactionHandle] *)

Definition th_op_context h (task : Z) : string := as_string (doc_path (doc_item h 0) (to_string_unsigned task)).
Definition th_transaction_root h : Z := u64 (as_integer (doc_item h 1)).
Definition th_transaction_id h : Z := u32 (as_integer (doc_item h 2)).

(** The values of [i] in [for(i = 0; i < size; i += 3)] *)
Definition steps_of_three (size : Z) : list Z := (fun j => 3 * j) <$> seqZ 0 (size / 3).

Definition event_at doc (i : Z) : event_id_t :=
  EventId (u16 (as_integer (doc_item doc i))) (u32 (as_integer (doc_item doc (i + 1))))
          (u16 (as_integer (doc_item doc (i + 2)))).

Definition read_ops doc : result (list event_id_t) :=
  if doc_size doc mod 3 =? 0 then Ok (std_set_of_list (event_at doc <$> steps_of_three (doc_size doc)))
  else Throw (Runtime_error "Invalid data format!").

Definition read_op_set read_set write_set : result op_set_t :=
  reads ← read_ops read_set; writes ← read_ops write_set; mret (mkOpSet reads writes).

Definition th_local_ops h : result op_set_t :=
  let local_ops := doc_item h 3 in read_op_set (doc_item local_ops 0) (doc_item local_ops 1).

(** [emplace] does not replace an entry. *)
Definition emplace {A} (k : Z) (x : A) (m : gmap Z A) : gmap Z A :=
  match m !! k with Some _ => m | None => <[k := x]> m end.

Fixpoint remote_loop doc (todo : list Z) (res : gmap Z op_set_t) : result (gmap Z op_set_t) :=
  match todo with
  | [] => mret res
  | i :: todo =>
      op_set ← read_op_set (doc_item doc (i + 1)) (doc_item doc (i + 2));
      remote_loop doc todo (emplace (u64 (as_integer (doc_item doc i))) op_set res)
  end.

Definition th_remote_ops h : result (gmap Z op_set_t) :=
  let remote_ops := doc_item h 4 in
  if doc_size remote_ops mod 3 =? 0 then remote_loop remote_ops (steps_of_three (doc_size remote_ops)) ∅
  else Throw (Runtime_error "Invalid data format!").

Definition th_get_boundaries h : result transaction_bounds_t :=
  ops ← th_local_ops h; mret (TransactionHandle_get_boundaries (os_reads ops) (os_writes ops)).

Definition th_order h1 h2 : result OrderResult :=
  b1 ← th_get_boundaries h1; b2 ← th_get_boundaries h2; mret (order_bounds b1 b2).

End Documents.

(** ** The ledger

    The blocks are kept as those of one shard, number 0, whose pending block is
    [m_pending_block_id]. *)
Record txledger (S : Type) : Type := mkTxLedger { tl_blocks : shards S; tl_num_pending_events : Z; }.
Arguments mkTxLedger {S}.
Arguments tl_blocks {S}.
Arguments tl_num_pending_events {S}.

Section Operations.
Context {B : Type} `{Bitstream B} {S : Type} `{PageStore S (Block B)} {D : Type} `{Json D}.
Variable padding : Z.

Definition on_blocks {A} (m : ST (shards S) A) : ST (txledger S) A :=
  zoom tl_blocks (fun b l => mkTxLedger b (tl_num_pending_events l)) m.

(** The page of the pending block.  The lock is free, so the loop has one round;
    with a sealed block it would have no end. *)
Definition tl_get_pending_block : ST (shards S) Z :=
  pid ← pending_block_id 0;
  block ← get_page pid;
  if Block_is_pending block then mret pid else throw Must_wait.

Definition tl_organize_ledger : ST (shards S) unit :=
  pid ← pending_block_id 0;
  pending ← get_page pid;
  if (bs_size (blk_data pending) <? MIN_BLOCK_SIZE)%nat then mret tt
  else
    newb ← Shard_generate_block padding 0;
    _ ← on_page pid Block_seal;
    _ ← flush_block pid;
    flush_block newb.

Definition TransactionLedger_insert (t : tx_entry) : ST (txledger S) ledger_pos_t :=
  let doc := transaction_doc t in
  pid ← on_blocks tl_get_pending_block;
  idx ← on_blocks (on_page pid (Block_insert (doc_bytes doc)));
  _ ← modify_st (fun l => mkTxLedger (tl_blocks l) idx);
  block ← on_blocks (get_page pid);
  _ ← (if (MIN_BLOCK_SIZE <=? bs_size (blk_data block))%nat then on_blocks tl_organize_ledger else mret tt);
  mret (LedgerPos pid idx).

Definition TransactionLedger_get (pos : ledger_pos_t) : ST (txledger S) D :=
  block ← on_blocks (get_page (lp_block pos));
  bytes ← lift_res (Block_get block (lp_index pos));
  mret (doc_parse bytes).

(** [m_num_pending_events] has no initial value; it is never read. *)
Definition TransactionLedger_new (s : S) : txledger S :=
  mkTxLedger ((generate_blocks padding [0] (mkShards s ∅)).2) 0.

Fixpoint TransactionLedger_insert_all (ts : list tx_entry) : ST (txledger S) (list ledger_pos_t) :=
  match ts with
  | [] => mret []
  | t :: ts => pos ← TransactionLedger_insert t; ps ← TransactionLedger_insert_all ts; mret (pos :: ps)
  end.

End Operations.

(** ** Reading what was written *)

Definition event_wf (e : event_id_t) : Prop :=
  in_range 16 (ev_shard e) /\ in_range 32 (ev_block e) /\ in_range 16 (ev_index e).

(** The elements of a [std::set<event_id_t>], in its order *)
Definition event_set (es : list event_id_t) : Prop :=
  StronglySorted (fun a b => event_ltb a b = true) es /\ Forall event_wf es.

Definition op_set_wf (s : op_set_t) : Prop := event_set (os_reads s) /\ event_set (os_writes s).

Record tx_entry_wf (t : tx_entry) : Prop := {
  tw_tasks : forall task c, te_contexts t !! task = Some c -> in_range 32 task;
  tw_root : in_range 64 (te_root t);
  tw_id : in_range 32 (te_id t);
  tw_local : op_set_wf (te_local t);
  tw_remote : forall uid s, te_remote t !! uid = Some s -> in_range 64 uid /\ op_set_wf s;
}.

Lemma event_ltb_trans a b c : event_ltb a b = true -> event_ltb b c = true -> event_ltb a c = true.
Proof. rewrite !event_ltb_spec. unfold before. intros [? ?] [? ?]. split; [congruence|lia]. Qed.

Lemma event_ltb_asym a b : event_ltb a b = true -> event_ltb b a = false.
Proof. intros [Hs Hab]%event_ltb_spec. apply not_true_iff_false. rewrite event_ltb_spec. unfold before in *. lia. Qed.

Lemma std_set_insert_last e s : Forall (fun x => event_ltb x e = true) s -> std_set_insert e s = s ++ [e].
Proof. induction 1 as [|x s Hx Hs IH]; [done|]. cbn. by rewrite Hx, IH. Qed.

Lemma std_set_fold_sorted l s :
  StronglySorted (fun a b => event_ltb a b = true) (s ++ l) ->
  fold_left (fun s e => std_set_insert e s) l s = s ++ l.
Proof.
  revert s. induction l as [|e l IH]; intros s Hs; cbn; [by rewrite app_nil_r|].
  rewrite std_set_insert_last; [rewrite IH; by rewrite <-app_assoc|].
  clear -Hs. induction s as [|x s IH]; [constructor|]. cbn in Hs. inversion Hs as [|? ? Hss Hall]; subst.
  constructor; [|by apply IH]. rewrite Forall_app, Forall_cons in Hall. tauto.
Qed.

(** Inserting keeps a set a set. *)
Lemma std_set_insert_elem x e s : x ∈ std_set_insert e s -> x = e \/ x ∈ s.
Proof.
  induction s as [|y s IH]; cbn; [rewrite list_elem_of_singleton; auto|].
  destruct (event_ltb y e); [|destruct (event_ltb e y)]; rewrite !elem_of_cons; naive_solver.
Qed.

Lemma std_set_insert_length e s : (length (std_set_insert e s) <= length s + 1)%nat.
Proof. induction s as [|y s IH]; cbn; [done|]. destruct (event_ltb y e); [|destruct (event_ltb e y)]; cbn; lia. Qed.

Lemma std_set_insert_sorted e s :
  StronglySorted (fun a b => event_ltb a b = true) s -> StronglySorted (fun a b => event_ltb a b = true) (std_set_insert e s).
Proof.
  induction 1 as [|y s Hs IH Hy]; cbn; [repeat constructor|]. destruct (event_ltb y e) eqn:Ey.
  - constructor; [done|]. apply Forall_forall. intros x [->|Hx]%std_set_insert_elem; [done|]. by eapply Forall_forall in Hy.
  - destruct (event_ltb e y) eqn:Ey'; [|by constructor]. repeat constructor; try done.
    eapply Forall_impl; [exact Hy|]. intros x. by apply event_ltb_trans.
Qed.

Lemma event_set_insert e s : event_wf e -> event_set s -> event_set (std_set_insert e s).
Proof.
  intros He [Hs Hw]. split; [by apply std_set_insert_sorted|]. apply Forall_forall.
  intros x [->|Hx]%std_set_insert_elem; [done|]. by eapply Forall_forall in Hw.
Qed.

Lemma event_set_fold es s : Forall event_wf es -> event_set s ->
  event_set (fold_left (fun s e => std_set_insert e s) es s) /\
  (length (fold_left (fun s e => std_set_insert e s) es s) <= length s + length es)%nat.
Proof.
  intros Hes. revert s. induction Hes as [|e es He Hes IH]; intros s Hs; cbn; [split; [done|lia]|].
  destruct (IH (std_set_insert e s)) as [Hset Hlen]; [by apply event_set_insert|].
  pose proof (std_set_insert_length e s). split; [done|lia].
Qed.

Lemma to_string_unsigned_inj a b : 0 <= a -> 0 <= b -> to_string_unsigned a = to_string_unsigned b -> a = b.
Proof. intros Ha Hb E%pretty_N_inj. lia. Qed.

Lemma pretty_N_go_plain x s : plain_name s = true -> plain_name (pretty_N_go x s) = true.
Proof.
  revert s. induction (N.lt_wf_0 x) as [x _ IH]; intros s Hs. destruct (decide (x = 0)%N) as [->|]; [done|].
  rewrite pretty_N_go_step by lia. apply IH; [apply N.div_lt; lia|].
  cbn. unfold pretty_N_char. fold (plain_name s). rewrite Hs. by repeat case_match.
Qed.

Lemma to_string_unsigned_plain z : plain_name (to_string_unsigned z) = true.
Proof.
  unfold to_string_unsigned, pretty, pretty_N. case_decide; [done|]. by apply pretty_N_go_plain.
Qed.

(** Views of the positions of arrays *)
Ltac items := repeat (erewrite doc_item_at; [|lia|reflexivity]).

Section RoundTrip.
Context {D : Type} `{JsonLaws D}.
Implicit Types h doc : D.

Lemma flat_item {A} (f : A -> list D) l j x c d :
  (forall x, length (f x) = 3%nat) -> l !! j = Some x -> 0 <= c < 3 -> f x !! Z.to_nat c = Some d ->
  doc_item (doc_array (l ≫= f)) (3 * Z.of_nat j + c) = d.
Proof.
  intros Hf Hj Hc Hd. apply doc_item_at; [lia|]. replace (Z.to_nat _) with (3 * j + Z.to_nat c)%nat by lia.
  rewrite (flat_lookup _ 3 _ _ _ x); [done..|lia].
Qed.

Lemma flat_item_0 {A} (f : A -> list D) l j x d :
  (forall x, length (f x) = 3%nat) -> l !! j = Some x -> f x !! 0%nat = Some d ->
  doc_item (doc_array (l ≫= f)) (3 * Z.of_nat j) = d.
Proof. intros Hf Hj Hd. rewrite <-(Z.add_0_r (3 * _)). by apply (flat_item f l j x). Qed.

Lemma event_at_ok (es : list event_id_t) j e :
  es !! j = Some e -> event_wf e ->
  event_at (doc_array (es ≫= write_event) : D) (3 * Z.of_nat j) = e.
Proof.
  intros Hj (Hs & Hb & Hi). unfold in_range in *. unfold event_at.
  rewrite (flat_item_0 _ _ _ e (doc_int (ev_shard e))), (flat_item _ _ _ e 1 (doc_int (ev_block e))),
    (flat_item _ _ _ e 2 (doc_int (ev_index e))) by done.
  rewrite !as_integer_int by lia. rewrite !wrap_small by done. by destruct e.
Qed.

Lemma steps_of_three_spec n : steps_of_three (3 * Z.of_nat n) = (fun j => 3 * Z.of_nat j) <$> seq 0 n.
Proof.
  unfold steps_of_three. rewrite Z.mul_comm, Z.div_mul by lia. unfold seqZ. rewrite Nat2Z.id, <-list_fmap_compose.
  apply list_fmap_ext. intros ? x _. cbn. lia.
Qed.

Lemma read_ops_ok es : event_set es -> read_ops (doc_array (es ≫= write_event) : D) = Ok es.
Proof.
  intros [Hs Hwf]. unfold read_ops. rewrite doc_size_array, (flat_length _ 3) by done.
  rewrite Nat2Z.inj_mul. change (Z.of_nat 3) with 3. rewrite Z.mul_comm, Z.mod_mul by lia. cbn [Z.eqb].
  rewrite Z.mul_comm, steps_of_three_spec, <-list_fmap_compose. f_equal.
  replace (_ <$> seq 0 (length es)) with es; [by apply (std_set_fold_sorted es [])|].
  apply list_eq. intros j. rewrite list_lookup_fmap. destruct (es !! j) as [e|] eqn:Ej.
  - pose proof (lookup_lt_Some _ _ _ Ej). rewrite lookup_seq_lt by done. cbn. symmetry. f_equal.
    apply event_at_ok; [done|]. by eapply Forall_lookup_1.
  - by rewrite lookup_seq_ge by (by apply lookup_ge_None).
Qed.

Lemma read_op_set_ok s : op_set_wf s ->
  read_op_set (doc_array (os_reads s ≫= write_event) : D) (doc_array (os_writes s ≫= write_event)) = Ok s.
Proof.
  intros [Hr Hw]. unfold read_op_set. rewrite (read_ops_ok _ Hr). cbn. rewrite (read_ops_ok _ Hw). by destruct s.
Qed.

Lemma local_ops_ok t : op_set_wf (te_local t) -> th_local_ops (transaction_doc t : D) = Ok (te_local t).
Proof.
  intros Hwf. unfold th_local_ops, transaction_doc, write_op_set. items.
  by apply read_op_set_ok.
Qed.

Lemma op_context_ok t task c : tx_entry_wf t -> te_contexts t !! task = Some c ->
  th_op_context (transaction_doc t : D) task = ctx_to_string c.
Proof.
  intros Hwf Hc. unfold th_op_context, transaction_doc. items.
  rewrite (doc_path_map _ _ (doc_str (ctx_to_string c))); [by rewrite as_string_str| | |apply to_string_unsigned_plain].
  - rewrite <-list_fmap_compose. apply (NoDup_fmap_2_strong (fun c => to_string_unsigned c.1)).
    + intros [a x] [b y] Ha%sorted_entries_elem Hb%sorted_entries_elem E. cbn in E.
      destruct (tw_tasks _ Hwf _ _ Ha), (tw_tasks _ Hwf _ _ Hb).
      apply to_string_unsigned_inj in E as ->; [|done..]. congruence.
    + apply (NoDup_fmap_1 fst), sorted_entries_keys.
  - apply (list_elem_of_fmap_2' write_context _ (task, c)); [by apply sorted_entries_elem|done].
Qed.

Lemma remote_loop_ok doc todo kvs res :
  Forall2 (fun i (kv : Z * op_set_t) => u64 (as_integer (doc_item doc i)) = kv.1 /\
    read_op_set (doc_item doc (i + 1)) (doc_item doc (i + 2)) = Ok kv.2) todo kvs ->
  NoDup kvs.*1 -> Forall (fun k => res !! k = None) kvs.*1 ->
  remote_loop doc todo res = Ok (list_to_map kvs ∪ res).
Proof.
  intros Hall. revert res. induction Hall as [|i [k s] todo kvs [Hk Hr] Hall IH]; intros res Hnd Hres; cbn.
  { unfold mret, result_ret. by rewrite (left_id_L ∅ (∪)). }
  cbn in Hk, Hr. apply NoDup_cons in Hnd as [Hin Hnd]. apply Forall_cons in Hres as [Hk0 Hres]. cbn in Hin, Hk0.
  rewrite Hr. unfold mbind, result_bind at 1. rewrite Hk. unfold emplace. rewrite Hk0. rewrite IH; [|done|].
  - f_equal. rewrite <-insert_union_l, <-insert_union_r; [done|]. by apply not_elem_of_list_to_map.
  - apply Forall_forall. intros k' Hk'. rewrite lookup_insert_ne; [by eapply Forall_forall in Hres|].
    intros ->. done.
Qed.

Lemma remote_ops_ok t : tx_entry_wf t -> th_remote_ops (transaction_doc t : D) = Ok (te_remote t).
Proof.
  intros Hwf. unfold th_remote_ops, transaction_doc. items.
  rewrite doc_size_array, (flat_length _ 3) by done. rewrite Nat2Z.inj_mul. change (Z.of_nat 3) with 3.
  rewrite Z.mul_comm, Z.mod_mul by lia. cbn [Z.eqb]. rewrite Z.mul_comm, steps_of_three_spec.
  rewrite (remote_loop_ok _ _ (sorted_entries (te_remote t))).
  - by rewrite sorted_entries_map, (right_id_L ∅ (∪)).
  - apply Forall2_same_length_lookup_2; [by rewrite length_fmap, length_seq|].
    intros j i [k s] Hi Hj. apply list_lookup_fmap_Some in Hi as (j' & -> & Hi). apply lookup_seq in Hi as [-> Hlt].
    destruct (tw_remote _ Hwf k s) as [Hk Hs]; [apply sorted_entries_elem; by eapply list_elem_of_lookup_2|].
    cbn [Nat.add]. rewrite (flat_item_0 _ _ _ (k, s) (doc_int (s64 k))) by done.
    rewrite (flat_item _ _ _ (k, s) 1 (doc_array (os_reads s ≫= write_event))),
      (flat_item _ _ _ (k, s) 2 (doc_array (os_writes s ≫= write_event))) by done.
    rewrite as_integer_int, u64_s64 by (apply s64_range || done). split; [done|]. by apply read_op_set_ok.
  - apply sorted_entries_keys.
  - apply Forall_forall. intros k _. apply lookup_empty.
Qed.

End RoundTrip.

(** ** The ledger *)

Section Ledger.
Context {B : Type} `{BitstreamLaws B} {S : Type} `{PageStoreLaws S (Block B)} {D : Type} `{JsonLaws D}.
Variable padding : Z.
Implicit Types (l : txledger S) (st : shards S) (lg : log).

Record blocks_rep st lg : Prop := {
  br_rep : shards_rep st lg;
  br_small : shard_small 0 st;
  br_pending : is_Some (sh_pending st !! 0);
}.

Lemma tl_get_pending_block_ok st lg pid docs :
  shards_rep st lg -> sh_pending st !! 0 = Some pid -> lg !! pid = Some (0, false, docs) ->
  wp tl_get_pending_block (fun pid' st' => pid' = pid /\ shards_same st st') st.
Proof.
  intros Hr Hpid Hp. unfold tl_get_pending_block. apply wp_bind. eapply pending_block_id_ok; [done|].
  destruct (rep_page _ _ _ _ _ _ Hr Hp) as (b & pad & nf & Hb & Hrep).
  apply wp_bind. eapply wp_mono; [apply (shard_page_ok _ _ b); [apply Hr|done]|]. cbv beta.
  intros b' st' [-> Hs]. rewrite (Block_is_pending_rep _ _ _ _ _ Hrep). by apply wp_ret.
Qed.

Lemma tl_organize_ledger_ok st lg pid docs :
  shards_rep st lg -> sh_pending st !! 0 = Some pid -> lg !! pid = Some (0, false, docs) ->
  0 < ps_avail (sh_store st) ->
  wp (tl_organize_ledger padding) (fun _ st' => exists lg', blocks_rep st' lg' /\ log_le lg lg' /\
    ps_avail (sh_store st) - 1 <= ps_avail (sh_store st')) st.
Proof.
  intros Hr Hpid Hp Hav. unfold tl_organize_ledger. apply wp_bind. eapply pending_block_id_ok; [done|].
  destruct (rep_page _ _ _ _ _ _ Hr Hp) as (b & pad & nf & Hb & Hrep).
  apply wp_bind. eapply wp_mono; [apply (shard_page_ok _ _ b); [apply Hr|done]|]. cbv beta.
  intros b1 st1 [-> Hs1]. destruct (Nat.ltb_spec (bs_size (blk_data b)) MIN_BLOCK_SIZE) as [Hlt|Hge].
  { apply wp_ret. exists lg. split_and!; [split|done|rewrite (ss_avail _ _ Hs1); lia].
    - by eapply shards_rep_same.
    - eapply pending_is_same; [done|]. intros pid' b' Hpid' Hb'. congruence.
    - rewrite (ss_pending _ _ Hs1). eauto. }
  destruct Hs1 as [Hw1 Hpg1 Hpe1 Hav1]. apply wp_bind. eapply wp_mono; [apply new_page_ok; [done|lia]|].
  cbv beta. intros newp st2 (Hw2 & Hnp & Hord & Hpg2 & Hpe2 & Hav2).
  assert (pid < newp) as Hlt by (apply Hord; by rewrite Hpg1, Hb).
  destruct (Block_seal_ok b pad nf docs Hrep) as (b' & Hseal & Hrep').
  apply wp_bind. eapply wp_mono; [eapply (on_page_ok _ _ b); [done| |done]|].
  { by rewrite Hpg2, Hpg1, lookup_insert_ne by lia. }
  cbv beta. intros _ st3 (_ & Hw3 & Hpe3 & Hpg3 & Hav3).
  apply wp_bind. eapply wp_mono; [apply (flush_block_ok _ _ b'); [done|by rewrite Hpg3, lookup_insert_eq]|].
  cbv beta. intros _ st4 [Hw4 Hpg4 Hpe4 Hav4].
  assert (ps_pages (sh_store st4) !! newp = Some (Block_new padding)) as Hnew.
  { by rewrite Hpg4, Hpg3, lookup_insert_ne, Hpg2, lookup_insert_eq by lia. }
  eapply wp_mono; [by apply (flush_block_ok _ _ (Block_new padding))|].
  cbv beta. intros _ st5 [Hw5 Hpg5 Hpe5 Hav5].
  destruct (organize_rep padding st st5 lg pid 0 docs b' newp Hr Hpid Hp) as [Hr' Hle];
    [by eauto|done| |congruence|done|by rewrite <-Hpg1|].
  { rewrite Hpg5, Hpg4, Hpg3, Hpg2, Hpg1. apply insert_insert_ne. lia. }
  eexists. split_and!; [split; [exact Hr'| |]|done|lia].
  - intros pid' b0. rewrite Hpe5, Hpe4, Hpe3, Hpe2, lookup_insert_eq. intros [= <-]. rewrite Hpg5, Hnew.
    intros [= <-]. apply Block_new_small.
  - rewrite Hpe5, Hpe4, Hpe3, Hpe2, lookup_insert_eq. eauto.
Qed.

Definition pos_entry lg (pos : ledger_pos_t) (bytes : list Z) : Prop :=
  log_entry lg (EventId 0 (lp_block pos) (lp_index pos)) bytes.

Definition tx_bounded (t : tx_entry) : Prop := Z.of_nat (length (doc_bytes (transaction_doc t : D))) < 2 ^ 31.

(** What an insert leaves: the document at its position, after all others *)
Definition inserted lg (bytes : list Z) (avail : Z) (pos : ledger_pos_t) l : Prop := exists lg',
  blocks_rep (tl_blocks l) lg' /\ log_le lg lg' /\ pos_entry lg' pos bytes /\
  in_range 32 (lp_block pos) /\ in_range 16 (lp_index pos) /\ 0 < lp_block pos /\
  (forall pos' d, pos_entry lg pos' d -> order_ledger_pos pos' pos = OlderThan) /\
  avail - 1 <= ps_avail (sh_store (tl_blocks l)).

Lemma older_position lg pid docs st pos' d :
  shards_rep st lg -> sh_pending st !! 0 = Some pid -> lg !! pid = Some (0, false, docs) ->
  pos_entry lg pos' d -> order_ledger_pos pos' (LedgerPos pid (Z.of_nat (length docs))) = OlderThan.
Proof.
  intros Hr Hpid Hp (sealed & docs' & Hb & Hi & Hd). cbn in Hb, Hi, Hd.
  destruct (sr_order _ _ Hr _ _ _ _ Hb) as (_ & pid' & Hpid' & Hle & _). assert (pid' = pid) as -> by congruence.
  unfold order_ledger_pos. cbn. destruct (Z.ltb_spec (lp_block pos') pid); [done|].
  assert (lp_block pos' = pid) as E by lia. rewrite E, Z.eqb_refl. apply lookup_lt_Some in Hd.
  assert (docs' = docs) as -> by congruence. destruct (Z.ltb_spec (lp_index pos') (Z.of_nat (length docs))); [done|lia].
Qed.

Lemma TransactionLedger_insert_ok l lg t :
  blocks_rep (tl_blocks l) lg -> 0 < ps_avail (sh_store (tl_blocks l)) -> tx_bounded t ->
  wp (TransactionLedger_insert (D := D) padding t)
    (inserted lg (doc_bytes (transaction_doc t : D)) (ps_avail (sh_store (tl_blocks l)))) l.
Proof.
  intros [Hr Hsm [pid Hpid]] Hav Hlen. destruct (sr_pending _ _ Hr _ _ Hpid) as [docs Hd].
  destruct (sr_order _ _ Hr _ _ _ _ Hd) as [Hrange _]. rewrite INVALID_PAGE_NO_val in Hrange.
  unfold TransactionLedger_insert. set (bytes := doc_bytes _) in *.
  apply wp_bind, wp_zoom. eapply wp_mono; [by eapply tl_get_pending_block_ok|]. cbv beta. intros ? st1 [-> Hs1].
  apply wp_bind, wp_zoom. eapply wp_mono; [apply (insert_event_ok (2 ^ 31) 0 _ lg 0 pid docs bytes)|]; try done; cbn [tl_blocks].
  { by eapply shards_rep_same. }
  { eapply pending_is_same; [done|]. by eapply shard_small_load. }
  { by rewrite (ss_pending _ _ Hs1). }
  cbv beta. intros idx st2 (-> & Hr2 & Hpe2 & Hav2 & Hlen2 & _ & _). apply wp_bind, wp_modify.
  set (lg2 := <[pid := _]> lg) in *. assert (lg2 !! pid = Some (0, false, docs ++ [bytes])) as Hd2 by apply lookup_insert_eq.
  destruct (rep_page _ _ _ _ _ _ Hr2 Hd2) as (b2 & _ & _ & Hb2 & _).
  apply wp_bind, wp_zoom. eapply wp_mono; [apply (shard_page_ok _ _ b2); [apply Hr2|done]|]. cbv beta.
  intros b3 st3 [-> Hs3]. cbn [tl_blocks tl_num_pending_events] in *.
  assert (log_le lg lg2) as Hle by (by apply log_le_append).
  assert (sh_pending st3 !! 0 = Some pid) as Hpid3.
  { by rewrite (ss_pending _ _ Hs3), Hpe2, (ss_pending _ _ Hs1). }
  assert (ps_avail (sh_store st3) = ps_avail (sh_store (tl_blocks l))) as Hav3.
  { by rewrite (ss_avail _ _ Hs3), Hav2, (ss_avail _ _ Hs1). }
  assert (forall l' lg', blocks_rep (tl_blocks l') lg' -> log_le lg2 lg' ->
    ps_avail (sh_store st3) - 1 <= ps_avail (sh_store (tl_blocks l')) ->
    inserted lg bytes (ps_avail (sh_store (tl_blocks l))) (LedgerPos pid (Z.of_nat (length docs))) l') as Hdone.
  { intros l' lg' Hb' Hle' Hav'. exists lg'. unfold in_range. cbn.
    split_and!; [done|by etrans| |lia..|intros; by eapply (older_position lg pid docs (tl_blocks l))|lia].
    apply (log_entry_mono lg2); [done|]. exists false, (docs ++ [bytes]). cbn. rewrite Nat2Z.id.
    split_and!; [done|lia|]. by rewrite lookup_app_r, Nat.sub_diag by lia. }
  apply wp_bind. destruct (Nat.leb_spec MIN_BLOCK_SIZE (bs_size (blk_data b2))) as [Hge|Hlt].
  - apply wp_zoom. eapply wp_mono; [eapply (tl_organize_ledger_ok st3 lg2)|]; [by eapply shards_rep_same|done|done|lia|].
    cbv beta. intros _ st4 (lg4 & Hb4 & Hle4 & Hav4). by apply wp_ret, (Hdone _ lg4).
  - apply wp_ret, wp_ret, (Hdone _ lg2); [split|done|cbn; lia]; cbn [tl_blocks].
    + by eapply shards_rep_same.
    + intros pid' b'. rewrite Hpid3. intros [= <-]. rewrite (ss_pages _ _ Hs3), Hb2. by intros [= <-].
    + eauto.
Qed.

Lemma TransactionLedger_get_ok l lg pos doc :
  blocks_rep (tl_blocks l) lg -> pos_entry lg pos (doc_bytes doc) -> doc_valid doc = true ->
  wp (TransactionLedger_get pos) (fun h l' => h = doc /\ shards_same (tl_blocks l) (tl_blocks l')) l.
Proof.
  intros [Hr _ _] (sealed & docs & Hp & Hi & Hd) Hv. cbn in Hp, Hi, Hd. unfold TransactionLedger_get.
  destruct (rep_page _ _ _ _ _ _ Hr Hp) as (b & pad & nf & Hb & Hrep).
  apply wp_bind, wp_zoom. eapply wp_mono; [apply (shard_page_ok _ _ b); [apply Hr|done]|]. cbv beta.
  intros b' st' [-> Hs]. pose proof (Block_get_ok _ _ _ _ _ _ _ Hrep Hd) as Hg. rewrite Z2Nat.id in Hg by done.
  apply wp_bind. rewrite Hg. apply wp_ret, wp_ret. split; [by apply doc_parse_bytes|done].
Qed.

Lemma TransactionLedger_insert_all_ok ts l lg :
  blocks_rep (tl_blocks l) lg -> Forall tx_bounded ts -> Z.of_nat (length ts) <= ps_avail (sh_store (tl_blocks l)) ->
  wp (TransactionLedger_insert_all (D := D) padding ts) (fun ps l' => exists lg', blocks_rep (tl_blocks l') lg' /\ log_le lg lg' /\
    Forall2 (fun pos t => pos_entry lg' pos (doc_bytes (transaction_doc t : D))) ps ts /\
    (forall pos d, pos_entry lg pos d -> Forall (fun p => order_ledger_pos pos p = OlderThan) ps) /\
    StronglySorted (fun p q => order_ledger_pos p q = OlderThan) ps) l.
Proof.
  revert l lg. induction ts as [|t ts IH]; intros l lg Hb Hts Hav; cbn [TransactionLedger_insert_all].
  { apply wp_ret. exists lg. split_and!; try done; constructor. }
  apply Forall_cons in Hts as [Ht Hts]. cbn [length] in Hav. apply wp_bind.
  eapply wp_mono; [apply TransactionLedger_insert_ok; [done|lia|done]|]. cbv beta.
  intros pos l1 (lg1 & Hb1 & Hle1 & He & _ & _ & _ & Hord & Hav1).
  apply wp_bind. eapply wp_mono; [apply (IH l1 lg1); [done..|lia]|]. cbv beta.
  intros ps l2 (lg2 & Hb2 & Hle2 & Hes & Hnew & Hsort). apply wp_ret. exists lg2. split_and!; [done|by etrans|..].
  - constructor; [by eapply log_entry_mono|done].
  - intros pos' d He'. constructor; [by eapply Hord|]. by eapply Hnew, log_entry_mono.
  - constructor; [done|]. by eapply Hnew.
Qed.

End Ledger.

(** ** Theorems *)

(** What a handle tells of a transaction *)
Definition handle_of {D} `{Json D} (t : tx_entry) (h : D) : Prop :=
  th_transaction_root h = te_root t /\ th_transaction_id h = te_id t /\
  (forall task c, te_contexts t !! task = Some c -> th_op_context h task = ctx_to_string c) /\
  th_local_ops h = Ok (te_local t) /\ th_remote_ops h = Ok (te_remote t) /\
  th_get_boundaries h = Ok (TransactionHandle_get_boundaries (os_reads (te_local t)) (os_writes (te_local t))).

Lemma transaction_doc_handle {D} `{JsonLaws D} t : tx_entry_wf t -> handle_of t (transaction_doc t : D).
Proof.
  intros Hwf. destruct (tw_root _ Hwf), (tw_id _ Hwf).
  split_and!.
  - unfold th_transaction_root, transaction_doc. items. rewrite as_integer_int by apply s64_range.
    by apply u64_s64.
  - unfold th_transaction_id, transaction_doc. items. rewrite as_integer_int by lia. by apply wrap_small.
  - intros task c Hc. by apply op_context_ok.
  - apply local_ops_ok, Hwf.
  - by apply remote_ops_ok.
  - unfold th_get_boundaries. by rewrite local_ops_ok by apply Hwf.
Qed.

Lemma TransactionLedger_new_rep {B} `{BitstreamLaws B} {S} `{PageStoreLaws S (Block B)} (padding : Z) (s : S) :
  ps_wf s -> ps_pages s = ∅ -> 1 <= ps_avail s ->
  exists lg, blocks_rep (tl_blocks (TransactionLedger_new padding s)) lg /\
    ps_avail s - 1 <= ps_avail (sh_store (tl_blocks (TransactionLedger_new padding s))).
Proof.
  intros Hw Hp Hav. destruct (shards_rep_empty s Hw Hp) as [Hr0 Hsm0].
  pose proof (generate_blocks_ok padding [0] _ _ Hr0 Hsm0 ltac:(apply NoDup_singleton) ltac:(done)
    ltac:(cbn [length sh_store]; lia)) as Hg.
  apply wp_run in Hg as ([] & st1 & Eg & lg1 & Hr1 & Hsm1 & Hpe1 & Hav1). cbn [length sh_store] in Hav1.
  unfold TransactionLedger_new. rewrite Eg. exists lg1. split; [|cbn; lia]. split; [done|apply Hsm1|]. apply Hpe1. left. set_solver.
Qed.

(** C26.  The transaction ledger gives back what was committed: from a new ledger,
    any sequence of inserts succeeds, however often it makes the ledger seal its
    pending block; every position that was returned leads to a handle from which
    the root, the identifier, the context of each task, the local and the remote
    reads and writes and the boundaries are read exactly as they were inserted;
    and the positions are in the order of the inserts. *)
Theorem TransactionLedger_roundtrip {B} `{BitstreamLaws B} {S} `{PageStoreLaws S (Block B)} {D} `{JsonLaws D}
    (padding : Z) (s : S) (ts : list tx_entry) :
  ps_wf s -> ps_pages s = ∅ -> 1 + Z.of_nat (length ts) <= ps_avail s ->
  Forall tx_entry_wf ts -> Forall (tx_bounded (D := D)) ts ->
  exists ps l, TransactionLedger_insert_all (D := D) padding ts (TransactionLedger_new padding s) = (Ok ps, l) /\
    Forall2 (fun pos t => exists (h : D) l', TransactionLedger_get pos l = (Ok h, l') /\ handle_of t h) ps ts /\
    StronglySorted (fun p q => order_ledger_pos p q = OlderThan) ps.
Proof.
  intros Hw Hp Hav Hwf Hbd. destruct (TransactionLedger_new_rep padding s Hw Hp ltac:(lia)) as (lg1 & Hr1 & Hav1).
  pose proof (TransactionLedger_insert_all_ok (D := D) padding ts (TransactionLedger_new padding s) lg1 Hr1 Hbd ltac:(lia)) as Ha.
  apply wp_run in Ha as (ps & l & Ea & lg & Hb & _ & Hes & _ & Hsort).
  exists ps, l. split_and!; [done| |done].
  clear Ea Hsort Hbd Hav Hav1. induction Hes as [|pos t ps ts He Hes IH]; constructor; apply Forall_cons in Hwf as [Ht Hwf];
    [|by apply IH].
  pose proof (TransactionLedger_get_ok l lg pos (transaction_doc t : D) Hb He (doc_array_valid _)) as Hget.
  apply wp_run in Hget as (h & l' & E & -> & _). eexists _, l'. split; [done|]. by apply transaction_doc_handle.
Qed.

Definition demo_tx (id : Z) : tx_entry :=
  mkTxEntry {[3 := mkContext (mkIdentity IdClient "alice" [1]) EmptyString; 12 := mkContext (mkIdentity IdServer "b" [2]) "p"]}
    (2 ^ 64 - 1) id (mkOpSet [EventId 5 6 0; EventId 5 7 2] [EventId 5 9 id])
    {[7 := mkOpSet [] [EventId 1 2 3]; 2 ^ 63 := mkOpSet [EventId 4 4 4] []]}.

Lemma demo_tx_wf id : in_range 16 id -> tx_entry_wf (demo_tx id).
Proof.
  unfold in_range. intros Hid.
  assert (forall e, event_set [e] <-> event_wf e) as Hone.
  { intros e. unfold event_set. rewrite Forall_singleton. split; [tauto|]. intros ?. split; [by repeat constructor|done]. }
  assert (event_set []) as Hnil by (split; constructor).
  split; cbn.
  - intros task c. rewrite lookup_insert_Some, lookup_singleton_Some. unfold in_range. lia.
  - unfold in_range. lia.
  - unfold in_range. lia.
  - split; [|apply Hone; unfold event_wf, in_range; cbn; lia].
    split; [repeat constructor|]. repeat (apply Forall_cons; split); [unfold event_wf, in_range; cbn; lia..|constructor].
  - intros uid s. rewrite lookup_insert_Some, lookup_singleton_Some.
    intros [[<- <-]|[_ [<- <-]]]; (split; [unfold in_range; lia|]).
    + split; [exact Hnil|]. apply Hone. unfold event_wf, in_range. cbn. lia.
    + split; [|exact Hnil]. apply Hone. unfold event_wf, in_range. cbn. lia.
Qed.

Lemma TransactionLedger_roundtrip_witness :
  exists ps l, TransactionLedger_insert_all (B := buffer) (D := jtree) 0 [demo_tx 1; demo_tx 2]
      (TransactionLedger_new 0 page_map_empty) = (Ok ps, l) /\
    Forall2 (fun pos t => exists (h : jtree) l', TransactionLedger_get pos l = (Ok h, l') /\ handle_of t h) ps
      [demo_tx 1; demo_tx 2].
Proof.
  destruct (TransactionLedger_roundtrip (B := buffer) (D := jtree) 0 page_map_empty [demo_tx 1; demo_tx 2])
    as (ps & l & E & Hget & _); [split; [reflexivity|by intros p [? ?]]|reflexivity|vm_compute; congruence| | |].
  - repeat (apply Forall_cons; split); [apply demo_tx_wf; unfold in_range; lia..|constructor].
  - repeat (apply Forall_cons; split); [vm_compute; reflexivity..|constructor].
  - exists ps, l. split; [exact E|exact Hget].
Defined.
