(* ===== verification/Ledger.v ===== *)
(** * The ledger

    Models [src/enclave/Ledger.h], [Ledger.inl], [Ledger.cpp],
    [ObjectIterator.cpp] and the collections of [Collection.h], as compiled on
    their own ([IS_TEST]: no triggers are sent and no downstream server is told).
    The operations run under the locks they take ([LockHandle.v]), on shards
    ([Shard.v]), a primary index per collection (the [KVMap] interface of
    [HashMap.v]) and secondary indexes ([Index.v]).  What the
    policy programs of objects and collections answer is a parameter. *)

From S2P Require Import Prelude EventId Keys Bitstream Block PageStore Hash HashMap Json Index Identity ObjectEvent.
From S2P Require Import Shard.

Inductive OperationType : Type :=
  | GetObject | GetObjectWithWitness | GetObjectHistory | HasObject | CheckObject | PutObject
  | PutObjectWithoutKey | AddToObject | CountObjects | FindObjects | ListPeers | DiffVersions
  | RemoveObject | CreateIndex | DropIndex | Clear | CreateWitness | ExecuteCode | CallProgram
  | ReadFromUpstreamDisk | TellPeerType | Peer | SetTrigger | UnsetTrigger | OrderEvents
  | ExecuteTransaction | TransactionPrepare | TransactionPromise | TransactionCommit
  | TransactionAbort | GetStatistics | NOP | DumpEverything | LoadEverything.

#[global] Instance OperationType_eq_dec : EqDecision OperationType.
Proof. solve_decision. Defined.

Record collection (M X : Type) : Type := mkCollection {
  col_primary : M;
  col_indexes : gmap string X;
  col_triggers : gset Z;
}.
Arguments mkCollection {M X}.
Arguments col_primary {M X}.
Arguments col_indexes {M X}.
Arguments col_triggers {M X}.

Record ledger (S M X : Type) : Type := mkLedger {
  l_shards : shards S;
  l_cols : gmap string (collection M X);
  l_object_count : Z;
  l_version_count : Z;
}.
Arguments mkLedger {S M X}.
Arguments l_shards {S M X}.
Arguments l_cols {S M X}.
Arguments l_object_count {S M X}.
Arguments l_version_count {S M X}.

(** [Ledger::get_shard] *)
Definition shard_of_key (collection key : string) : Z :=
  u16 (hash_string (collection ++ "/" ++ key)%string) mod NUM_SHARDS_LEDGER.

Section Ledger.
Context {B : Type} `{Bitstream B} {S : Type} `{PageStore S (Block B)}.
Context {M : Type} `{KVMap M string event_id_t} {D : Type} `{Json D} {X : Type} `{Index X D}.

(** The padding of block headers, the map of a new collection, what a policy
    program answers in the current state, and a bound on the events that are
    no versions between an event and the version before it *)
Variables (padding : Z) (new_primary : M).
Variable run_program : ledger S M X -> D -> OpContext -> string -> string -> string -> OperationType -> bool.
Variable fuel : nat.

Abbreviation L := (ledger S M X).
Implicit Types (l : L) (ctx : OpContext).

Definition set_shards (sh : shards S) l : L := mkLedger sh (l_cols l) (l_object_count l) (l_version_count l).
Definition set_cols (cs : gmap string (collection M X)) l : L :=
  mkLedger (l_shards l) cs (l_object_count l) (l_version_count l).
Definition set_object_count (n : Z) l : L := mkLedger (l_shards l) (l_cols l) n (l_version_count l).
Definition set_version_count (n : Z) l : L := mkLedger (l_shards l) (l_cols l) (l_object_count l) n.

Definition on_shards {A} (m : ST (shards S) A) : ST L A := zoom l_shards set_shards m.

(** ** Collections *)

Definition new_collection : collection M X := mkCollection new_primary ∅ ∅.

Definition get_collection (name : string) (create : bool) : ST L (collection M X) :=
  l ← get_st;
  match l_cols l !! name with
  | Some c => mret c
  | None =>
      if create then _ ← modify_st (fun l => set_cols (<[name := new_collection]> (l_cols l)) l); mret new_collection
      else throw (Runtime_error ("No such collection: " ++ name))
  end.

Definition put_collection (name : string) (c : collection M X) : ST L unit :=
  modify_st (fun l => set_cols (<[name := c]> (l_cols l)) l).

Definition on_primary {A} (name : string) (m : ST M A) : ST L A :=
  c ← get_collection name false;
  let '(r, p) := m (col_primary c) in
  _ ← put_collection name (mkCollection p (col_indexes c) (col_triggers c));
  lift_res r.

(** A step on every secondary index of a collection *)
Fixpoint indexes_loop (step : ST X unit) (todo : list (string * X)) (done : gmap string X) :
    result unit * gmap string X :=
  match todo with
  | [] => (Ok tt, done)
  | (n, x) :: todo =>
      match step x with
      | (Ok _, x') => indexes_loop step todo (<[n := x']> done)
      | (Throw e, x') => (Throw e, <[n := x']> done)
      end
  end.

Definition on_indexes (name : string) (step : ST X unit) : ST L unit :=
  c ← get_collection name false;
  let '(r, xs) := indexes_loop step (map_to_list (col_indexes c)) (col_indexes c) in
  _ ← put_collection name (mkCollection (col_primary c) xs (col_triggers c));
  lift_res r.

Definition set_trigger (name : string) (identifier : Z) : ST L bool :=
  c ← get_collection name true;
  _ ← put_collection name (mkCollection (col_primary c) (col_indexes c) ({[identifier]} ∪ col_triggers c));
  mret true.

Definition unset_trigger (name : string) (identifier : Z) : ST L bool :=
  l ← get_st;
  match l_cols l !! name with
  | None => mret false
  | Some c =>
      _ ← put_collection name (mkCollection (col_primary c) (col_indexes c) (col_triggers c ∖ {[identifier]}));
      mret true
  end.

Definition remove_triggers_for (identifier : Z) : ST L unit :=
  modify_st (fun l => set_cols ((fun c =>
    mkCollection (col_primary c) (col_indexes c) (col_triggers c ∖ {[identifier]})) <$> l_cols l) l).

(** ** Reading events *)

Definition get_event (eid : event_id_t) : ST L D :=
  bytes ← on_shards (read_event (ev_shard eid) (ev_block eid) (ev_index eid));
  mret (doc_parse bytes).

Definition get_latest_event (name key : string) : ST L (event_id_t * D) :=
  if decide (key = EmptyString) then mret (INVALID_EVENT, doc_null)
  else
    l ← get_st;
    match l_cols l !! name with
    | None => mret (INVALID_EVENT, doc_null)
    | Some _ =>
        r ← on_primary name (kv_get key);
        match r with
        | None => mret (INVALID_EVENT, doc_null)
        | Some eid => event ← get_event eid; mret (eid, event)
        end
    end.

Definition get_previous_event (shard_no : Z) (current : D) : ST L D :=
  if ev_has_predecessor current then
    get_event (EventId shard_no (ev_previous_block current) (ev_previous_index current))
  else mret doc_null.

(** The loop of [get_previous_version] *)
Fixpoint previous_version_loop (fuel : nat) (shard_no : Z) (next_event : D) : ST L D :=
  if handle_valid next_event && bool_decide (ev_get_type next_event <> NewVersion) then
    if decide (ev_get_type next_event = Deletion) then mret doc_null
    else if negb (ev_has_predecessor next_event) then mret doc_null
    else
      match fuel with
      | O => throw (Undefined "out of fuel")
      | Datatypes.S fuel =>
          event ← get_previous_event shard_no next_event;
          previous_version_loop fuel shard_no event
      end
  else mret next_event.

Definition get_previous_version (shard_no : Z) (current_event : D) : ST L D :=
  previous_version_loop fuel shard_no current_event.

(** ** Policies *)

Definition check_object_policy (policy : D) ctx (name key path : string) (type : OperationType) : ST L bool :=
  if negb (ctx_valid ctx) then mret true
  else l ← get_st; mret (run_program l policy ctx name key path type).

(** The loop of [get_latest_version]; the second result is the identifier that
    is left in [id] *)
Fixpoint latest_version_loop (fuel : nat) (id : event_id_t) (event : D) : ST L (event_id_t * D) :=
  if handle_valid event && bool_decide (ev_get_type event <> NewVersion) then
    if decide (ev_get_type event = Deletion) then mret (INVALID_EVENT, doc_null)
    else
      match fuel with
      | O => throw (Undefined "out of fuel")
      | Datatypes.S fuel =>
          let id := EventId (ev_shard id) (ev_previous_block event) (ev_previous_index event) in
          event ← get_event id;
          latest_version_loop fuel id event
      end
  else mret (id, event).

Definition get_latest_version ctx (name key path : string) (access_type : OperationType) :
    ST L (event_id_t * D) :=
  '((id, event) : event_id_t * D) ← get_latest_event name key;
  '((id, event) : event_id_t * D) ← latest_version_loop fuel id event;
  if negb (handle_valid event) then mret (id, doc_null)
  else
    policy ← lift_res (ev_get_policy event);
    if doc_empty policy then mret (id, event)
    else
      ok ← check_object_policy policy ctx name key path access_type;
      mret (id, if ok : bool then event else doc_null).

Definition has_object (name key : string) : ST L bool :=
  l ← get_st;
  match l_cols l !! name with
  | None => mret false
  | Some _ =>
      r ← on_primary name (kv_get key);
      match r with
      | None => mret false
      | Some id => hdl ← get_event id; mret (bool_decide (ev_get_type hdl = NewVersion))
      end
  end.

Definition get_transaction_ref (eid : event_id_t) : ST L ledger_pos_t :=
  hdl ← get_event eid; mret (ev_transaction_ref hdl).

(** ** Iterating over the versions of an object *)

Record object_iterator : Type := mkOit {
  oi_context : OpContext;
  oi_collection : string;
  oi_key : string;
  oi_path : string;
  oi_start : D;
  oi_current_event : D;
  oi_current_eid : event_id_t;
}.

Definition set_current (event : D) (eid : event_id_t) (it : object_iterator) : object_iterator :=
  mkOit (oi_context it) (oi_collection it) (oi_key it) (oi_path it) (oi_start it) event eid.

Definition iterate ctx (name key path : string) : ST L object_iterator :=
  '((eid, start) : event_id_t * D) ← get_latest_version ctx name key path GetObject;
  mret (mkOit ctx name key path start doc_null eid).

Definition check_event (it : object_iterator) (event : D) : ST L bool :=
  if negb (handle_valid event) then mret false
  else if decide (ev_get_type event = Deletion) then mret false
  else
    policy ← lift_res (ev_get_policy event);
    if doc_empty policy then mret true
    else check_object_policy policy (oi_context it) (oi_collection it) (oi_key it) (oi_path it) GetObject.

(** The loop of [next_handle], from a [next_event] that is valid: the result is
    [None] where [next_handle] returns [INVALID_EVENT] *)
Fixpoint next_handle_loop (fuel : nat) (shard_no : Z) (next_event : D) (it : object_iterator) :
    ST L (option D * object_iterator) :=
  match fuel with
  | O => throw (Undefined "out of fuel")
  | Datatypes.S fuel =>
      if ev_has_predecessor next_event then
        let index := ev_previous_index next_event in
        let pblk := ev_previous_block next_event in
        event ← get_event (EventId shard_no pblk index);
        let it := if pblk =? ev_block (oi_current_eid it) then it
                  else set_current (oi_current_event it) (EventId shard_no pblk index) it in
        ok ← check_event it event;
        if negb ok then mret (None, set_current (oi_current_event it) INVALID_EVENT it)
        else if decide (ev_get_type event = NewVersion) then mret (Some event, it)
        else next_handle_loop fuel shard_no event it
      else mret (Some doc_null, it)
  end.

(** The identifier, the handle left in [ret] (if any), and the iterator *)
Definition next_handle (it : object_iterator) : ST L (event_id_t * D * object_iterator) :=
  let shard_no := shard_of_key (oi_collection it) (oi_key it) in
  if negb (handle_valid (oi_current_event it)) then
    let it := set_current (oi_start it) (oi_current_eid it) it in
    ok ← check_event it (oi_current_event it);
    if ok : bool then mret (oi_current_eid it, oi_current_event it, it)
    else mret (INVALID_EVENT, doc_null, set_current (oi_current_event it) INVALID_EVENT it)
  else if negb (ev_has_predecessor (oi_current_event it)) then mret (INVALID_EVENT, doc_null, it)
  else
    '((r, it) : option D * object_iterator) ←
      next_handle_loop (Datatypes.S fuel) shard_no (oi_current_event it) it;
    match r with
    | None => mret (INVALID_EVENT, doc_null, it)
    | Some event => mret (oi_current_eid it, event, set_current event (oi_current_eid it) it)
    end.

Definition oit_next (it : object_iterator) : ST L (event_id_t * D * object_iterator) :=
  '((eid, hdl, it) : event_id_t * D * object_iterator) ← next_handle it;
  if negb (handle_valid hdl) then mret (eid, doc_null, it)
  else
    val ← lift_res (ev_value_path hdl (oi_path it));
    if decide (oi_path it = EmptyString) then mret (eid, val, it)
    else if doc_valid val then mret (eid, val, it)
    else mret (INVALID_EVENT, doc_null, it).

(** [check], with the JSON library's test of a predicate *)
Definition check (matches : D -> bool) ctx (name key path : string) : ST L bool :=
  it ← iterate ctx name key path;
  '((eid, value, _) : event_id_t * D * object_iterator) ← oit_next it;
  if negb (event_is_valid eid) then mret false else mret (matches value).

(** The loop of [count_writes]; [n] bounds the versions. *)
Fixpoint count_writes_loop (n : nat) (principal : string) (it : object_iterator) (res : Z) : ST L Z :=
  '((eid, hdl, it) : event_id_t * D * object_iterator) ← next_handle it;
  if negb (event_is_valid eid) then mret res
  else
    let res := if decide (ev_source hdl = principal) then u32 (res + 1) else res in
    match n with
    | O => throw (Undefined "out of fuel")
    | Datatypes.S n => count_writes_loop n principal it res
    end.

Definition count_writes (n : nat) ctx (principal name key : string) : ST L Z :=
  it ← iterate ctx name key EmptyString;
  count_writes_loop n principal it 0.

(** ** Writing *)

Definition check_collection_policy ctx (name key path : string) (type : OperationType) : ST L bool :=
  if negb (ctx_valid ctx) then mret true
  else
    it ← iterate (mkContext INVALID_IDENTITY EmptyString) name "policy" EmptyString;
    '((eid, value, _) : event_id_t * D * object_iterator) ← oit_next it;
    if negb (event_is_valid eid) then mret true
    else l ← get_st; mret (run_program l value ctx name key path type).

Definition prepare_write ctx (name key path : string) (op_type : OperationType) : ST L bool :=
  if negb (is_valid_key key) then mret false
  else check_collection_policy ctx name key path op_type.

Definition index_update (key : string) (previous_version doc : D) : ST X unit := fun x =>
  match ev_value previous_version with
  | Throw e => (Throw e, x)
  | Ok old_val =>
      if ix_compare x old_val doc then (Ok tt, x)
      else (_ ← ix_remove old_val key; _ ← ix_insert doc key; mret tt) x
  end.

Definition put_next_version ctx (name key : string) (doc : D) (version_number : Z) (previous_id : event_id_t)
    (previous_version : D) (transaction_ref : ledger_pos_t) : ST L event_id_t :=
  if negb (ctx_valid ctx) then throw (Runtime_error "Cannot modify using invalid identity")
  else if negb (doc_valid doc) then mret INVALID_EVENT
  else
    let shard_no := shard_of_key name key in
    _ ← on_shards (Shard_get_pending_block shard_no);
    _ ← get_collection name true;
    '((prev_block, prev_index) : Z * Z) ←
      (if version_number =? INITIAL_VERSION_NO then
         _ ← modify_st (fun l => set_object_count (u64 (l_object_count l + 1)) l);
         _ ← on_indexes name (_ ← ix_insert doc key; mret tt);
         mret (INVALID_BLOCK, 0)
       else
         _ ← on_indexes name (index_update key previous_version doc);
         mret (ev_block previous_id, ev_index previous_id));
    _ ← on_indexes name (_ ← ix_insert doc key; mret tt);
    let version := if handle_valid previous_version then u32 (ev_version_number previous_version + 1)
                   else INITIAL_VERSION_NO in
    let new_version := version_doc (ctx_to_string ctx) prev_block prev_index doc version transaction_ref in
    '((block, index) : Z * Z) ← on_shards (append_event shard_no (doc_bytes new_version));
    let event_id := EventId shard_no block index in
    _ ← on_primary name (kv_insert key event_id);
    _ ← modify_st (fun l => set_version_count (u64 (l_version_count l + 1)) l);
    mret event_id.

Definition put_tombstone ctx (previous_id : event_id_t) (transaction_ref : ledger_pos_t) : ST L event_id_t :=
  if negb (ctx_valid ctx) then throw (Runtime_error "Cannot modify using invalid identity")
  else
    let shard := ev_shard previous_id in
    let doc := tombstone_doc (ctx_to_string ctx) (ev_block previous_id) (ev_index previous_id) transaction_ref in
    '((block, index) : Z * Z) ← on_shards (append_event shard (doc_bytes doc));
    mret (EventId shard block index).

(** What [apply_write] does to an object that has a version *)
Definition write_version ctx (name key : string) (to_write : D) (path : string) (op_type : OperationType)
    (number : Z) (previous_id : event_id_t) (previous_version : D) (transaction_ref : ledger_pos_t) :
    ST L event_id_t :=
  value ← lift_res (ev_value previous_version);
  policy ← lift_res (ev_get_policy previous_version);
  ok ← (if doc_empty policy then mret true else check_object_policy policy ctx name key path op_type);
  if negb ok then mret INVALID_EVENT
  else
    let put doc := put_next_version ctx name key doc number previous_id previous_version transaction_ref in
    match op_type with
    | AddToObject => put (doc_add value path to_write)
    | PutObject =>
        if decide (path = EmptyString) then put to_write else put (doc_insert value path to_write)
    | RemoveObject =>
        res ← put_tombstone ctx previous_id transaction_ref;
        _ ← on_primary name (kv_insert key res);
        _ ← modify_st (fun l => set_object_count (u64 (l_object_count l - 1)) l);
        mret res
    | _ => throw (Runtime_error "Can't write: unknown op_type")
    end.

(** [locked]: a lock handle was given, and the caller organises the ledger *)
Definition apply_write ctx (name key : string) (to_write : D) (path : string) (locked : bool)
    (op_type : OperationType) (transaction_ref : ledger_pos_t) : ST L event_id_t :=
  let s := shard_of_key name key in
  '((previous_id, previous_event) : event_id_t * D) ← get_latest_event name key;
  previous_version ← (if handle_valid previous_event then get_previous_version s previous_event
                      else mret doc_null);
  let number := if handle_valid previous_version then u32 (ev_version_number previous_version + 1)
                else INITIAL_VERSION_NO in
  res ← (if bool_decide (path <> EmptyString) && negb (handle_valid previous_version) then mret INVALID_EVENT
         else if negb (handle_valid previous_version) then
           if decide (op_type = RemoveObject) then mret INVALID_EVENT
           else put_next_version ctx name key to_write number previous_id previous_version transaction_ref
         else write_version ctx name key to_write path op_type number previous_id previous_version transaction_ref);
  _ ← (if locked then mret tt else on_shards (organize_ledger padding s));
  mret res.

Definition Ledger_put ctx (name key : string) (to_put : D) (path : string) (locked : bool) : ST L event_id_t :=
  ok ← prepare_write ctx name key path PutObject;
  if ok : bool then apply_write ctx name key to_put path locked PutObject INVALID_LEDGER_POS
  else mret INVALID_EVENT.

Definition Ledger_add ctx (name key : string) (to_add : D) (path : string) (locked : bool) : ST L event_id_t :=
  ok ← prepare_write ctx name key path AddToObject;
  if ok : bool then apply_write ctx name key to_add path locked AddToObject INVALID_LEDGER_POS
  else mret INVALID_EVENT.

(** The collection policy is asked about [AddToObject], as in the source. *)
Definition Ledger_remove ctx (name key : string) (locked : bool) : ST L event_id_t :=
  ok ← prepare_write ctx name key EmptyString AddToObject;
  if ok : bool then apply_write ctx name key doc_null EmptyString locked RemoveObject INVALID_LEDGER_POS
  else mret INVALID_EVENT.

(** [put_without_key], with the keys that [random_object_key] draws *)
Fixpoint put_without_key ctx (name : string) (to_put : D) (locked : bool) (keys : list string) :
    ST L (event_id_t * string) :=
  match keys with
  | [] => throw (Undefined "no more keys")
  | key :: keys =>
      '((prev_id, prev_hdl) : event_id_t * D) ← get_latest_event name key;
      if handle_valid prev_hdl then put_without_key ctx name to_put locked keys
      else
        eid ← put_next_version ctx name key to_put INITIAL_VERSION_NO prev_id prev_hdl INVALID_LEDGER_POS;
        if event_eqb eid INVALID_EVENT then put_without_key ctx name to_put locked keys
        else
          _ ← (if locked then mret tt else on_shards (organize_ledger padding (shard_of_key name key)));
          mret (eid, key)
  end.

(** [Ledger::Ledger] *)
Definition Ledger_new (s : S) : L := mkLedger (fresh_shards padding s) ∅ 0 0.

End Ledger.
