(* ===== verification/LedgerSpec.v ===== *)
(** * What the ledger promises

    The objects of the ledger as histories: [H name key] is the list of the
    events of an object, the newest first, each with its identifier and its
    document.  The section relates a ledger to its histories and shows what the
    operations of [Ledger.v] do to them. *)

From S2P Require Import Prelude EventId Keys Bitstream Block PageStore Hash HashMap Json Identity.
From S2P Require Import Index ObjectEvent Shard Ledger.

Section Chain.
Context {D : Type} `{Json D}.

Abbreviation event := (event_id_t * D)%type.

Definition deleted (es : list event) : Prop :=
  match es with [] => True | (_, h) :: _ => ev_get_type h = Deletion end.

(** The events of an object: a first version, or one after a deletion, has no
    predecessor; any other event points to the version before it. *)
Inductive chain : list event -> Prop :=
  | chain_nil : chain []
  | chain_create e source doc tx es :
      chain es -> deleted es ->
      chain ((e, version_doc source INVALID_BLOCK 0 doc INITIAL_VERSION_NO tx) :: es)
  | chain_update e source doc tx e0 h0 es :
      chain ((e0, h0) :: es) -> ev_get_type h0 = NewVersion -> ev_version_number h0 + 1 < 2 ^ 32 ->
      chain ((e, version_doc source (ev_block e0) (ev_index e0) doc (ev_version_number h0 + 1) tx) ::
             (e0, h0) :: es)
  | chain_delete e source tx e0 h0 es :
      chain ((e0, h0) :: es) -> ev_get_type h0 = NewVersion ->
      chain ((e, tombstone_doc source (ev_block e0) (ev_index e0) tx) :: (e0, h0) :: es).

Definition eid_ok (e : event_id_t) : Prop :=
  in_range 16 (ev_shard e) /\ in_range 32 (ev_block e) /\ in_range 16 (ev_index e) /\ 0 < ev_block e.

(** The version an object currently has *)
Definition current (es : list event) : option event :=
  match es with
  | (e, h) :: _ => if decide (ev_get_type h = NewVersion) then Some (e, h) else None
  | [] => None
  end.

End Chain.

Section ChainLaws.
Context {D : Type} `{JsonLaws D}.
Implicit Types es : list (event_id_t * D).

Lemma chain_head e h es :
  chain ((e, h) :: es) -> Forall (fun p => eid_ok p.1) es ->
  handle_valid h = true /\ doc_parse (doc_bytes h) = h /\
  (ev_get_type h = NewVersion \/ ev_get_type h = Deletion).
Proof.
  intros Hc Hok. inversion Hc as [|e1 source doc tx es0 Hc0 Hd|e1 source doc tx e0 h0 es0 Hc0 Ht Hv|
    e1 source tx e0 h0 es0 Hc0 Ht]; subst.
  - destruct (version_doc_fields source INVALID_BLOCK 0 doc INITIAL_VERSION_NO tx); [done..|]. eauto.
  - apply Forall_cons in Hok as [(_ & Hb & Hi & _) _].
    destruct (version_doc_fields source (ev_block e0) (ev_index e0) doc (ev_version_number h0 + 1) tx); eauto.
  - apply Forall_cons in Hok as [(_ & Hb & Hi & _) _].
    destruct (tombstone_doc_fields source (ev_block e0) (ev_index e0) tx); eauto.
Qed.

(** A version counts the versions since the object was created. *)
Lemma chain_version e h es :
  chain ((e, h) :: es) -> Forall (fun p => eid_ok p.1) es -> ev_get_type h = NewVersion ->
  1 <= ev_version_number h <= Z.of_nat (length es) + 1.
Proof.
  remember ((e, h) :: es) as es0 eqn:E. intros Hc. revert e h es E.
  induction Hc as [|e0 source doc tx es0 Hc IH Hd|e0 source doc tx e1 h1 es0 Hc IH Ht Hv|e0 source tx e1 h1 es0 Hc IH Ht];
    intros e h es [= -> <- <-] Hok Hnew.
  - rewrite (proj2 (version_doc_value _ _ _ _ INITIAL_VERSION_NO _ ltac:(done))). unfold INITIAL_VERSION_NO. lia.
  - apply Forall_cons in Hok as [_ Hok]. specialize (IH _ _ _ eq_refl Hok Ht).
    assert (in_range 32 (ev_version_number h1 + 1)) as Hr by (unfold in_range; lia).
    rewrite (proj2 (version_doc_value _ _ _ _ _ _ Hr)). cbn [length]. lia.
  - apply Forall_cons in Hok as [(_ & Hb & Hi & _) _].
    rewrite (ef_type _ _ _ _ _ (tombstone_doc_fields _ _ _ _ Hb Hi)) in Hnew. done.
Qed.
Lemma chain_tail p es : chain (p :: es) -> chain es.
Proof. by inversion 1. Qed.

Lemma chain_suffix es1 es2 : chain (es1 ++ es2) -> chain es2.
Proof. induction es1 as [|p es1 IH]; [done|]. intros Hc%chain_tail. by apply IH. Qed.

(** A version that has a predecessor points to the version before it. *)
Lemma chain_predecessor e h es :
  chain ((e, h) :: es) -> Forall (fun p => eid_ok p.1) es -> ev_get_type h = NewVersion ->
  ev_has_predecessor h = true ->
  exists e1 h1 es1, es = (e1, h1) :: es1 /\ ev_previous_block h = ev_block e1 /\
    ev_previous_index h = ev_index e1 /\ ev_get_type h1 = NewVersion.
Proof.
  intros Hc Hok Ht Hp. inversion Hc as [|e1 source doc tx es0 Hc0 Hd|e1 source doc tx e0 h0 es0 Hc0 Ht0 Hv|
    e1 source tx e0 h0 es0 Hc0 Ht0]; subst.
  - destruct (version_doc_fields source INVALID_BLOCK 0 doc INITIAL_VERSION_NO tx) as [_ _ _ Eb _ _]; [done..|].
    unfold ev_has_predecessor in Hp. rewrite Eb in Hp. done.
  - apply Forall_cons in Hok as [(_ & Hb & Hi & _) _].
    destruct (version_doc_fields source (ev_block e0) (ev_index e0) doc (ev_version_number h0 + 1) tx); [done..|].
    by exists e0, h0, es0.
  - apply Forall_cons in Hok as [(_ & Hb & Hi & _) _].
    destruct (tombstone_doc_fields source (ev_block e0) (ev_index e0) tx) as [_ Et _ _ _ _]; [done..|]. congruence.
Qed.

(** The versions of an object since it was created, the newest first *)
Fixpoint versions (es : list (event_id_t * D)) : list (event_id_t * D) :=
  match es with
  | [] => []
  | (e, h) :: es =>
      if decide (ev_get_type h = NewVersion) then
        (e, h) :: (if ev_has_predecessor h then versions es else [])
      else []
  end.
End ChainLaws.

(** ** Ledgers and their histories *)

Section Rep.
Context {B : Type} `{BitstreamLaws B} {S : Type} `{PageStoreLaws S (Block B)}.
Context {M : Type} `{KVMap M string event_id_t} `{!KVMapLaws M string event_id_t} {D : Type} `{JsonLaws D} {X : Type} `{Index X D} `{!IndexLaws X D}.
Variables (padding : Z) (new_primary : M) (room0 cap : Z).
Variable run_program : ledger S M X -> D -> OpContext -> string -> string -> string -> OperationType -> bool.
Variable fuel : nat.
Hypothesis new_primary_rep : kv_rep new_primary (fun _ => None) room0.
Hypothesis eid_values : forall e, eid_ok e -> kv_value e.
Hypothesis index_keys : forall key, kv_key key -> ix_key key.
Hypothesis cap_nonneg : 0 <= cap.

Abbreviation L := (ledger S M X).
Abbreviation histories := (string -> string -> list (event_id_t * D)).
Implicit Types (l : L) (lg : log) (Hs : histories).

(** An index has an entry for every object whose current version has the field. *)
Definition index_complete (x : X) (es : list (Z * string)) (Hn : string -> list (event_id_t * D)) : Prop :=
  forall key e h doc hash, current (Hn key) = Some (e, h) -> ev_value h = Ok doc ->
    ix_hash x doc = Some hash -> (hash, key) ∈ es.

Definition index_ok (n : Z) (Hn : string -> list (event_id_t * D)) (x : X) : Prop :=
  exists es room, ix_rep x es room /\ index_complete x es Hn /\ 2 * n <= room.

Definition primary_ok (n : Z) (Hn : string -> list (event_id_t * D)) (m : M) : Prop :=
  exists f room, kv_rep m f room /\ n <= room /\ forall key, f key = fst <$> head (Hn key).

Definition col_ok (n : Z) (Hn : string -> list (event_id_t * D)) (c : collection M X) : Prop :=
  primary_ok n Hn (col_primary c) /\ map_Forall (fun _ => index_ok n Hn) (col_indexes c).

Definition entry_ok lg (name key : string) (p : event_id_t * D) : Prop :=
  ev_shard p.1 = shard_of_key name key /\ log_entry lg p.1 (doc_bytes p.2) /\ eid_ok p.1.

(** The number of events of a shard that have been added and not been organised *)
Definition load (ex : gmap Z Z) (sid : Z) : Z := default 0 (ex !! sid).

Definition bump (sid : Z) (ex : gmap Z Z) : gmap Z Z := <[sid := load ex sid + 1]> ex.

(** One more event fits. *)
Definition can_load (ex : gmap Z Z) (sid : Z) : Prop := load ex sid < 1000 /\ (load ex sid + 1) * cap <= 2 ^ 31.

(** [n] is the number of writes there is room for; the shards of [ex] have been
    written to and not been organised yet. *)
Record ledger_rep_but (ex : gmap Z Z) l lg Hs (n : Z) : Prop := {
  lr_shards : shards_rep (l_shards l) lg;
  lr_load : map_Forall (fun _ k => 0 <= k) ex;
  lr_small : forall sid, shard_load cap (load ex sid) sid (l_shards l);
  lr_pending : forall sid, 0 <= sid < NUM_SHARDS_LEDGER -> is_Some (sh_pending (l_shards l) !! sid);
  lr_avail : n + Z.of_nat (size ex) <= ps_avail (sh_store (l_shards l));
  lr_cols : forall name, match l_cols l !! name with
                         | Some c => col_ok n (Hs name) c
                         | None => forall key, Hs name key = []
                         end;
  lr_chain : forall name key, chain (Hs name key);
  lr_entries : forall name key, Forall (entry_ok lg name key) (Hs name key);
  lr_length : forall name key, Z.of_nat (length (Hs name key)) + n < 2 ^ 32 - 1;
  lr_keys : forall name, exists ks, (forall key, Hs name key <> [] -> key ∈ ks) /\ Z.of_nat (length ks) + n <= room0;
}.

Abbreviation ledger_rep := (ledger_rep_but ∅).

Lemma shard_of_key_range name key : 0 <= shard_of_key name key < NUM_SHARDS_LEDGER.
Proof. unfold shard_of_key. apply Z.mod_pos_bound. done. Qed.

Lemma entries_eid_ok lg name key es : Forall (entry_ok lg name key) es -> Forall (fun p => eid_ok p.1) es.
Proof. intros Hes. eapply Forall_impl; [exact Hes|]. by intros p (_ & _ & ?). Qed.

Implicit Types ex : gmap Z Z.

(** *** Reading *)

Lemma ledger_rep_shards ex l sh lg Hs n :
  ledger_rep_but ex l lg Hs n -> shards_same (l_shards l) sh -> ledger_rep_but ex (set_shards sh l) lg Hs n.
Proof.
  intros [] Hsame. split; cbn; try done.
  - by eapply shards_rep_same.
  - intros sid. by eapply pending_is_same, lr_small0.
  - intros sid Hsid. rewrite (ss_pending _ _ Hsame). by apply lr_pending0.
  - by rewrite (ss_avail _ _ Hsame).
Qed.

Lemma lr_room0 ex l lg Hs n : ledger_rep_but ex l lg Hs n -> n <= room0.
Proof. intros []. destruct (lr_keys0 EmptyString) as (ks & _ & ?). lia. Qed.

Lemma get_event_ok ex l lg Hs n name key e h :
  ledger_rep_but ex l lg Hs n -> (e, h) ∈ Hs name key -> doc_parse (doc_bytes h) = h ->
  wp (get_event e) (fun d l' => d = h /\ ledger_rep_but ex l' lg Hs n) l.
Proof.
  intros Hr Hin Hp. pose proof (lr_entries _ _ _ _ _ Hr name key) as He.
  eapply (Forall_forall _ _) in He; [|exact Hin]. destruct He as (_ & He & _).
  unfold get_event. apply wp_bind. unfold on_shards. apply wp_zoom.
  eapply wp_mono; [apply (read_event_ok _ lg); [apply Hr|exact He]|]. cbv beta. intros d sh [-> Hsame].
  apply wp_ret. split; [done|]. by apply ledger_rep_shards.
Qed.

Lemma ledger_rep_col ex l lg Hs n name c c' :
  ledger_rep_but ex l lg Hs n -> l_cols l !! name = Some c -> col_ok n (Hs name) c' ->
  ledger_rep_but ex (set_cols (<[name := c']> (l_cols l)) l) lg Hs n.
Proof.
  intros [] Hc Hc'. split; cbn; try done. intros name'. destruct (decide (name' = name)) as [->|].
  - by rewrite lookup_insert_eq.
  - rewrite lookup_insert_ne by done. apply lr_cols0.
Qed.

Lemma get_collection_ok l name c create Q :
  l_cols l !! name = Some c -> Q c l -> wp (get_collection new_primary name create) Q l.
Proof. intros Hc HQ. unfold get_collection. apply wp_bind, wp_get. rewrite Hc. by apply wp_ret. Qed.

Lemma primary_get_ok ex l lg Hs n name key c :
  ledger_rep_but ex l lg Hs n -> l_cols l !! name = Some c ->
  wp (on_primary new_primary name (kv_get key)) (fun r l' => r = fst <$> head (Hs name key) /\ ledger_rep_but ex l' lg Hs n) l.
Proof.
  intros Hr Hc. pose proof (lr_cols _ _ _ _ _ Hr name) as Hcol. rewrite Hc in Hcol.
  destruct Hcol as [(f & room & Hkv & Hroom & Hf) Hix]. unfold on_primary.
  apply wp_bind. eapply get_collection_ok; [done|].
  pose proof (kv_get_spec _ _ _ key Hkv) as Hg. apply wp_run in Hg as (r & m' & -> & -> & Hkv').
  apply wp_bind. unfold put_collection. apply wp_modify. split; [apply Hf|].
  eapply ledger_rep_col; [done|done|]. split; [by exists f, room|done].
Qed.

(** The newest event of an object *)
Definition newest (es : list (event_id_t * D)) : event_id_t * D :=
  match es with p :: _ => p | [] => (INVALID_EVENT, doc_null) end.

Lemma head_parses ex l lg Hs n name key e h es :
  ledger_rep_but ex l lg Hs n -> Hs name key = (e, h) :: es ->
  handle_valid h = true /\ doc_parse (doc_bytes h) = h /\ eid_ok e /\
  (ev_get_type h = NewVersion \/ ev_get_type h = Deletion).
Proof.
  intros Hr E. pose proof (lr_entries _ _ _ _ _ Hr name key) as He. pose proof (lr_chain _ _ _ _ _ Hr name key) as Hc.
  rewrite E in He, Hc. apply entries_eid_ok in He. apply Forall_cons in He as [He Hes].
  destruct (chain_head _ _ _ Hc Hes) as (? & ? & ?). done.
Qed.

Lemma get_latest_event_ok ex l lg Hs n name key :
  ledger_rep_but ex l lg Hs n -> key <> EmptyString ->
  wp (get_latest_event new_primary name key) (fun r l' => r = newest (Hs name key) /\ ledger_rep_but ex l' lg Hs n) l.
Proof.
  intros Hr Hkey. unfold get_latest_event. rewrite decide_False by done. apply wp_bind, wp_get.
  destruct (l_cols l !! name) as [c|] eqn:Hc.
  - apply wp_bind. eapply wp_mono; [by eapply primary_get_ok|]. cbv beta. intros r l1 [-> Hr1].
    destruct (Hs name key) as [|[e h] es] eqn:E; cbn.
    + by apply wp_ret.
    + destruct (head_parses _ _ _ _ _ _ _ _ _ _ Hr E) as (_ & Hp & _). apply wp_bind.
      eapply wp_mono; [eapply (get_event_ok _ _ _ _ _ name key); [done|rewrite E; left|done]|].
      cbv beta. intros d l2 [-> Hr2]. by apply wp_ret.
  - pose proof (lr_cols _ _ _ _ _ Hr name) as Hcol. rewrite Hc in Hcol. rewrite Hcol. by apply wp_ret.
Qed.

Lemma get_latest_event_any ex l lg Hs n name key :
  ledger_rep_but ex l lg Hs n -> Hs name EmptyString = [] ->
  wp (get_latest_event new_primary name key) (fun r l' => r = newest (Hs name key) /\ ledger_rep_but ex l' lg Hs n) l.
Proof.
  intros Hr Hne. destruct (decide (key = EmptyString)) as [->|Hkey]; [|by apply get_latest_event_ok].
  unfold get_latest_event. rewrite decide_True by done. apply wp_ret. by rewrite Hne.
Qed.

(** *** The version before an event *)

Definition version_of (es : list (event_id_t * D)) : D :=
  match current es with Some (_, h) => h | None => doc_null end.

Lemma get_previous_version_ok ex l lg Hs n name key s :
  ledger_rep_but ex l lg Hs n ->
  wp (if handle_valid (newest (Hs name key)).2 then get_previous_version fuel s (newest (Hs name key)).2
      else mret doc_null)
    (fun r l' => r = version_of (Hs name key) /\ l' = l) l.
Proof.
  intros Hr. unfold version_of. destruct (Hs name key) as [|[e h] es] eqn:E; cbn.
  { unfold handle_valid. rewrite doc_null_invalid. by apply wp_ret. }
  destruct (head_parses _ _ _ _ _ _ _ _ _ _ Hr E) as (Hv & _ & _ & Ht). rewrite Hv.
  unfold get_previous_version. destruct fuel; cbn [previous_version_loop]; rewrite Hv;
    (destruct Ht as [Ht|Ht]; rewrite Ht; cbn; by apply wp_ret).
Qed.

(** *** Secondary indexes *)

Lemma indexes_loop_ok (step : ST X unit) (R : X -> X -> Prop) todo (xs0 xs : gmap string X) :
  NoDup todo.*1 -> (forall n x, (n, x) ∈ todo -> xs !! n = Some x) ->
  (forall n x, (n, x) ∈ todo -> wp step (fun _ x' => R x x') x) ->
  exists xs', indexes_loop step todo xs = (Ok tt, xs') /\
    (forall n x, (n, x) ∈ todo -> exists x', xs' !! n = Some x' /\ R x x') /\
    (forall n, n ∉ todo.*1 -> xs' !! n = xs !! n).
Proof.
  revert xs. induction todo as [|[n x] todo IH]; intros xs Hnd Hin Hstep.
  { exists xs. split_and!; [done| |done]. by intros n x ?%elem_of_nil. }
  cbn in Hnd. apply NoDup_cons in Hnd as [Hn Hnd]. cbn [indexes_loop].
  pose proof (Hstep n x ltac:(left)) as Hw. apply wp_run in Hw as ([] & x' & -> & HR).
  assert (forall n' y, (n', y) ∈ todo -> n' <> n) as Hne.
  { intros n' y Hy ->. apply Hn, list_elem_of_fmap. by exists (n, y). }
  destruct (IH (<[n := x']> xs)) as (xs' & -> & Hxs & Hoff); [done| | |].
  - intros n' y Hy. rewrite lookup_insert_ne by (apply not_eq_sym; by eapply Hne). apply Hin. by right.
  - intros n' y Hy. eapply Hstep. by right.
  - exists xs'. split_and!; [done| |].
    + intros n' y [[= -> ->]|Hy]%elem_of_cons; [|by eapply Hxs].
      exists x'. split; [|done]. rewrite Hoff by done. by rewrite lookup_insert_eq.
    + intros n' [Hn' Hn'']%not_elem_of_cons. rewrite Hoff by done. by rewrite lookup_insert_ne.
Qed.

Lemma on_indexes_ok l name c (step : ST X unit) (R : X -> X -> Prop) (Q : unit -> L -> Prop) :
  l_cols l !! name = Some c -> (forall n x, col_indexes c !! n = Some x -> wp step (fun _ x' => R x x') x) ->
  (forall xs', (forall n x', xs' !! n = Some x' -> exists x, col_indexes c !! n = Some x /\ R x x') ->
    Q tt (set_cols (<[name := mkCollection (col_primary c) xs' (col_triggers c)]> (l_cols l)) l)) ->
  wp (on_indexes new_primary name step) Q l.
Proof.
  intros Hc Hstep HQ. unfold on_indexes. apply wp_bind. eapply get_collection_ok; [done|].
  destruct (indexes_loop_ok step R (map_to_list (col_indexes c)) ∅ (col_indexes c)) as (xs' & -> & Hxs & Hoff).
  - apply NoDup_fst_map_to_list.
  - by intros n x ?%elem_of_map_to_list.
  - intros n x ?%elem_of_map_to_list. by eapply Hstep.
  - apply wp_bind. unfold put_collection. apply wp_modify. apply HQ. intros n x' Hx'.
    destruct (col_indexes c !! n) as [x|] eqn:Hn.
    + exists x. split; [done|]. destruct (Hxs n x) as (x2 & Hx2 & HR); [by apply elem_of_map_to_list|]. congruence.
    + rewrite Hoff in Hx'; [congruence|]. intros ([n' y] & -> & Hy%elem_of_map_to_list)%list_elem_of_fmap.
      cbn in *. congruence.
Qed.

(** Completeness for every object but [key] *)
Definition complete_but (key : string) (x : X) (es : list (Z * string)) (Hn : string -> list (event_id_t * D)) : Prop :=
  forall key' e h doc hash, key' <> key -> current (Hn key') = Some (e, h) -> ev_value h = Ok doc ->
    ix_hash x doc = Some hash -> (hash, key') ∈ es.

Definition index_mid (key : string) (Hn : string -> list (event_id_t * D)) (m : Z) (x : X) : Prop :=
  exists es room, ix_rep x es room /\ complete_but key x es Hn /\ m <= room.

(** The index has [doc] for [key]. *)
Definition index_with (key : string) (doc : D) (Hn : string -> list (event_id_t * D)) (m : Z) (x : X) : Prop :=
  exists es room, ix_rep x es room /\ complete_but key x es Hn /\ m <= room /\
    forall hash, ix_hash x doc = Some hash -> (hash, key) ∈ es.

Lemma index_with_mid key doc Hn m x : index_with key doc Hn m x -> index_mid key Hn m x.
Proof. intros (es & room & ? & ? & ? & _). by exists es, room. Qed.

Lemma index_insert_mid key Hn m doc x :
  index_mid key Hn m x -> 0 < m -> ix_key key ->
  wp (_ ← ix_insert doc key; mret tt) (fun _ x' => index_with key doc Hn (m - 1) x') x.
Proof.
  intros (es & room & Hx & Hc & Hroom) Hm Hk. apply wp_bind.
  eapply wp_mono; [apply (ix_insert_spec x es room doc key); [done|lia|done]|]. cbv beta.
  intros _ x' ((_ & Hh & _) & Hx'). apply wp_ret. eexists _, _. split_and!; [exact Hx'| |lia|].
  - intros key' e h d hash Hne Hcur Hv. rewrite Hh. intros Hd. pose proof (Hc _ _ _ _ _ Hne Hcur Hv Hd).
    destruct (ix_hash x doc); [by right|done].
  - intros hash. rewrite Hh. intros ->. left.
Qed.

Lemma index_ok_mid n Hn key x : index_ok n Hn x -> index_mid key Hn (2 * n) x.
Proof.
  intros (es & room & Hx & Hc & Hroom). exists es, room. split_and!; [done| |done].
  intros key' e h doc hash _. apply Hc.
Qed.

Lemma index_update_mid n Hn key e h old doc x :
  index_ok n Hn x -> 0 < n -> current (Hn key) = Some (e, h) -> ev_value h = Ok old -> ix_key key ->
  wp (index_update key h doc) (fun _ x' => index_mid key Hn (2 * n - 1) x') x.
Proof.
  intros Hx Hn0 Hcur Hold Hk. pose proof (index_ok_mid _ _ key _ Hx) as Hmid.
  destruct Hx as (es & room & Hrep & Hc & Hroom).
  unfold index_update, wp. rewrite Hold. destruct (ix_compare x old doc).
  { destruct Hmid as (es' & room' & ? & ? & ?). exists es', room'. split_and!; [done|done|lia]. }
  change (wp (_ ← ix_remove old key; _ ← ix_insert doc key; mret tt)
    (fun _ x' => index_mid key Hn (2 * n - 1) x') x). apply wp_bind.
  eapply wp_mono; [apply (ix_remove_spec x es room old key); [done|]|].
  { intros hash Hh. by eapply Hc. }
  cbv beta. intros _ x1 ((_ & Hh1 & _) & es1 & Hrep1 & Hperm).
  assert (index_mid key Hn (2 * n) x1) as Hmid1.
  { exists es1, room. split_and!; [done| |done]. intros key' e' h' d hash Hne Hc' Hv'. rewrite Hh1. intros Hd.
    pose proof (Hc _ _ _ _ _ Hc' Hv' Hd) as Hin. rewrite Hperm in Hin. destruct (ix_hash x old); [|done].
    apply elem_of_cons in Hin as [[= -> ->]|]; done. }
  pose proof (index_insert_mid key Hn (2 * n) doc x1 Hmid1 ltac:(lia) Hk) as Hw.
  eapply wp_mono; [exact Hw|]. cbv beta. intros _ x2. apply index_with_mid.
Qed.
(** *** Adding an event *)

Definition hist_push (name key : string) (p : event_id_t * D) Hs : histories := fun name' key' =>
  if decide (name' = name /\ key' = key) then p :: Hs name key else Hs name' key'.

Lemma hist_push_eq name key p Hs : hist_push name key p Hs name key = p :: Hs name key.
Proof. unfold hist_push. by rewrite decide_True. Qed.

Lemma hist_push_ne name key p Hs name' key' :
  ~ (name' = name /\ key' = key) -> hist_push name key p Hs name' key' = Hs name' key'.
Proof. intros. unfold hist_push. by rewrite decide_False. Qed.

Lemma col_ok_weaken n n' Hn Hn' c :
  n' <= n -> (forall key, Hn' key = Hn key) -> col_ok n Hn c -> col_ok n' Hn' c.
Proof.
  intros Hle E [(f & room & Hkv & Hroom & Hf) Hix]. split.
  - exists f, room. split_and!; [done|lia|]. intros key. by rewrite E.
  - intros nm x Hx. destruct (Hix nm x Hx) as (es & r & Hr & Hc & Hroom'). exists es, r.
    split_and!; [done| |lia]. intros key e h doc hash. rewrite E. apply Hc.
Qed.

Lemma create_collection_ok ex l lg Hs n name :
  ledger_rep_but ex l lg Hs n ->
  wp (get_collection new_primary name true) (fun c l' => ledger_rep_but ex l' lg Hs n /\ l_cols l' !! name = Some c /\
    l_shards l' = l_shards l) l.
Proof.
  intros Hr. unfold get_collection. apply wp_bind, wp_get. destruct (l_cols l !! name) as [c|] eqn:Hc.
  { by apply wp_ret. }
  apply wp_bind, wp_modify, wp_ret. cbn. rewrite lookup_insert_eq. split_and!; [|done|done].
  pose proof (lr_cols _ _ _ _ _ Hr name) as Hcol. rewrite Hc in Hcol.
  pose proof (lr_room0 _ _ _ _ _ Hr). destruct Hr. split; cbn; try done. intros name'. destruct (decide (name' = name)) as [->|].
  - rewrite lookup_insert_eq. split; [|by apply map_Forall_empty]. exists (fun _ => None), room0.
    split_and!; [done|done|]. intros key. by rewrite Hcol.
  - rewrite lookup_insert_ne by done. apply lr_cols0.
Qed.

Lemma load_nonneg ex l lg Hs n sid : ledger_rep_but ex l lg Hs n -> 0 <= load ex sid.
Proof.
  intros Hr. unfold load. destruct (ex !! sid) as [k|] eqn:E; [|done]. by apply (lr_load _ _ _ _ _ Hr) in E.
Qed.

Lemma load_bump ex sid sid' : load (bump sid ex) sid' = if decide (sid' = sid) then load ex sid + 1 else load ex sid'.
Proof.
  unfold bump, load at 1. case_decide as E; [subst; by rewrite lookup_insert_eq|]. by rewrite lookup_insert_ne by done.
Qed.

Lemma bump_size ex sid : (size (bump sid ex) <= size ex + 1)%nat.
Proof. unfold bump. rewrite map_size_insert. destruct (ex !! sid); cbn; lia. Qed.

Lemma bump_nonneg ex l lg Hs n sid : ledger_rep_but ex l lg Hs n -> map_Forall (fun _ k => 0 <= k) (bump sid ex).
Proof.
  intros Hr. apply map_Forall_insert_2; [|apply Hr]. pose proof (load_nonneg _ _ _ _ _ sid Hr). lia.
Qed.

Lemma ledger_append_ok ex l lg Hs n name key bytes :
  let s := shard_of_key name key in
  ledger_rep_but ex l lg Hs n -> can_load ex s -> Z.of_nat (length bytes) < cap ->
  wp (append_event s bytes) (fun r sh' => exists lg', shards_rep sh' lg' /\ log_le lg lg' /\
    sh_pending sh' = sh_pending (l_shards l) /\
    ps_avail (sh_store sh') = ps_avail (sh_store (l_shards l)) /\
    (forall sid, shard_load cap (load (bump s ex) sid) sid sh') /\
    log_entry lg' (EventId s r.1 r.2) bytes /\ eid_ok (EventId s r.1 r.2)) (l_shards l).
Proof.
  intros s Hr [Hk Hcap] Hlen. pose proof (shard_of_key_range name key) as Hs0. fold s in Hs0.
  pose proof (load_nonneg _ _ _ _ _ s Hr) as Hk0.
  destruct (lr_pending _ _ _ _ _ Hr s Hs0) as [pid Hpid].
  destruct (sr_pending _ _ (lr_shards _ _ _ _ _ Hr) _ _ Hpid) as [docs Hd].
  destruct (sr_order _ _ (lr_shards _ _ _ _ _ Hr) _ _ _ _ Hd) as [Hrange _].
  eapply wp_mono; [eapply append_event_ok; [apply Hr|apply (lr_small _ _ _ _ _ Hr)|done|done|done|lia|done]|]. cbv beta.
  intros r sh' (-> & Hr' & Hpe & Hav & Hi & Hld & Hsm). eexists. split_and!; [exact Hr'|by apply log_le_append|done..| | |].
  - intros sid. rewrite load_bump. case_decide as E; [by subst|]. apply Hsm; [done|]. apply (lr_small _ _ _ _ _ Hr).
  - exists false, (docs ++ [bytes]). cbn. rewrite lookup_insert_eq, Nat2Z.id. split_and!; [done|lia|].
    by rewrite lookup_app_r, Nat.sub_diag by lia.
  - unfold eid_ok, in_range, NUM_SHARDS_LEDGER in *. cbn -[INVALID_PAGE_NO]. rewrite INVALID_PAGE_NO_val in *. lia.
Qed.

Lemma ledger_rep_push ex l l' lg lg' Hs n name key e h c' :
  ledger_rep_but ex l lg Hs n -> shards_rep (l_shards l') lg' -> log_le lg lg' ->
  sh_pending (l_shards l') = sh_pending (l_shards l) ->
  ps_avail (sh_store (l_shards l')) = ps_avail (sh_store (l_shards l)) ->
  (forall sid, shard_load cap (load (bump (shard_of_key name key) ex) sid) sid (l_shards l')) ->
  l_cols l' = <[name := c']> (l_cols l) -> col_ok (n - 1) (hist_push name key (e, h) Hs name) c' ->
  chain ((e, h) :: Hs name key) -> entry_ok lg' name key (e, h) ->
  ledger_rep_but (bump (shard_of_key name key) ex) l' lg' (hist_push name key (e, h) Hs) (n - 1).
Proof.
  intros Hr Hsh Hle Hpe Hav Hsm Hcols Hc' Hch He. pose proof (bump_nonneg _ _ _ _ _ (shard_of_key name key) Hr).
  pose proof (bump_size ex (shard_of_key name key)). destruct Hr. split; try done.
  - intros sid Hsid. rewrite Hpe. by apply lr_pending0.
  - rewrite Hav. lia.
  - intros name'. rewrite Hcols. destruct (decide (name' = name)) as [->|Hne]; [by rewrite lookup_insert_eq|].
    rewrite lookup_insert_ne by done. specialize (lr_cols0 name').
    destruct (l_cols l !! name'); [eapply col_ok_weaken; [| |done]; [lia|]|];
      intros key'; rewrite hist_push_ne by (by intros [? ?]); done.
  - intros name' key'. unfold hist_push. case_decide; [done|]. apply lr_chain0.
  - intros name' key'. assert (Forall (entry_ok lg' name' key') (Hs name' key')) as Hold.
    { eapply Forall_impl; [apply lr_entries0|]. intros p (? & ? & ?). split_and!; [done| |done].
      by eapply log_entry_mono. }
    unfold hist_push. case_decide as E; [|done]. destruct E as [-> ->]. by constructor.
  - intros name' key'. unfold hist_push. case_decide as E; [destruct E as [-> ->]|].
    + specialize (lr_length0 name key). cbn [length]. lia.
    + specialize (lr_length0 name' key'). lia.
  - intros name'. destruct (lr_keys0 name') as (ks & Hks & Hl). exists (key :: ks). split; [|cbn [length]; lia].
    intros key'. unfold hist_push. case_decide as E; [destruct E as [_ ->]; left|]. intros Hne. right. by apply Hks.
Qed.

Lemma primary_push n Hs name key e h m :
  primary_ok n (Hs name) m -> 0 < n -> kv_key key -> kv_value e ->
  wp (kv_insert key e) (fun _ m' => primary_ok (n - 1) (hist_push name key (e, h) Hs name) m') m.
Proof.
  intros (f & room & Hkv & Hroom & Hf) Hn Hk Hv.
  eapply wp_mono; [eapply kv_insert_spec; [done|lia|done|done]|]. cbv beta. intros _ m' Hkv'.
  eexists _, _. split_and!; [exact Hkv'|lia|]. intros key'. cbv beta. case_decide as E.
  - subst. by rewrite hist_push_eq.
  - rewrite hist_push_ne by (by intros [? ?]). apply Hf.
Qed.

(** The indexes after a version was added *)
Lemma index_push n Hs name key e h doc x :
  index_with key doc (Hs name) (2 * n - 2) x -> ev_value h = Ok doc -> index_ok (n - 1) (hist_push name key (e, h) Hs name) x.
Proof.
  intros (es & room & Hx & Hbut & Hroom & Hdoc) Hv. exists es, room. split_and!; [done| |lia].
  intros key' e' h' d hash. destruct (decide (key' = key)) as [->|Hne].
  - rewrite hist_push_eq. cbn. case_decide; [|done]. intros [= <- <-]. rewrite Hv. intros [= <-]. apply Hdoc.
  - rewrite hist_push_ne by (by intros [? ?]). by apply Hbut.
Qed.
(** *** New versions *)

(** The arguments with which [apply_write] calls [put_next_version] *)
Definition next_args Hs (name key : string) (number : Z) (previous_id : event_id_t) (previous_version : D) : Prop :=
  previous_version = version_of (Hs name key) /\
  match current (Hs name key) with
  | None => number = INITIAL_VERSION_NO
  | Some (e0, h0) => previous_id = e0 /\ number = u32 (ev_version_number h0 + 1)
  end.

(** The predecessor and the number that a new version gets *)
Definition next_fields Hs (name key : string) (pb pi v : Z) : Prop :=
  in_range 32 pb /\ in_range 16 pi /\ in_range 32 v /\ forall e source doc tx, chain ((e, version_doc source pb pi doc v tx) :: Hs name key).

Lemma current_None ex l lg Hs n name key :
  ledger_rep_but ex l lg Hs n -> current (Hs name key) = None -> deleted (Hs name key).
Proof.
  intros Hr Hc. destruct (Hs name key) as [|[e h] es] eqn:E; [done|]. cbn in *.
  destruct (head_parses _ _ _ _ _ _ _ _ _ _ Hr E) as (_ & _ & _ & [Ht|Ht]); [|done].
  by rewrite decide_True in Hc.
Qed.

Lemma current_Some Hs name key e h :
  current (Hs name key) = Some (e, h) -> exists es, Hs name key = (e, h) :: es /\ ev_get_type h = NewVersion.
Proof.
  unfold current. destruct (Hs name key) as [|[e' h'] es]; [done|]. case_decide; [|done]. intros [= -> ->]. eauto.
Qed.

Lemma current_version ex l lg Hs n name key e h :
  ledger_rep_but ex l lg Hs n -> 0 <= n -> current (Hs name key) = Some (e, h) ->
  handle_valid h = true /\ 1 <= ev_version_number h < 2 ^ 32 - 1.
Proof.
  intros Hr Hn0 Hc. destruct (current_Some _ _ _ _ _ Hc) as (es & E & Ht).
  destruct (head_parses _ _ _ _ _ _ _ _ _ _ Hr E) as (Hv & _).
  pose proof (lr_chain _ _ _ _ _ Hr name key) as Hch. pose proof (lr_entries _ _ _ _ _ Hr name key) as He.
  pose proof (lr_length _ _ _ _ _ Hr name key) as Hlen. rewrite E in *. apply entries_eid_ok in He.
  apply Forall_cons in He as [_ He]. pose proof (chain_version _ _ _ Hch He Ht). cbn [length] in Hlen.
  split; [done|lia].
Qed.

Lemma next_fields_create ex l lg Hs n name key :
  ledger_rep_but ex l lg Hs n -> current (Hs name key) = None ->
  next_fields Hs name key INVALID_BLOCK 0 INITIAL_VERSION_NO.
Proof.
  intros Hr Hc. split_and!; [done..|]. intros. apply chain_create; [apply (lr_chain _ _ _ _ _ Hr)|by eapply current_None].
Qed.

Lemma next_fields_update ex l lg Hs n name key e0 h0 :
  ledger_rep_but ex l lg Hs n -> 0 <= n -> current (Hs name key) = Some (e0, h0) ->
  next_fields Hs name key (ev_block e0) (ev_index e0) (ev_version_number h0 + 1).
Proof.
  intros Hr Hn0 Hc. destruct (current_version _ _ _ _ _ _ _ _ _ Hr Hn0 Hc) as [_ Hv].
  destruct (current_Some _ _ _ _ _ Hc) as (es & E & Ht).
  destruct (head_parses _ _ _ _ _ _ _ _ _ _ Hr E) as (_ & _ & (_ & ? & ? & _) & _).
  split_and!; [done|done|unfold in_range; lia|]. intros.
  pose proof (lr_chain _ _ _ _ _ Hr name key) as Hch. rewrite E in *. apply chain_update; [done|done|lia].
Qed.

Definition event_fits (ctx : OpContext) (tx : ledger_pos_t) (doc : D) : Prop :=
  forall pb pi v, in_range 32 pb -> in_range 16 pi -> in_range 32 v ->
    Z.of_nat (length (doc_bytes (version_doc (ctx_to_string ctx) pb pi doc v tx))) < cap.

(** The tail of [put_next_version]: the event is written and the index updated *)
Lemma put_event_ok ex l lg Hs n name key c doc source pb pi v tx :
  ledger_rep_but ex l lg Hs n -> can_load ex (shard_of_key name key) -> 0 < n -> l_cols l !! name = Some c -> kv_key key ->
  next_fields Hs name key pb pi v ->
  Z.of_nat (length (doc_bytes (version_doc source pb pi doc v tx))) < cap ->
  forall xs, map_Forall (fun _ => index_with key doc (Hs name) (2 * n - 2)) xs ->
  let c2 := mkCollection (col_primary c) xs (col_triggers c) in
  let h := version_doc source pb pi doc v tx in
  forall l2, l_shards l2 = l_shards l -> l_cols l2 = <[name := c2]> (l_cols l) ->
  wp ('((block, index) : Z * Z) ← on_shards (append_event (shard_of_key name key) (doc_bytes h));
      let event_id := EventId (shard_of_key name key) block index in
      _ ← on_primary new_primary name (kv_insert key event_id);
      _ ← modify_st (fun l => set_version_count (u64 (l_version_count l + 1)) l);
      mret event_id)
    (fun e l' => exists lg', log_le lg lg' /\ eid_ok e /\
      ledger_rep_but (bump (shard_of_key name key) ex) l' lg' (hist_push name key (e, h) Hs) (n - 1)) l2.
Proof.
  intros Hr Hld Hn Hc Hk (_ & _ & Hv & Hchain) Hfit xs Hxs c2 h l2 Esh Ecols.
  apply wp_bind. unfold on_shards. apply wp_zoom. rewrite Esh.
  eapply wp_mono; [by eapply ledger_append_ok|]. cbv beta.
  intros [block index] sh' (lg' & Hr' & Hle & Hpe & Hav & Hsm & He & Hok). cbn [fst snd] in *.
  set (e := EventId (shard_of_key name key) block index) in *.
  pose proof (lr_cols _ _ _ _ _ Hr name) as Hcol. rewrite Hc in Hcol. destruct Hcol as [Hprim _].
  pose proof (primary_push n Hs name key e h (col_primary c) Hprim Hn Hk (eid_values e Hok)) as Hins.
  apply wp_run in Hins as ([] & m' & Eins & Hprim').
  apply wp_bind. unfold on_primary. apply wp_bind. eapply (get_collection_ok _ _ c2);
    [cbn; by rewrite Ecols, lookup_insert_eq|].
  cbn [col_primary c2]. rewrite Eins. apply wp_bind. unfold put_collection. apply wp_modify.
  cbn [lift_res]. unfold lift_res, wp at 1. apply wp_bind, wp_modify, wp_ret.
  exists lg'. split_and!; [done|done|]. eapply ledger_rep_push; [exact Hr|cbn; done..| | | |].
  - cbn. by rewrite Ecols, insert_insert_eq.
  - split; [done|]. cbn. intros nm x Hx.
    eapply index_push; [by apply (Hxs nm x Hx)|]. by apply version_doc_value.
  - apply Hchain.
  - done.
Qed.

Definition put_result ex Hs (name key : string) (n : Z) lg (doc : D) (source : string) (e : event_id_t) (l' : L) : Prop :=
  exists lg' pb pi v tx, log_le lg lg' /\ eid_ok e /\ next_fields Hs name key pb pi v /\
    ledger_rep_but (bump (shard_of_key name key) ex) l' lg'
      (hist_push name key (e, version_doc source pb pi doc v tx) Hs) (n - 1).

(** The second half of [put_next_version], once the indexes have been told of the
    change: every index gets the new document, and the event is written. *)
Lemma put_rest_ok ex l lg Hs n name key c doc source pb pi v tx xs l3 :
  ledger_rep_but ex l lg Hs n -> can_load ex (shard_of_key name key) -> 0 < n -> l_cols l !! name = Some c -> kv_key key ->
  next_fields Hs name key pb pi v ->
  Z.of_nat (length (doc_bytes (version_doc source pb pi doc v tx))) < cap ->
  map_Forall (fun _ => index_mid key (Hs name) (2 * n - 1)) xs ->
  l_shards l3 = l_shards l ->
  l_cols l3 = <[name := mkCollection (col_primary c) xs (col_triggers c)]> (l_cols l) ->
  wp (_ ← on_indexes new_primary name (_ ← ix_insert doc key; mret tt);
      '((block, index) : Z * Z) ← on_shards (append_event (shard_of_key name key)
        (doc_bytes (version_doc source pb pi doc v tx)));
      let event_id := EventId (shard_of_key name key) block index in
      _ ← on_primary new_primary name (kv_insert key event_id);
      _ ← modify_st (fun l => set_version_count (u64 (l_version_count l + 1)) l);
      mret event_id) (put_result ex Hs name key n lg doc source) l3.
Proof.
  intros Hr Hld Hn Hc Hk Hnext Hfit Hxs Esh Ecols. apply wp_bind.
  eapply (on_indexes_ok _ _ _ _ (fun _ => index_with key doc (Hs name) (2 * n - 2)));
    [by rewrite Ecols, lookup_insert_eq| |].
  - cbn. intros nm x Hx. eapply wp_mono; [apply (index_insert_mid key (Hs name) (2 * n - 1)); [by eapply Hxs|lia|by apply index_keys]|].
    cbv beta. intros _ x'. by replace (2 * n - 2) with (2 * n - 1 - 1) by lia.
  - cbn. intros xs' Hxs'. eapply wp_mono; [eapply (put_event_ok ex l); try done; cbn|].
    + intros nm x' Hx'. by destruct (Hxs' nm x' Hx') as (x & _ & ?).
    + by rewrite Ecols, insert_insert_eq.
    + cbv beta. intros e l' (lg' & ? & ? & ?). by exists lg', pb, pi, v, tx.
Qed.

Lemma put_next_version_ok ex l lg Hs n ctx name key doc number previous_id tx :
  ledger_rep_but ex l lg Hs n -> can_load ex (shard_of_key name key) -> 0 < n -> ctx_valid ctx = true -> doc_valid doc = true -> kv_key key ->
  event_fits ctx tx doc -> next_args Hs name key number previous_id (version_of (Hs name key)) ->
  wp (put_next_version new_primary ctx name key doc number previous_id (version_of (Hs name key)) tx)
    (put_result ex Hs name key n lg doc (ctx_to_string ctx)) l.
Proof.
  intros Hr Hld Hn Hctx Hdoc Hk Hfit [_ Hargs]. unfold put_next_version. rewrite Hctx, Hdoc. cbn [negb].
  pose proof (shard_of_key_range name key) as Hs0.
  destruct (lr_pending _ _ _ _ _ Hr _ Hs0) as [pid Hpid].
  destruct (sr_pending _ _ (lr_shards _ _ _ _ _ Hr) _ _ Hpid) as [docs Hd].
  apply wp_bind. unfold on_shards at 1. apply wp_zoom.
  eapply wp_mono; [eapply Shard_get_pending_block_ok; [apply Hr|done|done]|]. cbv beta.
  intros _ sh1 (_ & Hsame & _). pose proof (ledger_rep_shards _ _ _ _ _ _ Hr Hsame) as Hr1. clear Hpid Hd docs pid.
  set (l1 := set_shards sh1 l) in *. apply wp_bind. eapply wp_mono; [by apply create_collection_ok|]. cbv beta.
  intros c l2 (Hr2 & Hc2 & _).
  pose proof (lr_cols _ _ _ _ _ Hr2 name) as Hcol. rewrite Hc2 in Hcol. destruct Hcol as [_ Hix].
  destruct (current (Hs name key)) as [[e0 h0]|] eqn:Hcur; unfold version_of; rewrite Hcur.
  - destruct Hargs as [-> ->]. destruct (current_version _ _ _ _ _ _ _ _ _ Hr ltac:(lia) Hcur) as [Hv0 Hver].
    assert (u32 (ev_version_number h0 + 1) = ev_version_number h0 + 1) as Hw
      by (apply wrap_small; unfold in_range; lia).
    rewrite Hv0, Hw. destruct (Z.eqb_spec (ev_version_number h0 + 1) INITIAL_VERSION_NO) as [E|_];
      [unfold INITIAL_VERSION_NO in E; lia|].
    apply wp_bind, wp_bind.
    eapply (on_indexes_ok _ _ _ _ (fun _ => index_mid key (Hs name) (2 * n - 1))); [done| |].
    + intros nm x Hx. assert (ev_value h0 = Ok (doc_item h0 FIELD_VALUE)) as Hval by (unfold ev_value; by rewrite Hv0).
      eapply index_update_mid; [by eapply Hix|lia|done|done|by apply index_keys].
    + intros xs Hxs. apply wp_ret.
      assert (next_fields Hs name key (ev_block e0) (ev_index e0) (ev_version_number h0 + 1)) as Hnext
        by (eapply next_fields_update; [exact Hr2|lia|done]).
      eapply put_rest_ok; [exact Hr2|done|done|done|done|exact Hnext|by apply Hfit; apply Hnext| |done|done].
      * intros nm x Hx. by destruct (Hxs nm x Hx) as (? & _ & ?).
  - subst number. rewrite Z.eqb_refl. unfold handle_valid. rewrite doc_null_invalid.
    apply wp_bind, wp_bind, wp_modify, wp_bind.
    eapply (on_indexes_ok _ _ _ _ (fun _ => index_mid key (Hs name) (2 * n - 1))); [done| |].
    + intros nm x Hx. eapply wp_mono; [apply (index_insert_mid key (Hs name) (2 * n)); [|lia|by apply index_keys]|].
      * apply index_ok_mid. by eapply Hix.
      * cbv beta. intros _ x'. apply index_with_mid.
    + intros xs Hxs. apply wp_ret. eapply put_rest_ok; [exact Hr2|done|done|done|done| |by apply Hfit| |done|done].
      * by eapply next_fields_create.
      * intros nm x Hx. by destruct (Hxs nm x Hx) as (? & _ & ?).
Qed.
(** *** Deletions *)

Lemma col_ok_delete n Hs name key e h c m' :
  col_ok n (Hs name) c -> primary_ok (n - 1) (hist_push name key (e, h) Hs name) m' ->
  ev_get_type h = Deletion ->
  col_ok (n - 1) (hist_push name key (e, h) Hs name) (mkCollection m' (col_indexes c) (col_triggers c)).
Proof.
  intros [_ Hix] Hm Ht. split; [done|]. cbn. intros nm x Hx. destruct (Hix nm x Hx) as (es & room & Hr & Hc & Hroom).
  exists es, room. split_and!; [done| |lia]. intros key' e' h' d hash. destruct (decide (key' = key)) as [->|Hne].
  - rewrite hist_push_eq. cbn. rewrite decide_False by congruence. done.
  - rewrite hist_push_ne by (by intros [? ?]). apply Hc.
Qed.

Definition tombstone_fits (ctx : OpContext) (tx : ledger_pos_t) : Prop :=
  forall pb pi, in_range 32 pb -> in_range 16 pi ->
    Z.of_nat (length (doc_bytes (tombstone_doc (ctx_to_string ctx) pb pi tx))) < cap.

(** The branch of [apply_write] that removes an object *)
Lemma remove_version_ok ex l lg Hs n ctx name key e0 h0 tx :
  ledger_rep_but ex l lg Hs n -> can_load ex (shard_of_key name key) -> 0 < n -> ctx_valid ctx = true -> kv_key key -> tombstone_fits ctx tx ->
  current (Hs name key) = Some (e0, h0) ->
  let h := tombstone_doc (ctx_to_string ctx) (ev_block e0) (ev_index e0) tx in
  wp (res ← put_tombstone ctx e0 tx;
      _ ← on_primary new_primary name (kv_insert key res);
      _ ← modify_st (fun l => set_object_count (u64 (l_object_count l - 1)) l);
      mret res)
    (fun e l' => exists lg', log_le lg lg' /\ eid_ok e /\
      ledger_rep_but (bump (shard_of_key name key) ex) l' lg' (hist_push name key (e, h) Hs) (n - 1)) l.
Proof.
  intros Hr Hld Hn Hctx Hk Hfit Hcur h. destruct (current_Some _ _ _ _ _ Hcur) as (es & E & Ht0).
  pose proof (lr_entries _ _ _ _ _ Hr name key) as He0. rewrite E in He0.
  apply Forall_cons in He0 as [(Hshard & _ & (_ & Hb0 & Hi0 & _)) _]. cbn in Hshard, Hb0, Hi0.
  assert (ev_get_type h = Deletion) as Ht by (by eapply ef_type, tombstone_doc_fields).
  assert (exists c, l_cols l !! name = Some c /\ col_ok n (Hs name) c) as (c & Hc & Hcol).
  { pose proof (lr_cols _ _ _ _ _ Hr name) as Hcol. destruct (l_cols l !! name) as [c|]; [eauto|].
    by rewrite (Hcol key) in E. }
  apply wp_bind. unfold put_tombstone. rewrite Hctx. cbn [negb]. apply wp_bind. unfold on_shards. apply wp_zoom.
  rewrite Hshard. eapply wp_mono; [eapply ledger_append_ok; [exact Hr|done|by apply Hfit]|]. cbv beta.
  intros [block index] sh' (lg' & Hr' & Hle & Hpe & Hav & Hsm & He & Hok). cbn [fst snd] in *.
  apply wp_ret. set (e := EventId (shard_of_key name key) block index) in *.
  pose proof (primary_push n Hs name key e h (col_primary c) (proj1 Hcol) Hn Hk (eid_values e Hok)) as Hins.
  apply wp_run in Hins as ([] & m' & Eins & Hprim').
  apply wp_bind. unfold on_primary. apply wp_bind. eapply (get_collection_ok _ _ c); [done|].
  rewrite Eins. apply wp_bind. unfold put_collection. apply wp_modify.
  unfold lift_res, wp at 1. apply wp_bind, wp_modify, wp_ret.
  exists lg'. split_and!; [done|done|]. eapply ledger_rep_push; [exact Hr|cbn; done..| | | |].
  - done.
  - by apply col_ok_delete.
  - pose proof (lr_chain _ _ _ _ _ Hr name key) as Hch. rewrite E in *. by apply chain_delete.
  - done.
Qed.

(** *** Sealing blocks *)

Lemma ledger_organize_ok ex l lg Hs n sid :
  0 <= sid < NUM_SHARDS_LEDGER -> is_Some (ex !! sid) -> ledger_rep_but ex l lg Hs n -> 0 <= n ->
  wp (on_shards (organize_ledger padding sid))
    (fun _ l' => exists lg', log_le lg lg' /\ ledger_rep_but (delete sid ex) l' lg' Hs n) l.
Proof.
  intros Hs0 [k Hk] Hr Hn.
  destruct (lr_pending _ _ _ _ _ Hr _ Hs0) as [pid Hpid].
  destruct (sr_pending _ _ (lr_shards _ _ _ _ _ Hr) _ _ Hpid) as [docs Hd].
  pose proof (lr_avail _ _ _ _ _ Hr) as Hav0. pose proof (map_size_delete sid ex) as Hsz. rewrite Hk in Hsz.
  assert (size ex <> 0%nat) as Hne by (intros E; apply map_size_empty_inv in E; subst; done).
  unfold on_shards. apply wp_zoom.
  eapply wp_mono; [eapply organize_ledger_ok; [apply Hr|done|done|lia]|]. cbv beta.
  intros _ sh' (lg' & Hr' & Hle & Hsm & Hoth & Hav & Hpe). exists lg'. split; [done|].
  destruct Hr. split; cbn; try done.
  - by apply map_Forall_delete.
  - intros sid'. unfold load. destruct (decide (sid' = sid)) as [->|Hne'].
    + rewrite lookup_delete_eq. by eapply shard_small_load.
    + rewrite lookup_delete_ne by done. apply Hoth; [done|]. apply lr_small0.
  - intros sid' Hsid. apply Hpe. by apply lr_pending0.
  - lia.
  - intros name' key'. eapply Forall_impl; [apply lr_entries0|]. intros p (? & ? & ?).
    split_and!; [done| |done]. by eapply log_entry_mono.
Qed.

Lemma ledger_rep_skip ex l lg Hs n s : ledger_rep_but ex l lg Hs n -> ledger_rep_but (bump s ex) l lg Hs (n - 1).
Proof.
  intros Hr. pose proof (bump_nonneg _ _ _ _ _ s Hr). pose proof (bump_size ex s).
  pose proof (load_nonneg _ _ _ _ _ s Hr). destruct Hr. split; try done.
  - intros sid. rewrite load_bump. case_decide; [subst|apply lr_small0].
    eapply shard_load_mono; [done| |apply lr_small0]. lia.
  - lia.
  - intros name. specialize (lr_cols0 name). destruct (l_cols l !! name); [|done].
    eapply col_ok_weaken; [|done|done]. lia.
  - intros name key. specialize (lr_length0 name key). lia.
  - intros name. destruct (lr_keys0 name) as (ks & ? & ?). exists ks. split; [done|lia].
Qed.

Lemma ledger_rep_le ex l lg Hs n n' : n' <= n -> ledger_rep_but ex l lg Hs n -> ledger_rep_but ex l lg Hs n'.
Proof.
  intros Hle []. split; try done.
  - lia.
  - intros name. specialize (lr_cols0 name). destruct (l_cols l !! name); [|done].
    by eapply col_ok_weaken.
  - intros name key. specialize (lr_length0 name key). lia.
  - intros name. destruct (lr_keys0 name) as (ks & ? & ?). exists ks. split; [done|lia].
Qed.

(** *** Writes *)

Definition cur_doc (es : list (event_id_t * D)) : option D := (fun p => doc_item p.2 FIELD_VALUE) <$> current es.

(** What a write does to an object whose current value is [cur]: nothing, a new
    version, or a deletion *)
Definition write_spec (allow : D -> bool) (op : OperationType) (path : string) (w : D) (cur : option D) :
    option (option D) :=
  let version d := if doc_valid d then Some (Some d) else None in
  match cur with
  | None => if decide (path = EmptyString /\ op <> RemoveObject) then version w else None
  | Some v =>
      if allow v then
        match op with
        | AddToObject => version (doc_add v path w)
        | PutObject => version (if decide (path = EmptyString) then w else doc_insert v path w)
        | RemoveObject => Some None
        | _ => None
        end
      else None
  end.

Definition is_write (op : OperationType) : Prop := op = PutObject \/ op = AddToObject \/ op = RemoveObject.

(** What policy programs answer, given the policy and the request *)
Abbreviation verdict_t := (D -> OpContext -> string -> string -> string -> OperationType -> bool).

(** In every ledger with the histories [Hs], policies decide as [v] does. *)
Definition decides Hs (v : verdict_t) : Prop := forall ex l lg n policy ctx name key path op,
  ledger_rep_but ex l lg Hs n -> run_program l policy ctx name key path op = v policy ctx name key path op.

(** Whether the policy of an object whose value is [d] allows an operation *)
Definition allows (v : verdict_t) ctx (name key path : string) (op : OperationType) (d : D) : bool :=
  doc_empty (doc_path d "policy") || negb (ctx_valid ctx) || v (doc_path d "policy") ctx name key path op.

Lemma check_policy_ok ex l lg Hs n v ctx name key path op d :
  ledger_rep_but ex l lg Hs n -> decides Hs v ->
  wp (if doc_empty (doc_path d "policy") then mret true
      else check_object_policy run_program (doc_path d "policy") ctx name key path op)
    (fun b l' => b = allows v ctx name key path op d /\ l' = l) l.
Proof.
  intros Hr Hv. unfold allows. destruct (doc_empty (doc_path d "policy")); [by apply wp_ret|].
  unfold check_object_policy. destruct (ctx_valid ctx); cbn [negb orb]; [|by apply wp_ret].
  apply wp_bind, wp_get, wp_ret. by rewrite (Hv _ _ _ _ _ _ _ _ _ _ Hr).
Qed.

(** The event that a write adds *)
Definition event_is (source : string) (r : option D) (h : D) : Prop :=
  ev_source h = source /\
  match r with
  | Some d => ev_get_type h = NewVersion /\ ev_value h = Ok d
  | None => ev_get_type h = Deletion
  end.

Definition write_result Hs (name key : string) (n : Z) lg (source : string) (r : option (option D))
    (rep : L -> log -> histories -> Z -> Prop) (e : event_id_t) (l' : L) : Prop :=
  exists lg', log_le lg lg' /\
    match r with
    | None => e = INVALID_EVENT /\ rep l' lg' Hs (n - 1)
    | Some r => eid_ok e /\ exists h, event_is source r h /\ rep l' lg' (hist_push name key (e, h) Hs) (n - 1)
    end.

Definition write_fits ctx tx (r : option (option D)) : Prop :=
  match r with
  | Some (Some d) => event_fits ctx tx d
  | Some None => tombstone_fits ctx tx
  | None => True
  end.

(** [put_next_version], whether or not the document is valid *)
Lemma put_version_ok ex l lg Hs n ctx name key doc number previous_id tx :
  let r := if doc_valid doc then Some (Some doc) else None in
  ledger_rep_but ex l lg Hs n -> can_load ex (shard_of_key name key) -> 0 < n -> ctx_valid ctx = true -> kv_key key ->
  write_fits ctx tx r -> next_args Hs name key number previous_id (version_of (Hs name key)) ->
  wp (put_next_version new_primary ctx name key doc number previous_id (version_of (Hs name key)) tx)
    (write_result Hs name key n lg (ctx_to_string ctx) r (ledger_rep_but (bump (shard_of_key name key) ex))) l.
Proof.
  intros r Hr Hld Hn Hctx Hk Hfit Hargs. subst r. destruct (doc_valid doc) eqn:Hdoc.
  - eapply wp_mono; [by apply put_next_version_ok|]. cbv beta.
    intros e l' (lg' & pb & pi & v & tx' & Hle & Hok & (Hpb & Hpi & Hv & _) & Hr'). exists lg'.
    split_and!; [done..|]. eexists. split; [|exact Hr'].
    destruct (version_doc_fields (ctx_to_string ctx) pb pi doc v tx' Hpb Hpi).
    split_and!; [done..|]. by apply version_doc_value.
  - unfold put_next_version. rewrite Hctx, Hdoc. cbn [negb]. apply wp_ret. exists lg. split; [done|].
    split; [done|]. by apply ledger_rep_skip.
Qed.
Abbreviation write_ver := (write_version new_primary run_program).

(** A refused write, before the ledger is organised *)
Lemma write_result_None ex l lg Hs n name key source :
  ledger_rep_but ex l lg Hs n ->
  write_result Hs name key n lg source None (ledger_rep_but (bump (shard_of_key name key) ex)) INVALID_EVENT l.
Proof. intros Hr. exists lg. split_and!; [done..|]. by apply ledger_rep_skip. Qed.

Lemma write_version_ok ex l lg Hs n ctx name key w path op tx v e0 h0 :
  ledger_rep_but ex l lg Hs n -> can_load ex (shard_of_key name key) -> 0 < n -> ctx_valid ctx = true -> kv_key key -> is_write op ->
  current (Hs name key) = Some (e0, h0) ->
  decides Hs v ->
  let r := write_spec (allows v ctx name key path op) op path w (cur_doc (Hs name key)) in write_fits ctx tx r ->
  wp (write_ver ctx name key w path op (u32 (ev_version_number h0 + 1)) e0 h0 tx)
    (write_result Hs name key n lg (ctx_to_string ctx) r (ledger_rep_but (bump (shard_of_key name key) ex))) l.
Proof.
  intros Hr Hld Hn Hctx Hk Hop Hcur Hpol r Hfit. subst r. unfold cur_doc in *. rewrite Hcur in *. cbn [fmap option_fmap option_map snd] in *.
  destruct (current_version _ _ _ _ _ _ _ _ _ Hr ltac:(lia) Hcur) as [Hv _].
  assert (version_of (Hs name key) = h0) as Ev by (unfold version_of; by rewrite Hcur).
  assert (next_args Hs name key (u32 (ev_version_number h0 + 1)) e0 (version_of (Hs name key))) as Hargs
    by (unfold next_args; by rewrite Hcur).
  assert (forall d, let r := if doc_valid d then Some (Some d) else None in write_fits ctx tx r ->
    wp (put_next_version new_primary ctx name key d (u32 (ev_version_number h0 + 1)) e0 h0 tx)
      (write_result Hs name key n lg (ctx_to_string ctx) r (ledger_rep_but (bump (shard_of_key name key) ex))) l) as Hput.
  { intros d r Hd. pose proof (put_version_ok ex l lg Hs n ctx name key d _ e0 tx Hr Hld Hn Hctx Hk Hd Hargs) as Hp.
    by rewrite Ev in Hp. }
  unfold write_version, ev_get_policy, ev_value. rewrite Hv.
  do 2 (apply wp_bind; unfold lift_res at 1; unfold wp at 1). set (d := doc_item h0 FIELD_VALUE) in *.
  apply wp_bind. eapply wp_mono; [by eapply check_policy_ok|]. cbv beta.
  intros b l' [-> ->]. cbn [write_spec] in *. destruct (allows v ctx name key path op d); cbn [negb];
    [|apply wp_ret; by apply write_result_None].
  destruct Hop as [->|[->| ->]].
  - case_decide; by apply Hput.
  - by apply Hput.
  - eapply wp_mono; [by eapply remove_version_ok|]. cbv beta. intros e l' (lg' & Hle & Hok & Hr').
    exists lg'. split_and!; [done..|]. eexists. split; [|exact Hr'].
    destruct (current_Some _ _ _ _ _ Hcur) as (es & E & _).
    destruct (head_parses _ _ _ _ _ _ _ _ _ _ Hr E) as (_ & _ & (_ & Hb & Hi & _) & _).
    destruct (tombstone_doc_fields (ctx_to_string ctx) (ev_block e0) (ev_index e0) tx Hb Hi). by split.
Qed.

Lemma apply_write_ok ex l lg Hs n ctx name key w path op tx v :
  ledger_rep_but ex l lg Hs n -> can_load ex (shard_of_key name key) -> 0 < n -> ctx_valid ctx = true -> key <> EmptyString -> kv_key key -> is_write op ->
  decides Hs v ->
  let r := write_spec (allows v ctx name key path op) op path w (cur_doc (Hs name key)) in write_fits ctx tx r ->
  wp (apply_write padding new_primary run_program fuel ctx name key w path true op tx)
    (write_result Hs name key n lg (ctx_to_string ctx) r (ledger_rep_but (bump (shard_of_key name key) ex))) l.
Proof.
  intros Hr Hld Hn Hctx Hkey Hk Hop Hpol r Hfit. unfold apply_write. apply wp_bind.
  eapply wp_mono; [by apply get_latest_event_ok|]. cbv beta. intros p l1 [-> Hr1].
  destruct (newest (Hs name key)) as [pid pev] eqn:Enew. apply wp_bind.
  pose proof (get_previous_version_ok _ _ _ _ _ name key (shard_of_key name key) Hr1) as Hprev.
  rewrite Enew in Hprev. cbn [snd] in Hprev. eapply wp_mono; [exact Hprev|]. cbv beta. intros ? ? [-> ->].
  apply wp_bind. eapply (wp_mono _ (write_result Hs name key n lg (ctx_to_string ctx) r
    (ledger_rep_but (bump (shard_of_key name key) ex)))).
  - destruct (current (Hs name key)) as [[e0 h0]|] eqn:Hcur; unfold version_of; rewrite Hcur.
    + destruct (current_version _ _ _ _ _ _ _ _ _ Hr ltac:(lia) Hcur) as [Hv _]. rewrite Hv, andb_false_r. cbn [negb].
      destruct (current_Some _ _ _ _ _ Hcur) as (es & E & _). rewrite E in Enew. injection Enew as <- <-.
      by eapply write_version_ok.
    + unfold handle_valid. rewrite doc_null_invalid. cbn [negb]. rewrite andb_true_r.
      subst r. unfold cur_doc in *. rewrite Hcur in *. cbn [fmap option_fmap option_map write_spec] in *.
      destruct (decide (path = EmptyString)) as [Hp|Hp].
      * rewrite bool_decide_false by (intros Hx; by apply Hx). destruct (decide (op = RemoveObject)) as [Ho|Ho].
        -- rewrite decide_False by (by intros [? ?]). apply wp_ret. by apply write_result_None.
        -- rewrite decide_True in * by done.
           replace doc_null with (version_of (Hs name key)) by (unfold version_of; by rewrite Hcur).
           apply put_version_ok; [done..|]. unfold next_args. by rewrite Hcur.
      * rewrite bool_decide_true by done. rewrite decide_False by (by intros [? ?]).
        apply wp_ret. by apply write_result_None.
  - cbv beta. intros e l2 Hres. by apply wp_bind, wp_ret, wp_ret.
Qed.

(** Without a lock handle the write is followed by [organize_ledger]. *)
Lemma apply_write_unlocked ctx name key w path op tx (Q : event_id_t -> L -> Prop) l :
  wp (apply_write padding new_primary run_program fuel ctx name key w path true op tx)
    (fun e l' => wp (on_shards (organize_ledger padding (shard_of_key name key))) (fun _ l2 => Q e l2) l') l ->
  wp (apply_write padding new_primary run_program fuel ctx name key w path false op tx) Q l.
Proof.
  unfold apply_write. intros Hw. apply wp_bind. apply wp_bind_inv in Hw. eapply wp_mono; [exact Hw|]. cbv beta.
  intros [pid pev] l1 Hw1. apply wp_bind. apply wp_bind_inv in Hw1. eapply wp_mono; [exact Hw1|]. cbv beta.
  intros pv l2 Hw2. apply wp_bind. apply wp_bind_inv in Hw2. eapply wp_mono; [exact Hw2|]. cbv beta.
  intros e l3 Hw3. apply wp_bind. apply wp_bind_inv in Hw3. apply wp_run in Hw3 as ([] & ? & [= <-] & Hw3).
  eapply wp_mono; [exact Hw3|]. cbv beta. intros _ l4 HQ. by apply wp_ret.
Qed.

Lemma delete_bump ex sid : ex !! sid = None -> delete sid (bump sid ex) = ex.
Proof. intros E. unfold bump. by rewrite delete_insert_id. Qed.

Lemma write_and_organize_ok l lg Hs n ctx name key w path op tx v :
  cap <= 2 ^ 31 -> ledger_rep l lg Hs n -> 0 < n -> ctx_valid ctx = true -> key <> EmptyString -> kv_key key -> is_write op ->
  decides Hs v ->
  let r := write_spec (allows v ctx name key path op) op path w (cur_doc (Hs name key)) in write_fits ctx tx r ->
  wp (apply_write padding new_primary run_program fuel ctx name key w path false op tx)
    (write_result Hs name key n lg (ctx_to_string ctx) r ledger_rep) l.
Proof.
  intros Hcap Hr Hn Hctx Hkey Hk Hop Hdec r Hfit. apply apply_write_unlocked.
  assert (can_load ∅ (shard_of_key name key)) as Hld by (unfold can_load, load; rewrite lookup_empty; cbn; lia).
  eapply wp_mono; [by eapply apply_write_ok|]. fold r. clearbody r. cbv beta. intros e l2 (lg2 & Hle2 & Hres). set (s := shard_of_key name key) in *.
  assert (forall Hs', ledger_rep_but (bump s ∅) l2 lg2 Hs' (n - 1) -> wp (on_shards (organize_ledger padding s))
    (fun _ l' => exists lg', log_le lg2 lg' /\ ledger_rep l' lg' Hs' (n - 1)) l2) as Horg.
  { intros Hs' Hr'. rewrite <-(delete_bump ∅ s) by apply lookup_empty.
    apply ledger_organize_ok; [apply shard_of_key_range|unfold bump; by rewrite lookup_insert_eq|done|lia]. }
  destruct r as [r|].
  - destruct Hres as (Hok & h & Hev & Hr2). eapply wp_mono; [by apply Horg|].
    cbv beta. intros _ l3 (lg3 & Hle3 & Hr3). exists lg3. split_and!; [by etrans|done|]. by exists h.
  - destruct Hres as [-> Hr2]. eapply wp_mono; [by apply Horg|].
    cbv beta. intros _ l3 (lg3 & Hle3 & Hr3). exists lg3. by split_and!; [etrans|..].
Qed.

(** *** Reading objects *)

Definition latest (allow : D -> bool) (es : list (event_id_t * D)) : event_id_t * D :=
  match current es with
  | Some (e, h) => (e, if allow (doc_item h FIELD_VALUE) then h else doc_null)
  | None => (INVALID_EVENT, doc_null)
  end.

Lemma get_latest_version_ok ex l lg Hs n v ctx name key path op :
  ledger_rep_but ex l lg Hs n -> key <> EmptyString -> decides Hs v ->
  wp (get_latest_version new_primary run_program fuel ctx name key path op)
    (fun r l' => r = latest (allows v ctx name key path op) (Hs name key) /\ ledger_rep_but ex l' lg Hs n) l.
Proof.
  intros Hr Hkey Hdec. unfold get_latest_version. apply wp_bind.
  eapply wp_mono; [by apply get_latest_event_ok|]. cbv beta. intros p l1 [-> Hr1].
  unfold latest. destruct (Hs name key) as [|[e h] es] eqn:E; cbn [newest current].
  { apply wp_bind. unfold handle_valid. apply (wp_mono _ (fun r l' => r = (INVALID_EVENT, doc_null) /\ l' = l1)).
    - destruct fuel; cbn [latest_version_loop]; unfold handle_valid; rewrite doc_null_invalid; by apply wp_ret.
    - intros ? ? [-> ->]. rewrite doc_null_invalid. by apply wp_ret. }
  destruct (head_parses _ _ _ _ _ _ _ _ _ _ Hr E) as (Hv & _ & _ & Ht).
  apply wp_bind. destruct Ht as [Ht|Ht].
  - rewrite decide_True by done. apply (wp_mono _ (fun r l' => r = (e, h) /\ l' = l1)).
    { destruct fuel; cbn [latest_version_loop]; rewrite Hv, Ht; cbn; by apply wp_ret. }
    intros ? ? [-> ->]. rewrite Hv. cbn [negb]. apply wp_bind. unfold ev_get_policy, ev_value. rewrite Hv.
    unfold lift_res, wp at 1.
    pose proof (check_policy_ok _ _ _ _ _ v ctx name key path op (doc_item h FIELD_VALUE) Hr1 Hdec) as Hcp.
    destruct (doc_empty (doc_path (doc_item h FIELD_VALUE) "policy")) eqn:Hemp.
    + apply wp_run in Hcp as (b & ? & [= <- <-] & <- & _). by apply wp_ret.
    + apply wp_bind. eapply wp_mono; [exact Hcp|]. cbv beta. intros ? ? [-> ->]. by apply wp_ret.
  - rewrite decide_False by congruence.
    apply (wp_mono _ (fun r l' => r = (INVALID_EVENT, doc_null) /\ l' = l1)).
    { destruct fuel; cbn [latest_version_loop]; rewrite Hv, Ht; cbn; by apply wp_ret. }
    intros ? ? [-> ->]. unfold handle_valid. rewrite doc_null_invalid. by apply wp_ret.
Qed.

Lemma get_latest_version_any ex l lg Hs n v ctx name key path op :
  ledger_rep_but ex l lg Hs n -> Hs name EmptyString = [] -> decides Hs v ->
  wp (get_latest_version new_primary run_program fuel ctx name key path op)
    (fun r l' => r = latest (allows v ctx name key path op) (Hs name key) /\ ledger_rep_but ex l' lg Hs n) l.
Proof.
  intros Hr Hne Hdec. destruct (decide (key = EmptyString)) as [->|Hkey]; [|by eapply get_latest_version_ok].
  unfold get_latest_version, get_latest_event. rewrite decide_True by done. apply wp_bind, wp_ret.
  apply wp_bind, (wp_mono _ (fun r l' => r = (INVALID_EVENT, doc_null) /\ l' = l)).
  - destruct fuel; cbn [latest_version_loop]; unfold handle_valid; rewrite doc_null_invalid; by apply wp_ret.
  - intros ? ? [-> ->]. unfold handle_valid. rewrite doc_null_invalid. apply wp_ret. by rewrite Hne.
Qed.

(** *** Iterating *)

(** The versions up to the first one that may not be read *)
Fixpoint while_allowed (allow : D -> bool) (es : list (event_id_t * D)) : list (event_id_t * D) :=
  match es with
  | [] => []
  | (e, h) :: es => if allow (doc_item h FIELD_VALUE) then (e, h) :: while_allowed allow es else []
  end.

Definition it_for ctx (name key path : string) (it : object_iterator (D := D)) : Prop :=
  oi_context it = ctx /\ oi_collection it = name /\ oi_key it = key /\ oi_path it = path.

(** What is left to iterate over *)
Inductive it_rep (allow : D -> bool) (es : list (event_id_t * D)) (it : object_iterator) :
    list (event_id_t * D) -> Prop :=
  | it_rep_start :
      handle_valid (oi_current_event it) = false -> oi_start it = (latest allow es).2 ->
      oi_current_eid it = (latest allow es).1 -> it_rep allow es it (while_allowed allow (versions es))
  | it_rep_mid e0 h0 pre rest :
      es = pre ++ (e0, h0) :: rest -> ev_get_type h0 = NewVersion -> oi_current_event it = h0 ->
      event_is_valid (oi_current_eid it) = true ->
      it_rep allow es it (while_allowed allow (if ev_has_predecessor h0 then versions rest else [])).

Lemma suffix_parses ex l lg Hs n name key e h pre rest :
  ledger_rep_but ex l lg Hs n -> Hs name key = pre ++ (e, h) :: rest ->
  handle_valid h = true /\ doc_parse (doc_bytes h) = h /\ eid_ok e /\ ev_shard e = shard_of_key name key /\
  chain ((e, h) :: rest) /\ Forall (fun p => eid_ok p.1) rest.
Proof.
  intros Hr E. pose proof (lr_entries _ _ _ _ _ Hr name key) as He. pose proof (lr_chain _ _ _ _ _ Hr name key) as Hc.
  rewrite E in He, Hc. apply chain_suffix in Hc. apply Forall_app in He as [_ He].
  apply Forall_cons in He as [(Hsh & _ & He) Hes]. apply entries_eid_ok in Hes.
  destruct (chain_head _ _ _ Hc Hes) as (? & ? & _). done.
Qed.

Lemma check_event_ok ex l lg Hs n v ctx name key path it h :
  ledger_rep_but ex l lg Hs n -> decides Hs v -> it_for ctx name key path it ->
  handle_valid h = true -> ev_get_type h = NewVersion ->
  wp (check_event run_program it h)
    (fun b l' => b = allows v ctx name key path GetObject (doc_item h FIELD_VALUE) /\ l' = l) l.
Proof.
  intros Hr Hdec (<- & <- & <- & <-) Hv Ht. unfold check_event. rewrite Hv, Ht. cbn [negb].
  rewrite decide_False by done. apply wp_bind. unfold ev_get_policy, ev_value, lift_res, wp at 1. rewrite Hv.
  by eapply check_policy_ok.
Qed.

Lemma eid_ok_valid e : eid_ok e -> event_is_valid e = true.
Proof. intros (_ & _ & _ & Hb). unfold event_is_valid, INVALID_BLOCK. destruct (Z.eqb_spec (ev_block e) 0); [lia|done]. Qed.

Definition next_result Hs lg n ex v ctx name key path (todo : list (event_id_t * D))
    (r : event_id_t * D * object_iterator) (l' : L) : Prop :=
  ledger_rep_but ex l' lg Hs n /\ it_for ctx name key path r.2 /\
  match todo with
  | [] => r.1.1 = INVALID_EVENT /\ handle_valid r.1.2 = false
  | (e, h) :: todo' => event_is_valid r.1.1 = true /\ r.1.2 = h /\ handle_valid h = true /\
      it_rep (allows v ctx name key path GetObject) (Hs name key) r.2 todo'
  end.

Lemma next_handle_loop_ok ex l lg Hs n v ctx it name key path e0 h0 pre rest :
  ledger_rep_but ex l lg Hs n -> decides Hs v -> it_for ctx name key path it ->
  Hs name key = pre ++ (e0, h0) :: rest -> ev_get_type h0 = NewVersion ->
  ev_has_predecessor h0 = true -> event_is_valid (oi_current_eid it) = true ->
  wp (next_handle_loop run_program (Datatypes.S fuel) (shard_of_key name key) h0 it)
    (fun r l' => ledger_rep_but ex l' lg Hs n /\ it_for ctx name key path r.2 /\
      exists e1 h1 rest1, rest = (e1, h1) :: rest1 /\ ev_get_type h1 = NewVersion /\ handle_valid h1 = true /\
        if allows v ctx name key path GetObject (doc_item h1 FIELD_VALUE)
        then r.1 = Some h1 /\ event_is_valid (oi_current_eid r.2) = true else r.1 = None) l.
Proof.
  intros Hr Hdec Hit E Ht Hp Hv. destruct (suffix_parses _ _ _ _ _ _ _ _ _ _ _ Hr E) as (_ & _ & _ & _ & Hch & Hok).
  destruct (chain_predecessor _ _ _ Hch Hok Ht Hp) as (e1 & h1 & rest1 & -> & Eb & Ei & Ht1).
  assert (Hs name key = (pre ++ [(e0, h0)]) ++ (e1, h1) :: rest1) as E1 by (by rewrite <-app_assoc).
  destruct (suffix_parses _ _ _ _ _ _ _ _ _ _ _ Hr E1) as (Hv1 & Hp1 & Hok1 & Hsh1 & _ & _).
  cbn [next_handle_loop]. rewrite Hp, Eb, Ei. apply wp_bind.
  assert (EventId (shard_of_key name key) (ev_block e1) (ev_index e1) = e1) as -> by (rewrite <-Hsh1; by destruct e1).
  eapply wp_mono; [eapply (get_event_ok _ _ _ _ _ name key); [done| |done]|].
  { rewrite E1. apply elem_of_app. right. left. }
  cbv beta. intros d l1 [-> Hr1]. set (it1 := if _ =? _ then _ else _). apply wp_bind.
  assert (it_for ctx name key path it1 /\ event_is_valid (oi_current_eid it1) = true) as [Hit1 Hid1].
  { unfold it1. destruct (_ =? _); [done|]. split; [done|]. by apply eid_ok_valid. }
  eapply wp_mono; [by eapply check_event_ok|]. cbv beta. intros ? ? [-> ->]. rewrite (decide_True _ _ Ht1).
  destruct (allows v ctx name key path GetObject (doc_item h1 FIELD_VALUE)) eqn:Ea; cbn [negb]; apply wp_ret;
    (split_and!; [done..|]; exists e1, h1, rest1; by rewrite Ea).
Qed.

Lemma next_handle_ok ex l lg Hs n v ctx it name key path todo :
  ledger_rep_but ex l lg Hs n -> decides Hs v -> it_for ctx name key path it ->
  it_rep (allows v ctx name key path GetObject) (Hs name key) it todo ->
  wp (next_handle run_program fuel it) (next_result Hs lg n ex v ctx name key path todo) l.
Proof.
  intros Hr Hdec Hfor Hit. pose proof Hfor as (_ & Hn & Hk & _). unfold next_handle. rewrite Hn, Hk.
  destruct Hit as [Hcur Hst Hid|e0 h0 pre rest E Ht Hcur Hid].
  - rewrite Hcur. cbn [negb]. cbn [oi_current_event set_current oi_current_eid]. rewrite Hst, Hid. unfold latest.
    destruct (current (Hs name key)) as [[e h]|] eqn:Hc.
    + destruct (current_Some _ _ _ _ _ Hc) as (es & E & Ht). rewrite E in *. cbn [versions].
      rewrite decide_True by done. cbn [while_allowed fst snd].
      destruct (head_parses _ _ _ _ _ _ _ _ _ _ Hr E) as (Hv & _ & Hok & _). apply wp_bind.
      destruct (allows v ctx name key path GetObject (doc_item h FIELD_VALUE)) eqn:Ea.
      * eapply wp_mono; [by eapply check_event_ok|]. cbv beta. rewrite Ea. intros ? ? [-> ->].
        pose proof (eid_ok_valid _ Hok) as Hv'. apply wp_ret. unfold next_result. cbn. split_and!; [done..|].
        rewrite E. by eapply (it_rep_mid _ _ _ e h []).
      * unfold check_event, handle_valid. rewrite doc_null_invalid. cbn [negb]. do 2 apply wp_ret.
        unfold next_result. cbn. by rewrite doc_null_invalid.
    + apply wp_bind. unfold check_event, handle_valid. cbn [snd fst]. rewrite doc_null_invalid. cbn [negb].
      do 2 apply wp_ret. assert (versions (Hs name key) = []) as ->.
      { unfold current in Hc. destruct (Hs name key) as [|[e h] es]; [done|]. cbn. by case_decide. }
      unfold next_result. cbn. by rewrite doc_null_invalid.
  - rewrite Hcur. destruct (suffix_parses _ _ _ _ _ _ _ _ _ _ _ Hr E) as (Hv & _). rewrite Hv. cbn [negb].
    destruct (ev_has_predecessor h0) eqn:Hp; cbn [negb];
      [|apply wp_ret; unfold next_result, handle_valid; cbn; by rewrite doc_null_invalid].
    apply wp_bind. eapply wp_mono; [by eapply next_handle_loop_ok|]. cbv beta.
    intros [r it'] l1 (Hr1 & Hfor1 & e1 & h1 & rest1 & -> & Ht1 & Hv1 & Er). cbn [fst snd] in *.
    cbn [versions]. rewrite decide_True by done. cbn [while_allowed].
    destruct (allows v ctx name key path GetObject (doc_item h1 FIELD_VALUE)).
    + destruct Er as [-> Hid1]. apply wp_ret. unfold next_result. cbn. split_and!; [done..|].
      eapply (it_rep_mid _ _ _ e1 h1 (pre ++ [(e0, h0)]) rest1); [|done..]. by rewrite <-app_assoc.
    + subst r. apply wp_ret. unfold next_result, handle_valid. cbn. by rewrite doc_null_invalid.
Qed.
End Rep.
