(* ===== verification/Find.v ===== *)
(** * Queries over a collection

    Models [Ledger::find], [count_objects], [create_index] and [drop_index],
    [Collection::create_index] and [drop_index], and
    [src/enclave/ObjectListIterator.cpp] over the key providers of
    [ObjectKeyProvider.h]: a query takes the keys that the secondary indexes
    offer, or all of them, and filters them by what the reader may see and by
    the predicate. *)

From S2P Require Import Prelude EventId Keys Bitstream Block PageStore Hash HashMap MultiMap Json.
From S2P Require Import Index Identity ObjectEvent Shard Ledger LedgerSpec.

(** [ObjectListIterator]: the keys are the ones its provider has left, none where
    the code has no provider. *)
Record object_list_iterator (D : Type) : Type := mkOli {
  ol_context : OpContext;
  ol_collection : string;
  ol_predicates : D;
  ol_keys : list string;
}.
Arguments mkOli {D}.
Arguments ol_context {D}.
Arguments ol_collection {D}.
Arguments ol_predicates {D}.
Arguments ol_keys {D}.

Section Find.
Context {B : Type} `{Bitstream B} {S : Type} `{PageStore S (Block B)}.
Context {M : Type} `{KVMap M string event_id_t} {D : Type} `{Json D} {X : Type} `{Index X D}.
Variables (new_primary : M) (new_index : string -> list string -> result X).
Variable run_program : ledger S M X -> D -> OpContext -> string -> string -> string -> OperationType -> bool.
Variable fuel : nat.

(** The context of the server itself, with which [create_index] reads *)
Variable server : OpContext.

Abbreviation L := (ledger S M X).
Implicit Types (l : L) (ctx : OpContext) (predicates : D).

(** A step on one secondary index *)
Definition on_index {A} (name idx : string) (m : ST X A) : ST L A :=
  c ← get_collection new_primary name false;
  match col_indexes c !! idx with
  | None => throw (Undefined "no such index")
  | Some x =>
      let '(r, x') := m x in
      _ ← put_collection name (mkCollection (col_primary c) (<[idx := x']> (col_indexes c)) (col_triggers c));
      lift_res r
  end.

(** The first loop of [find]: the indexes that can help, with the number of keys
    they estimate to find *)
Fixpoint select_indexes (name : string) predicates (todo : list (string * X)) (paths : gset string)
    (indexes : list (Z * string)) : ST L (list (Z * string)) :=
  match todo with
  | [] => mret indexes
  | (idx, index) :: todo =>
      let contains := forallb (fun p => bool_decide (p ∈ paths)) (ix_paths index) in
      if contains || negb (ix_matches_query index predicates) then select_indexes name predicates todo paths indexes
      else
        let view := doc_view predicates (ix_paths index) in
        if doc_empty view then select_indexes name predicates todo paths indexes
        else if 1 <? doc_size view then throw (Runtime_error "Fixme")
        else
          size ← on_index name idx (ix_estimate_value_count view);
          select_indexes name predicates todo (list_to_set (ix_paths index) ∪ paths) (indexes ++ [(size, idx)])
  end.

Definition smaller (lhs rhs : Z * string) : Prop := lhs.1 <= rhs.1.

#[global] Instance smaller_dec : RelDecision smaller.
Proof. intros a b. unfold smaller. apply _. Defined.

(** The second loop: the keys that all of them offer *)
Fixpoint merge_candidates (name : string) predicates (indexes : list (Z * string)) (first : bool)
    (candidates : gset string) : ST L (gset string) :=
  match indexes with
  | [] => mret candidates
  | (_, idx) :: indexes =>
      c ← get_collection new_primary name false;
      match col_indexes c !! idx with
      | None => throw (Undefined "no such index")
      | Some index =>
          let view := doc_view predicates (ix_paths index) in
          if 1 <? doc_size view then throw (Runtime_error "Fixme")
          else
            candidates ← on_index name idx (ix_find view candidates (if first then Union else Intersect));
            merge_candidates name predicates indexes false candidates
      end
  end.

Definition Ledger_find ctx (name : string) predicates : ST L (object_list_iterator D) :=
  l ← get_st;
  match l_cols l !! name with
  | None => mret (mkOli ctx name predicates [])
  | Some col =>
      indexes ← select_indexes name predicates (map_to_list (col_indexes col)) ∅ [];
      match indexes with
      | [] => keys ← on_primary new_primary name kv_keys; mret (mkOli ctx name predicates keys)
      | _ =>
          candidates ← merge_candidates name predicates (merge_sort smaller indexes) true ∅;
          mret (mkOli ctx name predicates (elements candidates))
      end
  end.

(** The loop of [ObjectListIterator::next]: the identifier, the key, the event
    and the keys that are left *)
Fixpoint list_next_loop ctx (name : string) predicates (keys : list string) :
    ST L (event_id_t * string * D * list string) :=
  match keys with
  | [] => mret (INVALID_EVENT, EmptyString, doc_null, [])
  | key :: keys =>
      '((eid, res) : event_id_t * D) ← get_latest_version new_primary run_program fuel ctx name key EmptyString GetObject;
      if negb (handle_valid res) then list_next_loop ctx name predicates keys
      else
        view ← lift_res (ev_value res);
        if negb (matches_predicates view predicates) then list_next_loop ctx name predicates keys
        else mret (eid, key, res, keys)
  end.

Definition ObjectListIterator_next (it : object_list_iterator D) :
    ST L (event_id_t * string * D * object_list_iterator D) :=
  '((eid, key, res, keys) : event_id_t * string * D * list string) ←
    list_next_loop (ol_context it) (ol_collection it) (ol_predicates it) (ol_keys it);
  mret (eid, key, res, mkOli (ol_context it) (ol_collection it) (ol_predicates it) keys).

(** A client that asks for objects until there are none, which it sees in the
    identifier or in the handle; every turn uses up a key. *)
Definition by_event (eid : event_id_t) (_ : D) : bool := event_is_valid eid.
Definition by_handle (_ : event_id_t) (hdl : D) : bool := handle_valid hdl.

Fixpoint list_fold {A} (n : nat) (more : event_id_t -> D -> bool) (step : A -> event_id_t -> string -> D -> ST L (A + A)) (acc : A)
    (it : object_list_iterator D) : ST L A :=
  '((eid, key, hdl, it) : event_id_t * string * D * object_list_iterator D) ← ObjectListIterator_next it;
  if negb (more eid hdl) then mret acc
  else
    r ← step acc eid key hdl;
    match r, n with
    | inr acc, _ => mret acc
    | inl acc, O => throw (Undefined "out of fuel")
    | inl acc, Datatypes.S n => list_fold n more step acc it
    end.

Definition for_objects {A} (more : event_id_t -> D -> bool) (step : A -> event_id_t -> string -> D -> ST L (A + A)) (acc : A)
    (it : object_list_iterator D) : ST L A := list_fold (length (ol_keys it)) more step acc it.

Definition count_objects ctx (name : string) predicates : ST L Z :=
  if decide (name = EmptyString) then l ← get_st; mret (u32 (l_object_count l))
  else
    it ← Ledger_find ctx name predicates;
    for_objects by_event (fun count _ _ _ => mret (inl (u32 (count + 1)))) 0 it.

(** [FindObjects]: what is sent for every object; [projection] and [limit] as in
    the request *)
Definition handle_find ctx (name : string) predicates (projection : list string) (limit : Z) :
    ST L (list (string * event_id_t * D)) :=
  if limit =? 0 then throw (Fatal "Got invalid value for limit")
  else
    it ← Ledger_find ctx name predicates;
    for_objects by_handle (fun out eid key hdl =>
      value ← lift_res (ev_value hdl);
      let out := out ++ [(key, eid, if decide (projection = []) then value else doc_view value projection)] in
      mret (if (0 <? limit) && (Z.of_nat (length out) =? limit) then inr out else inl out)) [] it.

Definition create_index (name idx : string) (paths : list string) : ST L bool :=
  c ← get_collection new_primary name true;
  match col_indexes c !! idx with
  | Some _ => mret false
  | None =>
      index ← lift_res (new_index idx paths);
      _ ← put_collection name (mkCollection (col_primary c) (<[idx := index]> (col_indexes c)) (col_triggers c));
      keys ← on_primary new_primary name kv_keys;
      _ ← for_objects by_event (fun _ _ key event =>
            view ← lift_res (ev_value event);
            _ ← on_index name idx (ix_insert view key);
            mret (inl tt)) tt (mkOli server name doc_null keys);
      mret true
  end.

Definition drop_index (name idx : string) : ST L bool :=
  c ← get_collection new_primary name false;
  match col_indexes c !! idx with
  | None => mret false
  | Some _ =>
      _ ← on_index name idx ix_clear;
      c ← get_collection new_primary name false;
      _ ← put_collection name (mkCollection (col_primary c) (delete idx (col_indexes c)) (col_triggers c));
      mret true
  end.
End Find.

Section FindSpec.
Context {B : Type} `{BitstreamLaws B} {S : Type} `{PageStoreLaws S (Block B)}.
Context {M : Type} `{KVMap M string event_id_t} `{!KVMapLaws M string event_id_t} {D : Type} `{JsonLaws D} {X : Type} `{Index X D} `{!IndexLaws X D}.
Variables (new_primary : M) (room0 cap : Z) (new_index : string -> list string -> result X).
Variable run_program : ledger S M X -> D -> OpContext -> string -> string -> string -> OperationType -> bool.
Variable fuel : nat.
Variable server : OpContext.
Hypothesis new_primary_rep : kv_rep new_primary (fun _ => None) room0.
Hypothesis new_index_rep : forall idx paths, ix_usable paths -> exists x, new_index idx paths = Ok x /\ ix_rep x [] (2 * room0).
Hypothesis index_keys : forall key, kv_key key -> ix_key key.

Abbreviation L := (ledger S M X).
Abbreviation histories := (string -> string -> list (event_id_t * D)).
Abbreviation rep := (ledger_rep_but room0 cap).
Implicit Types (l : L) (lg : log) (Hs : histories) (ex : gmap Z Z) (ctx : OpContext) (p : D).

(** ** What a query finds *)

Definition hit (allow : string -> D -> bool) Hs (name : string) p (key : string) : option (event_id_t * D) :=
  match current (Hs name key) with
  | Some (e, h) =>
      let d := doc_item h FIELD_VALUE in
      if allow key d && matches_predicates d p then Some (e, h) else None
  | None => None
  end.

Definition hits (allow : string -> D -> bool) Hs (name : string) p (keys : list string) :
    list (string * (event_id_t * D)) :=
  omap (fun key => pair key <$> hit allow Hs name p key) keys.

Definition reads (v : D -> OpContext -> string -> string -> string -> OperationType -> bool) ctx (name key : string) : D -> bool :=
  allows v ctx name key EmptyString GetObject.

Lemma list_next_loop_ok ex l lg Hs n v ctx name p keys :
  rep ex l lg Hs n -> Hs name EmptyString = [] -> decides room0 cap run_program Hs v ->
  wp (list_next_loop new_primary run_program fuel ctx name p keys) (fun r l' => rep ex l' lg Hs n /\
    match hits (reads v ctx name) Hs name p keys with
    | [] => r = (INVALID_EVENT, EmptyString, doc_null, [])
    | (key, (e, h)) :: hs => exists rest, r = (e, key, h, rest) /\ event_is_valid e = true /\ handle_valid h = true /\
        hits (reads v ctx name) Hs name p rest = hs /\ exists skipped, keys = skipped ++ key :: rest
    end) l.
Proof.
  intros Hr Hne Hdec. revert l Hr. induction keys as [|key0 keys IH]; intros l Hr; cbn [list_next_loop].
  { by apply wp_ret. }
  assert (forall l1, rep ex l1 lg Hs n -> hit (reads v ctx name) Hs name p key0 = None ->
    wp (list_next_loop new_primary run_program fuel ctx name p keys) (fun r l' => rep ex l' lg Hs n /\
    match hits (reads v ctx name) Hs name p (key0 :: keys) with
    | [] => r = (INVALID_EVENT, EmptyString, doc_null, [])
    | (key, (e, h)) :: hs => exists rest, r = (e, key, h, rest) /\ event_is_valid e = true /\ handle_valid h = true /\
        hits (reads v ctx name) Hs name p rest = hs /\ exists skipped, key0 :: keys = skipped ++ key :: rest
    end) l1) as Hskip.
  { intros l1 Hr1 Hnone. eapply wp_mono; [by apply IH|]. cbv beta. intros r l2 [Hr2 Hres]. split; [done|].
    unfold hits at 1. cbn [omap list_omap]. rewrite Hnone. cbn [fmap option_fmap option_map].
    fold (hits (reads v ctx name) Hs name p keys).
    destruct (hits (reads v ctx name) Hs name p keys) as [|[k [e h]] hs]; [done|].
    destruct Hres as (rest & ? & ? & ? & ? & skipped & ->). exists rest. split_and!; [done..|]. by exists (key0 :: skipped). }
  apply wp_bind. eapply wp_mono; [by eapply get_latest_version_any|]. cbv beta. intros ? l1 [-> Hr1].
  unfold latest, hit, reads in *. destruct (current (Hs name key0)) as [[e h]|] eqn:Hc.
  2: { unfold handle_valid. rewrite doc_null_invalid. by apply Hskip. }
  destruct (allows v ctx name key0 EmptyString GetObject (doc_item h FIELD_VALUE)) eqn:Hal; cbn [andb] in Hskip.
  2: { unfold handle_valid. rewrite doc_null_invalid. by apply Hskip. }
  destruct (current_Some _ _ _ _ _ Hc) as (es & E & _).
  destruct (head_parses _ _ _ _ _ _ _ _ _ _ _ _ Hr E) as (Hv & _ & Hok & _). rewrite Hv. cbn [negb].
  apply wp_bind. unfold ev_value, lift_res, wp at 1. rewrite Hv.
  destruct (matches_predicates (doc_item h FIELD_VALUE) p) eqn:Hm; cbn [negb]; [|by apply Hskip].
  apply wp_ret. split; [done|]. unfold hits at 1. cbn [omap list_omap]. unfold hit at 1.
  rewrite Hc, Hal, Hm. cbn. exists keys. split_and!; [done|by apply eid_ok_valid|done|done|by exists []].
Qed.

(** A loop over the objects of a query *)
Lemma list_fold_ok {A} (more : event_id_t -> D -> bool) (step : A -> event_id_t -> string -> D -> ST L (A + A))
    (I : A -> list string -> L -> Prop) (Q : A -> L -> Prop) ctx (name : string) p :
  (forall acc keys l, I acc keys l ->
    wp (list_next_loop new_primary run_program fuel ctx name p keys) (fun r l' =>
      let '(eid, key, res, rest) := r in
      if more eid res then (length rest < length keys)%nat /\
        wp (step acc eid key res) (fun a l'' => match a with inl acc => I acc rest l'' | inr acc => Q acc l'' end) l'
      else Q acc l') l) ->
  forall n acc keys l, (length keys <= n)%nat -> I acc keys l ->
    wp (list_fold new_primary run_program fuel n more step acc (mkOli ctx name p keys)) Q l.
Proof.
  intros Hnext. induction n as [|n IH]; intros acc keys l Hn Hi; cbn [list_fold]; apply wp_bind;
    unfold ObjectListIterator_next; cbn [ol_context ol_collection ol_predicates ol_keys]; apply wp_bind;
    (eapply wp_mono; [by apply Hnext|]); cbv beta; intros [[[eid key] res] rest] l1 Hres; apply wp_ret;
    (destruct (more eid res); cbn [negb]; [|by apply wp_ret]); destruct Hres as [Hlt Hw]; [lia|].
  apply wp_bind. eapply wp_mono; [exact Hw|]. cbv beta. intros [acc'|acc'] l2 Hacc; [|by apply wp_ret].
  apply IH; [lia|done].
Qed.
(** ** The keys that indexes offer *)

(** What a query must be like for every index there may be *)
Definition query_ok p : Prop := forall x : X, ix_usable (ix_paths x) ->
  ix_exact x p /\ ix_query x (doc_view p (ix_paths x)) <> None.

Definition same_indexes (c c' : collection M X) : Prop := forall idx x, col_indexes c !! idx = Some x ->
  exists x', col_indexes c' !! idx = Some x' /\ ix_same x x'.

Lemma on_index_run {A} l name c idx x (m : ST X A) (Q : A -> L -> Prop) :
  l_cols l !! name = Some c -> col_indexes c !! idx = Some x ->
  wp m (fun a x' => Q a (set_cols (<[name := mkCollection (col_primary c) (<[idx := x']> (col_indexes c)) (col_triggers c)]> (l_cols l)) l)) x ->
  wp (on_index new_primary name idx m) Q l.
Proof.
  intros Hc Hx Hm. unfold on_index. apply wp_bind. eapply get_collection_ok; [done|]. rewrite Hx.
  apply wp_run in Hm as (a & x' & -> & HQ). apply wp_bind. unfold put_collection. by apply wp_modify.
Qed.

Lemma on_index_ok {A} ex l lg Hs n name c idx x (m : ST X A) (Q : A -> Prop) :
  rep ex l lg Hs n -> l_cols l !! name = Some c -> col_indexes c !! idx = Some x ->
  (forall es room, ix_rep x es room -> index_complete x es (Hs name) ->
    wp m (fun a x' => Q a /\ ix_same x x' /\ ix_rep x' es room) x) ->
  wp (on_index new_primary name idx m) (fun a l' => Q a /\ rep ex l' lg Hs n /\
    exists c', l_cols l' !! name = Some c' /\ same_indexes c c') l.
Proof.
  intros Hr Hc Hx Hm. pose proof (lr_cols _ _ _ _ _ _ _ Hr name) as Hcol. rewrite Hc in Hcol.
  destruct Hcol as [Hprim Hix]. destruct (Hix idx x Hx) as (es & room & Hrep & Hcomp & Hroom).
  eapply on_index_run; [done|done|]. eapply wp_mono; [by apply Hm|]. cbv beta.
  intros a x' (HQ & Hsame & Hrep'). split; [done|]. split.
  - eapply ledger_rep_col; [done|done|]. split; [done|]. cbn. intros idx' y. rewrite lookup_insert_Some.
    intros [[<- <-]|[_ Hy]]; [|by apply (Hix idx' y)]. exists es, room. split_and!; [done| |done].
    destruct Hsame as (_ & Hh & _). intros key e h doc hash Hcur Hv. rewrite Hh. by eapply Hcomp.
  - cbn. rewrite lookup_insert_eq. eexists. split; [done|]. intros idx' y Hy. cbn.
    destruct (decide (idx' = idx)) as [->|].
    + rewrite lookup_insert_eq. exists x'. split; [done|]. congruence.
    + rewrite lookup_insert_ne by done. exists y. split; [done|]. apply ix_same_refl.
Qed.

(** An index that a query may use *)
Definition good p (c : collection M X) (idx : string) : Prop :=
  exists x, col_indexes c !! idx = Some x /\ ix_matches_query x p = true.

Lemma good_same p c c' idx : same_indexes c c' -> good p c idx -> good p c' idx.
Proof.
  intros Hs (x & Hx & Hm). destruct (Hs idx x Hx) as (x' & Hx' & (_ & _ & _ & _ & Hm')). exists x'. by rewrite Hm'.
Qed.

Lemma view_size ex l lg Hs n name c idx x p :
  rep ex l lg Hs n -> l_cols l !! name = Some c -> col_indexes c !! idx = Some x ->
  ix_usable (ix_paths x) /\ (1 <? doc_size (doc_view p (ix_paths x))) = false.
Proof.
  intros Hr Hc Hx. pose proof (lr_cols _ _ _ _ _ _ _ Hr name) as Hcol. rewrite Hc in Hcol.
  destruct Hcol as [_ Hix]. destruct (Hix idx x Hx) as (es & room & Hrep & _).
  pose proof (ix_rep_usable _ _ _ Hrep) as Hu. split; [done|].
  pose proof (doc_view_size p (ix_paths x)) as Hd. rewrite (ix_one_path _ Hu) in Hd. apply Z.ltb_ge. lia.
Qed.

Lemma select_indexes_ok ex l lg Hs n name p todo c paths indexes :
  rep ex l lg Hs n -> l_cols l !! name = Some c ->
  (forall idx x, (idx, x) ∈ todo -> exists x', col_indexes c !! idx = Some x' /\ ix_same x x') ->
  Forall (good p c) indexes.*2 ->
  wp (select_indexes new_primary name p todo paths indexes) (fun r l' => rep ex l' lg Hs n /\
    exists c', l_cols l' !! name = Some c' /\ Forall (good p c') r.*2) l.
Proof.
  revert l c paths indexes. induction todo as [|[idx x] todo IH]; intros l c paths indexes Hr Hc Htodo Hg;
    cbn [select_indexes].
  { apply wp_ret. eauto. }
  assert (forall idx x, (idx, x) ∈ todo -> exists x', col_indexes c !! idx = Some x' /\ ix_same x x') as Htodo'
    by (intros; apply Htodo; by right).
  destruct (_ || _) eqn:Eu; [by eapply IH|]. apply orb_false_iff in Eu as [_ Hm%negb_false_iff].
  destruct (doc_empty _); [by eapply IH|].
  destruct (Htodo idx x ltac:(left)) as (x' & Hx' & Hsame). pose proof Hsame as (Hp & _ & _ & _ & Hm').
  destruct (view_size _ _ _ _ _ _ _ _ _ p Hr Hc Hx') as [_ Hsz]. rewrite Hp in Hsz. rewrite Hsz.
  apply wp_bind. eapply wp_mono.
  { eapply (on_index_ok ex l lg Hs n name c idx x' _ (fun _ => True)); [done|done|done|].
    intros es room Hrep _. eapply wp_mono; [by eapply ix_estimate_spec|]. by intros ? ? [? ?]. }
  cbv beta. intros size l1 (_ & Hr1 & c1 & Hc1 & Hs1). eapply IH; [exact Hr1|exact Hc1| |].
  - intros idx' y Hy. destruct (Htodo' idx' y Hy) as (y' & Hy' & Hsy). destruct (Hs1 _ _ Hy') as (y2 & Hy2 & Hsy2).
    exists y2. split; [done|]. by eapply ix_same_trans.
  - rewrite fmap_app. apply Forall_app. split; [eapply Forall_impl; [exact Hg|]; intros i; by apply good_same|].
    constructor; [|constructor]. cbn. eapply good_same; [exact Hs1|]. exists x'. by rewrite Hm'.
Qed.

(** Keys that a query must look at *)
Definition wanted Hs (name : string) p (key : string) : Prop := exists e h,
  current (Hs name key) = Some (e, h) /\ handle_valid h = true /\ matches_predicates (doc_item h FIELD_VALUE) p = true.

Lemma keys_at_complete x es Hs name p hs key :
  ix_usable (ix_paths x) -> ix_exact x p -> ix_matches_query x p = true ->
  ix_query x (doc_view p (ix_paths x)) = Some hs -> index_complete x es (Hs name) -> wanted Hs name p key ->
  key ∈ keys_at hs es.
Proof.
  intros Hu Hex Hm Hq Hc (e & h & Hcur & Hv & Hmat).
  destruct (ix_query_complete x _ p hs Hmat Hm Hu Hex Hq) as (hash & Hh & Hin).
  unfold keys_at. apply elem_of_list_to_set, list_elem_of_fmap. exists (hash, key). split; [done|].
  apply list_elem_of_filter. split; [done|]. eapply Hc; [done| |done]. unfold ev_value. by rewrite Hv.
Qed.

Lemma merge_candidates_ok ex l lg Hs n name p c indexes (first : bool) (candidates : gset string) :
  rep ex l lg Hs n -> query_ok p -> l_cols l !! name = Some c -> Forall (good p c) indexes.*2 ->
  wp (merge_candidates new_primary name p indexes first candidates) (fun r l' => rep ex l' lg Hs n /\
    forall key, wanted Hs name p key -> first = true /\ indexes <> [] \/ key ∈ candidates -> key ∈ r) l.
Proof.
  intros Hr Hq. revert l c first candidates Hr.
  induction indexes as [|[size idx] indexes IH]; intros l c first candidates Hr Hc Hg; cbn [merge_candidates].
  { apply wp_ret. split; [done|]. intros key _ [[_ []]|]; done. }
  apply Forall_cons in Hg as [(x & Hx & Hm) Hg]. cbn in Hx. apply wp_bind.
  eapply get_collection_ok; [done|]. rewrite Hx.
  destruct (view_size _ _ _ _ _ _ _ _ _ p Hr Hc Hx) as [Hu Hsz]. rewrite Hsz.
  destruct (Hq x Hu) as [Hex Hqx]. destruct (ix_query x (doc_view p (ix_paths x))) as [hs|] eqn:Eq; [|done].
  apply wp_bind. eapply wp_mono.
  { eapply (on_index_ok ex l lg Hs n name c idx x _ (fun r => exists es, index_complete x es (Hs name) /\
      r = set_op (if first then Union else Intersect) candidates (keys_at hs es))); [done|done|done|].
    intros es room Hrep Hcomp. eapply wp_mono; [by eapply ix_find_spec|]. cbv beta.
    intros r x' (-> & ? & ?). eauto. }
  cbv beta. intros r l1 ((es & Hcomp & ->) & Hr1 & c1 & Hc1 & Hs1).
  eapply wp_mono; [eapply (IH l1 c1); [done|done|eapply Forall_impl; [exact Hg|]; intros i; by apply good_same]|].
  cbv beta. intros r l2 [Hr2 Hkeys]. split; [done|]. intros key Hw Hin. apply Hkeys; [done|]. right.
  assert (key ∈ keys_at hs es) as Hk by (by eapply keys_at_complete).
  destruct first; cbn [set_op]; [apply elem_of_union; by right|].
  apply elem_of_intersection. split; [|done]. by destruct Hin as [[? _]|].
Qed.

Lemma primary_keys_ok ex l lg Hs n name c :
  rep ex l lg Hs n -> l_cols l !! name = Some c ->
  wp (on_primary new_primary name kv_keys) (fun ks l' => rep ex l' lg Hs n /\ NoDup ks /\ Forall kv_key ks /\
    (forall key, key ∈ ks <-> Hs name key <> []) /\
    exists m', l' = set_cols (<[name := mkCollection m' (col_indexes c) (col_triggers c)]> (l_cols l)) l) l.
Proof.
  intros Hr Hc. pose proof (lr_cols _ _ _ _ _ _ _ Hr name) as Hcol. rewrite Hc in Hcol.
  destruct Hcol as [(f & room & Hkv & Hroom & Hf) Hix]. unfold on_primary.
  apply wp_bind. eapply get_collection_ok; [done|].
  pose proof (kv_keys_spec _ _ _ Hkv) as Hg. apply wp_run in Hg as (ks & m' & -> & Hnd & Hwf & Hks & Hkv').
  apply wp_bind. unfold put_collection. apply wp_modify. cbn. split_and!; [|done|done| |].
  - eapply ledger_rep_col; [done|done|]. split; [by exists f, room|done].
  - intros key. rewrite Hks, Hf. destruct (Hs name key) as [|[e h] es]; cbn; naive_solver.
  - by exists m'.
Qed.

Lemma Ledger_find_ok ex l lg Hs n ctx name p :
  rep ex l lg Hs n -> query_ok p ->
  wp (Ledger_find new_primary ctx name p) (fun it l' => rep ex l' lg Hs n /\ exists keys, it = mkOli ctx name p keys /\
    NoDup keys /\ forall key, wanted Hs name p key -> key ∈ keys) l.
Proof.
  intros Hr Hq. unfold Ledger_find. apply wp_bind, wp_get. destruct (l_cols l !! name) as [c|] eqn:Hc.
  2: { apply wp_ret. split; [done|]. exists []. split_and!; [done|constructor|]. intros key (e & h & Hcur & _).
    pose proof (lr_cols _ _ _ _ _ _ _ Hr name) as Hcol. rewrite Hc in Hcol. by rewrite Hcol in Hcur. }
  apply wp_bind. eapply wp_mono.
  { eapply select_indexes_ok; [done|done| |constructor].
    intros idx x Hx%elem_of_map_to_list. exists x. split; [done|]. apply ix_same_refl. }
  cbv beta. intros indexes l1 (Hr1 & c1 & Hc1 & Hg). destruct indexes as [|i indexes].
  - apply wp_bind. eapply wp_mono; [by eapply primary_keys_ok|]. cbv beta. intros ks l2 (Hr2 & Hnd & _ & Hks & _).
    apply wp_ret. split; [done|]. exists ks. split_and!; [done..|]. intros key (e & h & Hcur & _). apply Hks.
    intros E. by rewrite E in Hcur.
  - apply wp_bind. eapply wp_mono.
    { eapply merge_candidates_ok; [done|done|done|].
      by rewrite (merge_sort_Permutation smaller). }
    cbv beta. intros r l2 [Hr2 Hkeys]. apply wp_ret. split; [done|]. exists (elements r).
    split_and!; [done|apply NoDup_elements|]. intros key Hw. apply elem_of_elements, Hkeys; [done|]. left.
    split; [done|]. intros E. pose proof (merge_sort_Permutation smaller (i :: indexes)) as Hp. rewrite E in Hp.
    by apply Permutation_nil_cons in Hp.
Qed.
(** ** Queries *)

Lemma handle_find_ok ex l lg Hs n v ctx name p projection limit :
  rep ex l lg Hs n -> Hs name EmptyString = [] -> decides room0 cap run_program Hs v -> query_ok p -> limit < 0 ->
  wp (handle_find new_primary run_program fuel ctx name p projection limit) (fun out l' => rep ex l' lg Hs n /\
    exists keys, NoDup keys /\ (forall key, wanted Hs name p key -> key ∈ keys) /\
      out = (fun '(key, (e, h)) => (key, e, if decide (projection = []) then doc_item h FIELD_VALUE
        else doc_view (doc_item h FIELD_VALUE) projection)) <$> hits (reads v ctx name) Hs name p keys) l.
Proof.
  intros Hr Hne Hdec Hq Hlim. unfold handle_find. destruct (Z.eqb_spec limit 0); [lia|]. apply wp_bind.
  eapply wp_mono; [by eapply Ledger_find_ok|]. cbv beta. intros it l1 (Hr1 & keys & -> & Hnd & Hkeys).
  set (item := fun '(key, (e, h)) => _). unfold for_objects. cbn [ol_keys].
  eapply (list_fold_ok _ _ (fun out ks l => rep ex l lg Hs n /\
      out ++ (item <$> hits (reads v ctx name) Hs name p ks) = item <$> hits (reads v ctx name) Hs name p keys));
    [|done|done].
  clear l l1 Hr Hr1. intros out ks l [Hr Hout]. eapply wp_mono; [by eapply list_next_loop_ok|]. cbv beta.
  intros r l1 [Hr1 Hres]. destruct (hits (reads v ctx name) Hs name p ks) as [|[key [e h]] hs].
  - subst r. unfold by_handle, handle_valid. rewrite doc_null_invalid. split; [done|]. exists keys.
    split_and!; [done..|]. by rewrite app_nil_r in Hout.
  - destruct Hres as (rest & -> & He & Hv & Hhs & skipped & Hks). unfold by_handle. rewrite Hv. split.
    { rewrite Hks, length_app. cbn. lia. }
    apply wp_bind. unfold ev_value, lift_res, wp at 1. rewrite Hv. destruct (Z.ltb_spec 0 limit); [lia|].
    apply wp_ret. split; [done|]. rewrite <-Hout, Hhs, <-app_assoc. done.
Qed.

Lemma count_objects_ok ex l lg Hs n v ctx name p :
  rep ex l lg Hs n -> Hs name EmptyString = [] -> decides room0 cap run_program Hs v -> query_ok p -> name <> EmptyString ->
  wp (count_objects new_primary run_program fuel ctx name p) (fun c l' => rep ex l' lg Hs n /\
    exists keys, NoDup keys /\ (forall key, wanted Hs name p key -> key ∈ keys) /\
      c = u32 (Z.of_nat (length (hits (reads v ctx name) Hs name p keys)))) l.
Proof.
  intros Hr Hne Hdec Hq Hname. unfold count_objects. rewrite decide_False by done. apply wp_bind.
  eapply wp_mono; [by eapply Ledger_find_ok|]. cbv beta. intros it l1 (Hr1 & keys & -> & Hnd & Hkeys).
  unfold for_objects. cbn [ol_keys].
  eapply (list_fold_ok _ _ (fun c ks l => rep ex l lg Hs n /\ exists k, c = u32 (Z.of_nat k) /\
    (k + length (hits (reads v ctx name) Hs name p ks) = length (hits (reads v ctx name) Hs name p keys))%nat));
    [|done|split; [done|by exists 0%nat]].
  clear l l1 Hr Hr1. intros c ks l (Hr & k & -> & Hk). eapply wp_mono; [by eapply list_next_loop_ok|]. cbv beta.
  intros r l1 [Hr1 Hres]. destruct (hits (reads v ctx name) Hs name p ks) as [|[key [e h]] hs].
  - subst r. split; [done|]. exists keys. split_and!; [done..|]. rewrite <-Hk. cbn. by rewrite Nat.add_0_r.
  - destruct Hres as (rest & -> & He & Hv & Hhs & skipped & Hks). unfold by_event. rewrite He. split.
    { rewrite Hks, length_app. cbn. lia. }
    apply wp_ret. split; [done|]. exists (Datatypes.S k). rewrite Hhs. split; [|cbn in Hk; lia].
    unfold wrap. rewrite Z.add_mod_idemp_l by done. f_equal. lia.
Qed.
(** ** Creating and dropping indexes

    The new index is in its collection before it is filled, so that the ledger
    is read in a state in which one index is not complete.  Reading does not look
    at secondary indexes: it does the same to the ledger without them. *)

Definition strip_col (c : collection M X) : collection M X := mkCollection (col_primary c) ∅ (col_triggers c).

Definition strip l : L := set_cols (strip_col <$> l_cols l) l.

Definition same_cols l l' : Prop := forall name, col_indexes <$> l_cols l' !! name = col_indexes <$> l_cols l !! name.

Definition blind {A} (m : ST L A) : Prop := forall l,
  m (strip l) = ((m l).1, strip (m l).2) /\ same_cols l (m l).2.

(** Policy programs do not ask which indexes there are. *)
Hypothesis programs_blind : forall l policy ctx name key path op,
  run_program (strip l) policy ctx name key path op = run_program l policy ctx name key path op.

Lemma blind_ret {A} (a : A) : blind (mret a).
Proof. by intros l. Qed.

Lemma blind_res {A} (r : result A) : blind (lift_res r).
Proof. by intros l. Qed.

Lemma blind_bind {A A'} (m : ST L A) (k : A -> ST L A') : blind m -> (forall a, blind (k a)) -> blind (m ≫= k).
Proof.
  intros Hm Hk l. destruct (Hm l) as [Em Hs]. unfold mbind, ST_bind. rewrite Em.
  destruct (m l) as [[a|e] l1]; cbn in *; [|done]. destruct (Hk a l1) as [Ek Hs']. split; [done|].
  intros name. by rewrite Hs', Hs.
Qed.

Lemma blind_shards {A} (m : ST (shards S) A) : blind (on_shards m).
Proof. intros l. unfold on_shards, zoom. cbn. destruct (m (l_shards l)) as [r sh]. by split. Qed.

Lemma blind_col {A} name (a b : ST L A) : blind a -> blind b ->
  blind (l ← get_st; match l_cols l !! name with None => a | Some _ => b end).
Proof.
  intros Ha Hb l. unfold mbind, ST_bind, get_st. cbn. rewrite lookup_fmap.
  destruct (l_cols l !! name); cbn; [apply Hb|apply Ha].
Qed.

Lemma blind_primary {A} name (m : ST M A) : blind (on_primary new_primary name m).
Proof.
  intros l. unfold on_primary, get_collection, put_collection, modify_st, mbind, ST_bind, get_st, mret, ST_ret, throw.
  cbn. rewrite lookup_fmap. destruct (l_cols l !! name) as [c|] eqn:Hc; cbn; [|done].
  destruct (m (col_primary c)) as [r m']. cbn. split.
  - f_equal. unfold strip. cbn. rewrite fmap_insert. done.
  - intros name'. cbn. destruct (decide (name' = name)) as [->|].
    + by rewrite lookup_insert_eq, Hc.
    + by rewrite lookup_insert_ne.
Qed.

Lemma blind_get_event e : blind (get_event e).
Proof. apply blind_bind; [apply blind_shards|]. intros. apply blind_ret. Qed.

Lemma blind_latest_loop k id event : blind (latest_version_loop k id event).
Proof.
  revert id event. induction k as [|k IH]; intros id event; cbn [latest_version_loop];
    (destruct (_ && _); [|apply blind_ret]); (case_decide; [apply blind_ret|]); [apply blind_res|].
  apply blind_bind; [apply blind_get_event|]. intros. apply IH.
Qed.

Lemma blind_latest_version ctx name key path op : blind (get_latest_version new_primary run_program fuel ctx name key path op).
Proof.
  apply blind_bind.
  { unfold get_latest_event. case_decide; [apply blind_ret|]. apply blind_col; [apply blind_ret|].
    apply blind_bind; [apply blind_primary|]. intros [eid|]; [|apply blind_ret].
    apply blind_bind; [apply blind_get_event|]. intros. apply blind_ret. }
  intros [id event]. apply blind_bind; [apply blind_latest_loop|]. intros [id' event'].
  destruct (negb _); [apply blind_ret|]. apply blind_bind; [apply blind_res|]. intros policy.
  destruct (doc_empty policy); [apply blind_ret|]. apply blind_bind; [|intros; apply blind_ret].
  unfold check_object_policy. destruct (negb _); [apply blind_ret|]. intros l. unfold mbind, ST_bind, get_st. cbn.
  by rewrite programs_blind.
Qed.

Lemma blind_list_next ctx name p keys : blind (list_next_loop new_primary run_program fuel ctx name p keys).
Proof.
  induction keys as [|key keys IH]; cbn [list_next_loop]; [apply blind_ret|].
  apply blind_bind; [apply blind_latest_version|]. intros [eid res]. destruct (negb _); [done|].
  apply blind_bind; [apply blind_res|]. intros view. destruct (negb _); [done|apply blind_ret].
Qed.

Lemma blind_wp {A} (m : ST L A) (Q : A -> L -> Prop) l :
  blind m -> wp m Q (strip l) -> wp m (fun a l' => Q a (strip l') /\ same_cols l l') l.
Proof. intros Hm. destruct (Hm l) as [E Hs]. unfold wp. rewrite E. by destruct (m l) as [[a|e] l1]. Qed.

Lemma rep_strip ex l lg Hs n : rep ex l lg Hs n -> rep ex (strip l) lg Hs n.
Proof.
  intros []. split; cbn; try done. intros name. rewrite lookup_fmap. specialize (lr_cols name).
  destruct (l_cols l !! name); cbn; [|done]. destruct lr_cols as [Hp _]. split; [done|]. by apply map_Forall_empty.
Qed.

Lemma rep_unstrip ex l lg Hs n :
  rep ex (strip l) lg Hs n ->
  (forall name c, l_cols l !! name = Some c -> map_Forall (fun _ => index_ok n (Hs name)) (col_indexes c)) ->
  rep ex l lg Hs n.
Proof.
  intros [] Hix. split; try done. intros name. specialize (lr_cols name). cbn in lr_cols. rewrite lookup_fmap in lr_cols.
  destruct (l_cols l !! name) eqn:Hc; cbn in lr_cols; [|done]. destruct lr_cols as [Hp _]. split; [done|]. by eapply Hix.
Qed.
(** Index [idx] of collection [name] has yet to be told of the objects of [todo]. *)
Definition filling ex lg Hs (n : Z) (name idx : string) (todo : list string) l : Prop :=
  rep ex (strip l) lg Hs n /\
  (forall name' c' idx' x', l_cols l !! name' = Some c' -> col_indexes c' !! idx' = Some x' ->
    (name', idx') <> (name, idx) -> index_ok n (Hs name') x') /\
  exists c x es room, l_cols l !! name = Some c /\ col_indexes c !! idx = Some x /\ ix_rep x es room /\
    2 * n + Z.of_nat (length todo) <= room /\
    forall key e h doc hash, key ∉ todo -> current (Hs name key) = Some (e, h) -> ev_value h = Ok doc ->
      ix_hash x doc = Some hash -> (hash, key) ∈ es.

Lemma same_cols_lookup l l' name c' :
  same_cols l l' -> l_cols l' !! name = Some c' -> exists c, l_cols l !! name = Some c /\ col_indexes c = col_indexes c'.
Proof. intros Hs Hc. specialize (Hs name). rewrite Hc in Hs. destruct (l_cols l !! name) as [c|]; [|done]. exists c. split; [done|]. by injection Hs. Qed.

Lemma filling_same ex lg Hs n name idx todo l l' :
  filling ex lg Hs n name idx todo l -> same_cols l l' -> rep ex (strip l') lg Hs n -> filling ex lg Hs n name idx todo l'.
Proof.
  intros (_ & Hoth & c & x & es & room & Hc & Hx & Hrep & Hroom & Hcomp) Hsc Hr'. split_and!; [done| |].
  - intros name' c' idx' x' Hc' Hx' Hne. destruct (same_cols_lookup _ _ _ _ Hsc Hc') as (c0 & Hc0 & E).
    rewrite <-E in Hx'. by eapply Hoth.
  - specialize (Hsc name). rewrite Hc in Hsc. destruct (l_cols l' !! name) as [c'|] eqn:Hc'; [|done].
    injection Hsc as Hsc. exists c', x, es, room. rewrite Hsc. by split_and!.
Qed.

Lemma filling_done ex lg Hs n name idx l : filling ex lg Hs n name idx [] l -> rep ex l lg Hs n.
Proof.
  intros (Hr & Hoth & c & x & es & room & Hc & Hx & Hrep & Hroom & Hcomp). apply rep_unstrip; [done|].
  intros name' c' Hc' idx' x' Hx'. destruct (decide ((name', idx') = (name, idx))) as [[= -> ->]|Hne]; [|by eapply Hoth].
  assert (c' = c) as -> by congruence. assert (x' = x) as -> by congruence.
  exists es, room. split_and!; [done| |cbn in *; lia]. intros key e h doc hash. apply Hcomp, not_elem_of_nil.
Qed.

Lemma strip_insert l name c c' : l_cols l !! name = Some c -> col_primary c' = col_primary c -> col_triggers c' = col_triggers c ->
  strip (set_cols (<[name := c']> (l_cols l)) l) = strip l.
Proof.
  intros Hc Hp Ht. unfold strip. cbn. rewrite fmap_insert.
  assert (strip_col c' = strip_col c) as -> by (unfold strip_col; by rewrite Hp, Ht).
  unfold set_cols. cbn. f_equal. apply insert_id. by rewrite lookup_fmap, Hc.
Qed.

(** One object is filed. *)
Lemma filling_step ex lg Hs n name idx todo skipped key rest e h l :
  filling ex lg Hs n name idx todo l -> 0 <= n -> todo = skipped ++ key :: rest -> kv_key key ->
  (forall k, k ∈ skipped -> current (Hs name k) = None) -> current (Hs name key) = Some (e, h) -> handle_valid h = true ->
  wp (on_index new_primary name idx (ix_insert (doc_item h FIELD_VALUE) key))
    (fun _ l' => filling ex lg Hs n name idx rest l') l.
Proof.
  intros (Hr & Hoth & c & x & es & room & Hc & Hx & Hrep & Hroom & Hcomp) Hn -> Hk Hskip Hcur Hv.
  rewrite length_app in Hroom. cbn [length] in Hroom. eapply on_index_run; [done|done|].
  eapply wp_mono; [apply (ix_insert_spec x es room); [done|lia|by apply index_keys]|]. cbv beta.
  intros _ x' ((_ & Hh & _) & Hrep'). split_and!.
  - by erewrite strip_insert.
  - cbn. intros name' c' idx' x2. rewrite lookup_insert_Some. intros [[<- <-]|[Hne Hc']]; [|by eapply Hoth].
    cbn. rewrite lookup_insert_Some. intros [[<- <-]|[Hne Hx2]]; [done|by eapply Hoth].
  - eexists _, x', _, _. split_and!; [cbn; by rewrite lookup_insert_eq|cbn; by rewrite lookup_insert_eq|exact Hrep'|lia|].
    intros key' e' h' doc hash Hnin Hcur' Hv'. rewrite Hh. intros Hd. destruct (decide (key' = key)) as [->|Hne].
    + assert (h' = h) as -> by congruence. unfold ev_value in Hv'. rewrite Hv in Hv'. injection Hv' as <-.
      rewrite Hd. left.
    + assert ((hash, key') ∈ es) as Hin.
      { eapply Hcomp; [|done|done|done]. rewrite elem_of_app, elem_of_cons. intros [Hsk|[?|?]]; [|done|done].
        by rewrite (Hskip _ Hsk) in Hcur'. }
      destruct (ix_hash x _); [by right|done].
Qed.

(** Everything that is there may be read by the server. *)
Definition all_readable (v : D -> OpContext -> string -> string -> string -> OperationType -> bool) Hs (name : string) : Prop :=
  forall key e h, current (Hs name key) = Some (e, h) -> reads v server name key (doc_item h FIELD_VALUE) = true.

Lemma hit_all v Hs name key : all_readable v Hs name ->
  hit (reads v server name) Hs name doc_null key = current (Hs name key).
Proof.
  intros Hall. unfold hit. destruct (current (Hs name key)) as [[e h]|] eqn:Hc; [|done].
  by rewrite (Hall _ _ _ Hc), matches_all.
Qed.

Lemma fill_ok ex l lg Hs n v name idx keys :
  filling ex lg Hs n name idx keys l -> 0 <= n -> Forall kv_key keys -> NoDup keys -> Hs name EmptyString = [] ->
  decides room0 cap run_program Hs v -> all_readable v Hs name ->
  wp (for_objects new_primary run_program fuel by_event (fun _ _ key event =>
        view ← lift_res (ev_value event); _ ← on_index new_primary name idx (ix_insert view key); mret (inl tt)) tt
      (mkOli server name doc_null keys)) (fun _ l' => rep ex l' lg Hs n) l.
Proof.
  intros Hfill Hn Hkeys Hnd Hne Hdec Hall. unfold for_objects. cbn [ol_keys].
  eapply (list_fold_ok _ _ (fun _ ks l => filling ex lg Hs n name idx ks l /\ Forall kv_key ks /\ NoDup ks));
    [|done|by split_and!].
  clear l keys Hfill Hkeys Hnd. intros [] ks l (Hfill & Hks & Hnd). pose proof Hfill as (Hr & _).
  eapply wp_mono; [eapply blind_wp; [apply blind_list_next|by eapply list_next_loop_ok]|]. cbv beta.
  intros r l1 [[Hr1 Hres] Hsame]. pose proof (filling_same _ _ _ _ _ _ _ _ _ Hfill Hsame Hr1) as Hfill1.
  assert (forall k, k ∈ ks -> forall q, current (Hs name k) = Some q -> (k, q) ∈ hits (reads v server name) Hs name doc_null ks) as Hin.
  { intros k Hk q Hq. apply list_elem_of_omap. exists k. split; [done|]. by rewrite hit_all, Hq. }
  destruct (hits (reads v server name) Hs name doc_null ks) as [|[key [e h]] hs] eqn:Eh.
  - subst r. unfold by_event. cbn. eapply filling_done.
    destruct Hfill1 as (? & ? & c & x & es & room & ? & ? & ? & ? & Hcomp). split_and!; [done..|].
    exists c, x, es, room. split_and!; [done..|cbn; lia|]. intros k e1 h doc hash _ Hcur.
    destruct (decide (k ∈ ks)) as [Hk|Hk]; [|by eapply Hcomp]. by specialize (Hin k Hk _ Hcur) as []%elem_of_nil.
  - destruct Hres as (rest & -> & He & Hv & Hhs & skipped & Hsk). unfold by_event. rewrite He. split.
    { rewrite Hsk, length_app. cbn. lia. }
    assert (current (Hs name key) = Some (e, h)) as Hcur.
    { assert ((key, (e, h)) ∈ hits (reads v server name) Hs name doc_null ks) as Hkh by (rewrite Eh; left).
      apply list_elem_of_omap in Hkh as (k & _ & (q & Hq & [= <- <-])%fmap_Some). by rewrite hit_all in Hq. }
    apply wp_bind. unfold ev_value, lift_res, wp at 1. rewrite Hv. apply wp_bind.
    rewrite Hsk in Hks, Hnd. apply Forall_app in Hks as [_ Hks]. apply Forall_cons in Hks as [Hk Hks].
    apply NoDup_app in Hnd as (_ & Hnd1 & Hnd2). apply NoDup_cons in Hnd2 as [_ Hnd2].
    eapply wp_mono; [eapply filling_step; [done|done|exact Hsk|done| |done|done]|].
    + intros k Hk'. destruct (current (Hs name k)) as [q|] eqn:Eq; [|done].
      assert (k ∈ ks) as Hin' by (rewrite Hsk; apply elem_of_app; by left).
      specialize (Hin k Hin' q Eq). destruct (Hnd1 k Hk').
      apply elem_of_cons in Hin as [[= -> _]|Hin]; [left|right]. rewrite <-Hhs in Hin.
      apply list_elem_of_omap in Hin as (k' & ? & (? & _ & [= <- _])%fmap_Some). done.
    + cbv beta. intros _ l2 Hf2. apply wp_ret. by split_and!.
Qed.

Lemma create_index_ok ex l lg Hs n v name idx paths :
  rep ex l lg Hs n -> 0 <= n -> ix_usable paths -> Hs name EmptyString = [] ->
  decides room0 cap run_program Hs v -> all_readable v Hs name ->
  wp (create_index new_primary new_index run_program fuel server name idx paths) (fun _ l' => rep ex l' lg Hs n) l.
Proof.
  intros Hr Hn Hu Hne Hdec Hall. unfold create_index. apply wp_bind.
  eapply wp_mono; [by eapply create_collection_ok|]. cbv beta. intros c l1 (Hr1 & Hc1 & _).
  destruct (col_indexes c !! idx) eqn:Hidx; [by apply wp_ret|].
  destruct (new_index_rep idx paths Hu) as (x & Ex & Hrep). apply wp_bind. rewrite Ex. unfold lift_res, wp at 1.
  apply wp_bind. unfold put_collection at 1. apply wp_modify.
  set (c2 := mkCollection _ _ _). set (l2 := set_cols _ _).
  assert (strip l2 = strip l1) as Es by (by eapply strip_insert).
  assert (forall name' c' idx' x', l_cols l2 !! name' = Some c' -> col_indexes c' !! idx' = Some x' ->
    (name', idx') <> (name, idx) -> index_ok n (Hs name') x') as Hoth.
  { intros name' c' idx' x'. cbn. pose proof (lr_cols _ _ _ _ _ _ _ Hr1 name') as Hcol.
    rewrite lookup_insert_Some. intros [[<- <-]|[Hname Hc']].
    - cbn. rewrite lookup_insert_Some. intros [[<- <-]|[_ Hx']]; [done|]. rewrite Hc1 in Hcol. by intros _; apply Hcol in Hx'.
    - rewrite Hc' in Hcol. intros Hx' _. by apply Hcol in Hx'. }
  apply wp_bind. pose proof (rep_strip _ _ _ _ _ Hr1) as Hrs. rewrite <-Es in Hrs.
  eapply wp_mono.
  { eapply blind_wp; [apply blind_primary|]. eapply primary_keys_ok; [exact Hrs|].
    cbn. rewrite fmap_insert, lookup_insert_eq. done. }
  cbv beta. intros keys l3 ((Hr3 & Hnd & Hwf & Hks & _) & Hsame). apply wp_bind.
  eapply wp_mono; [eapply fill_ok; try done|cbv beta; intros; by apply wp_ret].
  split_and!; [done| |].
  - intros name' c' idx' x' Hc' Hx' Hd. destruct (same_cols_lookup _ _ _ _ Hsame Hc') as (c0 & Hc0 & E).
    rewrite <-E in Hx'. by eapply Hoth.
  - specialize (Hsame name). cbn in Hsame. rewrite lookup_insert_eq in Hsame.
    destruct (l_cols l3 !! name) as [c3|] eqn:Hc3; [|done]. injection Hsame as E. cbn in E.
    exists c3, x, [], (2 * room0). rewrite E, lookup_insert_eq. split_and!; [done..| |].
    + destruct (lr_keys _ _ _ _ _ _ _ Hr3 name) as (ks & Hk1 & Hk2).
      assert (length keys <= length ks)%nat; [|lia].
      apply submseteq_length, NoDup_submseteq; [done|]. intros k Hk. by apply Hk1, Hks.
    + intros key e h doc hash Hk Hcur. destruct Hk. apply Hks. intros E'. by rewrite E' in Hcur.
Qed.

Lemma drop_index_ok ex l lg Hs n name idx :
  rep ex l lg Hs n -> is_Some (l_cols l !! name) ->
  wp (drop_index new_primary name idx) (fun _ l' => rep ex l' lg Hs n) l.
Proof.
  intros Hr [c Hc]. unfold drop_index. apply wp_bind. eapply get_collection_ok; [done|].
  destruct (col_indexes c !! idx) as [x|] eqn:Hx; [|by apply wp_ret]. apply wp_bind.
  pose proof (lr_cols _ _ _ _ _ _ _ Hr name) as Hcol. rewrite Hc in Hcol. destruct Hcol as [Hprim Hix].
  destruct (Hix idx x Hx) as (es & room & Hrep & _). eapply on_index_run; [done|done|].
  eapply wp_mono; [by eapply ix_clear_spec|]. cbv beta. intros _ x' _. apply wp_bind.
  eapply get_collection_ok; [cbn; by rewrite lookup_insert_eq|]. apply wp_bind. unfold put_collection.
  apply wp_modify, wp_ret. cbn. unfold set_cols. cbn. rewrite insert_insert_eq.
  eapply (ledger_rep_col _ _ _ _ _ _ _ _ c); [done|done|]. split; [done|]. cbn. rewrite delete_insert_eq.
  intros idx' y [_ Hy]%lookup_delete_Some. by apply (Hix idx' y).
Qed.
End FindSpec.
