(* ===== verification/Transaction.v ===== *)
(** * Transactions

    Models [src/enclave/op_info.h], [op_info.cpp], [Transaction.h],
    [Transaction.cpp], [TransactionManager.cpp] and the local path of
    [TransactionExecutor.cpp] and [TransactionProxy.cpp]: a client has executed
    operations and sends them with what it has read; the server locks their
    shards, checks the reads again and applies the writes.

    A transaction holds the locks of its shards through a handle without a parent
    ([LockHandle.v]).  Taking the lock of such a shard again only counts, and the
    counts are dropped with the handle, so that the reads and writes of those
    shards have no lock step here; the steps that are written out are the ones that
    can meet the lock of another holder.  The signature of a witness is not
    modelled. *)

From S2P Require Import Prelude EventId Keys Bitstream Block PageStore Hash HashMap RWLock LockHandle Json Index.
From S2P Require Import Identity ObjectEvent Shard TransactionLedger Ledger Find.

Inductive IsolationLevel : Type := ReadCommitted | RepeatableRead | Serializable.
Inductive TransactionState : Type := TxPending | TxPrepared | TxCommitted | TxAborted.

#[global] Instance IsolationLevel_eq_dec : EqDecision IsolationLevel.
Proof. solve_decision. Defined.
#[global] Instance TransactionState_eq_dec : EqDecision TransactionState.
Proof. solve_decision. Defined.

(** The subclasses of [operation_info_t] *)
Inductive operation_info (D : Type) : Type :=
  | CheckInfo (collection key : string) (predicates : D) (result : bool)
  | HasInfo (collection key : string) (result : bool)
  | GetInfo (collection key : string) (eid : event_id_t)
  | PutInfo (collection key : string) (doc : D)
  | AddInfo (collection key : string) (doc : D)
  | RemoveInfo (collection key : string)
  | FindInfo (collection : string) (predicates : D) (projection : list string) (limit : Z)
      (results : list (string * event_id_t)).
Arguments CheckInfo {D}.
Arguments HasInfo {D}.
Arguments GetInfo {D}.
Arguments PutInfo {D}.
Arguments AddInfo {D}.
Arguments RemoveInfo {D}.
Arguments FindInfo {D}.

Record transaction (D : Type) : Type := mkTx {
  tx_isolation : IsolationLevel;
  tx_op_contexts : gmap Z OpContext;
  tx_handle : handle;
  tx_lock_types : gmap Z LockType;
  tx_error : string;
  tx_root : Z;
  tx_identifier : Z;
  tx_is_remote : bool;
  tx_ops : list (Z * operation_info D);
  tx_state : TransactionState;
  tx_writer : list D;
}.
Arguments mkTx {D}.
Arguments tx_isolation {D}.
Arguments tx_op_contexts {D}.
Arguments tx_handle {D}.
Arguments tx_lock_types {D}.
Arguments tx_error {D}.
Arguments tx_root {D}.
Arguments tx_identifier {D}.
Arguments tx_is_remote {D}.
Arguments tx_ops {D}.
Arguments tx_state {D}.
Arguments tx_writer {D}.

(** What the transactions share: the ledgers, the locks of the shards, and the
    transactions that the manager knows *)
Record tx_env (S M X S2 : Type) : Type := mkEnv {
  en_ledger : ledger S M X;
  en_locks : counts;
  en_txs : txledger S2;
  en_active : gset (Z * Z);
  en_next_id : Z;
}.
Arguments mkEnv {S M X S2}.
Arguments en_ledger {S M X S2}.
Arguments en_locks {S M X S2}.
Arguments en_txs {S M X S2}.
Arguments en_active {S M X S2}.
Arguments en_next_id {S M X S2}.

(** [set::erase]: everything that is neither less nor greater goes. *)
Definition std_set_erase (e : event_id_t) (s : list event_id_t) : nat * list event_id_t :=
  let s' := filter (fun x => event_ltb x e || event_ltb e x) s in
  ((length s - length s')%nat, s').

Section Transaction.
Context {B : Type} `{Bitstream B} {S : Type} `{PageStore S (Block B)} {S2 : Type} `{PageStore S2 (Block B)}.
Context {M : Type} `{KVMap M string event_id_t} {D : Type} `{Json D} {X : Type} `{Index X D}.
Variables (padding : Z) (new_primary : M).
Variable run_program : ledger S M X -> D -> OpContext -> string -> string -> string -> OperationType -> bool.
Variable fuel : nat.

Abbreviation env := (tx_env S M X S2).
Abbreviation tx := (transaction D).
Abbreviation T := (ST (tx * env)).
Implicit Types (t : tx) (e : env).

(** ** Parts of the state *)

Definition set_ledger (l : ledger S M X) e : env := mkEnv l (en_locks e) (en_txs e) (en_active e) (en_next_id e).
Definition set_locks (cs : counts) e : env := mkEnv (en_ledger e) cs (en_txs e) (en_active e) (en_next_id e).
Definition set_txs (x : txledger S2) e : env := mkEnv (en_ledger e) (en_locks e) x (en_active e) (en_next_id e).
Definition set_active (a : gset (Z * Z)) e : env := mkEnv (en_ledger e) (en_locks e) (en_txs e) a (en_next_id e).

Definition set_handle (h : handle) t : tx :=
  mkTx (tx_isolation t) (tx_op_contexts t) h (tx_lock_types t) (tx_error t) (tx_root t) (tx_identifier t)
    (tx_is_remote t) (tx_ops t) (tx_state t) (tx_writer t).
Definition set_lock_types (ls : gmap Z LockType) t : tx :=
  mkTx (tx_isolation t) (tx_op_contexts t) (tx_handle t) ls (tx_error t) (tx_root t) (tx_identifier t)
    (tx_is_remote t) (tx_ops t) (tx_state t) (tx_writer t).
Definition set_tx_error (error : string) t : tx :=
  mkTx (tx_isolation t) (tx_op_contexts t) (tx_handle t) (tx_lock_types t) error (tx_root t) (tx_identifier t)
    (tx_is_remote t) (tx_ops t) (tx_state t) (tx_writer t).
Definition set_ops (ops : list (Z * operation_info D)) t : tx :=
  mkTx (tx_isolation t) (tx_op_contexts t) (tx_handle t) (tx_lock_types t) (tx_error t) (tx_root t) (tx_identifier t)
    (tx_is_remote t) ops (tx_state t) (tx_writer t).
Definition set_state (s : TransactionState) t : tx :=
  mkTx (tx_isolation t) (tx_op_contexts t) (tx_handle t) (tx_lock_types t) (tx_error t) (tx_root t) (tx_identifier t)
    (tx_is_remote t) (tx_ops t) s (tx_writer t).
Definition set_writer (w : list D) t : tx :=
  mkTx (tx_isolation t) (tx_op_contexts t) (tx_handle t) (tx_lock_types t) (tx_error t) (tx_root t) (tx_identifier t)
    (tx_is_remote t) (tx_ops t) (tx_state t) w.
Definition set_contexts (cs : gmap Z OpContext) t : tx :=
  mkTx (tx_isolation t) cs (tx_handle t) (tx_lock_types t) (tx_error t) (tx_root t) (tx_identifier t)
    (tx_is_remote t) (tx_ops t) (tx_state t) (tx_writer t).

Definition get_tx : T tx := s ← get_st; mret s.1.
Definition update_tx (f : tx -> tx) : T unit := modify_st (fun s => (f s.1, s.2)).
Definition on_ledger {A} (m : ST (ledger S M X) A) : T A :=
  zoom (fun s : tx * env => en_ledger s.2) (fun l s => (s.1, set_ledger l s.2)) m.
Definition on_txledger {A} (m : ST (txledger S2) A) : T A :=
  zoom (fun s : tx * env => en_txs s.2) (fun x s => (s.1, set_txs x s.2)) m.

Definition set_error (error : string) : T unit := update_tx (set_tx_error error).

(** An operation on the transaction's handle and the locks *)
Definition on_locks (m : list handle -> counts -> result unit * lh_state) : T unit := fun '(t, e) =>
  let '(r, (chain, cs)) := m [tx_handle t] (en_locks e) in
  match chain with
  | [h] => (r, (set_handle h t, set_locks cs e))
  | _ => (Throw (Undefined "not a handle without parent"), (t, e))
  end.

(** A handle with the transaction's one as parent that reads an object of the shard
    and is destroyed *)
Definition child_read (shard : Z) (chain : list handle) (cs : counts) : result unit * lh_state :=
  let '(r, (chain, cs)) := get_shard shard LRead false (LockHandle_new false :: chain) cs in
  let '(r', (chain, cs)) := LockHandle_clear chain cs in
  (match r with Ok _ => r' | Throw x => Throw x end, (drop 1 chain, cs)).

(** A handle of its own, which blocks, that does the same *)
Definition free_read (shard : Z) : T unit := fun '(t, e) =>
  let '(r, (chain, cs)) := get_shard shard LRead false [LockHandle_new false] (en_locks e) in
  let '(r', (_, cs)) := LockHandle_clear chain cs in
  (match r with Ok _ => r' | Throw x => Throw x end, (t, set_locks cs e)).

(** ** Registering operations *)

Definition set_read_lock (sid : Z) t : tx :=
  match tx_lock_types t !! sid with
  | Some _ => t
  | None => set_lock_types (<[sid := LRead]> (tx_lock_types t)) t
  end.
Definition set_write_lock (sid : Z) t : tx := set_lock_types (<[sid := LWrite]> (tx_lock_types t)) t.

(** [operation_info_t::get_shard] *)
Definition op_shard (collection full_path : string) : Z := shard_of_key collection (parse_path full_path).1.

Definition collect_shard_lock_type (op : operation_info D) t : tx :=
  match op with
  | CheckInfo c k _ _ | HasInfo c k _ | GetInfo c k _ => set_read_lock (op_shard c k) t
  | PutInfo c k _ | AddInfo c k _ => set_write_lock (op_shard c k) t
  | RemoveInfo c k => set_write_lock (shard_of_key c k) t
  | FindInfo c _ _ _ results =>
      if decide (tx_isolation t = Serializable) then fold_left (fun t i => set_read_lock i t) (seqZ 0 NUM_SHARDS_LEDGER) t
      else fold_left (fun t '(key, _) => set_read_lock (shard_of_key c key) t) results t
  end.

Definition register_operation (op : Z * operation_info D) t : tx :=
  collect_shard_lock_type op.2 (set_ops (tx_ops t ++ [op]) t).

Definition init_task (task : Z) (context : OpContext) t : tx := set_contexts (emplace task context (tx_op_contexts t)) t.

(** ** [TransactionManager] *)

Definition new_transaction (isolation : IsolationLevel) (root id : Z) (is_remote : bool) : tx :=
  mkTx isolation ∅ (LockHandle_new true) ∅ EmptyString root id is_remote [] TxPending [].

Definition init_local_transaction (uid : Z) (isolation : IsolationLevel) : ST env tx := fun e =>
  let lid := en_next_id e in
  (Ok (new_transaction isolation uid lid false),
   mkEnv (en_ledger e) (en_locks e) (en_txs e) ({[(uid, lid)]} ∪ en_active e) (u32 (lid + 1))).

Definition remove_transaction : T unit := fun '(t, e) =>
  if decide ((tx_root t, tx_identifier t) ∈ en_active e)
  then (Ok tt, (t, set_active (en_active e ∖ {[(tx_root t, tx_identifier t)]}) e))
  else (Throw (Runtime_error "Cannot remove; no such transaction!"), (t, e)).

(** [None] is the transaction that is already there.  [known] tells whether the
    identity database has the root. *)
Definition init_remote_transaction (known : bool) (root id : Z) (isolation : IsolationLevel) : ST env (option tx) := fun e =>
  if decide ((root, id) ∈ en_active e) then (Ok None, e)
  else if negb known then (Throw (Runtime_error "Invalid transaction root"), e)
  else (Ok (Some (new_transaction isolation root id true)), set_active ({[(root, id)]} ∪ en_active e) e).

(** ** Checking the reads *)

Definition get_op_context (task : Z) : T OpContext :=
  t ← get_tx;
  match tx_op_contexts t !! task with
  | Some c => mret c
  | None => throw (Runtime_error "No such op context!")
  end.

(** Appends a document to the witness *)
Definition write_witness (generate_witness : bool) (doc : D) : T unit :=
  if generate_witness then update_tx (fun t => set_writer (tx_writer t ++ [doc]) t) else mret tt.

Definition event_fields (eid : event_id_t) : list (string * D) :=
  [("shard"%string, doc_int (ev_shard eid)); ("block"%string, doc_int (ev_block eid));
   ("index"%string, doc_int (ev_index eid))].

(** The entry that is written for [HasObject] and for [CheckObject] *)
Definition has_doc (key : string) (result : bool) : D :=
  doc_map [("type"%string, doc_str "HasObject"); ("key"%string, doc_str key); ("result"%string, doc_bool result)].

Definition found_doc (key : string) (eid : event_id_t) (value : D) : D :=
  doc_map (("key"%string, doc_str key) :: event_fields eid ++ [("content"%string, value)]).

Definition find_doc (collection : string) (predicates : D) (projection : list string) (limit : Z) (results : list D) : D :=
  doc_map [("type"%string, doc_str "FindObjects"); ("collection"%string, doc_str collection);
           ("predicates"%string, predicates); ("projection"%string, doc_array (doc_str <$> projection));
           ("limit"%string, doc_int limit); ("results"%string, doc_array results)].

Definition check_repeatable_read (collection full_path : string) (expected_eid : event_id_t) (task : Z) : T (bool * D) :=
  let key := (parse_path full_path).1 in
  ctx ← get_op_context task;
  '((latest_eid, obj) : event_id_t * D) ←
    on_ledger (get_latest_version new_primary run_program fuel ctx collection key EmptyString GetObject);
  if negb (handle_valid obj) || negb (event_eqb latest_eid expected_eid) then
    _ ← set_error ("Non-repeatable read: key [" ++ key ++ "] reads outdated value");
    mret (false, obj)
  else mret (true, obj).

(** The lock of the collection's policy object, which [check_collection_policy] reads *)
Definition policy_lock ctx (collection : string) : T unit :=
  if negb (ctx_valid ctx) then mret tt
  else
    '((eid, _) : event_id_t * D) ← on_ledger (get_latest_event new_primary collection "policy");
    if event_is_valid eid then on_locks (child_read (ev_shard eid)) else mret tt.

Definition validate_write (collection key path : string) (op_type : OperationType) (task : Z) : T bool :=
  ctx ← get_op_context task;
  _ ← (if is_valid_key key then policy_lock ctx collection else mret tt);
  res ← on_ledger (prepare_write new_primary run_program fuel ctx collection key path op_type);
  _ ← (if res : bool then mret tt else set_error "Failed to prepare write");
  mret res.

Fixpoint validate_no_dirty_read (collection : string) (task : Z) (results : list (string * event_id_t)) (acc : list D) :
    T (option (list D)) :=
  match results with
  | [] => mret (Some acc)
  | (key, eid) :: results =>
      ctx ← get_op_context task;
      '((_, hdl) : event_id_t * D) ←
        on_ledger (get_latest_version new_primary run_program fuel ctx collection key EmptyString GetObject);
      if negb (handle_valid hdl) then
        _ ← set_error ("Dirty read: key [" ++ key ++ "] reads outdated value"); mret None
      else
        value ← lift_res (ev_value hdl);
        validate_no_dirty_read collection task results (acc ++ [found_doc key eid value])
  end.

Fixpoint validate_repeatable_read (collection : string) (task : Z) (results : list (string * event_id_t)) (acc : list D) :
    T (option (list D)) :=
  match results with
  | [] => mret (Some acc)
  | (key, eid) :: results =>
      '((ok, obj) : bool * D) ← check_repeatable_read collection key eid task;
      if negb ok then mret None
      else
        value ← lift_res (ev_value obj);
        validate_repeatable_read collection task results (acc ++ [found_doc key eid value])
  end.

(** One object of the query that is run again; the loop ends at one that was not
    among the results *)
Definition phantom_step (projection : list string) (acc : option string * list event_id_t * list D) (eid : event_id_t)
    (key : string) (hdl : D) :
    ST (ledger S M X) ((option string * list event_id_t * list D) + (option string * list event_id_t * list D)) :=
  let '(_, eids, docs) := acc in
  let '(cnt, eids') := std_set_erase eid eids in
  if (cnt =? 0)%nat then mret (inr (Some key, eids', docs))
  else
    value ← lift_res (ev_value hdl);
    let value := if decide (projection = []) then value else doc_view value projection in
    mret (inl (None, eids', docs ++ [found_doc key eid value])).

Definition validate_no_phantom (collection : string) (predicates : D) (projection : list string) (task : Z)
    (results : list (string * event_id_t)) : T (option (list D)) :=
  let eids := std_set_of_list (snd <$> results) in
  ctx ← get_op_context task;
  it ← on_ledger (Ledger_find new_primary ctx collection predicates);
  '((phantom, eids, docs) : option string * list event_id_t * list D) ←
    on_ledger (for_objects new_primary run_program fuel by_handle (phantom_step projection) (None, eids, []) it);
  match phantom with
  | Some key => _ ← set_error ("Phantom read: key=" ++ key); mret None
  | None =>
      if decide (eids = []) then mret (Some docs)
      else _ ← set_error "Phantom read: too few results"; mret None
  end.

Definition validate (generate_witness : bool) (op : Z * operation_info D) : T bool :=
  let task := op.1 in
  match op.2 with
  | CheckInfo collection key predicates result =>
      ctx ← get_op_context task;
      '((eid, _) : event_id_t * D) ← on_ledger (get_latest_event new_primary collection key);
      _ ← (if event_is_valid eid then free_read (ev_shard eid) else mret tt);
      res ← on_ledger (check new_primary run_program fuel (fun d => matches_predicates d predicates) ctx collection key EmptyString);
      if negb (Bool.eqb res result) then
        _ ← set_error ("check object [" ++ key ++ "] reads outdated value"); mret false
      else _ ← write_witness generate_witness (has_doc key result); mret true
  | HasInfo collection key result =>
      res ← on_ledger (has_object new_primary collection key);
      if negb (Bool.eqb res result) then
        _ ← set_error ("has object [" ++ key ++ "] reads outdated value"); mret false
      else _ ← write_witness generate_witness (has_doc key result); mret true
  | GetInfo collection key eid =>
      t ← get_tx;
      '((ok, obj) : bool * D) ←
        (if negb (bool_decide (tx_isolation t = ReadCommitted)) then check_repeatable_read collection key eid task
         else
           ctx ← get_op_context task;
           '((_, obj) : event_id_t * D) ←
             on_ledger (get_latest_version new_primary run_program fuel ctx collection key EmptyString GetObject);
           mret (handle_valid obj, obj));
      if negb ok then mret false
      else
        value ← lift_res (ev_value obj);
        _ ← write_witness generate_witness (doc_map ([("type"%string, doc_str "GetObject"); ("key"%string, doc_str key)] ++
              event_fields eid ++ [("content"%string, value)]));
        mret true
  | PutInfo collection full_path _ =>
      let '(key, path) := parse_path full_path in validate_write collection key path PutObject task
  | AddInfo collection full_path _ =>
      let '(key, path) := parse_path full_path in validate_write collection key path AddToObject task
  | RemoveInfo collection key => validate_write collection key EmptyString RemoveObject task
  | FindInfo collection predicates projection limit results =>
      t ← get_tx;
      docs ← (match tx_isolation t with
              | ReadCommitted => validate_no_dirty_read collection task results []
              | RepeatableRead => validate_repeatable_read collection task results []
              | Serializable => validate_no_phantom collection predicates projection task results
              end);
      match docs with
      | None => mret false
      | Some docs =>
          _ ← write_witness generate_witness (find_doc collection predicates projection limit docs); mret true
      end
  end.

Fixpoint validate_all (generate_witness : bool) (ops : list (Z * operation_info D)) : T bool :=
  match ops with
  | [] => mret true
  | op :: ops =>
      ok ← validate generate_witness op;
      if ok : bool then validate_all generate_witness ops else mret false
  end.

(** ** Committing *)

Fixpoint organize_shards (shards : list (Z * LockType)) : T unit :=
  match shards with
  | [] => mret tt
  | (shard, LWrite) :: shards =>
      _ ← on_ledger (on_shards (organize_ledger padding shard)); organize_shards shards
  | (_, LRead) :: shards => organize_shards shards
  end.

Definition cleanup : T unit :=
  t ← get_tx;
  _ ← (if decide (tx_state t = TxCommitted) then organize_shards (sorted_entries (tx_lock_types t)) else mret tt);
  _ ← on_locks LockHandle_clear;
  _ ← update_tx (set_ops []);
  remove_transaction.

Definition abort : T unit :=
  t ← get_tx;
  match tx_state t with
  | TxAborted => mret tt
  | TxPending | TxPrepared => _ ← update_tx (set_state TxAborted); cleanup
  | TxCommitted => throw (Runtime_error "Cannot abort transaction: invalid state!")
  end.

Fixpoint lock_all (shards : list (Z * LockType)) : T unit :=
  match shards with
  | [] => mret tt
  | (shard, lock_type) :: shards => _ ← on_locks (get_shard shard lock_type false); lock_all shards
  end.

(** [try { m } catch(const would_block_exception &)]: whether it was thrown *)
Definition catch_would_block {A} (m : T A) : T bool := fun s =>
  match m s with
  | (Ok _, s) => (Ok false, s)
  | (Throw Would_block, s) => (Ok true, s)
  | (Throw x, s) => (Throw x, s)
  end.

Definition prepare (generate_witness : bool) : T bool :=
  t ← get_tx;
  if negb (bool_decide (tx_state t = TxPending)) then throw (Runtime_error "Cannot prepare: invalid state")
  else
    contention ← catch_would_block (lock_all (sorted_entries (tx_lock_types t)));
    if contention : bool then _ ← set_error "Lock contention"; _ ← abort; mret false
    else
      result ← validate_all generate_witness (tx_ops t);
      _ ← (if result : bool then update_tx (set_state TxPrepared) else abort);
      mret result.

Definition extract_reads (op : Z * operation_info D) (read_set : list event_id_t) : list event_id_t :=
  match op.2 with
  | GetInfo _ _ eid => std_set_insert eid read_set
  | FindInfo _ _ _ _ results => fold_left (fun s eid => std_set_insert eid s) (snd <$> results) read_set
  | _ => read_set
  end.

(** The shard a write operation writes to *)
Definition write_shard (op : operation_info D) : option Z :=
  match op with
  | PutInfo c k _ | AddInfo c k _ => Some (op_shard c k)
  | RemoveInfo c k => Some (shard_of_key c k)
  | _ => None
  end.

Definition extract_writes (op : Z * operation_info D) (write_shards : list Z) : list Z :=
  match write_shard op.2 with
  | Some sid => alter (fun n => u16 (n + 1)) (Z.to_nat sid) write_shards
  | None => write_shards
  end.

(** [num_entries()] is the position after the next one; see [Block.v]. *)
Definition get_next_event_ids (shard num : Z) (out : list event_id_t) : ST (shards S) (list event_id_t) :=
  '((pid, pending) : Z * Block B) ← Shard_get_pending_block shard;
  let pos := Block_num_entries pending in
  mret (fold_left (fun s i => std_set_insert (EventId shard pid (u16 (pos + i))) s) (seqZ 0 num) out).

Fixpoint next_event_ids (write_shards : list (Z * Z)) (out : list event_id_t) : ST (shards S) (list event_id_t) :=
  match write_shards with
  | [] => mret out
  | (shard, num) :: write_shards =>
      out ← (if 0 <? num then get_next_event_ids shard num out else mret out);
      next_event_ids write_shards out
  end.

Definition do_write (transaction_ref : ledger_pos_t) (generate_witness : bool) (op : Z * operation_info D) : T unit :=
  let task := op.1 in
  let apply key doc path op_type c :=
    ctx ← get_op_context task;
    on_ledger (apply_write padding new_primary run_program fuel ctx c key doc path true op_type transaction_ref) in
  match op.2 with
  | PutInfo collection full_path doc =>
      let '(key, path) := parse_path full_path in
      new_eid ← apply key doc path PutObject collection;
      write_witness (event_is_valid new_eid && generate_witness)
        (doc_map ([("type"%string, doc_str "PutObject"); ("collection"%string, doc_str collection);
          ("key"%string, doc_str full_path)] ++ event_fields new_eid ++ [("content"%string, doc)]))
  | AddInfo collection full_path doc =>
      let '(key, path) := parse_path full_path in
      new_eid ← apply key doc path AddToObject collection;
      write_witness generate_witness
        (doc_map ([("type"%string, doc_str "AddObject"); ("key"%string, doc_str full_path)] ++ event_fields new_eid ++
          [("content"%string, doc)]))
  | RemoveInfo collection key =>
      new_eid ← apply key doc_null EmptyString RemoveObject collection;
      write_witness generate_witness
        (doc_map ([("type"%string, doc_str "RemoveObject"); ("key"%string, doc_str key)] ++ event_fields new_eid))
  | _ => mret tt
  end.

Fixpoint do_writes (transaction_ref : ledger_pos_t) (generate_witness : bool) (ops : list (Z * operation_info D)) : T unit :=
  match ops with
  | [] => mret tt
  | op :: ops => _ ← do_write transaction_ref generate_witness op; do_writes transaction_ref generate_witness ops
  end.

Definition isolation_name (i : IsolationLevel) : string :=
  match i with
  | ReadCommitted => "ReadCommitted" | RepeatableRead => "RepeatableRead" | Serializable => "Serializable"
  end.

Definition witness_doc t : D :=
  doc_map [("isolation"%string, doc_str (isolation_name (tx_isolation t))); ("operations"%string, doc_array (tx_writer t))].

(** The document of the witness, if one is asked for *)
Definition commit (generate_witness : bool) : T (option D) :=
  t ← get_tx;
  if negb (bool_decide (tx_state t = TxPrepared)) then throw (Runtime_error "Cannot commit: invalid state")
  else
    let read_set := fold_left (fun s op => extract_reads op s) (tx_ops t) [] in
    let write_shards := fold_left (fun s op => extract_writes op s) (tx_ops t) (replicate (Z.to_nat NUM_SHARDS_LEDGER) 0) in
    write_set ← on_ledger (on_shards (next_event_ids (zip (seqZ 0 NUM_SHARDS_LEDGER) write_shards) []));
    transaction_ref ← on_txledger (TransactionLedger_insert (D := D) padding
      (mkTxEntry (tx_op_contexts t) (tx_root t) (tx_identifier t) (mkOpSet read_set write_set) ∅));
    _ ← do_writes transaction_ref generate_witness (tx_ops t);
    t ← get_tx;
    let witness := if generate_witness then Some (witness_doc t) else None in
    _ ← update_tx (set_state TxCommitted);
    _ ← cleanup;
    mret witness.

(** ** [TransactionExecutor] and [TransactionProxy], for a transaction without children *)

Definition executor_abort : T unit :=
  t ← get_tx;
  if tx_is_remote t then throw (Runtime_error "Cannot abort remote transaction") else abort.

Definition phase_one (generate_witness : bool) : T bool :=
  t ← get_tx;
  if tx_is_remote t then throw (Runtime_error "Cannot commit remote transaction")
  else
    success ← prepare generate_witness;
    _ ← (if success : bool then mret tt else executor_abort);
    mret success.

Definition phase_two (generate_witness : bool) : T (option D) :=
  t ← get_tx;
  if tx_is_remote t then throw (Fatal "Invalid state: Cannot commit remote transaction") else commit generate_witness.

(** The answer to the client: the error, or the witness *)
Definition proxy_work (generate_witness : bool) : T (string + option D) :=
  success ← phase_one generate_witness;
  if success : bool then witness ← phase_two generate_witness; mret (inr witness)
  else t ← get_tx; mret (inl (tx_error t)).

(** [ExecuteTransaction]: the operations of the request are registered and run. *)
Definition execute_transaction (uid task : Z) ctx (isolation : IsolationLevel) (generate_witness : bool)
    (ops : list (operation_info D)) : ST env (string + option D) := fun e =>
  match init_local_transaction uid isolation e with
  | (Ok t, e) =>
      let t := fold_left (fun t op => register_operation (task, op) t) ops (init_task task ctx t) in
      let '(r, (_, e)) := proxy_work generate_witness (t, e) in (r, e)
  | (Throw x, e) => (Throw x, e)
  end.

End Transaction.
