(* ===== verification/TwoPhase.v ===== *)
(** * Two-phase commit

    The life of a [Transaction] ([src/enclave/Transaction.cpp]), and the protocol
    that [TransactionExecutor.cpp] runs over the handlers of [TransactionPrepare],
    [TransactionAbort] and [TransactionCommit] in [RemoteParty.cpp] when a transaction
    has called programs on other servers: the executor asks every child to prepare,
    prepares its own part, and has everybody commit or abort.  What an exception leaves
    behind is cleaned up by the transaction object of the program
    ([bindings/Transaction.cpp]). *)

From stdpp Require Import functions.
From S2P Require Import Prelude EventId Keys Bitstream Block PageStore Hash HashMap RWLock LockHandle Json Index.
From S2P Require Import Identity ObjectEvent Shard TransactionLedger Ledger Find Transaction.

(** ** The states of a transaction *)

Inductive prepare_step : TransactionState -> result bool -> TransactionState -> Prop :=
  | prepare_yes : prepare_step TxPending (Ok true) TxPrepared
  | prepare_no : prepare_step TxPending (Ok false) TxAborted
  | prepare_throws x : prepare_step TxPending (Throw x) TxPending
  | prepare_cleanup_throws x : prepare_step TxPending (Throw x) TxAborted
  | prepare_invalid st : st <> TxPending -> prepare_step st (Throw (Runtime_error "Cannot prepare: invalid state")) st.

Inductive commit_step {W} : TransactionState -> result W -> TransactionState -> Prop :=
  | commit_yes w : commit_step TxPrepared (Ok w) TxCommitted
  | commit_throws x : commit_step TxPrepared (Throw x) TxPrepared
  | commit_cleanup_throws x : commit_step TxPrepared (Throw x) TxCommitted
  | commit_invalid st : st <> TxPrepared -> commit_step st (Throw (Runtime_error "Cannot commit: invalid state")) st.

Inductive abort_step : TransactionState -> result unit -> TransactionState -> Prop :=
  | abort_again : abort_step TxAborted (Ok tt) TxAborted
  | abort_now st r : st = TxPending \/ st = TxPrepared -> abort_step st r TxAborted
  | abort_invalid : abort_step TxCommitted (Throw (Runtime_error "Cannot abort transaction: invalid state!")) TxCommitted.

Section Lifecycle.
Context {B : Type} `{Bitstream B} {S : Type} `{PageStore S (Block B)} {S2 : Type} `{PageStore S2 (Block B)}.
Context {M : Type} `{KVMap M string event_id_t} {D : Type} `{Json D} {X : Type} `{Index X D}.
Variables (padding : Z) (new_primary : M).
Variable run_program : ledger S M X -> D -> OpContext -> string -> string -> string -> OperationType -> bool.
Variable fuel : nat.

Abbreviation env := (tx_env S M X S2).
Abbreviation tx := (transaction D).
Abbreviation T := (ST (tx * env)).

(** Whatever comes of it, the state of the transaction stays. *)
Definition keeps {A} (m : T A) : Prop := forall s, tx_state (m s).2.1 = tx_state s.1.

Lemma keeps_bind {A C} (m : T A) (k : A -> T C) : keeps m -> (forall a, keeps (k a)) -> keeps (m ≫= k).
Proof.
  intros Hm Hk s. specialize (Hm s). unfold mbind, ST_bind. destruct (m s) as [[a|x] s1]; [|done].
  rewrite <-Hm. apply Hk.
Qed.

Lemma keeps_ret {A} (a : A) : keeps (mret a).
Proof. by intros s. Qed.

Lemma keeps_throw {A} x : keeps (throw x : T A).
Proof. by intros s. Qed.

Lemma keeps_lift {A} (r : result A) : keeps (lift_res r).
Proof. by intros s. Qed.

Lemma keeps_get : keeps get_tx.
Proof. by intros s. Qed.

Lemma keeps_update f : (forall t, tx_state (f t) = tx_state t) -> keeps (update_tx f).
Proof. intros Hf s. apply Hf. Qed.

Lemma keeps_ledger {A} (m : ST (ledger S M X) A) : keeps (on_ledger m).
Proof. intros [t e]. unfold on_ledger, zoom. by destruct (m _). Qed.

Lemma keeps_txledger {A} (m : ST (txledger S2) A) : keeps (on_txledger m).
Proof. intros [t e]. unfold on_txledger, zoom. by destruct (m _). Qed.

Lemma keeps_locks m : keeps (on_locks m).
Proof. intros [t e]. unfold on_locks. destruct (m _ _) as [r [[|h [|? ?]] cs]]; done. Qed.

Lemma keeps_free_read shard : keeps (free_read shard).
Proof. intros [t e]. unfold free_read. repeat case_match; done. Qed.

Lemma keeps_remove : keeps remove_transaction.
Proof. intros [t e]. unfold remove_transaction. by case_decide. Qed.

Lemma keeps_catch {A} (m : T A) : keeps m -> keeps (catch_would_block m).
Proof. intros Hm s. specialize (Hm s). unfold catch_would_block. destruct (m s) as [[a|[]] s1]; done. Qed.

Create HintDb tx_keeps.
#[local] Hint Resolve keeps_ret keeps_throw keeps_lift keeps_get keeps_ledger keeps_txledger keeps_locks keeps_free_read
  keeps_remove : tx_keeps.

Ltac keeps := repeat first
  [ progress intros | solve [auto with tx_keeps] | apply keeps_update; done | apply keeps_bind | case_match ].

Lemma keeps_error error : keeps (set_error error).
Proof. unfold set_error. keeps. Qed.

Lemma keeps_witness gw doc : keeps (write_witness gw doc).
Proof. unfold write_witness. keeps. Qed.

Lemma keeps_context task : keeps (get_op_context task).
Proof. unfold get_op_context. keeps. Qed.

#[local] Hint Resolve keeps_error keeps_witness keeps_context : tx_keeps.

Lemma keeps_repeatable collection key eid task : keeps (check_repeatable_read new_primary run_program fuel collection key eid task).
Proof. unfold check_repeatable_read. keeps. Qed.

Lemma keeps_validate_write collection key path op task : keeps (validate_write new_primary run_program fuel collection key path op task).
Proof. unfold validate_write, policy_lock. keeps. Qed.

#[local] Hint Resolve keeps_repeatable keeps_validate_write : tx_keeps.

Lemma keeps_dirty collection task results acc : keeps (validate_no_dirty_read new_primary run_program fuel collection task results acc).
Proof. revert acc. induction results as [|[key eid] results IH]; intros acc; cbn [validate_no_dirty_read]; keeps. Qed.

Lemma keeps_repeat collection task results acc : keeps (validate_repeatable_read new_primary run_program fuel collection task results acc).
Proof. revert acc. induction results as [|[key eid] results IH]; intros acc; cbn [validate_repeatable_read]; keeps. Qed.

Lemma keeps_phantom collection p projection task results :
  keeps (validate_no_phantom new_primary run_program fuel collection p projection task results).
Proof. unfold validate_no_phantom. keeps. Qed.

#[local] Hint Resolve keeps_dirty keeps_repeat keeps_phantom : tx_keeps.

Lemma keeps_validate gw op : keeps (validate new_primary run_program fuel gw op).
Proof. destruct op as [task op]. destruct op; cbn [validate fst snd]; keeps. Qed.

#[local] Hint Resolve keeps_validate : tx_keeps.

Lemma keeps_validate_all gw ops : keeps (validate_all new_primary run_program fuel gw ops).
Proof. induction ops as [|op ops IH]; cbn [validate_all]; keeps. Qed.

Lemma keeps_lock_all shards : keeps (lock_all shards).
Proof. induction shards as [|[shard ty] shards IH]; cbn [lock_all]; keeps. Qed.

Lemma keeps_organize shards : keeps (organize_shards padding shards).
Proof. induction shards as [|[shard []] shards IH]; cbn [organize_shards]; keeps. Qed.

Lemma keeps_do_writes tref gw ops : keeps (do_writes padding new_primary run_program fuel tref gw ops).
Proof.
  induction ops as [|[task op] ops IH]; cbn [do_writes]; keeps. destruct op; cbn [do_write fst snd]; keeps.
Qed.

#[local] Hint Resolve keeps_validate_all keeps_lock_all keeps_organize keeps_do_writes : tx_keeps.

Lemma keeps_cleanup : keeps (cleanup padding).
Proof. unfold cleanup. keeps. Qed.

#[local] Hint Resolve keeps_cleanup : tx_keeps.

(** What [m] leaves, by the result and the state of the transaction *)
Definition ends {A} (m : T A) s (P : result A -> TransactionState -> Prop) : Prop :=
  let '(r, s') := m s in P r (tx_state s'.1).

Lemma keeps_then {A C} (m : T A) (k : A -> T C) s P :
  keeps m -> (forall x, P (Throw x) (tx_state s.1)) ->
  (forall a s1, tx_state s1.1 = tx_state s.1 -> ends (k a) s1 P) -> ends (m ≫= k) s P.
Proof.
  intros Hm Hx Hk. specialize (Hm s). unfold ends, mbind, ST_bind. destruct (m s) as [[a|x] s1]; cbn [fst snd] in Hm.
  - by apply Hk.
  - rewrite Hm. apply Hx.
Qed.

Lemma keeps_ends {A} (m : T A) s P : keeps m -> (forall r, P r (tx_state s.1)) -> ends m s P.
Proof. intros Hm HP. specialize (Hm s). unfold ends. destruct (m s) as [r s']. cbn [fst snd] in Hm. by rewrite Hm. Qed.

Lemma update_then {C} f (k : unit -> T C) s P : ends (k tt) (f s.1, s.2) P -> ends (update_tx f ≫= k) s P.
Proof. done. Qed.

Lemma get_then {C} (k : tx -> T C) s P : ends (k s.1) s P -> ends (get_tx ≫= k) s P.
Proof. done. Qed.

Lemma abort_ends s : ends (abort padding) s (abort_step (tx_state s.1)).
Proof.
  unfold abort. apply get_then. destruct (tx_state s.1) eqn:E.
  1-2: apply update_then, keeps_ends; [apply keeps_cleanup|]; intros r; cbn; apply abort_now; auto.
  - unfold ends, throw. cbn. rewrite E. constructor.
  - unfold ends. cbn. rewrite E. constructor.
Qed.

Lemma commit_ends gw s : ends (commit padding new_primary run_program fuel gw) s (commit_step (tx_state s.1)).
Proof.
  unfold commit. apply get_then. case_bool_decide as E; cbn [negb].
  2: { unfold ends. cbn. by apply commit_invalid. }
  rewrite E. apply keeps_then; [keeps|rewrite E; constructor|]. intros write_set s1 E1.
  apply keeps_then; [keeps|rewrite E1, E; constructor|]. intros tref s2 E2.
  apply keeps_then; [keeps|rewrite E2, E1, E; constructor|]. intros _ s3 E3. apply get_then, update_then.
  apply keeps_then; [keeps|constructor|]. intros _ s4 E4. unfold ends. cbn. rewrite E4. constructor.
Qed.

Lemma prepare_ends gw s : ends (prepare padding new_primary run_program fuel gw) s (prepare_step (tx_state s.1)).
Proof.
  unfold prepare. apply get_then. case_bool_decide as E; cbn [negb].
  2: { unfold ends. cbn. by apply prepare_invalid. }
  assert (forall s1, tx_state s1.1 = TxPending -> forall b : bool, b = false ->
    ends (_ ← abort padding; mret b) s1 (prepare_step TxPending)) as Habort.
  { intros s1 E1 b ->. pose proof (abort_ends s1) as Ha. unfold ends, mbind, ST_bind in *.
    destruct (abort padding s1) as [[[]|x] s2]; rewrite E1 in Ha; cbn; inversion Ha; constructor. }
  rewrite E. apply keeps_then; [apply keeps_catch; keeps|rewrite E; constructor|]. intros [] s1 E1.
  - apply keeps_then; [keeps|rewrite E1, E; constructor|]. intros _ s2 E2. apply Habort; [congruence|done].
  - apply keeps_then; [keeps|rewrite E1, E; constructor|]. intros [] s2 E2; [|apply Habort; [congruence|done]].
    unfold ends. cbn. constructor.
Qed.

(** C24.  A transaction goes from pending to prepared to committed, or is aborted
    before that, whatever its operations do: [prepare] works on a pending transaction
    only and leaves it prepared if and only if it returns [true], aborted if it
    returns [false]; [commit] works on a prepared one only and returns with it
    committed; [abort] never undoes a commit; and an operation that is refused for the
    state changes nothing. *)
Theorem Transaction_lifecycle gw s :
  (let '(r, s') := prepare padding new_primary run_program fuel gw s in
   prepare_step (tx_state s.1) r (tx_state s'.1) /\ (tx_state s.1 <> TxPending -> s' = s)) /\
  (let '(r, s') := commit padding new_primary run_program fuel gw s in
   commit_step (tx_state s.1) r (tx_state s'.1) /\ (tx_state s.1 <> TxPrepared -> s' = s)) /\
  (let '(r, s') := abort padding s in
   abort_step (tx_state s.1) r (tx_state s'.1) /\ (tx_state s.1 = TxCommitted \/ tx_state s.1 = TxAborted -> s' = s)).
Proof.
  pose proof (prepare_ends gw s) as Hp. pose proof (commit_ends gw s) as Hc. pose proof (abort_ends s) as Ha.
  unfold ends in *. split_and!.
  - destruct (prepare _ _ _ _ gw s) as [r s'] eqn:Er. split; [done|]. intros Hst. unfold prepare, get_tx, get_st, mbind, ST_bind, mret, ST_ret in Er.
    rewrite bool_decide_false in Er by done. by injection Er.
  - destruct (commit _ _ _ _ gw s) as [r s'] eqn:Er. split; [done|]. intros Hst. unfold commit, get_tx, get_st, mbind, ST_bind, mret, ST_ret in Er.
    rewrite bool_decide_false in Er by done. by injection Er.
  - destruct (abort _ s) as [r s'] eqn:Er. split; [done|]. intros Hst. unfold abort, get_tx, get_st, mbind, ST_bind, mret, ST_ret in Er.
    destruct Hst as [Hst|Hst]; rewrite Hst in Er; by injection Er.
Qed.

End Lifecycle.

(** ** The participants

    What a server knows of the transaction of another one: whether it is registered
    with its [TransactionManager], and its state *)

Record participant : Type := mkPart { pt_known : bool; pt_state : TransactionState }.

Definition is_done (st : TransactionState) : bool := bool_decide (st = TxCommitted \/ st = TxAborted).

(** What the handler of [TransactionPrepare] catches *)
Definition caught (x : exn) : bool := match x with Runtime_error _ | Would_block => true | _ => false end.

Definition prepare_answer (r : result bool) : option bool :=
  match r with Ok b => Some b | Throw x => if caught x then Some false else None end.

(** A transaction that was aborted has been removed. *)
Definition stays_known (r : result bool) : bool := match r with Ok false => false | _ => true end.

Inductive tx_msg : Type := MPrepare | MAbort | MCommit.

#[global] Instance tx_msg_eq_dec : EqDecision tx_msg.
Proof. solve_decision. Defined.

(** The cases of [handle_request_upstream_mode].  [None] is no answer: an exception has
    left the handler. *)
Inductive handle_tx : tx_msg -> participant -> participant -> option bool -> Prop :=
  | handle_unknown m p : pt_known p = false -> handle_tx m p p (Some false)
  | handle_prepare p r st :
      pt_known p = true -> prepare_step (pt_state p) r st ->
      handle_tx MPrepare p (mkPart (stays_known r) st) (prepare_answer r)
  | handle_abort p st :
      pt_known p = true -> is_done (pt_state p) = false -> abort_step (pt_state p) (Ok tt) st ->
      handle_tx MAbort p (mkPart false st) (Some true)
  | handle_abort_throws p x st :
      pt_known p = true -> is_done (pt_state p) = false -> abort_step (pt_state p) (Throw x) st ->
      handle_tx MAbort p (mkPart true st) None
  | handle_abort_done p :
      pt_known p = true -> is_done (pt_state p) = true -> handle_tx MAbort p p (Some false)
  | handle_commit p st :
      pt_known p = true -> commit_step (pt_state p) (Ok tt) st -> handle_tx MCommit p (mkPart false st) (Some true)
  | handle_commit_throws p x st :
      pt_known p = true -> commit_step (W := unit) (pt_state p) (Throw x) st -> handle_tx MCommit p (mkPart true st) None.

(** ** The executor

    Where it is: the loops over the children ([todo]) with the requests they have
    sent ([sent]), its own part, and the responses it waits for.  [Unwind]: an exception is on its
    way out of the program; [Failed]: it has ended the program (or the server, if the destructor of
    the transaction object has thrown it) *)

Inductive executor_pc : Type :=
  | PrepareSend (todo sent : list Z) (success : bool)
  | PrepareLocal (sent : list Z) (success : bool)
  | PrepareWait (todo : list Z) (success : bool)
  | Unwind
  | AbortSend (todo sent : list Z)
  | AbortLocal (sent : list Z)
  | AbortWait (todo : list Z)
  | CommitSend (todo sent : list Z)
  | CommitLocal (sent : list Z)
  | CommitWait (todo : list Z)
  | Done (committed : bool)
  | Failed.

(** The peers that are connected, the requests under way to each, in order, and the
    responses that have come; [s_threw]: whether the executor's own [commit] has thrown *)
Record system : Type := mkSys {
  s_pc : executor_pc;
  s_own : TransactionState;
  s_peers : gset Z;
  s_requests : Z -> list tx_msg;
  s_responses : Z -> tx_msg -> option bool;
  s_parts : Z -> participant;
  s_threw : bool;
}.

Definition goto (pc : executor_pc) (s : system) : system :=
  mkSys pc (s_own s) (s_peers s) (s_requests s) (s_responses s) (s_parts s) (s_threw s).
Definition goto_own (pc : executor_pc) (st : TransactionState) (s : system) : system :=
  mkSys pc st (s_peers s) (s_requests s) (s_responses s) (s_parts s) (s_threw s).
Definition commit_threw (st : TransactionState) (s : system) : system :=
  mkSys Unwind st (s_peers s) (s_requests s) (s_responses s) (s_parts s) true.

Definition send (c : Z) (m : tx_msg) (s : system) : system :=
  mkSys (s_pc s) (s_own s) (s_peers s) (<[c := s_requests s c ++ [m]]> (s_requests s)) (s_responses s) (s_parts s) (s_threw s).

(** [find_by_uid]: the request is sent if the peer is there. *)
Definition send_or_skip (c : Z) (m : tx_msg) (s : system) : system := if decide (c ∈ s_peers s) then send c m s else s.

Definition sent_to (c : Z) (sent : list Z) (s : system) : list Z := if decide (c ∈ s_peers s) then sent ++ [c] else sent.

Definition served (c : Z) (m : tx_msg) (rest : list tx_msg) (p : participant) (r : option bool) (s : system) : system :=
  mkSys (s_pc s) (s_own s) (s_peers s) (<[c := rest]> (s_requests s))
    (match r with
     | Some b => <[c := fun m' => if decide (m' = m) then Some b else s_responses s c m']> (s_responses s)
     | None => s_responses s
     end) (<[c := p]> (s_parts s)) (s_threw s).

Section Protocol.
Variable children : list Z.

Inductive step : system -> system -> Prop :=
  (* phase_one *)
  | send_prepare s c todo sent success :
      s_pc s = PrepareSend (c :: todo) sent success ->
      step s (goto (PrepareSend todo (sent_to c sent s) (success && bool_decide (c ∈ s_peers s))) (send_or_skip c MPrepare s))
  | sent_prepare s sent success : s_pc s = PrepareSend [] sent success -> step s (goto (PrepareLocal sent success) s)
  | own_prepare s sent success b st :
      s_pc s = PrepareLocal sent success -> prepare_step (s_own s) (Ok b) st ->
      step s (goto_own (PrepareWait sent (success && b)) st s)
  | own_prepare_throws s sent success x st :
      s_pc s = PrepareLocal sent success -> prepare_step (s_own s) (Throw x) st -> step s (goto_own Unwind st s)
  | wait_prepare s c todo success b :
      s_pc s = PrepareWait (c :: todo) success -> s_responses s c MPrepare = Some b ->
      step s (goto (PrepareWait todo (success && b)) s)
  | phase_one_ok s : s_pc s = PrepareWait [] true -> step s (goto (CommitSend children []) s)
  | phase_one_failed s : s_pc s = PrepareWait [] false -> step s (goto (AbortSend children []) s)
  (* the transaction object of the program is destroyed *)
  | unwound s : s_pc s = Unwind -> is_done (s_own s) = false -> step s (goto (AbortSend children []) s)
  | unwound_done s : s_pc s = Unwind -> is_done (s_own s) = true -> step s (goto Failed s)
  (* abort *)
  | send_abort s c todo sent :
      s_pc s = AbortSend (c :: todo) sent -> step s (goto (AbortSend todo (sent_to c sent s)) (send_or_skip c MAbort s))
  | sent_abort s sent : s_pc s = AbortSend [] sent -> step s (goto (AbortLocal sent) s)
  | own_abort s sent st :
      s_pc s = AbortLocal sent -> abort_step (s_own s) (Ok tt) st -> step s (goto_own (AbortWait sent) st s)
  | own_abort_throws s sent x st :
      s_pc s = AbortLocal sent -> abort_step (s_own s) (Throw x) st -> step s (goto_own Failed st s)
  | wait_abort s c todo b :
      s_pc s = AbortWait (c :: todo) -> s_responses s c MAbort = Some b -> step s (goto (AbortWait todo) s)
  | abort_done s : s_pc s = AbortWait [] -> step s (goto (Done false) s)
  (* phase_two *)
  | send_commit s c todo sent :
      s_pc s = CommitSend (c :: todo) sent -> step s (goto (CommitSend todo (sent_to c sent s)) (send_or_skip c MCommit s))
  | sent_commit s sent : s_pc s = CommitSend [] sent -> step s (goto (CommitLocal sent) s)
  | own_commit s sent st :
      s_pc s = CommitLocal sent -> commit_step (s_own s) (Ok tt) st -> step s (goto_own (CommitWait sent) st s)
  | own_commit_throws s sent x st :
      s_pc s = CommitLocal sent -> commit_step (W := unit) (s_own s) (Throw x) st -> step s (commit_threw st s)
  | wait_commit s c todo b :
      s_pc s = CommitWait (c :: todo) -> s_responses s c MCommit = Some b -> step s (goto (CommitWait todo) s)
  | commit_done s : s_pc s = CommitWait [] -> step s (goto (Done true) s)
  (* a child handles its next request *)
  | serve s c m rest p r :
      c ∈ children -> s_requests s c = m :: rest -> handle_tx m (s_parts s c) p r -> step s (served c m rest p r s).

(** A peer leaves. *)
Inductive disconnect : system -> system -> Prop :=
  | peer_leaves s c : c ∈ s_peers s ->
      disconnect s (mkSys (s_pc s) (s_own s) (s_peers s ∖ {[c]}) (s_requests s) (s_responses s) (s_parts s) (s_threw s)).

Definition net_step (s s' : system) : Prop := step s s' \/ disconnect s s'.

(** The transaction has called programs at its children, which are connected. *)
Definition begins (s : system) : Prop :=
  s_pc s = PrepareSend children [] true /\ s_own s = TxPending /\ (forall c, c ∈ children -> c ∈ s_peers s) /\
  (forall c, s_requests s c = []) /\ (forall c m, s_responses s c m = None) /\
  (forall c, c ∈ children -> s_parts s c = mkPart true TxPending) /\ s_threw s = false.

Hypothesis children_once : NoDup children.

(** *** Invariant *)

Definition preparing_child s c : Prop :=
  (forall m, m ∈ s_requests s c -> m = MPrepare) /\ (length (s_requests s c) <= 1)%nat /\
  s_responses s c MCommit = None /\ s_responses s c MAbort = None /\
  pt_state (s_parts s c) <> TxCommitted /\ (pt_known (s_parts s c) = false -> pt_state (s_parts s c) = TxAborted) /\
  (s_responses s c MPrepare = Some true -> s_requests s c = [] /\ s_parts s c = mkPart true TxPrepared).

Definition unasked_child s c : Prop := s_requests s c = [] /\ s_responses s c MPrepare = None.

Definition committing_child s c : Prop :=
  (forall m, m ∈ s_requests s c -> m = MCommit) /\
  (s_parts s c = mkPart true TxPrepared \/ pt_state (s_parts s c) = TxCommitted) /\
  (s_responses s c MCommit <> None -> pt_state (s_parts s c) = TxCommitted).

Definition aborting_child s c : Prop :=
  (MCommit ∉ s_requests s c) /\ pt_state (s_parts s c) <> TxCommitted /\
  (pt_known (s_parts s c) = false -> pt_state (s_parts s c) = TxAborted) /\
  (s_responses s c MAbort <> None -> pt_state (s_parts s c) = TxAborted).

Abbreviation all_children P := (forall c, c ∈ children -> P c).

(** While the executor's own [commit] has not thrown *)
Definition phase_inv (s : system) : Prop :=
  match s_pc s with
  | PrepareSend todo sent success => s_own s = TxPending /\ all_children (preparing_child s) /\
      (forall c, c ∈ todo -> unasked_child s c) /\ NoDup todo /\ (success = true -> sent ++ todo = children)
  | PrepareLocal sent success => s_own s = TxPending /\ all_children (preparing_child s) /\ (success = true -> sent = children)
  | PrepareWait todo success => s_own s <> TxCommitted /\ all_children (preparing_child s) /\
      (success = true -> s_own s = TxPrepared /\ all_children (fun c => c ∈ todo \/ s_responses s c MPrepare = Some true))
  | Unwind => s_own s <> TxCommitted /\ all_children (preparing_child s)
  | AbortSend _ _ | AbortLocal _ => s_own s <> TxCommitted /\ all_children (aborting_child s)
  | AbortWait _ | Done false | Failed => s_own s = TxAborted /\ all_children (aborting_child s)
  | CommitSend _ _ | CommitLocal _ => s_own s = TxPrepared /\ all_children (committing_child s)
  | CommitWait _ | Done true => s_own s = TxCommitted /\ all_children (committing_child s)
  end.

(** Once it has, the executor aborts, if anything, and nothing holds of the children. *)
Definition late_inv (s : system) : Prop :=
  match s_pc s with
  | AbortSend _ _ | AbortLocal _ => s_own s <> TxCommitted
  | Unwind | AbortWait _ | Done false | Failed => True
  | _ => False
  end.

Definition protocol_inv (s : system) : Prop := if s_threw s then late_inv s else phase_inv s.

Lemma begins_inv s : begins s -> protocol_inv s.
Proof.
  intros (Epc & Eown & _ & Ereq & Eresp & Epart & Et). unfold protocol_inv, phase_inv. rewrite Et, Epc. split_and!; try done.
  intros c Hc. unfold preparing_child. rewrite Ereq, !Eresp, (Epart c Hc). cbn. split_and!; try done; try lia.
  by intros m ?%elem_of_nil.
Qed.

(** Serving a request keeps what is known of the children. *)

Lemma served_other c m rest p r s c' : c' <> c ->
  s_requests (served c m rest p r s) c' = s_requests s c' /\ s_parts (served c m rest p r s) c' = s_parts s c' /\
  s_responses (served c m rest p r s) c' = s_responses s c'.
Proof. intros Hc. unfold served. cbn. rewrite !fn_lookup_insert_ne by done. destruct r; [by rewrite fn_lookup_insert_ne|done]. Qed.

Lemma served_same c m rest p r s :
  s_requests (served c m rest p r s) c = rest /\ s_parts (served c m rest p r s) c = p /\
  forall m', s_responses (served c m rest p r s) c m' =
    if decide (m' = m) then match r with Some b => Some b | None => s_responses s c m end else s_responses s c m'.
Proof.
  unfold served. cbn. rewrite !fn_lookup_insert. split_and!; [done..|]. intros m'.
  destruct r; [rewrite fn_lookup_insert|]; case_decide; by subst.
Qed.

Lemma send_other c m s c' : c' <> c -> s_requests (send_or_skip c m s) c' = s_requests s c'.
Proof. intros Hc. unfold send_or_skip, send. case_decide; cbn; [by rewrite fn_lookup_insert_ne|done]. Qed.

Lemma send_same c m s : s_requests (send_or_skip c m s) c = if decide (c ∈ s_peers s) then s_requests s c ++ [m] else s_requests s c.
Proof. unfold send_or_skip, send. case_decide; cbn; [by rewrite fn_lookup_insert|done]. Qed.

Lemma send_rest c m s : s_parts (send_or_skip c m s) = s_parts s /\ s_responses (send_or_skip c m s) = s_responses s /\
  s_own (send_or_skip c m s) = s_own s /\ s_peers (send_or_skip c m s) = s_peers s /\ s_threw (send_or_skip c m s) = s_threw s.
Proof. unfold send_or_skip, send. by case_decide. Qed.

Lemma served_preparing c m rest p r s c' :
  s_requests s c = m :: rest -> handle_tx m (s_parts s c) p r -> preparing_child s c' ->
  preparing_child (served c m rest p r s) c'.
Proof.
  intros Er Hh Hc. destruct (decide (c' = c)) as [->|Hne].
  2: { destruct (served_other c m rest p r s c' Hne) as (E1 & E2 & E3). unfold preparing_child. by rewrite E1, E2, E3. }
  destruct (served_same c m rest p r s) as (E1 & E2 & E3). unfold preparing_child. rewrite E1, E2, !E3.
  destruct Hc as (Hm & Hlen & Hc & Ha & Hst & Hkn & Hp). rewrite Er in Hm, Hlen.
  assert (m = MPrepare) as -> by (apply Hm; left). cbn [length] in Hlen. destruct rest; [|cbn in Hlen; lia].
  cbn. inversion Hh as [m' p' Hk|p' r' st Hk Hs| | | | |]; subst; cbn.
  all: split; [by intros m ?%elem_of_nil|]; split; [lia|]; split; [done|]; split; [done|].
  - done.
  - assert (s_responses s c MPrepare <> Some true) as Hnot by (intros Hr; destruct (Hp Hr); congruence).
    rewrite decide_True by done. inversion Hs; subst; cbn; try (destruct (caught x)); split_and!; done.
Qed.

Lemma served_committing c m rest p r s c' :
  s_requests s c = m :: rest -> handle_tx m (s_parts s c) p r -> committing_child s c' ->
  committing_child (served c m rest p r s) c'.
Proof.
  intros Er Hh Hc. destruct (decide (c' = c)) as [->|Hne].
  2: { destruct (served_other c m rest p r s c' Hne) as (E1 & E2 & E3). unfold committing_child. by rewrite E1, E2, E3. }
  destruct (served_same c m rest p r s) as (E1 & E2 & E3). unfold committing_child. rewrite E1, E2, !E3.
  destruct Hc as (Hm & Hst & Hresp). rewrite Er in Hm. assert (m = MCommit) as -> by (apply Hm; left).
  cbn. split; [intros m Hin; apply Hm; by right|].
  inversion Hh as [m' p' Hk| | | | |p' st Hk Hs|p' x st Hk Hs]; subst; cbn.
  - destruct Hst as [Hst|Hst]; [by rewrite Hst in Hk|auto].
  - inversion Hs; subst. auto.
  - inversion Hs as [|x' E|x' E|st' E]; subst; cbn.
    + split; [by left|]. intros Hne. specialize (Hresp Hne). congruence.
    + auto.
    + destruct Hst as [Hst|Hst]; [by rewrite Hst in E|auto].
Qed.

Lemma served_aborting c m rest p r s c' :
  s_requests s c = m :: rest -> handle_tx m (s_parts s c) p r -> aborting_child s c' ->
  aborting_child (served c m rest p r s) c'.
Proof.
  intros Er Hh Hc. destruct (decide (c' = c)) as [->|Hne].
  2: { destruct (served_other c m rest p r s c' Hne) as (E1 & E2 & E3). unfold aborting_child. by rewrite E1, E2, E3. }
  destruct (served_same c m rest p r s) as (E1 & E2 & E3). unfold aborting_child. rewrite E1, E2, !E3.
  destruct Hc as (Hm & Hst & Hkn & Hresp). rewrite Er in Hm.
  split; [intros Hin; apply Hm; by right|]. assert (m <> MCommit) as Hmc by (intros ->; apply Hm; left).
  inversion Hh as [m' p' Hk|p' r' st Hk Hs|p' st Hk Hd Hs|p' x st Hk Hd Hs|p' Hk Hd| |]; subst; cbn; try done.
  - split_and!; [done|done|]. intros _. by apply Hkn.
  - split_and!; [inversion Hs; subst; congruence|inversion Hs; subst; done|]. intros Hn. specialize (Hresp Hn).
    inversion Hs; subst; congruence.
  - inversion Hs; subst; cbn in *; split_and!; done.
  - inversion Hs; subst; cbn in *; split_and!; done.
  - unfold is_done in Hd. apply bool_decide_eq_true in Hd as [?|?]; [done|]. split_and!; done.
Qed.

(** A request to a child that is in the same phase *)

Lemma send_preparing c s c' : (c' = c -> unasked_child s c) -> preparing_child s c' -> preparing_child (send_or_skip c MPrepare s) c'.
Proof.
  intros Hun Hc. destruct (send_rest c MPrepare s) as (Ep & Er & _). unfold preparing_child in *. rewrite Ep, Er.
  destruct (decide (c' = c)) as [->|Hne]; [|by rewrite send_other]. rewrite send_same. case_decide; [|done].
  destruct (Hun eq_refl) as [Eq En]. rewrite Eq, En in *. cbn. destruct Hc as (_ & _ & ?).
  split; [by intros m ->%list_elem_of_singleton|]. split; [lia|]. naive_solver.
Qed.

Lemma send_committing c s c' : committing_child s c' -> committing_child (send_or_skip c MCommit s) c'.
Proof.
  intros Hc. destruct (send_rest c MCommit s) as (Ep & Er & _). unfold committing_child in *. rewrite Ep, Er.
  destruct (decide (c' = c)) as [->|Hne]; [|by rewrite send_other]. rewrite send_same. case_decide; [|done].
  destruct Hc as [Hm Hrest]. split; [|done]. intros m [Hin|Hin]%elem_of_app; [by apply Hm|]. by apply list_elem_of_singleton in Hin.
Qed.

Lemma send_aborting c s c' : aborting_child s c' -> aborting_child (send_or_skip c MAbort s) c'.
Proof.
  intros Hc. destruct (send_rest c MAbort s) as (Ep & Er & _). unfold aborting_child in *. rewrite Ep, Er.
  destruct (decide (c' = c)) as [->|Hne]; [|by rewrite send_other]. rewrite send_same. case_decide; [|done].
  destruct Hc as [Hm Hrest]. split; [|done]. intros [Hin|Hin]%elem_of_app; [done|]. by apply list_elem_of_singleton in Hin.
Qed.

(** The decision: the phase of every child changes. *)

Lemma decide_commit s c : preparing_child s c -> s_responses s c MPrepare = Some true -> committing_child s c.
Proof.
  intros (_ & _ & Hc & _ & _ & _ & Hp) Hr. destruct (Hp Hr) as [Eq Epart]. unfold committing_child. rewrite Eq, Epart, Hc.
  split; [by intros m ?%elem_of_nil|]. split; [by left|done].
Qed.

Lemma decide_abort s c : preparing_child s c -> aborting_child s c.
Proof.
  intros (Hm & _ & _ & Ha & Hst & Hkn & _). split; [intros Hin; by specialize (Hm _ Hin)|]. split; [done|]. split; [done|].
  by rewrite Ha.
Qed.

Lemma serve_phase c m rest p r s :
  c ∈ children -> s_requests s c = m :: rest -> handle_tx m (s_parts s c) p r -> phase_inv s ->
  phase_inv (served c m rest p r s).
Proof.
  intros Hc Er Hh Hinv. unfold phase_inv in *. cbn [s_pc s_own served].
  destruct (s_pc s) as [todo sent success| |todo success| | | | | | | |[]|];
    repeat match goal with H : _ /\ _ |- _ => destruct H end; split_and!; eauto using served_preparing, served_committing, served_aborting.
  - intros c' Hc'. match goal with H : forall c, c ∈ todo -> _ |- _ => specialize (H _ Hc') as [Eq En] end.
    destruct (served_other c m rest p r s c') as (E1 & _ & E3); [congruence|]. split; by rewrite ?E1, ?E3.
  - intros Hs. match goal with H : success = true -> _ |- _ => destruct (H Hs) as [Eo Hall] end. split; [done|].
    intros c' Hc'. destruct (Hall c' Hc') as [|Hr]; [by left|right].
    destruct (decide (c' = c)) as [->|Hne]; [|by destruct (served_other c m rest p r s c' Hne) as (_ & _ & ->)].
    match goal with H : forall c, c ∈ children -> preparing_child s c |- _ => destruct (H c Hc) as (_ & _ & _ & _ & _ & _ & Hp) end.
    destruct (Hp Hr). congruence.
Qed.

Lemma send_prepare_phase s c todo sent success :
  s_pc s = PrepareSend (c :: todo) sent success -> phase_inv s ->
  phase_inv (goto (PrepareSend todo (sent_to c sent s) (success && bool_decide (c ∈ s_peers s))) (send_or_skip c MPrepare s)).
Proof.
  intros Epc Hinv. unfold phase_inv in *. rewrite Epc in Hinv. cbn [s_pc goto].
  destruct Hinv as (Eown & Hall & Hun & Hnd & Hsent). apply NoDup_cons in Hnd as [Hin Hnd].
  destruct (send_rest c MPrepare s) as (_ & Er & Eo & _). split_and!; [by cbn; rewrite Eo| | |done|].
  - intros c' Hc'. apply (send_preparing c s c'); [intros _; apply Hun; left|by apply Hall].
  - intros c' Hc'. assert (c' <> c) as Hne by (by intros ->). destruct (Hun c') as [E1 E2]; [by right|].
    split; [cbn; by rewrite send_other|cbn; by rewrite Er].
  - intros [Hs Hp]%andb_true_iff. apply bool_decide_eq_true in Hp. unfold sent_to. rewrite decide_True by done.
    rewrite <-app_assoc. by apply Hsent.
Qed.

Lemma not_committed_done st : is_done st = true -> st <> TxCommitted -> st = TxAborted.
Proof. by intros [?|?]%bool_decide_eq_true ?. Qed.

Lemma step_phase s s' : step s s' -> phase_inv s -> s_threw s' = true \/ phase_inv s'.
Proof.
  intros Hstep Hinv. destruct Hstep as [s c todo sent success Epc|s sent success Epc|s sent success b st Epc Hs
    |s sent success x st Epc Hs|s c todo success b Epc Hr|s Epc|s Epc|s Epc Hd|s Epc Hd|s c todo sent Epc|s sent Epc|s sent st Epc Hs
    |s sent x st Epc Hs|s c todo b Epc Hr|s Epc|s c todo sent Epc|s sent Epc|s sent st Epc Hs|s sent x st Epc Hs|s c todo b Epc Hr|s Epc|];
    [by right; apply send_prepare_phase| | | | | | | | | | | | | | | | | |by left| | |by right; eapply serve_phase].
  all: right; unfold phase_inv in Hinv |- *; rewrite Epc in Hinv; cbn [s_pc goto goto_own].
  - destruct Hinv as (? & ? & _ & _ & Hsent). split_and!; [done..|]. rewrite app_nil_r in Hsent. done.
  - destruct Hinv as (Eown & Hall & Hsent). rewrite Eown in Hs. split; [cbn; inversion Hs; by subst|]. split; [done|].
    intros [Hok ->]%andb_true_iff. split; [by inversion Hs|]. intros c Hc. left. by rewrite Hsent.
  - destruct Hinv as (Eown & Hall & _). rewrite Eown in Hs. split; [cbn; inversion Hs; by subst|done].
  - destruct Hinv as (Hown & Hall & Hok). split; [done|]. split; [done|]. intros [Hs ->]%andb_true_iff. destruct (Hok Hs) as [Eo Hch].
    split; [done|]. intros c' Hc'. destruct (Hch c' Hc') as [[->|?]%elem_of_cons|?]; auto.
  - destruct Hinv as (_ & Hall & Hok). destruct (Hok eq_refl) as [Eo Hch]. split; [done|]. intros c Hc.
    apply (decide_commit s c); [by apply Hall|]. by destruct (Hch c Hc) as [?%elem_of_nil|].
  - destruct Hinv as (Hown & Hall & _). split; [done|]. intros c Hc. by apply (decide_abort s c), Hall.
  - destruct Hinv as (Hown & Hall). split; [done|]. intros c Hc. by apply (decide_abort s c), Hall.
  - destruct Hinv as (Hown & Hall). split; [by apply not_committed_done|]. intros c Hc. by apply (decide_abort s c), Hall.
  - destruct Hinv as (Hown & Hall), (send_rest c MAbort s) as (_ & _ & Eo & _). split; [cbn; by rewrite Eo|].
    intros c' Hc'. by apply (send_aborting c s c'), Hall.
  - done.
  - destruct Hinv as (Hown & Hall). split; [cbn; by inversion Hs; subst|done].
  - destruct Hinv as (Hown & Hall). split; [cbn; by inversion Hs; subst|done].
  - done.
  - done.
  - destruct Hinv as (Hown & Hall), (send_rest c MCommit s) as (_ & _ & Eo & _). split; [cbn; by rewrite Eo|].
    intros c' Hc'. by apply (send_committing c s c'), Hall.
  - done.
  - destruct Hinv as (Hown & Hall). split; [cbn; by inversion Hs; subst|done].
  - done.
  - done.
Qed.

(** After the executor's own [commit] has thrown, it unwinds and aborts. *)
Lemma step_late s s' : step s s' -> late_inv s -> late_inv s'.
Proof.
  unfold late_inv. intros Hstep Hinv. destruct Hstep; cbn [s_pc s_own goto goto_own commit_threw served];
    try match goal with H : s_pc _ = _ |- _ => rewrite H in Hinv end; try done.
  - match goal with H : is_done _ = false |- _ => apply bool_decide_eq_false in H end. intros E. tauto.
  - by destruct (send_rest c MAbort s) as (_ & _ & -> & _).
Qed.

(** Only the executor's own [commit] sets the flag, which stays. *)
Lemma step_threw s s' : step s s' -> s_threw s' = s_threw s \/ late_inv s' /\ s_threw s' = true.
Proof.
  intros Hstep. destruct Hstep; first [by left | by right | left; cbn; by eapply (proj2 (proj2 (proj2 (proj2 (send_rest _ _ _)))))].
Qed.

Lemma step_inv s s' : step s s' -> protocol_inv s -> protocol_inv s'.
Proof.
  unfold protocol_inv. intros Hstep Hinv. destruct (step_threw _ _ Hstep) as [Et|[Hl ->]]; [|done]. rewrite Et.
  destruct (s_threw s); [by eapply step_late|]. destruct (step_phase _ _ Hstep Hinv) as [?|?]; [congruence|done].
Qed.

Lemma net_inv s s' : rtc net_step s s' -> protocol_inv s -> protocol_inv s'.
Proof.
  induction 1 as [s|s1 s2 s3 [Hs|Hd] _ IH]; [done|intros Hi; by eapply IH, step_inv|]. intros Hi. apply IH. by destruct Hd.
Qed.

(** *** Completion, while nobody leaves *)

Definition complete_inv (s : system) : Prop :=
  (forall c, c ∈ children -> c ∈ s_peers s) /\
  match s_pc s with
  | AbortSend todo sent | CommitSend todo sent => sent ++ todo = children
  | AbortLocal sent | CommitLocal sent => sent = children
  | AbortWait todo => all_children (fun c => c ∈ todo \/ s_responses s c MAbort <> None)
  | CommitWait todo => all_children (fun c => c ∈ todo \/ s_responses s c MCommit <> None)
  | Done committed => all_children (fun c => s_responses s c (if committed then MCommit else MAbort) <> None)
  | _ => True
  end.

Lemma responses_stay c m rest p r s c' m' : s_responses s c' m' <> None -> s_responses (served c m rest p r s) c' m' <> None.
Proof.
  destruct (decide (c' = c)) as [->|Hne]; [|by destruct (served_other c m rest p r s c' Hne) as (_ & _ & ->)].
  destruct (served_same c m rest p r s) as (_ & _ & E). rewrite E. case_decide; [|done]. subst. by destruct r.
Qed.

Lemma step_complete s s' : step s s' -> complete_inv s -> complete_inv s'.
Proof.
  intros Hstep Hinv. pose proof Hinv as [Hp Hpc].
  assert (forall c m c', c' ∈ children -> c' ∈ s_peers (send_or_skip c m s)) as Hp'.
  { intros c m c' Hc'. destruct (send_rest c m s) as (_ & _ & _ & -> & _). by apply Hp. }
  destruct Hstep as [s c todo sent success Epc|s sent success Epc|s sent success b st Epc Hs
    |s sent success x st Epc Hs|s c todo success b Epc Hr|s Epc|s Epc|s Epc Hd|s Epc Hd|s c todo sent Epc|s sent Epc|s sent st Epc Hs
    |s sent x st Epc Hs|s c todo b Epc Hr|s Epc|s c todo sent Epc|s sent Epc|s sent st Epc Hs|s sent x st Epc Hs|s c todo b Epc Hr|s Epc
    |s c m rest p r Hc Er Hh].
  all: (split; [cbn; by auto|]); cbn [s_pc goto goto_own commit_threw served]; try rewrite Epc in Hpc; try done.
  - assert (c ∈ s_peers s) by (apply Hp; rewrite <-Hpc; set_solver). unfold sent_to. rewrite decide_True by done. by rewrite <-app_assoc.
  - by rewrite app_nil_r in Hpc.
  - intros c Hc. left. by rewrite Hpc.
  - intros c' Hc'. destruct (Hpc c' Hc') as [[->|?]%elem_of_cons|?]; [right; cbn; congruence|by left|by right].
  - intros c Hc. by destruct (Hpc c Hc) as [?%elem_of_nil|].
  - assert (c ∈ s_peers s) by (apply Hp; rewrite <-Hpc; set_solver). unfold sent_to. rewrite decide_True by done. by rewrite <-app_assoc.
  - by rewrite app_nil_r in Hpc.
  - intros c Hc. left. by rewrite Hpc.
  - intros c' Hc'. destruct (Hpc c' Hc') as [[->|?]%elem_of_cons|?]; [right; cbn; congruence|by left|by right].
  - intros c Hc. by destruct (Hpc c Hc) as [?%elem_of_nil|].
  - destruct (s_pc s); try done; intros c' Hc'; [destruct (Hpc c' Hc') as [?|?]; [by left|right]..|specialize (Hpc c' Hc')]; by apply responses_stay.
Qed.

(** *** Termination *)

Definition pc_measure (pc : executor_pc) : nat :=
  let unwinding := (3 * length children + 4)%nat in
  let prepared := (6 * length children + 7)%nat in
  (match pc with
  | PrepareSend todo sent _ => prepared + length sent + 3 * length todo + 2
  | PrepareLocal sent _ => prepared + length sent + 1
  | PrepareWait todo _ => prepared + length todo
  | CommitSend todo sent => unwinding + length sent + 3 * length todo + 2
  | CommitLocal sent => unwinding + length sent + 1
  | Unwind => unwinding
  | AbortSend todo sent => length sent + 3 * length todo + 3
  | AbortLocal sent => length sent + 2
  | AbortWait todo | CommitWait todo => length todo + 1
  | Done _ | Failed => 0
  end)%nat.

Definition requests_of (f : Z -> list tx_msg) : nat := sum_list ((fun c => length (f c)) <$> children).

Definition measure (s : system) : nat := (pc_measure (s_pc s) + requests_of (s_requests s) + size (s_peers s))%nat.

Lemma requests_insert f c l :
  (requests_of (<[c := l]> f) + (if decide (c ∈ children) then length (f c) else 0) =
   requests_of f + (if decide (c ∈ children) then length l else 0))%nat.
Proof.
  unfold requests_of. pose proof children_once as Hnd0. clear children_once. induction Hnd0 as [|c' cs Hin Hnd IH]; [done|]. cbn.
  destruct (decide (c' = c)) as [->|Hne].
  - rewrite fn_lookup_insert. rewrite !decide_False in IH by done. rewrite !decide_True by left. lia.
  - rewrite fn_lookup_insert_ne by done. assert (c ∈ c' :: cs <-> c ∈ cs) as E by set_solver.
    rewrite !(decide_ext _ _ _ _ E). lia.
Qed.

Lemma requests_send c m s :
  (requests_of (s_requests (send_or_skip c m s)) <= requests_of (s_requests s) + (if decide (c ∈ s_peers s) then 1 else 0))%nat.
Proof.
  unfold send_or_skip, send. case_decide; [|lia]. cbn. pose proof (requests_insert (s_requests s) c (s_requests s c ++ [m])) as Hi.
  rewrite length_app in Hi. cbn in Hi. case_decide; lia.
Qed.

Lemma net_step_measure s s' : net_step s s' -> (measure s' < measure s)%nat.
Proof.
  unfold measure. intros [Hstep|Hd].
  - assert (forall c m, size (s_peers (send_or_skip c m s)) = size (s_peers s)) as Hpeers.
    { intros c m. by destruct (send_rest c m s) as (_ & _ & _ & -> & _). }
    destruct Hstep as [s c todo sent success Epc|s sent success Epc|s sent success b st Epc Hs
      |s sent success x st Epc Hs|s c todo success b Epc Hr|s Epc|s Epc|s Epc Hd|s Epc Hd|s c todo sent Epc|s sent Epc|s sent st Epc Hs
      |s sent x st Epc Hs|s c todo b Epc Hr|s Epc|s c todo sent Epc|s sent Epc|s sent st Epc Hs|s sent x st Epc Hs|s c todo b Epc Hr|s Epc
      |s c m rest p r Hc Er Hh];
      try rewrite Epc; cbn [s_pc s_requests s_peers goto goto_own commit_threw pc_measure length]; rewrite ?Hpeers; try lia.
    1: pose proof (requests_send c MPrepare s). 2: pose proof (requests_send c MAbort s). 3: pose proof (requests_send c MCommit s).
    1-3: unfold sent_to; case_decide; rewrite ?length_app; cbn [length]; lia.
    cbn [s_pc s_requests s_peers served]. pose proof (requests_insert (s_requests s) c rest) as Hi.
    rewrite !decide_True, Er in Hi by done. cbn [length] in Hi. lia.
  - destruct Hd as [s c Hc]. cbn. rewrite size_difference by set_solver. rewrite size_singleton.
    assert (size (s_peers s) <> 0%nat) by (intros ?%size_empty_inv; set_solver). lia.
Qed.

(** The children that the executor has before it are children of the transaction. *)
Definition pc_children (pc : executor_pc) : list Z :=
  match pc with
  | PrepareSend todo sent _ | AbortSend todo sent | CommitSend todo sent => todo ++ sent
  | PrepareLocal sent _ | AbortLocal sent | CommitLocal sent => sent
  | PrepareWait todo _ | AbortWait todo | CommitWait todo => todo
  | Unwind | Done _ | Failed => []
  end.

Lemma net_step_children s s' : net_step s s' -> pc_children (s_pc s) ⊆ children -> pc_children (s_pc s') ⊆ children.
Proof.
  intros [Hstep|Hd]; [|by destruct Hd].
  destruct Hstep; cbn [s_pc goto goto_own commit_threw served]; try match goal with H : s_pc _ = _ |- _ => rewrite H end;
    cbn [pc_children]; unfold sent_to; try case_decide; set_solver.
Qed.

(** What the executor waits for *)
Definition waits_for (pc : executor_pc) : option (Z * tx_msg) :=
  match pc with
  | PrepareWait (c :: _) _ => Some (c, MPrepare)
  | AbortWait (c :: _) => Some (c, MAbort)
  | CommitWait (c :: _) => Some (c, MCommit)
  | _ => None
  end.

Lemma handle_tx_total m p : exists p' r, handle_tx m p p' r.
Proof.
  destruct p as [[] st]; [|by eexists _, _; apply handle_unknown]. destruct m.
  - destruct (decide (st = TxPending)) as [->|Hst]; eexists _, _; apply handle_prepare; try done; [constructor|by constructor].
  - destruct (is_done st) eqn:E; [by eexists _, _; apply handle_abort_done|].
    eexists _, _. apply handle_abort; [done|done|]. cbn. apply abort_now. destruct st; auto; done.
  - destruct (decide (st = TxPrepared)) as [->|Hst]; eexists _, _; [apply handle_commit|eapply handle_commit_throws]; try done; by constructor.
Qed.

Lemma progress s :
  protocol_inv s -> pc_children (s_pc s) ⊆ children ->
  (exists b, s_pc s = Done b) \/ s_pc s = Failed \/ (exists s', step s s') \/
  (exists c m, waits_for (s_pc s) = Some (c, m) /\ s_requests s c = [] /\ s_responses s c m = None).
Proof.
  intros Hinv Hin.
  assert (forall c m, waits_for (s_pc s) = Some (c, m) -> c ∈ children -> s_responses s c m <> None \/ (exists s', step s s') \/
    (s_requests s c = [] /\ s_responses s c m = None)) as Hwait.
  { intros c m Hw Hc. destruct (s_responses s c m) eqn:Er; [by left|right]. destruct (s_requests s c) as [|m' rest] eqn:Eq; [by right|left].
    destruct (handle_tx_total m' (s_parts s c)) as (p & r & Hh). eexists. by eapply serve. }
  assert (s_pc s = Unwind \/ phase_inv s \/ late_inv s) as Hown.
  { unfold protocol_inv in Hinv. destruct (s_threw s); auto. }
  destruct (s_pc s) as [[|c todo] sent success|sent success|[|c todo] []| |[|c todo] sent|sent|[|c todo]|[|c todo] sent|sent|[|c todo]|b|] eqn:Epc;
    try (by left; eauto); try (by right; left); try (by right; right; left; eexists; econstructor).
  all: unfold phase_inv, late_inv in Hown; rewrite Epc in Hown; cbn [waits_for pc_children] in *.
  all: try (destruct (Hwait _ _ eq_refl) as [Hr|[?|?]]; [set_solver| |by auto|by right; right; right; eauto];
    destruct (s_responses s c _) eqn:E; [|done]; right; right; left; eexists; first [by eapply wait_prepare|by eapply wait_abort|by eapply wait_commit]).
  - destruct Hown as [?|[(Eown & _)|?]]; [done| |done]. right. right. left. eexists. eapply (own_prepare _ _ _ true); [done|]. rewrite Eown. constructor.
  - right. right. left. destruct (is_done (s_own s)) eqn:Ed; eexists; [by apply unwound_done|by apply unwound].
  - assert (s_own s <> TxCommitted) as Hne by (destruct Hown as [?|[(? & _)|?]]; done). right. right. left.
    destruct (s_own s) eqn:Eo; try done; eexists; eapply own_abort; try done; rewrite Eo; [apply abort_now; auto..|apply abort_again].
  - destruct Hown as [?|[(Eown & _)|?]]; [done| |done]. right. right. left. eexists. eapply own_commit; [done|]. rewrite Eown. constructor.
Qed.

(** *** Theorems *)


Definition node_states (s : system) : list TransactionState := s_own s :: ((fun c => pt_state (s_parts s c)) <$> children).

(** C4.  Two-phase commit agrees: however the messages are interleaved, whatever the
    parts of the transaction answer, throw or lose, and whoever disconnects, there is never
    a server that has committed the transaction while another has aborted it, as long as one thing
    does not happen: that the executor's own [commit] throws, which it runs after it has told the
    children to commit ([executor_commit_throw_splits]). *)
Theorem two_phase_agreement s0 s :
  begins s0 -> rtc net_step s0 s -> s_threw s = false ->
  ~ (TxCommitted ∈ node_states s /\ TxAborted ∈ node_states s).
Proof.
  intros Hb Hrun Ht. pose proof (net_inv _ _ Hrun (begins_inv _ Hb)) as Hinv. unfold protocol_inv in Hinv. rewrite Ht in Hinv. intros [Hc Ha].
  unfold node_states in Hc, Ha. apply elem_of_cons in Hc, Ha.
  assert (forall st, st ∈ (fun c => pt_state (s_parts s c)) <$> children -> exists c, c ∈ children /\ pt_state (s_parts s c) = st) as Hin.
  { intros st (c & -> & ?)%list_elem_of_fmap. eauto. }
  assert (all_children (fun c => pt_state (s_parts s c) <> TxCommitted) /\ s_own s <> TxCommitted \/
    all_children (fun c => pt_state (s_parts s c) <> TxAborted) /\ s_own s <> TxAborted) as [[Hall Hown]|[Hall Hown]].
  { unfold phase_inv in Hinv. destruct (s_pc s) as [| | | | | | | | | |[]|]; repeat match goal with H : _ /\ _ |- _ => destruct H end.
    1-7, 12-13: left; split; [|congruence]; intros c Hcc; match goal with H : forall c, c ∈ children -> _ |- _ => destruct (H c Hcc) as (? & ?) end; naive_solver.
    all: right; split; [|congruence]; intros c Hcc; match goal with H : forall c, c ∈ children -> _ |- _ => destruct (H c Hcc) as (_ & [E|E] & _) end; rewrite E; done. }
  - destruct Hc as [Hc|(c & Hcc & Hst)%Hin]; [by rewrite <-Hc in Hown|by eapply Hall].
  - destruct Ha as [Ha|(c & Hcc & Hst)%Hin]; [by rewrite <-Ha in Hown|by eapply Hall].
Qed.

(** C22.  While no peer leaves, the outcome that the executor reports is the outcome
    everywhere: when it reports a commit, every part of the transaction is committed, and when it
    reports an abort, every part is aborted, unless its own [commit] has thrown before. *)
Theorem two_phase_all_or_nothing s0 s committed :
  begins s0 -> rtc step s0 s -> s_pc s = Done committed -> committed = true \/ s_threw s = false ->
  Forall (eq (if committed then TxCommitted else TxAborted)) (node_states s).
Proof.
  intros Hb Hrun Hpc Ht.
  assert (phase_inv s) as Hinv.
  { assert (protocol_inv s) as Hinv.
    { apply (net_inv s0); [|by apply begins_inv]. eapply (rtc_congruence id); [|exact Hrun]. intros x y Hxy. by left. }
    unfold protocol_inv, late_inv in Hinv. rewrite Hpc in Hinv. destruct (s_threw s); [|done]. by destruct Ht as [->|?]. }
  assert (complete_inv s) as [_ Hc].
  { assert (complete_inv s0) as H0 by (destruct Hb as (Epc & _ & Hp & _); split; [done|by rewrite Epc]).
    clear Hpc Hinv Hb Ht. induction Hrun; eauto using step_complete. }
  unfold phase_inv in Hinv. rewrite Hpc in Hinv, Hc. unfold node_states.
  destruct committed; destruct Hinv as [Hown Hall]; constructor; try done; apply Forall_fmap, Forall_forall; intros c Hcc; cbn.
  - destruct (Hall c Hcc) as (_ & _ & Hr). symmetry. by apply Hr, Hc.
  - destruct (Hall c Hcc) as (_ & _ & _ & Hr). symmetry. by apply Hr, Hc.
Qed.

End Protocol.

(** ** Runs

    A transaction with the children 1 and 2 *)

Definition demo_start : system :=
  mkSys (PrepareSend [1; 2] [] true) TxPending {[1; 2]} (fun _ => []) (fun _ _ => None) (fun _ => mkPart true TxPending) false.

Lemma demo_begins : begins [1; 2] demo_start.
Proof. split_and!; try done. intros c Hc. cbn. set_solver. Qed.

Lemma demo_once : NoDup [1; 2].
Proof. repeat constructor; set_solver. Qed.

Ltac run_step tac := eapply rtc_l; [tac|].

(** Everybody answers yes. *)
Lemma demo_commits : exists s, rtc (step [1; 2]) demo_start s /\ s_pc s = Done true /\ s_threw s = false.
Proof.
  eexists. split.
  - run_step ltac:(by eapply send_prepare). run_step ltac:(by eapply send_prepare). run_step ltac:(by eapply sent_prepare).
    run_step ltac:(by eapply (own_prepare _ _ _ _ true); [|constructor]).
    run_step ltac:(eapply (serve _ _ 1); [set_solver|reflexivity|eapply (handle_prepare _ (Ok true)); [reflexivity|constructor]]).
    run_step ltac:(eapply (serve _ _ 2); [set_solver|reflexivity|eapply (handle_prepare _ (Ok true)); [reflexivity|constructor]]).
    run_step ltac:(by eapply wait_prepare). run_step ltac:(by eapply wait_prepare). run_step ltac:(by eapply phase_one_ok).
    run_step ltac:(by eapply send_commit). run_step ltac:(by eapply send_commit). run_step ltac:(by eapply sent_commit).
    run_step ltac:(by eapply own_commit; [|constructor]).
    run_step ltac:(eapply (serve _ _ 1); [set_solver|reflexivity|eapply handle_commit; [reflexivity|constructor]]).
    run_step ltac:(eapply (serve _ _ 2); [set_solver|reflexivity|eapply handle_commit; [reflexivity|constructor]]).
    run_step ltac:(by eapply wait_commit). run_step ltac:(by eapply wait_commit). run_step ltac:(by eapply commit_done).
    apply rtc_refl.
  - split; reflexivity.
Qed.

Lemma two_phase_agreement_witness :
  exists s, s_pc s = Done true /\ ~ (TxCommitted ∈ node_states [1; 2] s /\ TxAborted ∈ node_states [1; 2] s).
Proof.
  destruct demo_commits as (s & Hrun & Hpc & Ht). exists s. split; [exact Hpc|].
  apply (two_phase_agreement [1; 2] demo_once demo_start s demo_begins); [|exact Ht].
  eapply (rtc_congruence id); [|exact Hrun]. intros x y Hxy. by left.
Defined.

Lemma two_phase_all_or_nothing_witness :
  exists s, s_pc s = Done true /\ Forall (eq TxCommitted) (node_states [1; 2] s).
Proof.
  destruct demo_commits as (s & Hrun & Hpc & Ht). exists s. split; [exact Hpc|].
  exact (two_phase_all_or_nothing [1; 2] demo_once demo_start s true demo_begins Hrun Hpc (or_introl eq_refl)).
Defined.


(**  A commit is reported although a part of the transaction is lost: between the
    phases a child may leave, [phase_two] logs that it does not find it and goes on.  The
    child stays prepared, with its locks, and no request is under way to it. *)
Theorem commit_without_child :
  exists s, rtc (net_step [1; 2]) demo_start s /\ s_pc s = Done true /\ s_own s = TxCommitted /\
    s_parts s 1 = mkPart false TxCommitted /\ s_parts s 2 = mkPart true TxPrepared /\ s_requests s 2 = [].
Proof.
  eexists. split.
  - run_step ltac:(left; by eapply send_prepare). run_step ltac:(left; by eapply send_prepare). run_step ltac:(left; by eapply sent_prepare).
    run_step ltac:(left; by eapply (own_prepare _ _ _ _ true); [|constructor]).
    run_step ltac:(left; eapply (serve _ _ 1); [set_solver|reflexivity|eapply (handle_prepare _ (Ok true)); [reflexivity|constructor]]).
    run_step ltac:(left; eapply (serve _ _ 2); [set_solver|reflexivity|eapply (handle_prepare _ (Ok true)); [reflexivity|constructor]]).
    run_step ltac:(left; by eapply wait_prepare). run_step ltac:(left; by eapply wait_prepare). run_step ltac:(left; by eapply phase_one_ok).
    run_step ltac:(right; eapply (peer_leaves _ 2); cbn; set_solver).
    run_step ltac:(left; by eapply send_commit). run_step ltac:(left; by eapply send_commit). run_step ltac:(left; by eapply sent_commit).
    run_step ltac:(left; by eapply own_commit; [|constructor]).
    run_step ltac:(left; eapply (serve _ _ 1); [set_solver|reflexivity|eapply handle_commit; [reflexivity|constructor]]).
    run_step ltac:(left; by eapply wait_commit). run_step ltac:(left; by eapply commit_done).
    apply rtc_refl.
  - split_and!; reflexivity.
Qed.

(** The executor's own [commit] throws after the children have been told to commit: the destructor of
    the transaction object aborts what is left, the executor reports that everything is aborted, and
    the children have committed.  Nobody has left. *)
Theorem executor_commit_throw_splits :
  exists s, rtc (step [1; 2]) demo_start s /\ s_pc s = Done false /\ s_threw s = true /\ s_own s = TxAborted /\
    s_parts s 1 = mkPart false TxCommitted /\ s_parts s 2 = mkPart false TxCommitted.
Proof.
  eexists. split.
  - run_step ltac:(by eapply send_prepare). run_step ltac:(by eapply send_prepare). run_step ltac:(by eapply sent_prepare).
    run_step ltac:(by eapply (own_prepare _ _ _ _ true); [|constructor]).
    run_step ltac:(eapply (serve _ _ 1); [set_solver|reflexivity|eapply (handle_prepare _ (Ok true)); [reflexivity|constructor]]).
    run_step ltac:(eapply (serve _ _ 2); [set_solver|reflexivity|eapply (handle_prepare _ (Ok true)); [reflexivity|constructor]]).
    run_step ltac:(by eapply wait_prepare). run_step ltac:(by eapply wait_prepare). run_step ltac:(by eapply phase_one_ok).
    run_step ltac:(by eapply send_commit). run_step ltac:(by eapply send_commit). run_step ltac:(by eapply sent_commit).
    run_step ltac:(by eapply own_commit_throws; [|apply (commit_throws Staleness_detected)]). run_step ltac:(by eapply unwound).
    run_step ltac:(by eapply send_abort). run_step ltac:(by eapply send_abort). run_step ltac:(by eapply sent_abort).
    run_step ltac:(by eapply own_abort; [|apply abort_now; right]).
    run_step ltac:(eapply (serve _ _ 1); [set_solver|reflexivity|eapply handle_commit; [reflexivity|constructor]]).
    run_step ltac:(eapply (serve _ _ 2); [set_solver|reflexivity|eapply handle_commit; [reflexivity|constructor]]).
    run_step ltac:(eapply (serve _ _ 1); [set_solver|reflexivity|by eapply handle_unknown]).
    run_step ltac:(eapply (serve _ _ 2); [set_solver|reflexivity|by eapply handle_unknown]).
    run_step ltac:(by eapply wait_abort). run_step ltac:(by eapply wait_abort). run_step ltac:(by eapply abort_done).
    apply rtc_refl.
  - split_and!; reflexivity.
Qed.
