(* ===== verification/Requests.v ===== *)
(** * Requests

    Models the requests of clients and programs on the objects of the ledger:
    the cases of [RemoteParty::handle_request_upstream_mode] that read and write
    objects, with [handle_request_get_object], [handle_request_has_object] and
    [handle_request_check_object] of [src/enclave/RemoteParty.cpp], on decoded
    messages ([bitstream] in and out), and [Ledger::count_writes], which policy
    programs call. *)

From S2P Require Import Prelude EventId Keys Bitstream Block PageStore Hash HashMap Json Identity.
From S2P Require Import Index ObjectEvent Shard Ledger Find.

Inductive request (D : Type) : Type :=
  | ReqPut (add : bool) (collection full_path : string) (doc : D)
  | ReqRemove (collection key : string)
  | ReqGet (collection full_path : string)
  | ReqHas (collection full_path : string)
  | ReqCheck (collection full_path : string) (predicates : D)
  | ReqHistory (collection key : string)
  | ReqCountWrites (principal collection key : string)
  | ReqFind (collection : string) (predicates : D) (projection : list string) (limit : Z)
  | ReqCountObjects (collection : string) (predicates : D)
  | ReqCreateIndex (collection name : string) (paths : list string)
  | ReqDropIndex (collection name : string).
Arguments ReqPut {D}.
Arguments ReqRemove {D}.
Arguments ReqGet {D}.
Arguments ReqHas {D}.
Arguments ReqCheck {D}.
Arguments ReqHistory {D}.
Arguments ReqCountWrites {D}.
Arguments ReqFind {D}.
Arguments ReqCountObjects {D}.
Arguments ReqCreateIndex {D}.
Arguments ReqDropIndex {D}.

(** [RespObject None] is the answer [INVALID_EVENT] of [handle_request_get_object]. *)
Inductive response (D : Type) : Type :=
  | RespEvent (e : event_id_t)
  | RespObject (o : option (event_id_t * D))
  | RespBool (b : bool)
  | RespHistory (values : list D)
  | RespCount (n : Z)
  | RespFound (objects : list (string * event_id_t * D))
  | RespIndex (changed : bool).
Arguments RespEvent {D}.
Arguments RespObject {D}.
Arguments RespBool {D}.
Arguments RespHistory {D}.
Arguments RespCount {D}.
Arguments RespFound {D}.
Arguments RespIndex {D}.

Section Requests.
Context {B : Type} `{Bitstream B} {S : Type} `{PageStore S (Block B)}.
Context {M : Type} `{KVMap M string event_id_t} {D : Type} `{Json D} {X : Type} `{Index X D}.
Variables (padding : Z) (new_primary : M) (new_index : string -> list string -> result X).
Variable run_program : ledger S M X -> D -> OpContext -> string -> string -> string -> OperationType -> bool.
Variable fuel : nat.

(** The context of the server, and a bound on the versions of an object *)
Variables (server : OpContext) (bound : nat).

Abbreviation L := (ledger S M X).
Implicit Types ctx : OpContext.

Definition handle_put ctx (add : bool) (collection full_path : string) (doc : D) : ST L event_id_t :=
  let '(key, path) := parse_path full_path in
  let write :=
    if add then Ledger_add padding new_primary run_program fuel ctx collection key doc path false
    else Ledger_put padding new_primary run_program fuel ctx collection key doc path false in
  if decide (path <> EmptyString) then
    has ← has_object new_primary collection key;
    if negb has then mret INVALID_EVENT else write
  else if negb (is_valid_key key) then mret INVALID_EVENT
  else write.

Definition handle_request_get_object ctx (collection full_path : string) : ST L (option (event_id_t * D)) :=
  let '(key, path) := parse_path full_path in
  it ← iterate new_primary run_program fuel ctx collection key path;
  '((eid, value, _) : event_id_t * D * object_iterator) ← oit_next run_program fuel it;
  mret (if event_eqb eid INVALID_EVENT then None else Some (eid, value)).

Definition handle_request_has_object (collection full_path : string) : ST L bool :=
  has_object new_primary collection (parse_path full_path).1.

Definition handle_request_check_object ctx (collection full_path : string) (predicates : D) : ST L bool :=
  let '(key, path) := parse_path full_path in
  check new_primary run_program fuel (fun value => matches_predicates value predicates) ctx collection key path.

(** The loop of [GetObjectHistory] *)
Fixpoint history_loop (n : nat) (it : object_iterator) (acc : list D) : ST L (list D) :=
  '((eid, elem, it) : event_id_t * D * object_iterator) ← next_handle run_program fuel it;
  if negb (event_is_valid eid) then mret acc
  else
    val ← lift_res (ev_value elem);
    match n with
    | O => throw (Undefined "out of fuel")
    | Datatypes.S n => history_loop n it (acc ++ [val])
    end.

Definition handle_history ctx (collection key : string) : ST L (list D) :=
  it ← iterate new_primary run_program fuel ctx collection key EmptyString;
  history_loop bound it [].

Definition handle_request ctx (r : request D) : ST L (response D) :=
  match r with
  | ReqPut add collection full_path doc => e ← handle_put ctx add collection full_path doc; mret (RespEvent e)
  | ReqRemove collection key =>
      e ← Ledger_remove padding new_primary run_program fuel ctx collection key false; mret (RespEvent e)
  | ReqGet collection full_path => o ← handle_request_get_object ctx collection full_path; mret (RespObject o)
  | ReqHas collection full_path => b ← handle_request_has_object collection full_path; mret (RespBool b)
  | ReqCheck collection full_path predicates =>
      b ← handle_request_check_object ctx collection full_path predicates; mret (RespBool b)
  | ReqHistory collection key => ds ← handle_history ctx collection key; mret (RespHistory ds)
  | ReqCountWrites principal collection key =>
      n ← count_writes new_primary run_program fuel bound ctx principal collection key; mret (RespCount n)
  | ReqFind collection predicates projection limit =>
      out ← handle_find new_primary run_program fuel ctx collection predicates projection limit; mret (RespFound out)
  | ReqCountObjects collection predicates =>
      n ← count_objects new_primary run_program fuel ctx collection predicates; mret (RespCount n)
  | ReqCreateIndex collection name paths =>
      b ← create_index new_primary new_index run_program fuel server collection name paths; mret (RespIndex b)
  | ReqDropIndex collection name => b ← drop_index new_primary collection name; mret (RespIndex b)
  end.

(** Requests in sequence, each with the context of who sends it *)
Fixpoint handle_requests (rs : list (OpContext * request D)) : ST L (list (response D)) :=
  match rs with
  | [] => mret []
  | (ctx, r) :: rs => a ← handle_request ctx r; as_ ← handle_requests rs; mret (a :: as_)
  end.

Lemma handle_requests_app rs1 rs2 l1 l2 as1 :
  handle_requests rs1 l1 = (Ok as1, l2) ->
  handle_requests (rs1 ++ rs2) l1 = (as2 ← handle_requests rs2; mret (as1 ++ as2)) l2.
Proof.
  revert l1 as1. induction rs1 as [|[ctx r] rs1 IH]; intros l1 as1 E; cbn [app handle_requests] in *.
  { injection E as <- <-. unfold mbind, ST_bind. cbn. by destruct (handle_requests rs2 l1) as [[]]. }
  unfold mbind, ST_bind in *. destruct (handle_request ctx r l1) as [[a|e] l3]; [|done].
  destruct (handle_requests rs1 l3) as [[as_|e] l4] eqn:E3; [|done]. injection E as <- <-.
  rewrite (IH _ _ E3). by destruct (handle_requests rs2 l4) as [[]].
Qed.

Lemma handle_requests_length rs l1 l2 as_ : handle_requests rs l1 = (Ok as_, l2) -> length as_ = length rs.
Proof.
  revert l1 as_. induction rs as [|[ctx r] rs IH]; intros l1 as_ E; cbn [handle_requests] in *; [by injection E as <-|].
  unfold mbind, ST_bind in E. destruct (handle_request ctx r l1) as [[a|e] l3]; [|done].
  destruct (handle_requests rs l3) as [[as2|e] l4] eqn:E3; [|done]. injection E as <- <-. cbn. f_equal. by eapply IH.
Qed.

End Requests.
