(* ===== verification/LedgerStore.v ===== *)
(** * The ledger as a versioned store

    The abstract specification of the ledger: for every object the list of who
    changed it and how, the newest change first.  [spec_request] says what a
    request is answered and what it changes, policies of objects and of
    collections included; the theorems show that the requests of [Requests.v], on
    the blocks, pages and indexes of [Ledger.v], are answered that way. *)

From S2P Require Import Prelude EventId Keys Bitstream Block PageStore Hash HashMap Json Identity.
From S2P Require Import Index ObjectEvent Shard Ledger LedgerSpec Find Requests.

Section Store.
Context {D : Type} `{Json D}.

(** [Some d] is a new version, [None] a deletion. *)
Abbreviation changes := (list (string * option D)).
Abbreviation store := (gmap string (gmap string changes)).

Definition empty_store : store := ∅.

Definition store_col (A : store) (name : string) : gmap string changes := default ∅ (A !! name).

Definition store_at (A : store) (name key : string) : changes := default [] (store_col A name !! key).

Definition store_push (name key : string) (p : string * option D) (A : store) : store :=
  <[name := <[key := p :: store_at A name key]> (store_col A name)]> A.

Definition store_cur (cs : changes) : option D :=
  match cs with (_, r) :: _ => r | [] => None end.

(** The versions since the object was created *)
Fixpoint store_versions (cs : changes) : list (string * D) :=
  match cs with (source, Some d) :: cs => (source, d) :: store_versions cs | _ => [] end.

Fixpoint visible (allow : D -> bool) (vs : list (string * D)) : list (string * D) :=
  match vs with
  | [] => []
  | (source, d) :: vs => if allow d then (source, d) :: visible allow vs else []
  end.

Inductive answer : Type :=
  | AWrote (accepted : bool)
  | AObject (o : option D)
  | ABool (b : bool)
  | AHistory (ds : list D)
  | ACount (n : Z)
  | AFound (objects : gmap string D) (n : Z)
  | AIndex.

Definition answer_of (r : response D) : answer :=
  match r with
  | RespEvent e => AWrote (event_is_valid e)
  | RespObject o => AObject (snd <$> o)
  | RespBool b => ABool b
  | RespHistory ds => AHistory ds
  | RespCount n => ACount n
  | RespFound out => AFound (list_to_map ((fun '(key, _, d) => (key, d)) <$> out)) (Z.of_nat (length out))
  | RespIndex _ => AIndex
  end.

(** What policy programs answer in a store *)
Variable verdict : store -> D -> OpContext -> string -> string -> string -> OperationType -> bool.
Implicit Types (A : store) (ctx : OpContext).

(** The policy of a collection is its object [policy]. *)
Definition col_allows A ctx (name key path : string) (op : OperationType) : bool :=
  negb (ctx_valid ctx) ||
  match store_cur (store_at A name "policy") with None => true | Some d => verdict A d ctx name key path op end.

(** The operation that the policy of the collection is asked about *)
Definition col_op (op : OperationType) : OperationType :=
  match op with RemoveObject => AddToObject | _ => op end.

Definition spec_write A ctx (op : OperationType) (name key path : string) (w : D) : option (option D) :=
  if is_valid_key key && col_allows A ctx name key path (col_op op)
  then write_spec (allows (verdict A) ctx name key path op) op path w (store_cur (store_at A name key))
  else None.

Definition spec_update A ctx (name key : string) (r : option (option D)) : answer * store :=
  match r with
  | Some change => (AWrote true, store_push name key (ctx_to_string ctx, change) A)
  | None => (AWrote false, A)
  end.

Definition spec_read A ctx (name key path : string) : option D :=
  match store_cur (store_at A name key) with
  | None => None
  | Some d =>
      if allows (verdict A) ctx name key path GetObject d then
        if decide (path = EmptyString) then Some d
        else if doc_valid (doc_path d path) then Some (doc_path d path) else None
      else None
  end.

Definition spec_history A ctx (name key : string) : list (string * D) :=
  visible (allows (verdict A) ctx name key EmptyString GetObject) (store_versions (store_at A name key)).

(** The objects that [ctx] may read and that match *)
Definition spec_find A ctx (name : string) (predicates : D) : gmap string D :=
  map_imap (fun key cs => match store_cur cs with
    | Some d => if allows (verdict A) ctx name key EmptyString GetObject d && matches_predicates d predicates
                then Some d else None
    | None => None
    end) (store_col A name).

Definition spec_project (projection : list string) (d : D) : D :=
  if decide (projection = []) then d else doc_view d projection.

Definition put_op (add : bool) : OperationType := if add then AddToObject else PutObject.

(** The write that a request asks for *)
Definition request_write A ctx (r : request D) : option (string * string * option (option D)) :=
  match r with
  | ReqPut add name full_path doc =>
      let '(key, path) := parse_path full_path in
      Some (name, key, spec_write A ctx (put_op add) name key path doc)
  | ReqRemove name key => Some (name, key, spec_write A ctx RemoveObject name key EmptyString doc_null)
  | _ => None
  end.

Definition spec_request A ctx (r : request D) : answer * store :=
  match r with
  | ReqPut _ _ _ _ | ReqRemove _ _ =>
      match request_write A ctx r with
      | Some (name, key, change) => spec_update A ctx name key change
      | None => (AWrote false, A)
      end
  | ReqGet name full_path =>
      let '(key, path) := parse_path full_path in (AObject (spec_read A ctx name key path), A)
  | ReqHas name full_path => (ABool (bool_decide (is_Some (store_cur (store_at A name (parse_path full_path).1)))), A)
  | ReqCheck name full_path predicates =>
      let '(key, path) := parse_path full_path in
      (ABool (match spec_read A ctx name key path with Some d => matches_predicates d predicates | None => false end), A)
  | ReqHistory name key => (AHistory (spec_history A ctx name key).*2, A)
  | ReqCountWrites principal name key =>
      (ACount (Z.of_nat (length (filter (fun p => p.1 = principal) (spec_history A ctx name key)))), A)
  | ReqFind name predicates projection _ =>
      let found := spec_find A ctx name predicates in
      (AFound (spec_project projection <$> found) (Z.of_nat (size found)), A)
  | ReqCountObjects name predicates => (ACount (u32 (Z.of_nat (size (spec_find A ctx name predicates)))), A)
  | ReqCreateIndex _ _ _ | ReqDropIndex _ _ => (AIndex, A)
  end.

Fixpoint spec_requests A (rs : list (OpContext * request D)) : list answer * store :=
  match rs with
  | [] => ([], A)
  | (ctx, r) :: rs =>
      let '(a, A') := spec_request A ctx r in
      let '(as_, A'') := spec_requests A' rs in (a :: as_, A'')
  end.

Lemma store_at_push name key p A name' key' :
  store_at (store_push name key p A) name' key' =
  if decide (name' = name /\ key' = key) then p :: store_at A name key else store_at A name' key'.
Proof.
  unfold store_push, store_at at 1, store_col at 1. destruct (decide (name' = name)) as [->|Hn].
  - rewrite lookup_insert_eq. cbn. destruct (decide (key' = key)) as [->|Hk].
    + by rewrite lookup_insert_eq, decide_True.
    + rewrite lookup_insert_ne, decide_False by naive_solver. done.
  - rewrite lookup_insert_ne, decide_False by naive_solver. done.
Qed.

End Store.

(** ** Ledgers and stores *)

Section Sim.
Context {B : Type} `{BitstreamLaws B} {S : Type} `{PageStoreLaws S (Block B)}.
Context {M : Type} `{KVMap M string event_id_t} `{!KVMapLaws M string event_id_t} {D : Type} `{JsonLaws D} {X : Type} `{Index X D} `{!IndexLaws X D}.
Variables (padding : Z) (new_primary : M) (new_index : string -> list string -> result X) (room0 cap : Z).
Variable run_program : ledger S M X -> D -> OpContext -> string -> string -> string -> OperationType -> bool.
Variables (fuel bound : nat) (server : OpContext).
Hypothesis new_primary_rep : kv_rep new_primary (fun _ => None) room0.
Hypothesis new_index_rep : forall idx paths, ix_usable paths -> exists x, new_index idx paths = Ok x /\ ix_rep x [] (2 * room0).
Hypothesis index_keys : forall key, kv_key key -> ix_key key.
Hypothesis eid_values : forall e, eid_ok e -> kv_value e.
Hypothesis cap_range : 0 <= cap <= 2 ^ 31.

Abbreviation L := (ledger S M X).
Abbreviation store := (gmap string (gmap string (list (string * option D)))).
Abbreviation rep := (ledger_rep_but room0 cap).
Implicit Types (l : L) (lg : log) (A : store) (ctx : OpContext) (Hs : string -> string -> list (event_id_t * D)).

Definition change_of (h : D) : string * option D :=
  (ev_source h, if decide (ev_get_type h = NewVersion) then Some (doc_item h FIELD_VALUE) else None).

Definition store_of Hs A : Prop := forall name key, store_at A name key = change_of <$> (Hs name key).*2.

(** Policy programs see what is stored, and not how. *)
Definition programs_see_store (verdict : store -> D -> OpContext -> string -> string -> string -> OperationType -> bool) : Prop :=
  forall ex l lg Hs n A policy ctx name key path op, rep ex l lg Hs n -> store_of Hs A ->
    run_program l policy ctx name key path op = verdict A policy ctx name key path op.

Variable verdict : store -> D -> OpContext -> string -> string -> string -> OperationType -> bool.
Hypothesis programs : programs_see_store verdict.

(** They do not ask which indexes there are either. *)
Hypothesis programs_blind : forall l policy ctx name key path op,
  run_program (strip l) policy ctx name key path op = run_program l policy ctx name key path op.

Lemma store_decides Hs A : store_of Hs A -> decides room0 cap run_program Hs (verdict A).
Proof. intros HA ex l lg n policy ctx name key path op Hr. by eapply programs. Qed.

Lemma store_of_cur Hs A name key : store_of Hs A -> store_cur (store_at A name key) = cur_doc (Hs name key).
Proof.
  intros ->. unfold cur_doc. destruct (Hs name key) as [|[e h] es]; [done|]. cbn. by case_decide.
Qed.

(** The versions of the events of an object are those of its changes. *)
Lemma store_versions_of (es : list (event_id_t * D)) :
  LedgerSpec.chain es -> Forall (fun p => eid_ok p.1) es ->
  store_versions (change_of <$> es.*2) = (fun p => (ev_source p.2, doc_item p.2 FIELD_VALUE)) <$> versions es.
Proof.
  induction es as [|[e h] es IH]; [done|]. intros Hc Hok. apply Forall_cons in Hok as [_ Hok].
  cbn. case_decide as Ht; [|done]. cbn. f_equal.
  inversion Hc as [|e1 source doc tx es0 Hc0 Hd|e1 source doc tx e0 h0 es0 Hc0 Ht0 Hv|e1 source tx e0 h0 es0 Hc0 Ht0];
    subst.
  - destruct (version_doc_fields source INVALID_BLOCK 0 doc INITIAL_VERSION_NO tx) as [_ _ _ Eb _ _]; [done..|].
    unfold ev_has_predecessor. rewrite Eb. cbn. destruct es as [|[e0 h0] es]; [done|]. cbn in *.
    by rewrite decide_False by congruence.
  - pose proof Hok as Hok'. apply Forall_cons in Hok' as [(_ & Hb & Hi & Hpos) _].
    destruct (version_doc_fields source (ev_block e0) (ev_index e0) doc (ev_version_number h0 + 1) tx) as [_ _ _ Eb _ _];
      [done..|].
    unfold ev_has_predecessor. rewrite Eb. cbn in Hpos.
    destruct (Z.eqb_spec (ev_block e0) INVALID_BLOCK) as [E|_]; [unfold INVALID_BLOCK in E; lia|]. by apply IH.
  - apply Forall_cons in Hok as [(_ & Hb & Hi & _) _].
    destruct (tombstone_doc_fields source (ev_block e0) (ev_index e0) tx) as [_ Et _ _ _ _]; [done..|]. congruence.
Qed.

Lemma visible_of allow (vs : list (event_id_t * D)) :
  visible allow ((fun p => (ev_source p.2, doc_item p.2 FIELD_VALUE)) <$> vs) =
  (fun p => (ev_source p.2, doc_item p.2 FIELD_VALUE)) <$> while_allowed allow vs.
Proof. induction vs as [|[e h] vs IH]; [done|]. cbn. destruct (allow _); [|done]. cbn. by rewrite IH. Qed.

Lemma spec_history_of ex l lg Hs n A ctx name key : rep ex l lg Hs n -> store_of Hs A ->
  spec_history verdict A ctx name key = (fun p => (ev_source p.2, doc_item p.2 FIELD_VALUE)) <$>
    while_allowed (allows (verdict A) ctx name key EmptyString GetObject) (versions (Hs name key)).
Proof.
  intros Hr HA. unfold spec_history. rewrite HA, store_versions_of; [apply visible_of|apply Hr|].
  eapply entries_eid_ok, Hr.
Qed.

(** *** Reading *)

(** No object has the empty key. *)
Definition no_empty_key Hs : Prop := forall name, Hs name EmptyString = [].

Lemma iterate_ok ex l lg Hs n v ctx name key path :
  rep ex l lg Hs n -> no_empty_key Hs -> decides room0 cap run_program Hs v ->
  let allow := allows v ctx name key path GetObject in
  wp (iterate new_primary run_program fuel ctx name key path) (fun it l' => rep ex l' lg Hs n /\
    it_for ctx name key path it /\ it_rep allow (Hs name key) it (while_allowed allow (versions (Hs name key)))) l.
Proof.
  intros Hr Hne Hdec allow. unfold iterate. apply wp_bind.
  eapply wp_mono; [eapply get_latest_version_any; [done|apply Hne|done]|]. cbv beta.
  intros [eid start] l' [E Hr']. fold allow in E. apply wp_ret. split_and!; [done..|]. apply it_rep_start; cbn; [|by rewrite <-E..].
  unfold handle_valid. apply doc_null_invalid.
Qed.

Lemma read_ok ex l lg Hs n A ctx name key path :
  rep ex l lg Hs n -> no_empty_key Hs -> store_of Hs A ->
  wp (it ← iterate new_primary run_program fuel ctx name key path; oit_next run_program fuel it)
    (fun r l' => rep ex l' lg Hs n /\
      match spec_read verdict A ctx name key path with
      | Some d => event_is_valid r.1.1 = true /\ r.1.2 = d
      | None => r.1.1 = INVALID_EVENT
      end) l.
Proof.
  intros Hr Hne HA. pose proof (store_decides _ _ HA) as Hdec. apply wp_bind.
  eapply wp_mono; [by eapply iterate_ok|]. cbv beta. intros it l1 (Hr1 & Hfor & Hit).
  unfold oit_next. apply wp_bind. eapply wp_mono; [by eapply next_handle_ok|]. cbv beta.
  intros [[eid hdl] it1] l2 (Hr2 & (_ & _ & _ & Hp) & Hres). cbn [fst snd] in *.
  unfold spec_read. rewrite (store_of_cur _ _ _ _ HA). unfold cur_doc.
  destruct (current (Hs name key)) as [[e h]|] eqn:Hc.
  - destruct (current_Some _ _ _ _ _ Hc) as (es & E & Ht). rewrite E in Hres. cbn [versions] in Hres.
    rewrite decide_True in Hres by done. cbn [while_allowed fmap option_fmap option_map snd] in *.
    destruct (allows (verdict A) ctx name key path GetObject (doc_item h FIELD_VALUE)).
    + destruct Hres as (Hv & -> & Hh & _). rewrite Hh, Hp. cbn [negb]. apply wp_bind.
      unfold ev_value_path, ev_value, lift_res, wp at 1. rewrite Hh. case_decide; [by apply wp_ret|].
      destruct (doc_valid (doc_path (doc_item h FIELD_VALUE) path)); by apply wp_ret.
    + destruct Hres as [-> ->]. by apply wp_ret.
  - assert (versions (Hs name key) = []) as Ev.
    { unfold current in Hc. destruct (Hs name key) as [|[e h] es]; [done|]. cbn. by case_decide. }
    rewrite Ev in Hres. destruct Hres as [-> ->]. by apply wp_ret.
Qed.

Lemma event_eqb_invalid e : event_is_valid e = true -> event_eqb e INVALID_EVENT = false.
Proof.
  intros Hv. destruct (event_eqb e INVALID_EVENT) eqn:E; [|done]. apply event_eqb_eq in E. by subst.
Qed.

Lemma get_object_ok ex l lg Hs n A ctx name full_path :
  rep ex l lg Hs n -> no_empty_key Hs -> store_of Hs A ->
  let '(key, path) := parse_path full_path in
  wp (handle_request_get_object new_primary run_program fuel ctx name full_path) (fun o l' => rep ex l' lg Hs n /\
    snd <$> o = spec_read verdict A ctx name key path) l.
Proof.
  intros Hr Hne HA. unfold handle_request_get_object. destruct (parse_path full_path) as [key path].
  pose proof (read_ok ex l lg Hs n A ctx name key path Hr Hne HA) as Hread.
  apply wp_bind_inv in Hread. apply wp_bind. eapply wp_mono; [exact Hread|]. cbv beta. intros it l1 Hnext.
  apply wp_bind. eapply wp_mono; [exact Hnext|]. cbv beta. intros [[eid value] it1] l2 [Hr2 Hres]. apply wp_ret.
  split; [done|]. cbn [fst snd] in Hres. destruct (spec_read verdict A ctx name key path).
  - destruct Hres as [Hv <-]. by rewrite event_eqb_invalid.
  - by subst eid.
Qed.

Lemma has_object_ok ex l lg Hs n A name key :
  rep ex l lg Hs n -> store_of Hs A ->
  wp (has_object new_primary name key)
    (fun b l' => rep ex l' lg Hs n /\ b = bool_decide (is_Some (store_cur (store_at A name key)))) l.
Proof.
  intros Hr HA. unfold has_object. rewrite (store_of_cur _ _ _ _ HA). apply wp_bind, wp_get.
  destruct (l_cols l !! name) as [c|] eqn:Hc.
  - apply wp_bind. eapply wp_mono; [by eapply primary_get_ok|]. cbv beta. intros r l1 [-> Hr1].
    destruct (Hs name key) as [|[e h] es] eqn:E; cbn [head fmap option_fmap option_map fst]; [by apply wp_ret|].
    destruct (head_parses _ _ _ _ _ _ _ _ _ _ _ _ Hr E) as (_ & Hp & _ & Ht). apply wp_bind.
    eapply wp_mono; [eapply (get_event_ok _ _ _ _ _ _ _ name key); [done|rewrite E; left|done]|].
    cbv beta. intros d l2 [-> Hr2]. apply wp_ret. split; [done|]. unfold cur_doc. cbn.
    destruct Ht as [Ht|Ht]; rewrite Ht; [by rewrite decide_True|]. by rewrite decide_False.
  - pose proof (lr_cols _ _ _ _ _ _ _ Hr name) as Hcol. rewrite Hc in Hcol. rewrite Hcol. by apply wp_ret.
Qed.

Lemma check_ok ex l lg Hs n A ctx name key path predicates :
  rep ex l lg Hs n -> no_empty_key Hs -> store_of Hs A ->
  wp (check new_primary run_program fuel (fun d => matches_predicates d predicates) ctx name key path)
    (fun b l' => rep ex l' lg Hs n /\
      b = match spec_read verdict A ctx name key path with Some d => matches_predicates d predicates | None => false end) l.
Proof.
  intros Hr Hne HA. pose proof (read_ok ex l lg Hs n A ctx name key path Hr Hne HA) as Hread.
  apply wp_bind_inv in Hread. unfold check. apply wp_bind. eapply wp_mono; [exact Hread|]. cbv beta. intros it l1 Hnext.
  apply wp_bind. eapply wp_mono; [exact Hnext|]. cbv beta. intros [[eid value] it1] l2 [Hr2 Hres].
  cbn [fst snd] in Hres. destruct (spec_read verdict A ctx name key path).
  - destruct Hres as [-> <-]. by apply wp_ret.
  - subst eid. by apply wp_ret.
Qed.

Lemma check_object_ok ex l lg Hs n A ctx name full_path predicates :
  rep ex l lg Hs n -> no_empty_key Hs -> store_of Hs A ->
  let '(key, path) := parse_path full_path in
  wp (handle_request_check_object new_primary run_program fuel ctx name full_path predicates)
    (fun b l' => rep ex l' lg Hs n /\
      b = match spec_read verdict A ctx name key path with Some d => matches_predicates d predicates | None => false end) l.
Proof.
  intros Hr Hne HA. unfold handle_request_check_object. destruct (parse_path full_path) as [key path]. by apply check_ok.
Qed.

Lemma history_loop_ok ex l lg Hs n v ctx name key path it todo k acc :
  rep ex l lg Hs n -> decides room0 cap run_program Hs v -> it_for ctx name key path it ->
  it_rep (allows v ctx name key path GetObject) (Hs name key) it todo -> (length todo <= k)%nat ->
  wp (history_loop run_program fuel k it acc)
    (fun ds l' => rep ex l' lg Hs n /\ ds = acc ++ ((fun p => doc_item p.2 FIELD_VALUE) <$> todo)) l.
Proof.
  revert l it todo acc. induction k as [|k IH]; intros l it todo acc Hr Hdec Hfor Hit Hk; cbn [history_loop];
    (apply wp_bind; eapply wp_mono; [by eapply next_handle_ok|]); cbv beta;
    intros [[eid hdl] it1] l1 (Hr1 & Hfor1 & Hres); cbn [fst snd] in *; destruct todo as [|[e h] todo].
  1, 3: destruct Hres as [-> _]; apply wp_ret; cbn; by rewrite app_nil_r.
  - cbn in Hk. lia.
  - destruct Hres as (Hv & -> & Hh & Hit1). rewrite Hv. cbn [negb]. apply wp_bind.
    unfold ev_value, lift_res, wp at 1. rewrite Hh. cbn in Hk.
    eapply wp_mono; [apply (IH _ _ todo); [done..|lia]|]. cbv beta. intros ds l2 [Hr2 ->]. split; [done|].
    by rewrite <-app_assoc.
Qed.

Lemma count_writes_loop_ok ex l lg Hs n v ctx principal name key path it todo k (res : Z) :
  rep ex l lg Hs n -> decides room0 cap run_program Hs v -> it_for ctx name key path it ->
  it_rep (allows v ctx name key path GetObject) (Hs name key) it todo -> (length todo <= k)%nat ->
  0 <= res -> res + Z.of_nat (length todo) < 2 ^ 32 ->
  wp (count_writes_loop run_program fuel k principal it res)
    (fun c l' => rep ex l' lg Hs n /\
      c = res + Z.of_nat (length (filter (fun p => ev_source p.2 = principal) todo))) l.
Proof.
  revert l it todo res. induction k as [|k IH]; intros l it todo res Hr Hdec Hfor Hit Hk Hres0 Hsmall;
    cbn [count_writes_loop]; (apply wp_bind; eapply wp_mono; [by eapply next_handle_ok|]); cbv beta;
    intros [[eid hdl] it1] l1 (Hr1 & Hfor1 & Hres); cbn [fst snd] in *; destruct todo as [|[e h] todo].
  1, 3: destruct Hres as [-> _]; apply wp_ret; cbn; split; [done|lia].
  - cbn in Hk. lia.
  - destruct Hres as (Hv & -> & Hh & Hit1). rewrite Hv. cbn [negb]. cbn [length] in *. rewrite filter_cons. cbn [snd].
    destruct (decide (ev_source h = principal)).
    + rewrite (wrap_small 32) by (unfold in_range; lia).
      eapply wp_mono; [apply (IH _ _ todo); [done..|lia|lia|lia]|]. cbv beta. intros c l2 [Hr2 ->].
      split; [done|]. cbn [length]. lia.
    + eapply wp_mono; [apply (IH _ _ todo); [done..|lia|lia|lia]|]. cbv beta. by intros c l2 [Hr2 ->].
Qed.

Lemma while_allowed_length allow (vs : list (event_id_t * D)) : (length (while_allowed allow vs) <= length vs)%nat.
Proof. induction vs as [|[e h] vs IH]; [done|]. cbn. destruct (allow _); cbn; lia. Qed.

Lemma versions_length (es : list (event_id_t * D)) : (length (versions es) <= length es)%nat.
Proof.
  induction es as [|[e h] es IH]; [done|]. cbn. case_decide; cbn; [|lia]. destruct (ev_has_predecessor h); cbn; lia.
Qed.

Lemma todo_length allow (es : list (event_id_t * D)) : (length (while_allowed allow (versions es)) <= length es)%nat.
Proof. etrans; [apply while_allowed_length|apply versions_length]. Qed.

Lemma handle_history_ok ex l lg Hs n A ctx name key :
  rep ex l lg Hs n -> no_empty_key Hs -> store_of Hs A -> (length (Hs name key) <= bound)%nat ->
  wp (handle_history new_primary run_program fuel bound ctx name key)
    (fun ds l' => rep ex l' lg Hs n /\ ds = (spec_history verdict A ctx name key).*2) l.
Proof.
  intros Hr Hne HA Hb. pose proof (store_decides _ _ HA) as Hdec. unfold handle_history. apply wp_bind.
  eapply wp_mono; [by eapply iterate_ok|]. cbv beta. intros it l1 (Hr1 & Hfor & Hit).
  eapply wp_mono; [eapply history_loop_ok; [done..|by etrans; [apply todo_length|]]|]. cbv beta.
  intros ds l2 [Hr2 ->]. split; [done|]. erewrite spec_history_of by done. by rewrite <-list_fmap_compose.
Qed.

Lemma filter_sources (principal : string) (vs : list (event_id_t * D)) :
  length (filter (fun p => p.1 = principal) ((fun p => (ev_source p.2, doc_item p.2 FIELD_VALUE)) <$> vs)) =
  length (filter (fun p => ev_source p.2 = principal) vs).
Proof.
  induction vs as [|[e h] vs IH]; [done|]. cbn [fmap list_fmap]. rewrite !filter_cons. cbn [fst snd].
  destruct (decide (ev_source h = principal)); cbn [length]; congruence.
Qed.

Lemma count_writes_ok ex l lg Hs n A ctx principal name key :
  rep ex l lg Hs n -> 0 <= n -> no_empty_key Hs -> store_of Hs A -> (length (Hs name key) <= bound)%nat ->
  wp (count_writes new_primary run_program fuel bound ctx principal name key) (fun c l' => rep ex l' lg Hs n /\
    c = Z.of_nat (length (filter (fun p => p.1 = principal) (spec_history verdict A ctx name key)))) l.
Proof.
  intros Hr Hn Hne HA Hb. pose proof (store_decides _ _ HA) as Hdec. unfold count_writes. apply wp_bind.
  eapply wp_mono; [by eapply iterate_ok|]. cbv beta. intros it l1 (Hr1 & Hfor & Hit).
  pose proof (lr_length _ _ _ _ _ _ _ Hr name key) as Hlen.
  pose proof (todo_length (allows (verdict A) ctx name key EmptyString GetObject) (Hs name key)) as Htodo.
  eapply wp_mono; [eapply count_writes_loop_ok; [done..|by etrans|lia|lia]|]. cbv beta.
  intros c l2 [Hr2 ->]. split; [done|]. erewrite spec_history_of by done. by rewrite filter_sources.
Qed.

(** *** Queries *)

Lemma spec_find_lookup Hs A ctx name p key : store_of Hs A ->
  spec_find verdict A ctx name p !! key =
  (fun q => doc_item q.2 FIELD_VALUE) <$> hit (reads (verdict A) ctx name) Hs name p key.
Proof.
  intros HA. unfold spec_find, hit, reads. rewrite map_lookup_imap.
  pose proof (store_of_cur _ _ name key HA) as Hcur. unfold store_at, cur_doc in Hcur.
  destruct (current (Hs name key)) as [[e h]|]; destruct (store_col A name !! key) as [cs|]; cbn in *;
    rewrite ?Hcur; try done. by destruct (_ && _).
Qed.

Lemma elem_of_hits ex l lg Hs n allow name p keys key q :
  rep ex l lg Hs n -> (forall key, wanted Hs name p key -> key ∈ keys) ->
  (key, q) ∈ hits allow Hs name p keys <-> hit allow Hs name p key = Some q.
Proof.
  intros Hr Hkeys. unfold hits. rewrite list_elem_of_omap. split.
  - by intros (k & _ & (? & Hh & [= -> ->])%fmap_Some).
  - intros Hh. exists key. rewrite Hh. split; [|done]. apply Hkeys. unfold hit in Hh.
    destruct (current (Hs name key)) as [[e h]|] eqn:Hc; [|done]. destruct (allow _ _); [|done]. cbn in Hh.
    destruct (matches_predicates _ _) eqn:Hm; [|done]. destruct (current_Some _ _ _ _ _ Hc) as (es & E & _).
    exists e, h. split_and!; [done| |done]. by destruct (head_parses _ _ _ _ _ _ _ _ _ _ _ _ Hr E).
Qed.

Lemma hits_nodup allow Hs name p keys : NoDup keys -> NoDup (hits allow Hs name p keys).*1.
Proof.
  induction keys as [|key keys IH]; intros Hnd; [constructor|]. apply NoDup_cons in Hnd as [Hk Hnd].
  unfold hits. cbn [omap list_omap]. destruct (hit _ Hs name p key); cbn; [|by apply IH]. constructor; [|by apply IH].
  intros ([k q] & -> & Hq)%list_elem_of_fmap. by apply list_elem_of_omap in Hq as (k' & Hk' & (? & _ & [= -> ->])%fmap_Some).
Qed.

(** What a query finds does not depend on the keys it has looked at besides. *)
Lemma hits_perm ex l lg Hs n allow name p keys keys' :
  rep ex l lg Hs n -> NoDup keys -> NoDup keys' -> (forall key, wanted Hs name p key -> key ∈ keys) ->
  (forall key, wanted Hs name p key -> key ∈ keys') -> hits allow Hs name p keys ≡ₚ hits allow Hs name p keys'.
Proof.
  intros Hr Hnd Hnd' Hk Hk'. apply NoDup_Permutation; [by eapply NoDup_fmap_1, hits_nodup..|].
  intros [key q]. by rewrite !(elem_of_hits _ _ _ _ _ _ _ _ _ _ _ Hr).
Qed.

Lemma hits_found ex l lg Hs n A ctx name p keys :
  rep ex l lg Hs n -> store_of Hs A -> NoDup keys -> (forall key, wanted Hs name p key -> key ∈ keys) ->
  let hs := hits (reads (verdict A) ctx name) Hs name p keys in
  NoDup ((fun '(key, (e, h)) => (key, doc_item h FIELD_VALUE)) <$> hs).*1 /\
  list_to_map ((fun '(key, (e, h)) => (key, doc_item h FIELD_VALUE)) <$> hs) = spec_find verdict A ctx name p.
Proof.
  intros Hr HA Hnd Hkeys hs.
  assert (((fun '(key, (e, h)) => (key, doc_item h FIELD_VALUE)) <$> hs).*1 = hs.*1) as E.
  { rewrite <-list_fmap_compose. apply list_fmap_ext. by intros ? [key [e h]] _. }
  assert (NoDup hs.*1) as Hnd' by (by apply hits_nodup).
  rewrite E. split; [done|]. apply map_eq. intros key. rewrite (spec_find_lookup _ _ _ _ _ _ HA).
  pose proof (fun q => elem_of_hits _ _ _ _ _ (reads (verdict A) ctx name) _ _ keys key q Hr Hkeys) as Hin.
  destruct (hit (reads (verdict A) ctx name) Hs name p key) as [[e h]|] eqn:Eh; cbn.
  - apply elem_of_list_to_map_1; [by rewrite E|]. apply list_elem_of_fmap. exists (key, (e, h)). split; [done|].
    by apply Hin.
  - apply not_elem_of_list_to_map_1. rewrite E. intros ([k q] & -> & Hq)%list_elem_of_fmap. by apply Hin in Hq.
Qed.

Lemma found_answer ex l lg Hs n A ctx name p keys projection :
  rep ex l lg Hs n -> store_of Hs A -> NoDup keys -> (forall key, wanted Hs name p key -> key ∈ keys) ->
  let out := (fun '(key, (e, h)) => (key, e, if decide (projection = []) then doc_item h FIELD_VALUE
      else doc_view (doc_item h FIELD_VALUE) projection)) <$> hits (reads (verdict A) ctx name) Hs name p keys in
  answer_of (RespFound out) = AFound (spec_project projection <$> spec_find verdict A ctx name p)
    (Z.of_nat (size (spec_find verdict A ctx name p))).
Proof.
  intros Hr HA Hnd Hkeys out. destruct (hits_found _ _ _ _ _ _ ctx _ _ _ Hr HA Hnd Hkeys) as [Hnd' Hm].
  subst out. cbn. set (hs := hits _ _ _ _ _) in *. rewrite <-Hm. f_equal.
  - rewrite <-list_to_map_fmap, <-!list_fmap_compose. f_equal. apply list_fmap_ext. by intros ? [key [e h]] _.
  - rewrite map_size_list_to_map by done. by rewrite !length_fmap.
Qed.

(** The keys and documents of a result are those of the abstract store, each once. *)
Lemma found_once ex l lg Hs n A ctx name p keys projection :
  rep ex l lg Hs n -> store_of Hs A -> NoDup keys -> (forall key, wanted Hs name p key -> key ∈ keys) ->
  let out := (fun '(key, (e, h)) => (key, e, if decide (projection = []) then doc_item h FIELD_VALUE
      else doc_view (doc_item h FIELD_VALUE) projection)) <$> hits (reads (verdict A) ctx name) Hs name p keys in
  (fun '(key, _, d) => (key, d)) <$> out ≡ₚ map_to_list (spec_project projection <$> spec_find verdict A ctx name p).
Proof.
  intros Hr HA Hnd Hkeys out. destruct (hits_found _ _ _ _ _ _ ctx _ _ _ Hr HA Hnd Hkeys) as [Hnd' Hm].
  rewrite <-Hm, <-list_to_map_fmap. set (hs := hits _ _ _ _ _) in *.
  assert (((fun '(key, _, d) => (key, d)) <$> out) =
    prod_map id (spec_project projection) <$> ((fun '(key, (e, h)) => (key, doc_item h FIELD_VALUE)) <$> hs)) as ->.
  { unfold out. rewrite <-!list_fmap_compose. apply list_fmap_ext. by intros ? [key [e h]] _. }
  symmetry. apply map_to_list_to_map. rewrite <-list_fmap_compose.
  erewrite (list_fmap_ext _ fst); [exact Hnd'|]. by intros ? [key d] _.
Qed.

Lemma count_answer ex l lg Hs n A ctx name p keys :
  rep ex l lg Hs n -> store_of Hs A -> NoDup keys -> (forall key, wanted Hs name p key -> key ∈ keys) ->
  length (hits (reads (verdict A) ctx name) Hs name p keys) = size (spec_find verdict A ctx name p).
Proof.
  intros Hr HA Hnd Hkeys. destruct (hits_found _ _ _ _ _ _ ctx _ _ _ Hr HA Hnd Hkeys) as [Hnd' Hm].
  by rewrite <-Hm, map_size_list_to_map, length_fmap.
Qed.

(** *** Writing *)

Lemma check_collection_policy_ok ex l lg Hs n A ctx name key path op :
  rep ex l lg Hs n -> no_empty_key Hs -> store_of Hs A ->
  wp (check_collection_policy new_primary run_program fuel ctx name key path op)
    (fun b l' => rep ex l' lg Hs n /\ b = col_allows verdict A ctx name key path op) l.
Proof.
  intros Hr Hne HA. unfold check_collection_policy, col_allows. destruct (ctx_valid ctx); cbn [negb orb]; [|by apply wp_ret].
  set (ctx0 := mkContext INVALID_IDENTITY EmptyString).
  pose proof (read_ok ex l lg Hs n A ctx0 name "policy" EmptyString Hr Hne HA) as Hread. apply wp_bind_inv in Hread.
  apply wp_bind. eapply wp_mono; [exact Hread|]. cbv beta. intros it l1 Hnext.
  apply wp_bind. eapply wp_mono; [exact Hnext|]. cbv beta. intros [[eid value] it1] l2 [Hr2 Hres].
  assert (spec_read verdict A ctx0 name "policy" EmptyString = store_cur (store_at A name "policy")) as E.
  { unfold spec_read, allows. destruct (store_cur (store_at A name "policy")); [|done]. by rewrite orb_true_r. }
  rewrite E in Hres. cbn [fst snd] in Hres. destruct (store_cur (store_at A name "policy")).
  - destruct Hres as [-> ->]. cbn [negb]. apply wp_bind, wp_get, wp_ret. split; [done|]. by eapply programs.
  - subst eid. by apply wp_ret.
Qed.

(** A ledger that holds the store [A] and has room for [n] more writes *)
Definition sim l lg A (n : Z) : Prop := exists Hs, rep ∅ l lg Hs n /\ store_of Hs A /\ no_empty_key Hs /\
  forall name key, Z.of_nat (length (Hs name key)) + n <= Z.of_nat bound.

Lemma sim_le l lg A n n' : n' <= n -> sim l lg A n -> sim l lg A n'.
Proof.
  intros Hle (Hs & Hr & HA & Hne & Hb). exists Hs. split_and!; [by eapply ledger_rep_le|done|done|].
  intros name key. specialize (Hb name key). lia.
Qed.

Lemma change_of_event source r h : event_is source r h -> change_of h = (source, r).
Proof.
  intros [Hs Hr]. unfold change_of. rewrite Hs. destruct r as [d|].
  - destruct Hr as [Ht Hv]. rewrite decide_True by done. unfold ev_value in Hv. destruct (handle_valid h); congruence.
  - by rewrite decide_False by congruence.
Qed.

Lemma store_of_push Hs A name key e h source r :
  store_of Hs A -> event_is source r h ->
  store_of (hist_push name key (e, h) Hs) (store_push name key (source, r) A).
Proof.
  intros HA Hev name' key'. rewrite store_at_push. unfold hist_push. case_decide; [|apply HA].
  cbn. rewrite (change_of_event _ _ _ Hev). f_equal. apply HA.
Qed.

(** What a write leaves: the ledger holds the changed store, and the event can
    be read under the identifier that is returned. *)
Definition wrote lg A ctx name key n (r : option (option D)) (e : event_id_t) (l' : L) : Prop :=
  exists lg', log_le lg lg' /\
    match r with
    | None => e = INVALID_EVENT /\ sim l' lg' A (n - 1)
    | Some change => eid_ok e /\ sim l' lg' (store_push name key (ctx_to_string ctx, change) A) (n - 1) /\
        exists h, event_is (ctx_to_string ctx) change h /\ log_entry lg' e (doc_bytes h) /\ doc_parse (doc_bytes h) = h
    end.

Definition can_write ctx (key : string) (r : option (option D)) : Prop :=
  ctx_valid ctx = true /\ (is_valid_key key = true -> kv_key key) /\ write_fits cap ctx INVALID_LEDGER_POS r.

Lemma sim_push l lg lg' Hs A n name key e h source change :
  rep ∅ l lg' (hist_push name key (e, h) Hs) (n - 1) -> store_of Hs A -> no_empty_key Hs -> key <> EmptyString ->
  (forall name key, Z.of_nat (length (Hs name key)) + n <= Z.of_nat bound) -> event_is source change h ->
  sim l lg' (store_push name key (source, change) A) (n - 1) /\
  log_entry lg' e (doc_bytes h) /\ doc_parse (doc_bytes h) = h.
Proof.
  intros Hr HA Hne Hkey Hb Hev. split.
  - eexists. split_and!; [exact Hr|by apply store_of_push| |].
    + intros name'. rewrite hist_push_ne by (by intros [_ ?]). apply Hne.
    + intros name' key'. unfold hist_push. case_decide; [cbn [length]; specialize (Hb name key)|specialize (Hb name' key')]; lia.
  - pose proof (hist_push_eq name key (e, h) Hs) as E. split.
    + pose proof (lr_entries _ _ _ _ _ _ _ Hr name key) as He. rewrite E in He.
      by apply Forall_cons in He as [(_ & ? & _) _].
    + by destruct (head_parses _ _ _ _ _ _ _ _ _ _ _ _ Hr E) as (_ & ? & _).
Qed.

Lemma write_ok l lg A n ctx op name key path w :
  sim l lg A n -> 0 < n -> is_write op ->
  let r := spec_write verdict A ctx op name key path w in can_write ctx key r ->
  wp (ok ← prepare_write new_primary run_program fuel ctx name key path (col_op op);
      if ok : bool then apply_write padding new_primary run_program fuel ctx name key w path false op INVALID_LEDGER_POS
      else mret INVALID_EVENT) (wrote lg A ctx name key n r) l.
Proof.
  intros Hsim Hn Hop r (Hctx & Hkv & Hfit). pose proof Hsim as (Hs & Hr & HA & Hne & Hb).
  subst r. unfold prepare_write, spec_write in *. apply wp_bind.
  destruct (is_valid_key key) eqn:Hkey; cbn [negb andb] in *.
  2: { do 2 apply wp_ret. exists lg. split_and!; [done..|]. eapply sim_le; [|done]. lia. }
  eapply wp_mono; [by eapply check_collection_policy_ok|]. cbv beta. intros ok l1 [Hr1 ->].
  destruct (col_allows verdict A ctx name key path (col_op op)).
  2: { apply wp_ret. exists lg. split_and!; [done..|]. eapply sim_le; [|by exists Hs]. lia. }
  rewrite (store_of_cur _ _ _ _ HA) in *.
  assert (key <> EmptyString) as Hkey' by (by intros ->).
  eapply wp_mono; [eapply write_and_organize_ok; eauto using store_decides; lia|]. cbv beta.
  intros e l2 (lg2 & Hle & Hres). exists lg2. split; [done|].
  destruct (write_spec _ op path w _) as [change|].
  - destruct Hres as (Hok & h & Hev & Hr2). split; [done|].
    destruct (sim_push _ lg _ _ _ _ _ _ _ _ _ _ Hr2 HA Hne Hkey' Hb Hev) as (? & ? & ?). eauto.
  - destruct Hres as [-> Hr2]. split; [done|]. exists Hs. split_and!; [done..|].
    intros name' key'. specialize (Hb name' key'). lia.
Qed.

Lemma spec_write_none A ctx op name key path w :
  path <> EmptyString -> store_cur (store_at A name key) = None -> spec_write verdict A ctx op name key path w = None.
Proof.
  intros Hp Hc. unfold spec_write. destruct (_ && _); [|done]. rewrite Hc. cbn. rewrite decide_False; [done|].
  by intros [? _].
Qed.

Lemma wrote_none l lg A ctx name key n : 0 < n -> sim l lg A n -> wrote lg A ctx name key n None INVALID_EVENT l.
Proof. intros Hn Hsim. exists lg. split_and!; [done..|]. eapply sim_le; [|done]. lia. Qed.

Lemma handle_put_ok l lg A n ctx add name full_path doc :
  sim l lg A n -> 0 < n ->
  let '(key, path) := parse_path full_path in
  let r := spec_write verdict A ctx (put_op add) name key path doc in can_write ctx key r ->
  wp (handle_put padding new_primary run_program fuel ctx add name full_path doc) (wrote lg A ctx name key n r) l.
Proof.
  intros Hsim Hn. unfold handle_put. destruct (parse_path full_path) as [key path]. 
  set (r := spec_write verdict A ctx (put_op add) name key path doc). intros Hcan.
  assert (forall l, sim l lg A n ->
    wp (if add then Ledger_add padding new_primary run_program fuel ctx name key doc path false
        else Ledger_put padding new_primary run_program fuel ctx name key doc path false)
      (wrote lg A ctx name key n r) l) as Hwrite.
  { intros l0 Hsim0. destruct add.
    - apply (write_ok l0 lg A n ctx AddToObject); [done|done|right; by left|done].
    - apply (write_ok l0 lg A n ctx PutObject); [done|done|by left|done]. }
  case_decide as Hp.
  - pose proof Hsim as (Hs & Hr & HA & Hne & Hb). apply wp_bind. eapply wp_mono; [by eapply has_object_ok|].
    cbv beta. intros has l1 [Hr1 ->]. assert (sim l1 lg A n) as Hsim1 by (by exists Hs).
    case_bool_decide as Hc; cbn [negb]; [by apply Hwrite|]. apply wp_ret. subst r.
    rewrite spec_write_none; [by apply wrote_none|done|]. by apply eq_None_not_Some.
  - destruct (is_valid_key key) eqn:Hk; cbn [negb]; [by apply Hwrite|]. apply wp_ret. subst r.
    unfold spec_write. rewrite Hk. by apply wrote_none.
Qed.

(** ** Requests *)

(** What is asked of requests: queries are ones that every index there may be can
    help with and have no limit; indexes are on fields that may be indexed, and
    the server can read what is in the collection when they are created. *)
Definition static_ok (r : request D) : Prop :=
  match r with
  | ReqFind _ p _ limit => query_ok (X := X) p /\ limit < 0
  | ReqCountObjects name p => query_ok (X := X) p /\ name <> EmptyString
  | ReqCreateIndex _ _ paths => ix_usable paths
  | _ => True
  end.

Definition dynamic_ok A (r : request D) : bool :=
  match r with
  | ReqCreateIndex name _ _ => forallb (fun '(key, cs) =>
      match store_cur cs with Some d => reads (verdict A) server name key d | None => true end)
      (map_to_list (store_col A name))
  | ReqDropIndex name _ => existsb (fun '(_, cs) => bool_decide (cs <> [])) (map_to_list (store_col A name))
  | _ => true
  end.

Definition request_ok A ctx (r : request D) : Prop :=
  match request_write verdict A ctx r with
  | Some (_, key, change) => can_write ctx key change
  | None => True
  end /\ static_ok r /\ dynamic_ok A r = true.

Lemma all_readable_of Hs A name : store_of Hs A ->
  forallb (fun '(key, cs) => match store_cur cs with Some d => reads (verdict A) server name key d | None => true end)
    (map_to_list (store_col A name)) = true -> all_readable server (verdict A) Hs name.
Proof.
  intros HA Hf key e h Hc. rewrite forallb_forall in Hf.
  pose proof (store_of_cur _ _ name key HA) as Hcur. unfold store_at, cur_doc in Hcur. rewrite Hc in Hcur.
  destruct (store_col A name !! key) as [cs|] eqn:Ecs; [|done]. cbn in Hcur.
  specialize (Hf (key, cs)). cbn in Hf. rewrite Hcur in Hf.
  apply Hf. by apply list_elem_of_In, elem_of_map_to_list.
Qed.

Lemma collection_of ex l lg Hs n A name : rep ex l lg Hs n -> store_of Hs A ->
  existsb (fun '(_, cs) => bool_decide (cs <> [])) (map_to_list (store_col A name)) = true -> is_Some (l_cols l !! name).
Proof.
  intros Hr HA ([key cs] & Hin%list_elem_of_In%elem_of_map_to_list & Hcs%bool_decide_eq_true)%existsb_exists.
  pose proof (HA name key) as E. unfold store_at in E. rewrite Hin in E. cbn in E.
  pose proof (lr_cols _ _ _ _ _ _ _ Hr name) as Hcol. destruct (l_cols l !! name); [done|].
  rewrite Hcol in E. by subst.
Qed.

(** The event under [e] is the one that the request asked for. *)
Definition event_written lg A ctx (r : request D) (e : event_id_t) : Prop :=
  exists name key change h, request_write verdict A ctx r = Some (name, key, Some change) /\
    event_is (ctx_to_string ctx) change h /\ log_entry lg e (doc_bytes h) /\ doc_parse (doc_bytes h) = h.

Definition served lg A ctx (r : request D) n (resp : response D) (l' : L) : Prop :=
  exists lg', log_le lg lg' /\ answer_of resp = (spec_request verdict A ctx r).1 /\
    sim l' lg' (spec_request verdict A ctx r).2 (n - 1) /\
    forall e, resp = RespEvent e -> event_is_valid e = true -> event_written lg' A ctx r e.

Lemma served_read lg A ctx r n resp l' Hs :
  rep ∅ l' lg Hs n -> store_of Hs A -> no_empty_key Hs ->
  (forall name key, Z.of_nat (length (Hs name key)) + n <= Z.of_nat bound) ->
  (forall e, resp <> RespEvent e) -> (answer_of resp, A) = spec_request verdict A ctx r ->
  served lg A ctx r n resp l'.
Proof.
  intros Hr HA Hne Hb Hresp Ha. exists lg. rewrite <-Ha. split_and!; [done..| |].
  - apply (sim_le _ _ _ n); [lia|by exists Hs].
  - intros e He. by destruct (Hresp e).
Qed.

Lemma served_write lg A ctx r n e l' name key change :
  wrote lg A ctx name key n change e l' -> request_write verdict A ctx r = Some (name, key, change) ->
  spec_request verdict A ctx r = spec_update A ctx name key change ->
  served lg A ctx r n (RespEvent e) l'.
Proof.
  intros (lg' & Hle & Hres) Hreq Hspec. exists lg'. rewrite Hspec. destruct change as [change|]; cbn.
  - destruct Hres as (Hok & Hsim & h & Hev & He & Hp). rewrite (eid_ok_valid _ Hok). split_and!; [done..|].
    intros ? [= <-] _. by exists name, key, change, h.
  - destruct Hres as [-> Hsim]. split_and!; [done..|]. by intros ? [= <-].
Qed.

Lemma handle_request_ok l lg A n ctx r :
  sim l lg A n -> 0 < n -> request_ok A ctx r ->
  wp (handle_request padding new_primary new_index run_program fuel server bound ctx r) (served lg A ctx r n) l.
Proof.
  intros Hsim Hn Hok. pose proof Hsim as (Hs & Hr & HA & Hne & Hb). destruct Hok as (Hok & Hst & Hdyn).
  pose proof (store_decides _ _ HA) as Hdec.
  assert (forall name key, (length (Hs name key) <= bound)%nat) as Hb' by (intros name key; specialize (Hb name key); lia).
  destruct r as [add name full_path doc|name key|name full_path|name full_path|name full_path predicates|name key|
    principal name key|name p projection limit|name p|name idx paths|name idx];
    cbn [handle_request static_ok dynamic_ok] in *; apply wp_bind.
  - pose proof (handle_put_ok l lg A n ctx add name full_path doc Hsim Hn) as Hput. cbn [request_write] in Hok.
    destruct (parse_path full_path) as [key path] eqn:Ep. eapply wp_mono; [by apply Hput|]. cbv beta.
    intros e l' Hw. apply wp_ret. eapply served_write; [exact Hw|cbn; by rewrite Ep..].
  - eapply wp_mono; [apply (write_ok l lg A n ctx RemoveObject); [done|done|right; by right|exact Hok]|]. cbv beta.
    intros e l' Hw. apply wp_ret. by eapply served_write.
  - pose proof (get_object_ok ∅ l lg Hs n A ctx name full_path Hr Hne HA) as Hget.
    destruct (parse_path full_path) as [key path] eqn:Ep. eapply wp_mono; [exact Hget|]. cbv beta.
    intros o l' [Hr' Ho]. apply wp_ret. eapply served_read; [done..|]. cbn. by rewrite Ep, Ho.
  - eapply wp_mono; [by eapply has_object_ok|]. cbv beta. intros b l' [Hr' ->]. apply wp_ret.
    by eapply served_read.
  - pose proof (check_object_ok ∅ l lg Hs n A ctx name full_path predicates Hr Hne HA) as Hcheck.
    destruct (parse_path full_path) as [key path] eqn:Ep. eapply wp_mono; [exact Hcheck|]. cbv beta.
    intros b l' [Hr' ->]. apply wp_ret. eapply served_read; [done..|]. cbn. by rewrite Ep.
  - eapply wp_mono; [by eapply handle_history_ok|]. cbv beta. intros ds l' [Hr' ->]. apply wp_ret.
    by eapply served_read.
  - eapply wp_mono; [eapply count_writes_ok; [done|lia|done|done|done]|]. cbv beta. intros c l' [Hr' ->]. apply wp_ret.
    by eapply served_read.
  - destruct Hst as [Hq Hl]. eapply wp_mono; [by eapply handle_find_ok|]. cbv beta.
    intros out l' (Hr' & keys & Hnd & Hkeys & ->). apply wp_ret. eapply served_read; [done..|]. cbn [spec_request].
    by erewrite found_answer.
  - destruct Hst as [Hq Hname]. eapply wp_mono; [by eapply count_objects_ok|]. cbv beta.
    intros c l' (Hr' & keys & Hnd & Hkeys & ->). apply wp_ret. eapply served_read; [done..|]. cbn [spec_request answer_of].
    by erewrite count_answer.
  - eapply wp_mono; [eapply create_index_ok; eauto using all_readable_of; lia|]. cbv beta. intros b l' Hr'. apply wp_ret.
    by eapply served_read.
  - eapply wp_mono; [eapply drop_index_ok; eauto using collection_of|]. cbv beta. intros b l' Hr'. apply wp_ret.
    by eapply served_read.
Qed.

Fixpoint requests_ok A (rs : list (OpContext * request D)) : Prop :=
  match rs with
  | [] => True
  | (ctx, r) :: rs => request_ok A ctx r /\ requests_ok (spec_request verdict A ctx r).2 rs
  end.

(** The writes that requests ask for *)
Fixpoint requests_writes A (rs : list (OpContext * request D)) : list (OpContext * string * option (option D)) :=
  match rs with
  | [] => []
  | (ctx, r) :: rs =>
      let ws := requests_writes (spec_request verdict A ctx r).2 rs in
      match request_write verdict A ctx r with
      | Some (_, key, change) => (ctx, key, change) :: ws
      | None => ws
      end
  end.

Fixpoint requests_dynamic A (rs : list (OpContext * request D)) : bool :=
  match rs with
  | [] => true
  | (ctx, r) :: rs => dynamic_ok A r && requests_dynamic (spec_request verdict A ctx r).2 rs
  end.

Lemma requests_ok_writes rs A :
  Forall (fun w => can_write w.1.1 w.1.2 w.2) (requests_writes A rs) -> Forall static_ok rs.*2 ->
  requests_dynamic A rs = true -> requests_ok A rs.
Proof.
  revert A. induction rs as [|[ctx r] rs IH]; intros A; [done|]. cbn. unfold request_ok.
  intros Hws [Hst Hsts]%Forall_cons [Hd Hds]%andb_true_iff.
  destruct (request_write verdict A ctx r) as [[[name key] change]|]; [|by auto].
  apply Forall_cons in Hws as [Hw Hws]. by auto.
Qed.

Abbreviation handle_all := (handle_requests padding new_primary new_index run_program fuel server bound).

Lemma handle_requests_ok rs l lg A n :
  sim l lg A n -> Z.of_nat (length rs) <= n -> requests_ok A rs ->
  wp (handle_all rs) (fun resps l' => exists lg', log_le lg lg' /\
    answer_of <$> resps = (spec_requests verdict A rs).1 /\
    sim l' lg' (spec_requests verdict A rs).2 (n - Z.of_nat (length rs))) l.
Proof.
  revert l lg A n. induction rs as [|[ctx r] rs IH]; intros l lg A n Hsim Hn Hok; cbn [handle_requests spec_requests].
  { apply wp_ret. exists lg. split_and!; [done..|]. cbn. by rewrite Z.sub_0_r. }
  destruct Hok as [Hok Hoks]. cbn [length] in *. apply wp_bind.
  eapply wp_mono; [apply (handle_request_ok l lg A n ctx r); [done|lia|done]|]. cbv beta.
  intros resp l1 (lg1 & Hle1 & Ha & Hsim1 & _). destruct (spec_request verdict A ctx r) as [a A1].
  apply wp_bind. eapply wp_mono; [apply (IH l1 lg1 A1 (n - 1)); [done|lia|done]|]. cbv beta.
  intros resps l2 (lg2 & Hle2 & Has & Hsim2). apply wp_ret. exists lg2. split; [by etrans|].
  cbn [fst snd] in *. destruct (spec_requests verdict A1 rs) as [as_ A2]. cbn in *. subst. split; [done|].
  by replace (n - Z.of_nat (Datatypes.S (length rs))) with (n - 1 - Z.of_nat (length rs)) by lia.
Qed.

(** A ledger that can take [n] requests *)
Record fresh (s : S) (n : Z) : Prop := {
  fr_wf : ps_wf s;
  fr_empty : ps_pages s = ∅;
  fr_avail : NUM_SHARDS_LEDGER + n <= ps_avail s;
  fr_room : n <= room0;
  fr_bound : n <= Z.of_nat bound;
  fr_versions : 0 <= n < 2 ^ 32 - 1;
}.

Lemma Ledger_new_sim s n : fresh s n -> exists lg, sim (Ledger_new padding s) lg empty_store n.
Proof.
  intros []. destruct (shards_rep_empty s fr_wf0 fr_empty0) as [Hr0 Hsm0]. unfold NUM_SHARDS_LEDGER in *.
  pose proof (generate_blocks_ok padding (seqZ 0 64) _ _ Hr0 Hsm0 (NoDup_seqZ 0 64) ltac:(done)
    ltac:(rewrite length_seqZ; cbn [sh_store]; lia)) as Hg.
  apply wp_run in Hg as ([] & st1 & Eg & l1 & Hr1 & Hsm1 & Hpe1 & Hav1). rewrite length_seqZ in Hav1. cbn [sh_store] in Hav1.
  exists l1, (fun _ _ => []). split_and!; [|done..|cbn; lia]. unfold Ledger_new, fresh_shards, NUM_SHARDS_LEDGER. rewrite Eg.
  split; cbn [l_shards l_cols snd length]; try done.
  - intros sid. unfold load. rewrite lookup_empty. by eapply shard_small_load.
  - intros sid Hsid. apply Hpe1. left. apply elem_of_seqZ. unfold NUM_SHARDS_LEDGER in Hsid. lia.
  - rewrite map_size_empty. lia.
  - intros name. by rewrite lookup_empty.
  - constructor.
  - lia.
  - intros name. exists []. split; [done|cbn; lia].
Qed.

(** *** Objects with a policy *)

(** The policy of object [name]/[key] is not empty and refuses whatever [ctx] asks. *)
Definition denied (name key : string) (d : D) ctx : Prop :=
  ctx_valid ctx = true /\ doc_empty (doc_path d "policy") = false /\
  forall A path op, verdict A (doc_path d "policy") ctx name key path op = false.

Lemma denied_request A ctx r name key d :
  store_cur (store_at A name key) = Some d -> denied name key d ctx ->
  store_at (spec_request verdict A ctx r).2 name key = store_at A name key.
Proof.
  intros Hd (Hctx & Hemp & Hv).
  assert (forall name' key' op path w,
    store_at (spec_update A ctx name' key' (spec_write verdict A ctx op name' key' path w)).2 name key = store_at A name key) as Hw.
  { intros name' key' op path w. unfold spec_update, spec_write.
    destruct (_ && _); [|done]. destruct (write_spec _ _ _ _ _) eqn:E; [|done]. cbn. rewrite store_at_push.
    case_decide as Hk; [|done]. destruct Hk as [<- <-]. rewrite Hd in E. cbn in E. unfold allows in E.
    rewrite Hemp, Hctx, Hv in E. done. }
  destruct r; cbn; try destruct (parse_path _); by try apply Hw.
Qed.

Lemma denied_requests rs A name key d :
  store_cur (store_at A name key) = Some d -> Forall (fun cr => denied name key d cr.1) rs ->
  store_at (spec_requests verdict A rs).2 name key = store_at A name key.
Proof.
  revert A. induction rs as [|[ctx r] rs IH]; intros A Hd Hden; [done|].
  apply Forall_cons in Hden as [Hden1 Hden]. cbn.
  pose proof (denied_request A ctx r name key d Hd Hden1) as E.
  destruct (spec_request verdict A ctx r) as [a A1]. cbn in E.
  specialize (IH A1). destruct (spec_requests verdict A1 rs) as [as_ A2]. cbn in *.
  rewrite <-E. apply IH; [by rewrite E|done].
Qed.

Lemma requests_ok_app rs1 rs2 A :
  requests_ok A (rs1 ++ rs2) <->
  requests_ok A rs1 /\ requests_ok (spec_requests verdict A rs1).2 rs2.
Proof.
  revert A. induction rs1 as [|[ctx r] rs1 IH]; intros A; [cbn; tauto|]. cbn. rewrite IH.
  destruct (spec_request verdict A ctx r) as [a A1]. cbn.
  destruct (spec_requests verdict A1 rs1) as [as_ A2]. cbn. tauto.
Qed.

(** ** Theorems *)


(** C29.  Events are immutable: the event that a write has added can be read for
    ever under the identifier that the writer was given.  Whatever requests
    follow, [get_event] returns the document with the author of the write as its
    source and, for a version, the value written. *)
Theorem Ledger_events_immutable s rs1 ctx r rs2 :
  let rs := rs1 ++ (ctx, r) :: rs2 in
  fresh s (Z.of_nat (length rs)) -> requests_ok empty_store rs ->
  let A1 := (spec_requests verdict empty_store rs1).2 in
  exists resps1 l1 resp l2 resps2 l3,
    handle_all rs1 (Ledger_new padding s) = (Ok resps1, l1) /\
    handle_request padding new_primary new_index run_program fuel server bound ctx r l1 = (Ok resp, l2) /\
    handle_all rs2 l2 = (Ok resps2, l3) /\
    forall e, resp = RespEvent e -> event_is_valid e = true ->
      exists name key change h l4, request_write verdict A1 ctx r = Some (name, key, Some change) /\
        event_is (ctx_to_string ctx) change h /\ get_event e l3 = (Ok h, l4).
Proof.
  intros rs Hf Hok A1. subst rs. apply requests_ok_app in Hok as [Hok1 [Hok Hok2]].
  rewrite length_app in Hf. cbn [length] in Hf. destruct (Ledger_new_sim s _ Hf) as [lg Hsim].
  pose proof (handle_requests_ok rs1 _ _ _ _ Hsim ltac:(lia) Hok1) as Hw.
  apply wp_run in Hw as (resps1 & l1 & E1 & lg1 & _ & _ & Hsim1). fold A1 in Hsim1, Hok, Hok2.
  pose proof (handle_request_ok l1 lg1 A1 _ ctx r Hsim1 ltac:(lia) Hok) as Hw.
  apply wp_run in Hw as (resp & l2 & E2 & lg2 & _ & _ & Hsim2 & Hev).
  pose proof (handle_requests_ok rs2 _ _ _ _ Hsim2 ltac:(lia) Hok2) as Hw.
  apply wp_run in Hw as (resps2 & l3 & E3 & lg3 & Hle3 & _ & (Hs3 & Hr3 & _)).
  exists resps1, l1, resp, l2, resps2, l3. split_and!; [done..|]. intros e He Hv.
  destruct (Hev e He Hv) as (name & key & change & h & Hreq & Hh & Hlog & Hp).
  pose proof (read_event_ok _ _ _ _ (lr_shards _ _ _ _ _ _ _ Hr3) (log_entry_mono _ _ _ _ Hle3 Hlog)) as Hrd.
  apply wp_run in Hrd as (? & sh4 & E4 & -> & _). exists name, key, change, h, (set_shards sh4 l3).
  split_and!; [done..|]. unfold get_event, on_shards, zoom, mbind, ST_bind. rewrite E4. cbn. by rewrite Hp.
Qed.

(** C7.  A policy protects its object: once an object has a policy, requests of
    parties to whom the policy answers no to everything leave its history as it
    is, whichever requests to put, add, remove, read, query or index these are, and
    however many.  ([Clear] is not one of them: it asks no policy, as
    [clear_ignores_policies] shows.) *)
Theorem Ledger_policy_protects s rs1 rs2 name key d :
  let A1 := (spec_requests verdict empty_store rs1).2 in
  let audit := handle_history new_primary run_program fuel bound (mkContext INVALID_IDENTITY EmptyString) name key in
  fresh s (Z.of_nat (length (rs1 ++ rs2))) -> requests_ok empty_store (rs1 ++ rs2) ->
  store_cur (store_at A1 name key) = Some d -> Forall (fun cr => denied name key d cr.1) rs2 ->
  exists resps1 l1 resps2 l2 ds,
    handle_all rs1 (Ledger_new padding s) = (Ok resps1, l1) /\ handle_all rs2 l1 = (Ok resps2, l2) /\
    (audit l1).1 = Ok ds /\ (audit l2).1 = Ok ds /\ head ds = Some d.
Proof.
  intros A1 audit Hf Hok Hd Hden. apply requests_ok_app in Hok as [Hok1 Hok2]. fold A1 in Hok2.
  rewrite length_app in Hf. destruct (Ledger_new_sim s _ Hf) as [lg Hsim].
  pose proof (handle_requests_ok rs1 _ _ _ _ Hsim ltac:(lia) Hok1) as Hw.
  apply wp_run in Hw as (resps1 & l1 & E1 & lg1 & _ & _ & Hsim1). fold A1 in Hsim1.
  pose proof (handle_requests_ok rs2 _ _ _ _ Hsim1 ltac:(lia) Hok2) as Hw.
  apply wp_run in Hw as (resps2 & l2 & E2 & lg2 & _ & _ & Hsim2).
  pose proof (denied_requests rs2 A1 name key d Hd Hden) as Esame.
  set (A2 := (spec_requests verdict A1 rs2).2) in *.
  assert (forall l lg A n, sim l lg A n -> 0 <= n -> store_at A name key = store_at A1 name key ->
    (audit l).1 = Ok (store_versions (store_at A1 name key)).*2) as Haudit.
  { intros l lg0 A n (Hs & Hr & HA & Hne & Hb) Hn EA.
    pose proof (handle_history_ok ∅ l lg0 Hs n A (mkContext INVALID_IDENTITY EmptyString) name key Hr Hne HA) as Hw.
    apply wp_run in Hw as (ds & l' & E & _ & ->); [|specialize (Hb name key); lia].
    unfold audit. rewrite E. cbn. do 2 f_equal. unfold spec_history. rewrite EA. clear.
    induction (store_versions (store_at A1 name key)) as [|[source d] vs IH]; [done|]. cbn [visible].
    unfold allows at 1. cbn [ctx_valid negb]. rewrite orb_true_r. cbn. by rewrite IH. }
  exists resps1, l1, resps2, l2, (store_versions (store_at A1 name key)).*2. split_and!; [done..| | |].
  - eapply Haudit; [done|lia|done].
  - eapply Haudit; [done|lia|done].
  - destruct (store_at A1 name key) as [|[source [d'|]] cs]; cbn in Hd; [done| |done]. by injection Hd as ->.
Qed.

(** C10.  Secondary indexes change nothing but the speed of a query: after any
    requests, what [find] returns with the indexes that have been created, and
    kept up to date since, is what it returns without them, by a linear scan of
    the collection, up to the order: every object of the abstract store that the
    client may read and that matches the predicates, once.  The query has no limit
    and its predicates are ones that every index decides ([query_ok]: none below an
    indexed path but [$in]), and the indexes have been created while the server
    itself could read the objects ([requests_ok]); otherwise the index may hide some
    ([index_hides_object]). *)
Theorem find_indexes_transparent s rs ctx name p projection limit :
  fresh s (Z.of_nat (length rs)) -> requests_ok empty_store rs -> query_ok (X := X) p -> limit < 0 ->
  let query := handle_find new_primary run_program fuel ctx name p projection limit in
  exists resps l out l1 scan l2, handle_all rs (Ledger_new padding s) = (Ok resps, l) /\
    query l = (Ok out, l1) /\ query (strip l) = (Ok scan, l2) /\ out ≡ₚ scan /\
    (fun '(key, _, d) => (key, d)) <$> out ≡ₚ
      map_to_list (spec_project projection <$> spec_find verdict (spec_requests verdict empty_store rs).2 ctx name p).
Proof.
  intros Hf Hok Hq Hl query. destruct (Ledger_new_sim s _ Hf) as [lg Hsim].
  pose proof (handle_requests_ok rs _ _ _ _ Hsim ltac:(lia) Hok) as Hw.
  apply wp_run in Hw as (resps & l & E & lg' & _ & _ & (Hs & Hr & HA & Hne & _)).
  pose proof (store_decides _ _ HA) as Hdec.
  pose proof (handle_find_ok new_primary room0 cap run_program fuel server _ _ _ _ _ _ ctx name p projection limit
    Hr (Hne name) Hdec Hq Hl) as Hw.
  apply wp_run in Hw as (out & l1 & E1 & _ & keys & Hnd & Hkeys & ->).
  pose proof (handle_find_ok new_primary room0 cap run_program fuel server _ _ _ _ _ _ ctx name p projection limit
    (rep_strip _ _ _ _ _ _ _ Hr) (Hne name) Hdec Hq Hl) as Hw.
  apply wp_run in Hw as (scan & l2 & E2 & _ & keys' & Hnd' & Hkeys' & ->).
  eexists resps, l, _, l1, _, l2. split_and!; [done..| |by eapply found_once]. apply fmap_Permutation. by eapply hits_perm.
Qed.

End Sim.

(** ** On concrete data

    Blocks in plain buffers, pages in maps, [HashMap] as primary index,
    [HashIndex]es on field [v], trees as documents, and policies that are the
    name of the one identity they allow. *)

Abbreviation pages := (page_map HashMapNode.node).
Abbreviation primary := (AbstractMap.amap pages).
Abbreviation index := (HashIndex pages).
#[local] Instance primary_kv : KVMap primary string event_id_t := HashMap_kv 64 hash_string.
#[local] Instance primary_kv_laws : KVMapLaws primary string event_id_t.
Proof. apply HashMap_kv_laws. unfold HashMapNode.MAX_NODE_SIZE. lia. Qed.
#[local] Instance demo_index : Index index jtree := HashIndex_index 64 ["v"%string].
#[local] Instance demo_index_laws : IndexLaws index jtree.
Proof. apply HashIndex_laws. unfold HashMapNode.MAX_NODE_SIZE. lia. Qed.

Definition demo_primary : primary := AbstractMap.amap_init page_map_empty.
Definition demo_new_index : string -> list string -> result index := HashIndex_new page_map_empty.

Lemma pages_wf {N} : ps_wf (page_map_empty (N := N)).
Proof. split; [done|]. intros p [n Hn]. cbn in Hn. by rewrite lookup_empty in Hn. Qed.

Lemma demo_primary_rep : kv_rep demo_primary (fun _ => None) 100.
Proof. apply HashMap_rep_init; [unfold HashMapNode.MAX_NODE_SIZE; lia|apply pages_wf|by vm_compute|done]. Qed.

Lemma demo_index_rep idx paths : ix_usable paths -> exists x, demo_new_index idx paths = Ok x /\ ix_rep x [] (2 * 100).
Proof. intros Hu. apply HashIndex_new_rep; [apply pages_wf|by vm_compute|done|done]. Qed.

Lemma demo_keys key : kv_key key -> ix_key (X := index) key.
Proof. done. Qed.

Lemma demo_values e : eid_ok e -> kv_value e.
Proof. intros (? & ? & ? & _). done. Qed.

Definition only_owner (policy : jtree) (ctx : OpContext) (_ _ _ : string) (_ : OperationType) : bool :=
  bool_decide (as_string policy = id_name (ctx_identity ctx)).

Definition alice : OpContext := mkContext (mkIdentity IdClient "alice" [1]) EmptyString.
Definition bob : OpContext := mkContext (mkIdentity IdClient "bob" [2]) EmptyString.
Definition demo_server : OpContext := mkContext (mkIdentity IdServer "server" [3]) EmptyString.

Definition demo_doc (v : Z) : jtree :=
  jt_map [("policy"%string, GenLeaf (inr "alice"%string)); ("v"%string, GenLeaf (inl v))].
Definition public (v : Z) : jtree := jt_map [("v"%string, GenLeaf (inl v))].
Definition is_in (vs : list Z) : jtree :=
  jt_map [("v"%string, jt_map [("$in"%string, jt_array ((fun v => GenLeaf (inl v)) <$> vs))])].

(** Alice creates an object only she may use, and a public one that both change;
    both query the collection, with and without an index. *)
Definition demo_requests : list (OpContext * request jtree) :=
  [(alice, ReqCreateIndex "c" "by_v" ["v"%string]);
   (alice, ReqPut false "c" "mine" (demo_doc 1)); (bob, ReqGet "c" "mine"); (bob, ReqPut false "c" "mine" (public 7));
   (bob, ReqRemove "c" "mine"); (alice, ReqPut false "c" "mine.v" (GenLeaf (inl 2))); (alice, ReqGet "c" "mine.v");
   (bob, ReqPut false "c" "ours" (public 3)); (alice, ReqPut false "c" "ours" (public 4));
   (bob, ReqHistory "c" "ours"); (alice, ReqCountWrites "client://alice" "c" "mine"); (bob, ReqHistory "c" "mine");
   (bob, ReqFind "c" (public 4) [] (-1)); (bob, ReqCountObjects "c" (is_in [2; 3; 4]));
   (alice, ReqCountObjects "c" (is_in [2; 3; 4])); (alice, ReqDropIndex "c" "by_v");
   (alice, ReqFind "c" (is_in [1; 2]) ["v"%string] (-1));
   (alice, ReqRemove "c" "ours"); (bob, ReqHas "c" "ours"); (bob, ReqPut false "c" "no key" (public 5))].

Lemma demo_query p :
  path_matches p "v" = true ->
  (forall v, doc_path_force p "v" = Some v ->
    doc_keys v = None \/ doc_empty (doc_path (doc_view p ["v"%string]) "v.$in") = false) ->
  (let arr := doc_path (doc_view p ["v"%string]) "v.$in" in doc_empty arr || doc_is_array arr) = true ->
  query_ok (X := index) p.
Proof.
  intros Hm Hex Harr x (path & Ep & _ & ->%list_elem_of_singleton). cbv zeta in Harr.
  change (HashIndex_exact x p /\ HashIndex_query x (doc_view p (hi_paths x)) <> None).
  change (hi_paths x = ["v"%string]) in Ep. unfold HashIndex_exact, HashIndex_query. rewrite Ep.
  split; [by constructor|]. cbv zeta. change ("v" ++ ".$in")%string with "v.$in"%string.
  destruct (doc_empty (doc_path (doc_view p ["v"%string]) "v.$in")); [done|].
  cbn [orb] in Harr. by rewrite Harr.
Qed.

Lemma demo_query_public v : query_ok (X := index) (public v).
Proof. apply demo_query; [done| |done]. intros w [= <-]. by left. Qed.

Lemma demo_query_in v vs : query_ok (X := index) (is_in (v :: vs)).
Proof. apply demo_query; [done| |done]. intros w [= <-]. by right. Qed.

Lemma demo_fresh : fresh 100 20 (S := page_map (Block buffer)) page_map_empty 20.
Proof. split; try done. apply pages_wf. Qed.

Abbreviation allow_owner := (fun _ : gmap string (gmap string (list (string * option jtree))) => only_owner).

Lemma demo_ok : requests_ok (X := index) 1000000 demo_server allow_owner empty_store demo_requests.
Proof.
  apply requests_ok_writes.
  - assert (requests_writes allow_owner empty_store demo_requests =
      [(alice, "mine"%string, Some (Some (demo_doc 1))); (bob, "mine"%string, None); (bob, "mine"%string, None);
       (alice, "mine"%string, Some (Some (jt_set (demo_doc 1) "v" (GenLeaf (inl 2)))));
       (bob, "ours"%string, Some (Some (public 3))); (alice, "ours"%string, Some (Some (public 4)));
       (alice, "ours"%string, Some None); (bob, "no key"%string, None)]) as -> by (vm_compute; reflexivity).
    repeat constructor; intros; vm_compute; done.
  - cbn [demo_requests fmap list_fmap snd]. repeat (apply Forall_cons; split); try apply Forall_nil; try exact I.
    + exists "v"%string. split_and!; [done|done|left].
    + split; [apply demo_query_public|done].
    + split; [apply demo_query_in|done].
    + split; [apply demo_query_in|done].
    + split; [apply demo_query_in|done].
  - vm_compute. reflexivity.
Qed.

Abbreviation demo_ledger := (ledger (page_map (Block buffer)) primary index).
Abbreviation demo_run := (handle_requests (B := buffer) (S := page_map (Block buffer)) (M := primary) (X := index)
  0 demo_primary demo_new_index (fun _ => only_owner) 5 demo_server 20).
Abbreviation demo_new := (Ledger_new (S := page_map (Block buffer)) (M := primary) (X := index) 0 page_map_empty).


(** Alice's write of 4 is the event 1 of block 33 of shard 32, also after she has
    deleted the object. *)
Lemma Ledger_events_immutable_witness :
  exists (l3 l4 : demo_ledger) h, (demo_run demo_requests demo_new).2 = l3 /\
    ev_value h = Ok (public 4) /\ ev_source h = "client://alice"%string /\
    get_event (EventId 32 33 1) l3 = (Ok h, l4).
Proof.
  destruct (Ledger_events_immutable (B := buffer) (S := page_map (Block buffer)) (X := index) 0 demo_primary demo_new_index
    100 1000000 (fun _ => only_owner) 5 20 demo_server demo_primary_rep demo_index_rep demo_keys demo_values ltac:(lia)
    allow_owner ltac:(done) ltac:(done) page_map_empty (take 8 demo_requests) alice (ReqPut false "c" "ours" (public 4))
    (drop 9 demo_requests) demo_fresh demo_ok) as (resps1 & l1 & resp & l2 & resps2 & l3 & E1 & E2 & E3 & Hall).
  assert ((demo_run demo_requests demo_new) = (Ok (resps1 ++ resp :: resps2), l3)) as E.
  { change demo_requests with (take 8 demo_requests ++ (alice, ReqPut false "c" "ours" (public 4)) :: drop 9 demo_requests).
    rewrite (handle_requests_app _ _ _ _ _ _ _ _ _ _ _ _ E1). cbn [handle_requests]. unfold mbind, ST_bind. by rewrite E2, E3. }
  assert (resp = RespEvent (EventId 32 33 1)) as ->.
  { assert (match (demo_run demo_requests demo_new).1 with Ok resps => resps !! 8%nat | Throw _ => None end =
      Some (RespEvent (EventId 32 33 1))) as E8 by (vm_compute; reflexivity).
    rewrite E in E8. cbn [fst] in E8. rewrite lookup_app_r in E8;
      rewrite (handle_requests_length _ _ _ _ _ _ _ _ _ _ _ E1) in *; [|done]. by injection E8. }
  destruct (Hall _ eq_refl eq_refl) as (name & key & change & h & l4 & Hreq & Hev & Hget).
  exists l3, l4, h. vm_compute in Hreq. injection Hreq as _ _ <-. destruct Hev as (Hs & _ & Hv).
  rewrite E. split_and!; [done|exact Hv|exact Hs|exact Hget].
Defined.

(** Bob cannot change Alice's object. *)
Lemma Ledger_policy_protects_witness :
  let rs1 := [(alice, ReqPut false "c" "mine" (demo_doc 1))] in
  let rs2 := [(bob, ReqPut false "c" "mine" (public 7)); (bob, ReqRemove "c" "mine"); (bob, ReqPut true "c" "mine.v" (public 7))] in
  exists resps1 l1 resps2 l2 ds, demo_run rs1 demo_new = (Ok resps1, l1) /\ demo_run rs2 l1 = (Ok resps2, l2) /\
    (handle_history demo_primary (fun _ => only_owner) 5 20 (mkContext INVALID_IDENTITY EmptyString) "c" "mine" l2).1 = Ok ds /\
    head ds = Some (demo_doc 1).
Proof.
  intros rs1 rs2.
  destruct (Ledger_policy_protects (B := buffer) (S := page_map (Block buffer)) (X := index) 0 demo_primary demo_new_index
    100 1000000 (fun _ => only_owner) 5 20 demo_server demo_primary_rep demo_index_rep demo_keys demo_values ltac:(lia)
    allow_owner ltac:(done) ltac:(done) page_map_empty rs1 rs2 "c" "mine" (demo_doc 1))
    as (resps1 & l1 & resps2 & l2 & ds & E1 & E2 & _ & Ea & Hd).
  - split; try done. apply pages_wf.
  - apply requests_ok_writes.
    + assert (requests_writes allow_owner empty_store (rs1 ++ rs2) =
        [(alice, "mine"%string, Some (Some (demo_doc 1))); (bob, "mine"%string, None); (bob, "mine"%string, None);
         (bob, "mine"%string, None)]) as -> by (vm_compute; reflexivity).
      repeat constructor; intros; vm_compute; done.
    + repeat (apply Forall_cons; split); try apply Forall_nil; exact I.
    + vm_compute. reflexivity.
  - vm_compute. reflexivity.
  - repeat constructor.
  - exists resps1, l1, resps2, l2, ds. split_and!; [exact E1|exact E2|exact Ea|exact Hd].
Defined.

Lemma find_indexes_transparent_witness :
  exists resps l out l1 scan l2, demo_run (take 9 demo_requests) demo_new = (Ok resps, l) /\
    handle_find demo_primary (fun _ => only_owner) 5 bob "c" (public 4) [] (-1) l = (Ok out, l1) /\
    handle_find demo_primary (fun _ => only_owner) 5 bob "c" (public 4) [] (-1) (strip l) = (Ok scan, l2) /\ out ≡ₚ scan /\
    (fun '(key, _, d) => (key, d)) <$> out ≡ₚ map_to_list (spec_project [] <$>
      spec_find allow_owner (spec_requests allow_owner empty_store (take 9 demo_requests)).2 bob "c" (public 4)).
Proof.
  apply (find_indexes_transparent (B := buffer) (S := page_map (Block buffer)) (X := index) 0 demo_primary demo_new_index
    100 1000000 (fun _ => only_owner) 5 20 demo_server demo_primary_rep demo_index_rep demo_keys demo_values ltac:(lia)
    allow_owner ltac:(done) ltac:(done) page_map_empty (take 9 demo_requests)).
  - split; try done. apply pages_wf.
  - pose proof demo_ok as Hok. rewrite <-(take_drop 9 demo_requests) in Hok.
    apply requests_ok_app in Hok as [Hok _]; [exact Hok|lia].
  - apply demo_query_public.
  - done.
Defined.

(** An index that is created over an object which the server itself may not read leaves the
    object out: Alice puts her object, creates the index, and no longer finds the object; without the
    index she does, and so she does in the abstract store. *)
Theorem index_hides_object :
  let rs := [(alice, ReqPut false "c" "mine" (demo_doc 1)); (alice, ReqCreateIndex "c" "by_v" ["v"%string])] in
  let l := (demo_run rs demo_new).2 in
  let find := handle_find demo_primary (fun _ => only_owner) 5 alice "c" (public 1) [] (-1) in
  is_ok (demo_run rs demo_new).1 /\ (find l).1 = Ok [] /\
  (exists e, (find (strip l)).1 = Ok [("mine"%string, e, demo_doc 1)]) /\
  spec_find allow_owner (spec_requests allow_owner empty_store rs).2 alice "c" (public 1) = {["mine"%string := demo_doc 1]}.
Proof.
  cbv zeta. split_and!; [eexists; vm_compute; reflexivity|vm_compute; reflexivity| |vm_compute; reflexivity].
  eexists. vm_compute. reflexivity.
Qed.
