(* ===== verification/TransactionSpec.v ===== *)
(** * Transactions on the abstract store

    What a transaction of [Transaction.v] does, in terms of the store of
    [LedgerStore.v]: a transaction that fails leaves it as it is, one that commits
    applies its writes in order, and its reads are what the ledger answered when it
    held the locks; either way the locks are given back. *)

From S2P Require Import Prelude EventId Keys Bitstream Block PageStore Hash HashMap RWLock LockHandle Json Index.
From S2P Require Import Identity ObjectEvent Shard TransactionLedger Ledger LedgerSpec Find Transaction Requests LedgerStore.

Section Spec.
Context {B : Type} `{BitstreamLaws B} {S : Type} `{PageStoreLaws S (Block B)} {S2 : Type} `{PageStoreLaws S2 (Block B)}.
Context {M : Type} `{KVMap M string event_id_t} `{!KVMapLaws M string event_id_t} {D : Type} `{JsonLaws D} {X : Type} `{Index X D} `{!IndexLaws X D}.
Variables (padding : Z) (new_primary : M) (room0 cap : Z).
Variable run_program : ledger S M X -> D -> OpContext -> string -> string -> string -> OperationType -> bool.
Variables (fuel bound : nat).
Hypothesis new_primary_rep : kv_rep new_primary (fun _ => None) room0.
Hypothesis index_keys : forall key, kv_key key -> ix_key key.
Hypothesis eid_values : forall e, eid_ok e -> kv_value e.
Hypothesis cap_nonneg : 0 <= cap.

Abbreviation L := (ledger S M X).
Abbreviation env := (tx_env S M X S2).
Abbreviation tx := (transaction D).
Abbreviation T := (ST (tx * env)).
Abbreviation store := (gmap string (gmap string (list (string * option D)))).
Abbreviation rep := (ledger_rep_but room0 cap).
Abbreviation histories := (string -> string -> list (event_id_t * D)).
Variable verdict : store -> D -> OpContext -> string -> string -> string -> OperationType -> bool.
Hypothesis programs : programs_see_store room0 cap run_program verdict.

Implicit Types (t : tx) (e : env) (l : L) (lg : log) (Hs : histories) (A : store) (ctx : OpContext) (s : tx * env).

(** ** The locks that are collected *)

Record registered t : Prop := {
  rg_range : forall sid ty, tx_lock_types t !! sid = Some ty -> 0 <= sid < NUM_SHARDS_LEDGER;
  rg_write : forall sid, tx_lock_types t !! sid = Some LWrite <-> exists op, op ∈ tx_ops t /\ write_shard op.2 = Some sid;
}.

(** Locks for reading are added, the others stay. *)
Definition more_reads t t' : Prop :=
  t' = set_lock_types (tx_lock_types t') t /\ (forall sid, tx_lock_types t' !! sid = Some LWrite <-> tx_lock_types t !! sid = Some LWrite) /\
  ((forall sid ty, tx_lock_types t !! sid = Some ty -> 0 <= sid < NUM_SHARDS_LEDGER) ->
   forall sid ty, tx_lock_types t' !! sid = Some ty -> 0 <= sid < NUM_SHARDS_LEDGER).

Lemma set_read_lock_more t sid : 0 <= sid < NUM_SHARDS_LEDGER -> more_reads t (set_read_lock sid t).
Proof.
  intros Hsid. unfold set_read_lock. destruct (tx_lock_types t !! sid) eqn:E; [by destruct t|]. split; [done|]. cbn. split.
  - intros sid'. rewrite lookup_insert_Some. naive_solver.
  - intros Hr sid' ty. rewrite lookup_insert_Some. naive_solver.
Qed.

Lemma more_reads_trans t1 t2 t3 : more_reads t1 t2 -> more_reads t2 t3 -> more_reads t1 t3.
Proof.
  intros (E1 & Hw1 & Hr1) (E2 & Hw2 & Hr2). split; [rewrite E2, E1; done|]. split; [intros sid; by rewrite Hw2, Hw1|].
  intros Hr. apply Hr2, Hr1, Hr.
Qed.

Lemma read_locks_more {K} (f : K -> Z) (ks : list K) t :
  (forall k, k ∈ ks -> 0 <= f k < NUM_SHARDS_LEDGER) -> more_reads t (fold_left (fun t k => set_read_lock (f k) t) ks t).
Proof.
  revert t. induction ks as [|k ks IH]; intros t Hf; cbn; [by destruct t|].
  eapply more_reads_trans; [apply (set_read_lock_more t (f k)), Hf; left|]. apply IH. intros k' Hk'. apply Hf. by right.
Qed.

Lemma results_locks (c : string) (results : list (string * event_id_t)) t :
  fold_left (fun t '(key, _) => set_read_lock (shard_of_key c key) t) results t =
  fold_left (fun t r => set_read_lock (shard_of_key c r.1) t) results t.
Proof. revert t. induction results as [|[key eid] results IH]; intros t; cbn; [done|]. apply IH. Qed.

(** Registering an operation appends it and collects its locks. *)
Lemma register_ok t op :
  registered t -> registered (register_operation op t) /\
  exists ls, register_operation op t = set_lock_types ls (set_ops (tx_ops t ++ [op]) t).
Proof.
  intros [Hr Hw]. unfold register_operation. set (t1 := set_ops (tx_ops t ++ [op]) t).
  assert (forall t2, write_shard op.2 = None -> more_reads t1 t2 -> registered t2 /\ exists ls, t2 = set_lock_types ls t1) as Hread.
  { intros t2 Hn (Et & Hw2 & Hr2). split; [|by eexists]. split; [by apply Hr2|]. intros sid. rewrite Hw2, Et.
    cbn [t1 tx_lock_types tx_ops set_ops set_lock_types].
    rewrite Hw. setoid_rewrite elem_of_app. setoid_rewrite list_elem_of_singleton. naive_solver. }
  assert (forall sid, write_shard op.2 = Some sid -> 0 <= sid < NUM_SHARDS_LEDGER ->
    registered (set_write_lock sid t1) /\ exists ls, set_write_lock sid t1 = set_lock_types ls t1) as Hwrite.
  { intros sid Hs Hsid. split; [|by eexists]. split; cbn.
    - intros sid' ty. rewrite lookup_insert_Some. naive_solver.
    - intros sid'. rewrite lookup_insert_Some. rewrite Hw. setoid_rewrite elem_of_app. setoid_rewrite list_elem_of_singleton.
      destruct (decide (sid' = sid)); naive_solver. }
  destruct op as [task op]. cbn [snd] in *. unfold op_shard in *.
  destruct op; cbn [collect_shard_lock_type]; unfold op_shard.
  1-3: apply Hread; [done|]; apply set_read_lock_more, shard_of_key_range.
  1-3: apply Hwrite; [done|apply shard_of_key_range].
  apply Hread; [done|]. case_decide.
  - apply (read_locks_more (fun i => i)). intros i Hi%elem_of_seqZ. lia.
  - rewrite results_locks. apply read_locks_more. intros r _. apply shard_of_key_range.
Qed.

Lemma register_all_ok task (ops : list (operation_info D)) t :
  registered t -> let t' := fold_left (fun t op => register_operation (task, op) t) ops t in
  registered t' /\ exists ls, t' = set_lock_types ls (set_ops (tx_ops t ++ ((task,.) <$> ops)) t).
Proof.
  revert t. induction ops as [|op ops IH]; intros t Hr; cbn [fold_left fmap list_fmap].
  { split; [done|]. exists (tx_lock_types t). rewrite app_nil_r. by destruct t. }
  destruct (register_ok t (task, op) Hr) as [Hr1 [ls1 E1]]. destruct (IH _ Hr1) as [Hr2 [ls2 E2]]. split; [done|].
  exists ls2. rewrite E2, E1. cbn. by rewrite <-app_assoc.
Qed.

Lemma registered_size t : registered t -> Z.of_nat (size (tx_lock_types t)) <= NUM_SHARDS_LEDGER.
Proof.
  intros [Hr _]. rewrite <-size_dom. transitivity (Z.of_nat (size (list_to_set (C := gset Z) (seqZ 0 NUM_SHARDS_LEDGER)))).
  - apply inj_le, subseteq_size. intros sid [ty Hty]%elem_of_dom. apply elem_of_list_to_set, elem_of_seqZ.
    specialize (Hr _ _ Hty). lia.
  - rewrite size_list_to_set by apply NoDup_seqZ. by rewrite length_seqZ.
Qed.

Section Others.

(** What other threads hold *)
Variable others : Z -> Z.
Hypothesis others_range : forall sid, -1 <= others sid < 2 ^ 31 - 2.

Lemma others_range' : forall sid, -1 <= others sid < 2 ^ 31 - 1.
Proof. intros sid. specialize (others_range sid). lia. Qed.

(** One step of a sequence, by its specification *)
Tactic Notation "xstep" tactic3(spec) := apply wpx_bind; eapply wpx_mono; [spec|cbv beta|by intros].

(** ** Preparing

    Checking the reads changes the locks, the error, the witness and what is
    cached. *)

Record same_tx t0 t : Prop := {
  st_isolation : tx_isolation t = tx_isolation t0;
  st_contexts : tx_op_contexts t = tx_op_contexts t0;
  st_lock_types : tx_lock_types t = tx_lock_types t0;
  st_root : tx_root t = tx_root t0;
  st_id : tx_identifier t = tx_identifier t0;
  st_remote : tx_is_remote t = tx_is_remote t0;
  st_ops : tx_ops t = tx_ops t0;
  st_state : tx_state t = tx_state t0;
}.

Lemma same_tx_refl t : same_tx t t.
Proof. by split. Qed.

(** The transaction [t0], begun in [e0], holds the locks [held]. *)
Record tx_reading lg Hs n (t0 : tx) (e0 : env) (held : gmap Z LockType) (k : Z) s : Prop := {
  rd_tx : same_tx t0 s.1;
  rd_rep : rep ∅ (en_ledger s.2) lg Hs n;
  rd_locks : chain_ok others k [tx_handle s.1] (en_locks s.2);
  rd_nonblocking : h_nonblocking (tx_handle s.1) = true;
  rd_held : forall sid ty, held !! sid = Some ty -> 0 < cnt ty (tx_handle s.1) sid;
  rd_txs : en_txs s.2 = en_txs e0;
  rd_active : en_active s.2 = en_active e0;
  rd_next : en_next_id s.2 = en_next_id e0;
}.

Section Reading.
Variables (lg : log) (Hs : histories) (n : Z) (A : store) (t0 : tx) (e0 : env).
Hypothesis HA : store_of Hs A.
Hypothesis Hne : no_empty_key Hs.

Abbreviation reading := (tx_reading lg Hs n t0 e0).

(** Where an operation would have to wait, nothing has happened but that locks may
    have been lost. *)
Definition waits (k : Z) (x : exn) s : Prop := (x = Would_block \/ x = Must_wait) /\ reading ∅ k s.

Lemma reading_weaken held held' k k' s :
  k <= k' -> (forall sid ty, held' !! sid = Some ty -> held !! sid = Some ty) -> reading held k s -> reading held' k' s.
Proof. intros Hk Hsub []. split; try done; [by eapply chain_ok_mono|eauto]. Qed.

Lemma reading_empty held k s : reading held k s -> reading ∅ k s.
Proof. apply reading_weaken; [done|]. intros sid ty. by rewrite lookup_empty. Qed.

Lemma waits_mono k k' x s : k <= k' -> waits k x s -> waits k' x s.
Proof. intros Hk [? Hr]. split; [done|]. by eapply reading_weaken. Qed.

Lemma on_ledger_ok {R} (m : ST L R) (P : R -> Prop) E held k s :
  reading held k s -> wp m (fun r l' => rep ∅ l' lg Hs n /\ P r) (en_ledger s.2) ->
  wpx E (on_ledger m) (fun r s' => reading held k s' /\ P r) s.
Proof.
  intros Hr Hm. apply wpx_of_wp, wp_zoom. eapply wp_mono; [exact Hm|]. cbv beta. intros r l' [Hrep HP].
  split; [|done]. destruct Hr. by split.
Qed.

Lemma update_ok E f held k s :
  reading held k s -> same_tx (s.1) (f s.1) -> tx_handle (f s.1) = tx_handle s.1 ->
  wpx E (update_tx f) (fun _ s' => reading held k s') s.
Proof.
  intros [] Hf Hh. unfold wpx, update_tx, modify_st. cbn. split; cbn; rewrite ?Hh; try done.
  destruct rd_tx0, Hf. split; congruence.
Qed.

Lemma set_error_ok E error held k s : reading held k s -> wpx E (set_error error) (fun _ s' => reading held k s') s.
Proof. intros Hr. by apply update_ok. Qed.

Lemma write_witness_ok E gw doc held k s : reading held k s -> wpx E (write_witness gw doc) (fun _ s' => reading held k s') s.
Proof. intros Hr. unfold write_witness. destruct gw; [|by apply wpx_ret]. by apply update_ok. Qed.

Lemma get_op_context_ok E task ctx held k s :
  reading held k s -> tx_op_contexts t0 !! task = Some ctx ->
  wpx E (get_op_context task) (fun c s' => c = ctx /\ reading held k s') s.
Proof.
  intros Hr Hc. unfold get_op_context, get_tx, wpx, mbind, ST_bind, get_st, mret, ST_ret.
  rewrite (st_contexts _ _ (rd_tx _ _ _ _ _ _ _ _ Hr)), Hc. done.
Qed.

Lemma get_tx_ok E held k s : reading held k s -> wpx E get_tx (fun t s' => same_tx t0 t /\ reading held k s') s.
Proof. intros Hr. split; [apply Hr|done]. Qed.

(** *** Locks *)

Lemma lock_shard_ok sid ty held k s :
  0 <= k -> k + 1 < 2 ^ 16 -> reading held k s ->
  wpx (fun x s' => x = Would_block /\ reading ∅ (k + 1) s') (on_locks (get_shard sid ty false))
    (fun _ s' => reading (<[sid := ty]> held) (k + 1) s') s.
Proof.
  intros Hk0 Hk Hr. destruct s as [t e]. unfold wpx, on_locks.
  destruct (get_nonblocking_ok others others_range' k ty sid (tx_handle t) (en_locks e) Hk0 Hk
    (rd_locks _ _ _ _ _ _ _ _ Hr) (rd_nonblocking _ _ _ _ _ _ _ _ Hr)) as (r & h' & cs' & -> & Hc & Hnb & Hcase).
  pose proof Hr as []. cbn [fst snd] in *. destruct Hcase as [[-> Ha]| ->].
  - split; cbn; try done; [by destruct rd_tx0; split|]. intros sid' ty'. rewrite (Ha ty' sid').
    pose proof (cnt_nonneg k (tx_handle t) ty' sid' (proj1 rd_locks0) Hk0).
    rewrite lookup_insert_Some. intros [[<- <-]|[Hne' Hl]].
    + rewrite decide_True by done. lia.
    + specialize (rd_held0 _ _ Hl). case_decide; lia.
  - split; [done|]. split; cbn; try done. by destruct rd_tx0; split.
Qed.

Lemma lock_all_ok shards held k s :
  0 <= k -> k + Z.of_nat (length shards) < 2 ^ 16 -> NoDup shards.*1 ->
  (forall sid, sid ∈ shards.*1 -> held !! sid = None) -> reading held k s ->
  wpx (fun x s' => x = Would_block /\ reading ∅ (k + Z.of_nat (length shards)) s') (lock_all shards)
    (fun _ s' => reading (list_to_map shards ∪ held) (k + Z.of_nat (length shards)) s') s.
Proof.
  revert held k s. induction shards as [|[sid ty] shards IH]; intros held k s Hk0 Hk Hnd Hfree Hr; cbn [lock_all length].
  { apply wpx_ret. cbn. by rewrite (left_id_L ∅ (∪)), Z.add_0_r. }
  cbn [length] in Hk. cbn in Hnd. apply NoDup_cons in Hnd as [Hin Hnd]. apply wpx_bind.
  eapply wpx_mono; [apply lock_shard_ok; [done|lia|done]|..]; cbv beta.
  - intros _ s1 Hr1. eapply wpx_mono; [apply (IH (<[sid := ty]> held) (k + 1) s1); [lia|lia|done| |exact Hr1]|..]; cbv beta.
    + intros sid' Hs'. rewrite lookup_insert_ne by (by intros ->). apply Hfree. cbn. by right.
    + intros _ s2 Hr2. replace (k + Z.of_nat (Datatypes.S (length shards))) with (k + 1 + Z.of_nat (length shards)) by lia.
      eapply reading_weaken; [reflexivity| |exact Hr2]. intros sid' ty'. cbn. intros <-.
      rewrite <-insert_union_l. rewrite insert_union_r; [done|]. by apply not_elem_of_list_to_map.
    + intros x s2 [-> Hr2]. split; [done|]. eapply reading_weaken; [|done|exact Hr2]. lia.
  - intros x s1 [-> Hr1]. split; [done|]. eapply reading_weaken; [|done|exact Hr1]. lia.
Qed.

Lemma child_read_ok sid held k s :
  0 <= k -> k + 1 < 2 ^ 16 -> reading held k s ->
  wpx (waits (k + 1)) (on_locks (child_read sid)) (fun _ s' => reading held (k + 1) s') s.
Proof.
  intros Hk0 Hk Hr. destruct s as [t e]. unfold wpx, on_locks, child_read.
  destruct (child_lock_ok others others_range' k sid (tx_handle t) (en_locks e) Hk0 Hk
    (rd_locks _ _ _ _ _ _ _ _ Hr) (rd_nonblocking _ _ _ _ _ _ _ _ Hr))
    as (r & c & h' & cs' & -> & h2 & cs2 & -> & Hc & Hnb & Hcase).
  pose proof Hr as []. cbn [fst snd drop] in *. destruct Hcase as [[-> Ha]| ->].
  - split; cbn; try done; [by destruct rd_tx0; split|]. intros sid' ty'. rewrite (Ha ty' sid'). apply rd_held0.
  - split; [by left|]. split; cbn; try done. by destruct rd_tx0; split.
Qed.

Lemma locks_range k s : 0 <= k -> reading ∅ k s -> forall sid, -1 <= count_of (en_locks s.2) sid < 2 ^ 31 - 1.
Proof.
  intros Hk Hr sid. destruct (rd_locks _ _ _ _ _ _ _ _ Hr) as [_ Hroot]. specialize (Hroot sid).
  specialize (others_range sid). unfold held_count in Hroot. repeat case_match; lia.
Qed.

Lemma free_read_ok sid held k s :
  0 <= k -> reading held k s -> wpx (waits k) (free_read sid) (fun _ s' => reading held k s') s.
Proof.
  intros Hk Hr. pose proof (locks_range k s Hk (reading_empty _ _ _ Hr)) as Hrange. destruct s as [t e]. unfold wpx, free_read.
  destruct (free_lock_ok sid (en_locks e) Hrange) as (r & h & cs' & -> & Hcase & h2 & cs2 & -> & Hcs).
  assert (forall held, reading held k (t, e) ->
    reading held k (t, set_locks cs2 e)) as Hsame.
  { intros held' []. split; try done. cbn [fst snd en_locks set_locks] in *. by eapply chain_ok_ext. }
  destruct Hcase as [-> |[-> | ->]]; cbn; [by apply Hsame| |]; (split; [auto|]); by eapply reading_empty, Hsame.
Qed.

(** *** Operations *)

(** The version that [ctx] reads now *)
Definition now ctx (name key : string) : event_id_t * D :=
  latest (allows (verdict A) ctx name key EmptyString GetObject) (Hs name key).

Definition reads_now ctx (name key : string) (eid : event_id_t) : Prop :=
  exists h, now ctx name key = (eid, h) /\ handle_valid h = true.

(** The events of the query that is run again, erased from the ones of the results *)
Fixpoint erase_each (found eids : list event_id_t) : option (list event_id_t) :=
  match found with
  | [] => Some eids
  | eid :: found =>
      let '(cnt, eids') := std_set_erase eid eids in if (cnt =? 0)%nat then None else erase_each found eids'
  end.

Definition finds_now ctx (name : string) (p : D) (eids : list event_id_t) : Prop :=
  exists keys, NoDup keys /\ (forall key, wanted Hs name p key -> key ∈ keys) /\
    erase_each ((fun q => q.2.1) <$> hits (reads (verdict A) ctx name) Hs name p keys) (std_set_of_list eids) = Some [].

Definition may_write ctx (name key path : string) (op : OperationType) : Prop :=
  is_valid_key key && col_allows verdict A ctx name key path op = true.

(** What was checked of an operation *)
Definition op_valid (isolation : IsolationLevel) ctx (op : operation_info D) : Prop :=
  match op with
  | CheckInfo c k p r =>
      r = match spec_read verdict A ctx c k EmptyString with Some d => matches_predicates d p | None => false end
  | HasInfo c k r => r = bool_decide (is_Some (store_cur (store_at A c k)))
  | GetInfo c k eid =>
      if decide (isolation = ReadCommitted) then exists eid, reads_now ctx c k eid else reads_now ctx c (parse_path k).1 eid
  | PutInfo c full_path _ => let '(key, path) := parse_path full_path in may_write ctx c key path PutObject
  | AddInfo c full_path _ => let '(key, path) := parse_path full_path in may_write ctx c key path AddToObject
  | RemoveInfo c k => may_write ctx c k EmptyString RemoveObject
  | FindInfo c p _ _ results =>
      match isolation with
      | ReadCommitted => Forall (fun r => exists eid, reads_now ctx c r.1 eid) results
      | RepeatableRead => Forall (fun r => reads_now ctx c (parse_path r.1).1 r.2) results
      | Serializable => finds_now ctx c p (snd <$> results)
      end
  end.

Definition op_ready (isolation : IsolationLevel) (op : operation_info D) : Prop :=
  match op with FindInfo _ p _ _ _ => isolation = Serializable -> query_ok (X := X) p | _ => True end.

Lemma latest_step E ctx (name key : string) held k s :
  reading held k s ->
  wpx E (on_ledger (get_latest_version new_primary run_program fuel ctx name key EmptyString GetObject))
    (fun r s' => reading held k s' /\ r = now ctx name key) s.
Proof.
  intros Hr. apply on_ledger_ok; [done|]. eapply wp_mono.
  - eapply get_latest_version_any; [apply Hr|apply Hne|]. by eapply store_decides.
  - cbv beta. intros r l' [-> Hrep]. done.
Qed.

Lemma check_repeatable_read_ok E ctx (name full_path : string) eid task held k s :
  reading held k s -> tx_op_contexts t0 !! task = Some ctx ->
  wpx E (check_repeatable_read new_primary run_program fuel name full_path eid task)
    (fun r s' => reading held k s' /\ (r.1 = true -> reads_now ctx name (parse_path full_path).1 eid /\ handle_valid r.2 = true)) s.
Proof.
  intros Hr Hc. unfold check_repeatable_read. xstep (by eapply get_op_context_ok). intros c s1 [-> Hr1].
  xstep (by eapply latest_step). intros [latest_eid obj] s2 [Hr2 Enow].
  destruct (handle_valid obj) eqn:Hv; cbn [negb orb].
  2: { xstep (by apply set_error_ok). intros _ s3 Hr3. by apply wpx_ret. }
  destruct (event_eqb latest_eid eid) eqn:Heq; cbn [negb].
  2: { xstep (by apply set_error_ok). intros _ s3 Hr3. by apply wpx_ret. }
  apply event_eqb_eq in Heq as ->. apply wpx_ret. split; [done|]. intros _. split; [|done]. exists obj. by rewrite <-Enow.
Qed.

Lemma value_step E (h : D) held k s : reading held k s -> handle_valid h = true ->
  wpx E (lift_res (ev_value h)) (fun _ s' => reading held k s') s.
Proof. intros Hr Hv. unfold wpx, lift_res, ev_value. by rewrite Hv. Qed.

Lemma policy_lock_ok ctx (name : string) held k s :
  0 <= k -> k + 1 < 2 ^ 16 -> reading held k s ->
  wpx (waits (k + 1)) (policy_lock new_primary ctx name) (fun _ s' => reading held (k + 1) s') s.
Proof.
  intros Hk0 Hk Hr. unfold policy_lock. destruct (ctx_valid ctx); cbn [negb].
  2: { apply wpx_ret. eapply reading_weaken; [|done|done]. lia. }
  xstep (apply (on_ledger_ok _ (fun _ => True)); [exact Hr|]; eapply wp_mono;
    [by eapply get_latest_event_ok; [apply Hr|]|by intros ? ? [_ ?]]).
  intros [eid obj] s1 [Hr1 _]. destruct (event_is_valid eid); [by apply child_read_ok|].
  apply wpx_ret. eapply reading_weaken; [|done|done]. lia.
Qed.

Lemma validate_write_ok ctx (name key path : string) op task held k s :
  0 <= k -> k + 1 < 2 ^ 16 -> reading held k s -> tx_op_contexts t0 !! task = Some ctx ->
  wpx (waits (k + 1)) (validate_write new_primary run_program fuel name key path op task)
    (fun ok s' => reading held (k + 1) s' /\ (ok = true -> may_write ctx name key path op)) s.
Proof.
  intros Hk0 Hk Hr Hc. unfold validate_write. xstep (by eapply get_op_context_ok). intros c s1 [-> Hr1].
  assert (forall b s, reading held (k + 1) s -> (b = true -> may_write ctx name key path op) ->
    wpx (waits (k + 1)) (_ ← (if b : bool then mret tt else set_error "Failed to prepare write"); mret b)
      (fun ok s' => reading held (k + 1) s' /\ (ok = true -> may_write ctx name key path op)) s) as Hend.
  { intros b s2 Hr2 Hb. destruct b; [by apply wpx_bind, wpx_ret, wpx_ret|].
    xstep (by apply set_error_ok). intros _ s3 Hr3. by apply wpx_ret. }
  unfold prepare_write, may_write in *. destruct (is_valid_key key); cbn [negb andb] in *.
  - xstep (by apply policy_lock_ok). intros _ s2 Hr2.
    xstep (apply (on_ledger_ok _ (fun b => b = col_allows verdict A ctx name key path op)); [exact Hr2|];
      eapply check_collection_policy_ok; [done|apply Hr2|done|done]).
    intros b s3 [Hr3 ->]. by apply Hend.
  - apply wpx_bind, wpx_ret. xstep (apply (on_ledger_ok _ (fun b => b = false)); [exact Hr1|apply wp_ret; split; [apply Hr1|done]]).
    intros b s3 [Hr3 ->]. apply Hend; [|done]. eapply reading_weaken; [|done|done]. lia.
Qed.

Lemma validate_no_dirty_read_ok E ctx (name : string) task results acc held k s :
  reading held k s -> tx_op_contexts t0 !! task = Some ctx ->
  wpx E (validate_no_dirty_read new_primary run_program fuel name task results acc)
    (fun r s' => reading held k s' /\ (is_Some r -> Forall (fun r => exists eid, reads_now ctx name r.1 eid) results)) s.
Proof.
  intros Hr Hc. revert acc s Hr. induction results as [|[key eid] results IH]; intros acc s Hr; cbn [validate_no_dirty_read].
  { apply wpx_ret. split; [done|constructor]. }
  xstep (by eapply get_op_context_ok). intros c s1 [-> Hr1].
  xstep (by eapply latest_step). intros [leid obj] s2 [Hr2 Enow]. destruct (handle_valid obj) eqn:Hv; cbn [negb].
  2: { xstep (by apply set_error_ok). intros _ s3 Hr3. apply wpx_ret. split; [done|]. by intros [? ?]. }
  xstep (by apply value_step). intros v s3 Hr3. eapply wpx_mono; [by apply IH|cbv beta|by intros].
  intros r s4 [Hr4 Hall]. split; [done|]. intros Hs1. constructor; [|by apply Hall]. exists leid, obj. cbn. by rewrite <-Enow.
Qed.

Lemma validate_repeatable_read_ok E ctx (name : string) task results acc held k s :
  reading held k s -> tx_op_contexts t0 !! task = Some ctx ->
  wpx E (validate_repeatable_read new_primary run_program fuel name task results acc)
    (fun r s' => reading held k s' /\ (is_Some r -> Forall (fun r => reads_now ctx name (parse_path r.1).1 r.2) results)) s.
Proof.
  intros Hr Hc. revert acc s Hr. induction results as [|[key eid] results IH]; intros acc s Hr; cbn [validate_repeatable_read].
  { apply wpx_ret. split; [done|constructor]. }
  xstep (by eapply check_repeatable_read_ok). intros [[] obj] s1 [Hr1 Hok]; cbn [negb fst snd] in *.
  2: { apply wpx_ret. split; [done|]. by intros [? ?]. }
  destruct (Hok eq_refl) as [Hnow Hv]. xstep (by apply value_step). intros v s3 Hr3.
  eapply wpx_mono; [by apply IH|cbv beta|by intros].
  intros r s4 [Hr4 Hall]. split; [done|]. intros Hs1. constructor; [done|by apply Hall].
Qed.

Lemma phantom_loop_ok ctx (name : string) p projection eids keys l :
  rep ∅ l lg Hs n ->
  wp (for_objects new_primary run_program fuel by_handle (phantom_step projection) (None, eids, []) (mkOli ctx name p keys))
    (fun r l' => rep ∅ l' lg Hs n /\ let '(phantom, rest, _) := r in
      phantom = None ->
      erase_each ((fun q => q.2.1) <$> hits (reads (verdict A) ctx name) Hs name p keys) eids = Some rest) l.
Proof.
  intros Hr. unfold for_objects. cbn [ol_keys].
  eapply (list_fold_ok new_primary run_program fuel _ _ (fun (acc : option string * list event_id_t * list D) ks l => rep ∅ l lg Hs n /\
    erase_each ((fun q => q.2.1) <$> hits (reads (verdict A) ctx name) Hs name p ks) acc.1.2 =
    erase_each ((fun q => q.2.1) <$> hits (reads (verdict A) ctx name) Hs name p keys) eids)); [|done|done].
  clear l Hr. intros [[ph es] docs] ks l [Hr Hes]. cbn [fst snd] in Hes.
  eapply wp_mono; [eapply list_next_loop_ok; [done|apply Hne|by eapply store_decides]|]. cbv beta.
  intros r l1 [Hr1 Hres]. destruct (hits (reads (verdict A) ctx name) Hs name p ks) as [|[key [eid h]] hs] eqn:Ehs.
  - subst r. unfold by_handle, handle_valid. rewrite doc_null_invalid. split; [done|]. intros _. by rewrite <-Hes.
  - destruct Hres as (rest & -> & He & Hv & Hhs & skipped & Hks). unfold by_handle. rewrite Hv. split.
    { rewrite Hks, length_app. cbn. lia. }
    unfold phantom_step. cbn [fmap list_fmap erase_each snd fst] in Hes. destruct (std_set_erase eid es) as [c es'].
    destruct (c =? 0)%nat eqn:Ec; [by apply wp_ret|].
    apply wp_bind. unfold ev_value, lift_res, wp at 1. rewrite Hv. apply wp_ret. split; [done|]. cbn [fst snd]. by rewrite Hhs.
Qed.

Lemma validate_no_phantom_ok E ctx (name : string) p projection task results held k s :
  reading held k s -> tx_op_contexts t0 !! task = Some ctx -> query_ok (X := X) p ->
  wpx E (validate_no_phantom new_primary run_program fuel name p projection task results)
    (fun r s' => reading held k s' /\ (is_Some r -> finds_now ctx name p (snd <$> results))) s.
Proof.
  intros Hr Hc Hq. unfold validate_no_phantom. xstep (by eapply get_op_context_ok). intros c s1 [-> Hr1].
  xstep (apply (on_ledger_ok _ (fun it => exists keys, it = mkOli ctx name p keys /\ NoDup keys /\
    (forall key, wanted Hs name p key -> key ∈ keys))); [exact Hr1|eapply (Ledger_find_ok new_primary room0 cap run_program ctx); [apply Hr1|done]]).
  intros it s2 [Hr2 (keys & -> & Hnd & Hkeys)].
  xstep (eapply (on_ledger_ok _ _); [exact Hr2|eapply phantom_loop_ok, Hr2]).
  intros [[ph rest] docs] s3 [Hr3 Hph]. destruct ph as [key|].
  - xstep (by apply set_error_ok). intros _ s4 Hr4. apply wpx_ret. split; [done|]. by intros [? ?].
  - destruct (decide (rest = [])) as [->|].
    + apply wpx_ret. split; [done|]. intros _. exists keys. auto.
    + xstep (by apply set_error_ok). intros _ s4 Hr4. apply wpx_ret. split; [done|]. by intros [? ?].
Qed.

(** The end of [validate] of a read whose result is a boolean *)
Lemma outcome_ok E gw key error b b' held k s (P : Prop) :
  reading held k s -> (b = b' -> P) ->
  wpx E (if negb (Bool.eqb b b') then _ ← set_error error; mret false
         else _ ← write_witness gw (has_doc key b'); mret true)
    (fun ok s' => reading held k s' /\ (ok = true -> P)) s.
Proof.
  intros Hr HP. destruct (Bool.eqb b b') eqn:Eb; cbn [negb].
  - apply eqb_prop in Eb. xstep (by apply write_witness_ok). intros _ s1 Hr1. apply wpx_ret. auto.
  - xstep (by apply set_error_ok). intros _ s1 Hr1. by apply wpx_ret.
Qed.

Lemma validate_get_ok E ctx gw task (c key : string) eid held k s :
  reading held k s -> tx_op_contexts t0 !! task = Some ctx ->
  wpx E (validate new_primary run_program fuel gw (task, GetInfo c key eid))
    (fun ok s' => reading held k s' /\ (ok = true -> op_valid (tx_isolation t0) ctx (GetInfo c key eid))) s.
Proof.
  intros Hr Hc. cbn [validate fst snd op_valid]. xstep (by apply get_tx_ok). intros t s1 [Ht Hr1]. rewrite (st_isolation _ _ Ht).
  set (P := op_valid (tx_isolation t0) ctx (GetInfo c key eid)).
  apply wpx_bind. eapply (wpx_mono _ _ _ (fun r s' => reading held k s' /\ (r.1 = true -> handle_valid r.2 = true /\ P))).
  - unfold P. cbn [op_valid]. destruct (decide (tx_isolation t0 = ReadCommitted)) as [Ei|Ei].
    + rewrite bool_decide_true by done. cbn [negb]. xstep (by eapply get_op_context_ok). intros c' s2 [-> Hr2].
      xstep (by eapply latest_step). intros [leid obj] s3 [Hr3 Enow]. apply wpx_ret. cbn. split; [done|].
      intros Hv. split; [done|]. exists leid, obj. by rewrite <-Enow.
    + rewrite bool_decide_false by done. cbn [negb]. eapply wpx_mono; [by eapply check_repeatable_read_ok|cbv beta|by intros].
      intros r s2 [Hr2 Hok]. split; [done|]. intros Hb. destruct (Hok Hb). done.
  - cbv beta. intros [[] obj] s2 [Hr2 Hok]; cbn [negb fst snd] in *; [|by apply wpx_ret].
    destruct (Hok eq_refl) as [Hv HP]. xstep (by apply value_step). intros v s3 Hr3.
    xstep (by apply write_witness_ok). intros _ s4 Hr4. by apply wpx_ret.
  - by intros.
Qed.

Lemma validate_find_ok E ctx gw task (c : string) p projection limit results held k s :
  reading held k s -> tx_op_contexts t0 !! task = Some ctx -> (tx_isolation t0 = Serializable -> query_ok (X := X) p) ->
  wpx E (validate new_primary run_program fuel gw (task, FindInfo c p projection limit results))
    (fun ok s' => reading held k s' /\ (ok = true -> op_valid (tx_isolation t0) ctx (FindInfo c p projection limit results))) s.
Proof.
  intros Hr Hc Hq. set (P := op_valid _ _ _). cbn [validate fst snd]. xstep (by apply get_tx_ok). intros t s1 [Ht Hr1].
  rewrite (st_isolation _ _ Ht).
  apply wpx_bind. eapply (wpx_mono _ _ _ (fun r s' => reading held k s' /\ (is_Some r -> P))).
  - unfold P. cbn [op_valid]. destruct (tx_isolation t0);
      [by apply validate_no_dirty_read_ok|by apply validate_repeatable_read_ok|apply validate_no_phantom_ok; auto].
  - cbv beta. intros [docs|] s2 [Hr2 Hok]; [|by apply wpx_ret].
    xstep (by apply write_witness_ok). intros _ s3 Hr3. apply wpx_ret. eauto.
  - by intros.
Qed.

Lemma validate_ok gw task op ctx held k s :
  0 <= k -> k + 1 < 2 ^ 16 -> reading held k s -> tx_op_contexts t0 !! task = Some ctx -> op_ready (tx_isolation t0) op ->
  wpx (waits (k + 1)) (validate new_primary run_program fuel gw (task, op))
    (fun ok s' => reading held (k + 1) s' /\ (ok = true -> op_valid (tx_isolation t0) ctx op)) s.
Proof.
  intros Hk0 Hk Hr Hc Hready.
  assert (forall s, reading held k s -> reading held (k + 1) s) as Hup by (intros s'; apply reading_weaken; [lia|done]).
  destruct op as [c key p r|c key r|c key eid|c key doc|c key doc|c key|c p projection limit results].
  - cbn [validate fst snd]. xstep (by eapply get_op_context_ok). intros c' s1 [-> Hr1].
    xstep (apply (on_ledger_ok _ (fun _ => True)); [exact Hr1|]; eapply wp_mono;
      [eapply get_latest_event_any; [apply Hr1|apply Hne]|by intros ? ? [_ ?]]).
    intros [eid obj] s2 [Hr2 _]. apply wpx_bind.
    eapply (wpx_mono (waits k) _ _ (fun _ s' => reading held k s')).
    + destruct (event_is_valid eid); [by apply free_read_ok|by apply wpx_ret].
    + cbv beta. intros _ s3 Hr3. xstep (eapply (on_ledger_ok _ _); [exact Hr3|eapply check_ok; [done|apply Hr3|done|done]]).
      intros b s4 [Hr4 Eb]. apply outcome_ok; [by apply Hup|]. cbn [op_valid]. intros <-. exact Eb.
    + intros x s'. apply waits_mono. lia.
  - cbn [validate fst snd]. xstep (eapply (on_ledger_ok _ _); [exact Hr|eapply has_object_ok; [apply Hr|done]]).
    intros b s4 [Hr4 Eb]. apply outcome_ok; [by apply Hup|]. cbn [op_valid]. intros <-. exact Eb.
  - eapply wpx_mono; [by eapply validate_get_ok|cbv beta|by intros]. intros ok s1 [Hr1 Hok]. split; [by apply Hup|done].
  - cbn [validate fst snd op_valid]. destruct (parse_path key). by apply validate_write_ok.
  - cbn [validate fst snd op_valid]. destruct (parse_path key). by apply validate_write_ok.
  - by apply validate_write_ok.
  - eapply wpx_mono; [by eapply validate_find_ok|cbv beta|by intros]. intros ok s1 [Hr1 Hok]. split; [by apply Hup|done].
Qed.

Definition ops_valid (ops : list (Z * operation_info D)) : Prop :=
  Forall (fun op => exists ctx, tx_op_contexts t0 !! op.1 = Some ctx /\ op_valid (tx_isolation t0) ctx op.2) ops.

Definition ops_ready (ops : list (Z * operation_info D)) : Prop :=
  Forall (fun op => is_Some (tx_op_contexts t0 !! op.1) /\ op_ready (tx_isolation t0) op.2) ops.

Lemma validate_all_ok gw ops held k s :
  0 <= k -> k + Z.of_nat (length ops) < 2 ^ 16 -> reading held k s -> ops_ready ops ->
  wpx (waits (k + Z.of_nat (length ops))) (validate_all new_primary run_program fuel gw ops)
    (fun ok s' => reading held (k + Z.of_nat (length ops)) s' /\ (ok = true -> ops_valid ops)) s.
Proof.
  revert k s. induction ops as [|[task op] ops IH]; intros k s Hk0 Hk Hr Hready; cbn [validate_all length].
  { apply wpx_ret. rewrite Z.add_0_r. split; [done|constructor]. }
  apply Forall_cons in Hready as [[[ctx Hc] Hop] Hready]. cbn [fst snd length] in *.
  replace (k + Z.of_nat (Datatypes.S (length ops))) with (k + 1 + Z.of_nat (length ops)) in * by lia.
  apply wpx_bind. eapply wpx_mono; [eapply validate_ok; [done|lia|done..]|cbv beta|].
  - intros ok s1 [Hr1 Hok]. destruct ok.
    + eapply wpx_mono; [apply (IH (k + 1)); [lia|lia|done..]|cbv beta|by intros]. intros ok s2 [Hr2 Hall].
      split; [done|]. intros ->. constructor; [|by apply Hall]. exists ctx. auto.
    + apply wpx_ret. split; [|done]. eapply reading_weaken; [|done|done]. lia.
  - intros x s1. apply waits_mono. lia.
Qed.

(** What is left of a transaction that was aborted *)
Record aborted s : Prop := {
  ab_rep : rep ∅ (en_ledger s.2) lg Hs n;
  ab_locks : forall sid, count_of (en_locks s.2) sid = others sid;
  ab_state : tx_state s.1 = TxAborted;
  ab_remote : tx_is_remote s.1 = tx_is_remote t0;
  ab_txs : en_txs s.2 = en_txs e0;
  ab_active : en_active s.2 = en_active e0 ∖ {[(tx_root t0, tx_identifier t0)]};
  ab_next : en_next_id s.2 = en_next_id e0;
}.

Lemma clear_handle k h cs : 0 <= k < 2 ^ 16 -> chain_ok others k [h] cs ->
  exists cs', LockHandle_clear [h] cs = (Ok tt, ([mkHandle ∅ (h_nonblocking h)], cs')) /\
    forall sid, count_of cs' sid = others sid.
Proof.
  intros Hk Hc. destruct (close_all_ok others others_range' k 0 [h] cs Hk eq_refl Hc) as (h' & cs' & E & _ & Hcs).
  cbn [close_all fst snd LockHandle_clear] in E. injection E as <- <-. by eexists.
Qed.

Lemma abort_ok E held k s :
  0 <= k < 2 ^ 16 -> reading held k s -> tx_state t0 = TxPending \/ tx_state t0 = TxPrepared ->
  (tx_root t0, tx_identifier t0) ∈ en_active e0 -> wpx E (abort padding) (fun _ s' => aborted s') s.
Proof.
  intros Hk [Ht Hrep Hc Hnb _ Htxs Hact Hnext] Hst Hin. destruct s as [t e]. cbn [fst snd] in *. destruct Ht.
  destruct (clear_handle k (tx_handle t) (en_locks e) Hk Hc) as (cs' & Ecl & Hcs).
  assert (wpx E (_ ← update_tx (set_state TxAborted); cleanup padding) (fun _ s' => aborted s') (t, e)) as Hgo.
  { unfold wpx, cleanup, update_tx, get_tx, modify_st, get_st, on_locks, remove_transaction, mbind, ST_bind, mret, ST_ret.
    cbn [fst snd]. rewrite decide_False by done. cbn [tx_handle set_state en_locks]. rewrite Ecl.
    cbn [fst snd tx_root tx_identifier set_ops set_handle set_state en_active set_locks].
    rewrite st_root0, st_id0, Hact, decide_True by done. by split. }
  unfold abort. apply wpx_bind. unfold wpx at 1, get_tx, mbind, ST_bind, get_st, mret, ST_ret. cbn [fst].
  rewrite st_state0. by destruct Hst as [-> | ->].
Qed.

Definition lock_steps : Z := Z.of_nat (size (tx_lock_types t0)) + Z.of_nat (length (tx_ops t0)).

(** The transaction may commit: it has the locks, and what it has read is what is there. *)
Definition prepared s : Prop :=
  tx_reading lg Hs n (set_state TxPrepared t0) e0 (tx_lock_types t0) lock_steps s /\ ops_valid (tx_ops t0).

Lemma lock_types_ok s :
  lock_steps < 2 ^ 16 -> reading ∅ 0 s ->
  wpx (fun _ _ => False) (catch_would_block (lock_all (sorted_entries (tx_lock_types t0))))
    (fun contention s' => reading (if contention : bool then ∅ else tx_lock_types t0) (Z.of_nat (size (tx_lock_types t0))) s') s.
Proof.
  intros Hk Hr. set (shards := sorted_entries (tx_lock_types t0)).
  assert (length shards = size (tx_lock_types t0)) as Elen.
  { unfold shards. rewrite (Permutation_length (sorted_entries_perm _)). apply length_map_to_list. }
  assert (0 + Z.of_nat (length shards) < 2 ^ 16) as Hlen by (unfold lock_steps in Hk; rewrite Elen; lia).
  pose proof (lock_all_ok shards ∅ 0 s ltac:(lia) Hlen (sorted_entries_keys _)
    ltac:(intros; apply lookup_empty) Hr) as Hl. rewrite Z.add_0_l, Elen in Hl.
  unfold shards in Hl. rewrite sorted_entries_map, (right_id_L ∅ (∪)) in Hl.
  unfold wpx, catch_would_block in *. fold shards in Hl. destruct (lock_all shards s) as [[[]|x] s']; [done|].
  by destruct Hl as [-> Hr'].
Qed.

Lemma prepare_ok gw s :
  lock_steps < 2 ^ 16 -> reading ∅ 0 s -> tx_state t0 = TxPending ->
  (tx_root t0, tx_identifier t0) ∈ en_active e0 -> ops_ready (tx_ops t0) ->
  wpx (waits lock_steps) (prepare padding new_primary run_program fuel gw)
    (fun ok s' => if ok then prepared s' else aborted s') s.
Proof.
  intros Hk Hr Hst Hact Hready. unfold prepare. xstep (by apply get_tx_ok). intros t s1 [Ht Hr1].
  rewrite (st_state _ _ Ht), (st_lock_types _ _ Ht), (st_ops _ _ Ht), Hst, bool_decide_true by done. cbn [negb].
  apply wpx_bind. eapply wpx_mono; [by apply lock_types_ok|cbv beta|by intros]. intros [] s2 Hr2.
  - xstep (by apply set_error_ok). intros _ s3 Hr3. unfold lock_steps in Hk.
    xstep (eapply (abort_ok _ ∅); [|exact Hr3|by left|done]; lia). intros _ s4 Hab. by apply wpx_ret.
  - apply wpx_bind. eapply wpx_mono; [apply (validate_all_ok gw _ (tx_lock_types t0) (Z.of_nat (size (tx_lock_types t0)))); [lia|exact Hk|exact Hr2|done]|cbv beta|by intros].
    intros [] s3 [Hr3 Hok].
    + apply wpx_bind. unfold wpx at 1, update_tx, modify_st. apply wpx_ret. split; [|by apply Hok].
      destruct Hr3 as [[] ? ? ? ? ? ? ?]. by split.
    + xstep (eapply (abort_ok _ (tx_lock_types t0)); [|exact Hr3|by left|done]; unfold lock_steps in Hk; lia).
      intros _ s4 Hab. by apply wpx_ret.
Qed.

End Reading.

(** ** Committing *)

(** What an operation changes in a store *)
Definition tx_change A ctx (op : operation_info D) : option (string * string * option (option D)) :=
  let change c key path op_type doc :=
    Some (c, key, write_spec (allows (verdict A) ctx c key path op_type) op_type path doc (store_cur (store_at A c key))) in
  match op with
  | PutInfo c full_path doc => let '(key, path) := parse_path full_path in change c key path PutObject doc
  | AddInfo c full_path doc => let '(key, path) := parse_path full_path in change c key path AddToObject doc
  | RemoveInfo c key => change c key EmptyString RemoveObject doc_null
  | _ => None
  end.

Definition tx_apply A ctx (op : operation_info D) : store :=
  match tx_change A ctx op with
  | Some (c, key, Some change) => store_push c key (ctx_to_string ctx, change) A
  | _ => A
  end.

Definition spec_commit (contexts : gmap Z OpContext) A (ops : list (Z * operation_info D)) : store :=
  fold_left (fun A op => match contexts !! op.1 with Some ctx => tx_apply A ctx op.2 | None => A end) ops A.

Definition is_write_op (op : operation_info D) : bool := bool_decide (is_Some (write_shard op)).
Definition num_writes (ops : list (Z * operation_info D)) : Z := Z.of_nat (length (filter (fun op => is_write_op op.2) ops)).

(** The documents are valid ones and small enough, wherever the transaction is recorded. *)
Definition op_fits A ctx (op : operation_info D) : Prop :=
  match tx_change A ctx op with
  | Some (_, key, change) => ctx_valid ctx = true /\ (is_valid_key key = true -> kv_key key) /\
      forall tref, in_range 32 (lp_block tref) -> in_range 16 (lp_index tref) -> write_fits cap ctx tref change
  | None => True
  end.

Fixpoint ops_fit (contexts : gmap Z OpContext) A (ops : list (Z * operation_info D)) : Prop :=
  match ops with
  | [] => True
  | op :: ops =>
      match contexts !! op.1 with
      | Some ctx => op_fits A ctx op.2 /\ ops_fit contexts (tx_apply A ctx op.2) ops
      | None => False
      end
  end.

(** The key of a write is a valid one. *)
Definition key_ok (op : operation_info D) : Prop :=
  match op with
  | PutInfo _ full_path _ | AddInfo _ full_path _ => is_valid_key (parse_path full_path).1 = true
  | RemoveInfo _ key => is_valid_key key = true
  | _ => True
  end.

Lemma valid_key_ok Hs A isolation ctx op : op_valid Hs A isolation ctx op -> key_ok op.
Proof.
  destruct op; cbn [op_valid key_ok]; try done; unfold may_write; try destruct (parse_path _); intros [? _]%andb_true_iff; done.
Qed.

(** A ledger that holds [A] and whose shards [ex] have not been organised *)
Definition sim_but ex l lg A (n : Z) : Prop := exists Hs, rep ex l lg Hs n /\ store_of Hs A /\ no_empty_key Hs /\
  forall name key, Z.of_nat (length (Hs name key)) + n <= Z.of_nat bound.

Lemma sim_but_le ex l lg A n n' : n' <= n -> sim_but ex l lg A n -> sim_but ex l lg A n'.
Proof.
  intros Hle (Hs & Hr & HA & Hne & Hb). exists Hs. split_and!; [by eapply ledger_rep_le|done|done|].
  intros name key. specialize (Hb name key). lia.
Qed.

Definition bump_op (op : operation_info D) (ex : gmap Z Z) : gmap Z Z :=
  match write_shard op with Some sid => bump sid ex | None => ex end.

(** Only the ledger, the error and the witness have changed. *)
Definition only_ledger (t : tx) (e : env) (l' : L) s : Prop :=
  s.2 = set_ledger l' e /\ same_tx t s.1 /\ tx_handle s.1 = tx_handle t.

Lemma only_ledger_trans t e l1 s1 l2 s2 : only_ledger t e l1 s1 -> only_ledger s1.1 s1.2 l2 s2 -> only_ledger t e l2 s2.
Proof.
  intros (E1 & [] & Hh1) (E2 & [] & Hh2). split_and!; [by rewrite E2, E1|split; congruence|congruence].
Qed.

Lemma write_step ex l lg A n ctx name key w path op tref :
  sim_but ex l lg A n -> can_load cap ex (shard_of_key name key) -> 0 < n -> ctx_valid ctx = true ->
  is_valid_key key = true -> kv_key key -> is_write op ->
  let r := write_spec (allows (verdict A) ctx name key path op) op path w (store_cur (store_at A name key)) in
  write_fits cap ctx tref r ->
  wp (apply_write padding new_primary run_program fuel ctx name key w path true op tref) (fun _ l' => exists lg',
    log_le lg lg' /\ sim_but (bump (shard_of_key name key) ex) l' lg'
      (match r with Some change => store_push name key (ctx_to_string ctx, change) A | None => A end) (n - 1)) l.
Proof.
  intros (Hs & Hr & HA & Hne & Hb) Hld Hn Hctx Hkey Hk Hop r Hfit. subst r.
  assert (key <> EmptyString) as Hkey' by (by intros ->). rewrite (store_of_cur _ _ _ _ HA) in *.
  eapply wp_mono; [eapply apply_write_ok; eauto using store_decides|]. cbv beta.
  intros eid l2 (lg2 & Hle & Hres). exists lg2. split; [done|]. destruct (write_spec _ op path w _) as [change|].
  - destruct Hres as (Hok & h & Hev & Hr2). eexists. split_and!; [exact Hr2|by apply store_of_push| |].
    + intros name'. rewrite hist_push_ne by (by intros [_ ?]). apply Hne.
    + intros name' key'. unfold hist_push. case_decide; [cbn [length]; specialize (Hb name key)|specialize (Hb name' key')]; lia.
  - destruct Hres as [_ Hr2]. exists Hs. split_and!; [done..|]. intros name' key'. specialize (Hb name' key'). lia.
Qed.

Lemma apply_step t e ctx task m (gw : event_id_t -> bool) (doc : event_id_t -> D) (Q : L -> Prop) :
  tx_op_contexts t !! task = Some ctx -> wp (m ctx) (fun _ l' => Q l') (en_ledger e) ->
  wp (new_eid ← (ctx ← get_op_context task; on_ledger (m ctx)); write_witness (gw new_eid) (doc new_eid))
    (fun _ s' => exists l', only_ledger t e l' s' /\ Q l') (t, e).
Proof.
  intros Hc Hm. apply wp_bind, wp_bind. unfold get_op_context. apply wp_bind. unfold get_tx. apply wp_bind, wp_get, wp_ret.
  cbn [fst]. rewrite Hc. apply wp_ret, wp_zoom. eapply wp_mono; [exact Hm|]. cbv beta. intros eid l' HQ.
  unfold write_witness. destruct (gw eid); [apply wp_modify|apply wp_ret]; by exists l'.
Qed.

Lemma do_write_ok t e ctx task op tref gw ex lg A n :
  tx_op_contexts t !! task = Some ctx -> sim_but ex (en_ledger e) lg A n -> op_fits A ctx op -> key_ok op ->
  in_range 32 (lp_block tref) -> in_range 16 (lp_index tref) ->
  (forall sid, write_shard op = Some sid -> 0 < n /\ can_load cap ex sid) ->
  wp (do_write padding new_primary run_program fuel tref gw (task, op)) (fun _ s' => exists l', only_ledger t e l' s' /\
    exists lg', log_le lg lg' /\ sim_but (bump_op op ex) l' lg' (tx_apply A ctx op)
      (n - if is_write_op op then 1 else 0)) (t, e).
Proof.
  intros Hc Hsim Hfit Hkey Hb Hi Hld. unfold op_fits, tx_apply, bump_op, is_write_op in *.
  destruct op as [c key p r|c key r|c key eid|c key doc|c key doc|c key|c p projection limit results];
    cbn [do_write fst snd tx_change write_shard key_ok] in *;
    try (apply wp_ret; exists (en_ledger e); split; [by destruct e|]; exists lg; split; [done|]; by rewrite Z.sub_0_r).
  all: unfold op_shard in *; try destruct (parse_path key) as [k path]; destruct (Hld _ eq_refl) as [Hn Hcl];
    destruct Hfit as (Hctx & Hkv & Hfit); (eapply apply_step; [done|]); eapply wp_mono.
  all: try (apply write_step; unfold is_write; eauto).
  all: cbv beta; intros _ l' (lg' & Hle & Hs'); exists lg'; (split; [done|]); rewrite bool_decide_true by eauto;
    by destruct (write_spec _ _ _ _ _).
Qed.

(** There is room for [w] more events in every shard. *)
Definition can_load_more ex (w : Z) : Prop := forall sid, load ex sid + w <= 1000 /\ (load ex sid + w) * cap <= 2 ^ 31.

Lemma can_load_bump ex w sid : 0 < w -> can_load_more ex w -> can_load cap ex sid /\ can_load_more (bump sid ex) (w - 1).
Proof.
  intros Hw Hm. split.
  - destruct (Hm sid). unfold can_load. split; [lia|]. nia.
  - intros sid'. rewrite load_bump. destruct (Hm sid'), (Hm sid). case_decide; subst; [|nia].
    replace (load ex sid + 1 + (w - 1)) with (load ex sid + w) by lia. done.
Qed.

Lemma do_writes_ok t e tref gw ops ex lg A n :
  sim_but ex (en_ledger e) lg A n -> ops_fit (tx_op_contexts t) A ops -> Forall (fun op => key_ok op.2) ops -> num_writes ops <= n ->
  can_load_more ex (num_writes ops) -> in_range 32 (lp_block tref) -> in_range 16 (lp_index tref) ->
  wp (do_writes padding new_primary run_program fuel tref gw ops) (fun _ s' => exists l', only_ledger t e l' s' /\
    exists lg', log_le lg lg' /\ sim_but (fold_left (fun ex op => bump_op op.2 ex) ops ex) l' lg'
      (spec_commit (tx_op_contexts t) A ops) (n - num_writes ops)) (t, e).
Proof.
  intros Hsim Hfit Hkeys Hn Hld Hb Hi. revert t e ex lg A n Hsim Hfit Hn Hld.
  induction Hkeys as [|[task op] ops Hkey Hkeys IH]; intros t e ex lg A n Hsim Hfit Hn Hld; cbn [do_writes].
  { apply wp_ret. exists (en_ledger e). split; [by destruct e|]. exists lg. unfold num_writes. cbn. by rewrite Z.sub_0_r. }
  cbn [ops_fit fst snd] in Hfit. destruct (tx_op_contexts t !! task) as [ctx|] eqn:Hc; [|done]. destruct Hfit as [Hfit Hrest].
  assert (num_writes ((task, op) :: ops) = (if is_write_op op then 1 else 0) + num_writes ops) as Enum.
  { unfold num_writes. rewrite filter_cons. cbn. destruct (is_write_op op); [rewrite decide_True by done|rewrite decide_False by auto];
      cbn [length]; lia. }
  rewrite Enum in *. assert (0 <= num_writes ops) by (unfold num_writes; lia). unfold is_write_op in *.
  apply wp_bind. eapply wp_mono; [eapply (do_write_ok t e ctx task op); try done|].
  { intros sid Hsid. rewrite Hsid, bool_decide_true in * by eauto. split; [lia|]. by eapply can_load_bump; [|exact Hld]; lia. }
  cbv beta. intros _ [t1 e1] (l1 & Hol & lg1 & Hle1 & Hsim1). pose proof Hol as (E1 & [] & _). cbn [fst snd] in *.
  assert (can_load_more (bump_op op ex) (num_writes ops)) as Hld1.
  { unfold bump_op. destruct (write_shard op) as [sid|]; [|by rewrite bool_decide_false in Hld by (by intros [? ?])].
    rewrite bool_decide_true in Hld by eauto. destruct (can_load_bump ex (1 + num_writes ops) sid) as [_ Hm]; [lia|done|].
    by replace (1 + num_writes ops - 1) with (num_writes ops) in Hm by lia. }
  eapply wp_mono; [eapply (IH t1 e1 (bump_op op ex) lg1)|].
  - rewrite E1. exact Hsim1.
  - by rewrite st_contexts0.
  - unfold is_write_op. lia.
  - exact Hld1.
  - cbv beta. intros _ s2 (l2 & Hol2 & lg2 & Hle2 & Hsim2). exists l2. split; [by eapply only_ledger_trans|].
    exists lg2. split; [by etrans|]. unfold spec_commit in *. cbn [fold_left fst snd]. rewrite Hc.
    rewrite st_contexts0 in Hsim2. unfold is_write_op in Hsim2.
    by replace (n - _) with (n - (if bool_decide (is_Some (write_shard op)) then 1 else 0) - num_writes ops) by lia.
Qed.

Lemma organize_step ex e t lg A n sid :
  0 <= sid < NUM_SHARDS_LEDGER -> is_Some (ex !! sid) -> 0 <= n -> sim_but ex (en_ledger e) lg A n ->
  wp (on_ledger (on_shards (organize_ledger padding sid))) (fun _ s' => exists l' lg', s' = (t, set_ledger l' e) /\
    log_le lg lg' /\ sim_but (delete sid ex) l' lg' A n) (t, e).
Proof.
  intros Hsid Hex Hn (Hs & Hr & HA & Hne & Hb). apply wp_zoom. eapply wp_mono; [by eapply ledger_organize_ok|]. cbv beta.
  intros _ l' (lg' & Hle & Hr'). exists l', lg'. split_and!; [done..|]. by exists Hs.
Qed.

Lemma organize_shards_ok shards t e ex lg A n :
  0 <= n -> sim_but ex (en_ledger e) lg A n -> NoDup shards.*1 ->
  (forall sid, is_Some (ex !! sid) <-> (sid, LWrite) ∈ shards) ->
  Forall (fun st : Z * LockType => 0 <= st.1 < NUM_SHARDS_LEDGER) shards ->
  wp (organize_shards padding shards) (fun _ s' => exists l' lg', s' = (t, set_ledger l' e) /\
    log_le lg lg' /\ sim_but ∅ l' lg' A n) (t, e).
Proof.
  intros Hn. revert e ex lg. induction shards as [|[sid ty] shards IH]; intros e ex lg Hsim Hnd Hex Hrange; cbn [organize_shards].
  { apply wp_ret. exists (en_ledger e), lg. split_and!; [by destruct e|done|]. replace ∅ with ex; [done|].
    apply map_empty. intros sid. apply eq_None_not_Some. rewrite Hex. apply not_elem_of_nil. }
  cbn in Hnd. apply NoDup_cons in Hnd as [Hin Hnd]. apply Forall_cons in Hrange as [Hsid Hrange]. cbn [fst] in *.
  assert (forall sid', sid' <> sid -> (sid', LWrite) ∈ (sid, ty) :: shards <-> (sid', LWrite) ∈ shards) as Hother.
  { intros sid' Hne. rewrite elem_of_cons. split; [intros [[= <- _]|]; done|by right]. }
  assert ((sid, LWrite) ∉ shards) as Hnot by (intros Hx; apply Hin; by apply (list_elem_of_fmap_2' fst _ _ _ Hx)).
  destruct ty.
  - eapply IH; [done|done| |done]. intros sid'. rewrite Hex. destruct (decide (sid' = sid)) as [->|Hne]; [|by apply Hother].
    rewrite elem_of_cons. split; [by intros [[=]|]|by right].
  - apply wp_bind. eapply wp_mono; [by eapply organize_step; [done|apply Hex; left|done|done]|]. cbv beta.
    intros _ s' (l1 & lg1 & -> & Hle1 & Hsim1). eapply wp_mono; [eapply (IH _ (delete sid ex) lg1); [done|done| |done]|].
    + intros sid'. destruct (decide (sid' = sid)) as [->|Hne].
      * rewrite lookup_delete_eq. split; [by intros [? ?]|done].
      * rewrite lookup_delete_ne by done. rewrite Hex. by apply Hother.
    + cbv beta. intros _ s2 (l2 & lg2 & -> & Hle2 & Hsim2). exists l2, lg2. split_and!; [done|by etrans|done].
Qed.

(** *** The identifiers that the writes are expected to get *)

Lemma get_next_event_ids_ok ex l lg Hs n shard num out :
  rep ex l lg Hs n -> 0 <= shard < NUM_SHARDS_LEDGER -> event_set out ->
  wp (get_next_event_ids shard num out) (fun out' sh => shards_same (l_shards l) sh /\ event_set out' /\
    (length out' <= length out + Z.to_nat num)%nat) (l_shards l).
Proof.
  intros Hr Hsh Hout. destruct (lr_pending _ _ _ _ _ _ _ Hr shard Hsh) as [pid Hpid].
  destruct (sr_pending _ _ (lr_shards _ _ _ _ _ _ _ Hr) _ _ Hpid) as [docs Hd].
  destruct (sr_order _ _ (lr_shards _ _ _ _ _ _ _ Hr) _ _ _ _ Hd) as [Hrange _]. rewrite INVALID_PAGE_NO_val in Hrange.
  unfold get_next_event_ids. apply wp_bind. eapply wp_mono; [eapply Shard_get_pending_block_ok; [apply Hr|done|done]|]. cbv beta.
  intros [pid' b] sh (Epid & Hsame & _). cbn [fst] in Epid. subst pid'. apply wp_ret. split; [done|].
  pose proof (event_set_fold ((fun i => EventId shard pid (u16 (Block_num_entries b + i))) <$> seqZ 0 num) out) as Hf.
  rewrite length_fmap, length_seqZ, fold_left_fmap in Hf. apply Hf; [|done]. apply Forall_fmap, Forall_forall.
  intros i _. unfold event_wf. cbn. unfold NUM_SHARDS_LEDGER in Hsh. split_and!; unfold in_range; try lia; apply wrap_range; lia.
Qed.

Lemma next_event_ids_ok ex l lg Hs n shards out :
  rep ex l lg Hs n -> Forall (fun st : Z * Z => 0 <= st.1 < NUM_SHARDS_LEDGER) shards -> event_set out ->
  wp (on_shards (next_event_ids shards out)) (fun out' l' => rep ex l' lg Hs n /\ event_set out' /\
    (length out' <= length out + sum_list (Z.to_nat <$> shards.*2))%nat) l.
Proof.
  revert l out. induction shards as [|[shard num] shards IH]; intros l out Hr Hall Hout; unfold on_shards; apply wp_zoom;
    cbn [next_event_ids].
  { apply wp_ret. split_and!; [|done|cbn; lia]. apply ledger_rep_shards; [done|]. apply shards_same_refl, Hr. }
  apply Forall_cons in Hall as [Hsh Hall]. cbn [fst] in Hsh. apply wp_bind.
  eapply (wp_mono _ (fun out' sh => shards_same (l_shards l) sh /\ event_set out' /\ (length out' <= length out + Z.to_nat num)%nat)).
  - destruct (0 <? num); [by eapply get_next_event_ids_ok|]. apply wp_ret. split_and!; [|done|lia]. apply shards_same_refl, Hr.
  - cbv beta. intros out1 sh1 (Hsame & Hout1 & Hlen1).
    pose proof (IH (set_shards sh1 l) out1 (ledger_rep_shards _ _ _ _ _ _ _ _ Hr Hsame) Hall Hout1) as Hw.
    unfold on_shards, wp, zoom in *. cbn [l_shards set_shards] in Hw.
    destruct (next_event_ids shards out1 sh1) as [[out2|x] sh2]; [|done]. destruct Hw as (Hr2 & Hset2 & Hlen2).
    split_and!; [exact Hr2|done|]. cbn. unfold compose. lia.
Qed.

(** *** The sets that are recorded *)

Definition op_reads (op : operation_info D) : list event_id_t :=
  match op with
  | GetInfo _ _ eid => [eid]
  | FindInfo _ _ _ _ results => snd <$> results
  | _ => []
  end.

Lemma extract_reads_all (ops : list (Z * operation_info D)) (out : list event_id_t) :
  fold_left (fun acc op => extract_reads op acc) ops out =
  fold_left (fun acc x => std_set_insert x acc) (ops ≫= fun op => op_reads op.2) out.
Proof.
  revert out. induction ops as [|[task op] ops IH]; intros out; [done|]. rewrite bind_cons, fold_left_app. cbn [fold_left].
  rewrite IH. by destruct op.
Qed.

Lemma alter_sum (ws : list Z) i : Forall (fun w => 0 <= w) ws ->
  Forall (fun w => 0 <= w) (alter (fun w => u16 (w + 1)) i ws) /\
  (sum_list (Z.to_nat <$> alter (fun w => u16 (w + 1)) i ws) <= sum_list (Z.to_nat <$> ws) + 1)%nat.
Proof.
  intros Hall. revert i. induction Hall as [|w ws Hw Hws IH]; intros i; [destruct i; (split; [constructor|cbn; lia])|].
  destruct i as [|i].
  - pose proof (wrap_range 16 (w + 1) ltac:(lia)) as [Hlo _].
    assert (u16 (w + 1) <= w + 1) by (unfold wrap; apply Z.mod_le; lia).
    split; [constructor; done|]. change (alter _ 0%nat (w :: ws)) with (u16 (w + 1) :: ws). cbn. lia.
  - destruct (IH i) as [IH1 IH2]. split; [by constructor|].
    change (alter _ (Datatypes.S i) (w :: ws)) with (w :: alter (fun w => u16 (w + 1)) i ws). cbn. lia.
Qed.

Lemma extract_writes_sum (ops : list (Z * operation_info D)) ws : Forall (fun w => 0 <= w) ws ->
  let ws' := fold_left (fun acc op => extract_writes op acc) ops ws in
  length ws' = length ws /\
  (sum_list (Z.to_nat <$> ws') <= sum_list (Z.to_nat <$> ws) + length (filter (fun op => is_write_op op.2) ops))%nat.
Proof.
  revert ws. induction ops as [|[task op] ops IH]; intros ws Hws; cbn [fold_left]; [cbn; split; [done|lia]|].
  rewrite filter_cons. cbn [snd]. unfold is_write_op in *. destruct (write_shard op) as [sid|] eqn:Ew.
  - assert (extract_writes (task, op) ws = alter (fun w => u16 (w + 1)) (Z.to_nat sid) ws) as ->
      by (unfold extract_writes; cbn [snd]; by rewrite Ew).
    rewrite decide_True by (by apply bool_decide_pack; eauto). destruct (alter_sum ws (Z.to_nat sid) Hws) as [Hws' Hsum].
    destruct (IH _ Hws') as [Hlen Hle]. rewrite length_alter in Hlen. split; [done|]. cbn [length]. lia.
  - assert (extract_writes (task, op) ws = ws) as -> by (unfold extract_writes; cbn [snd]; by rewrite Ew).
    rewrite decide_False; [by apply IH|]. rewrite bool_decide_false; [auto|by intros [? ?]].
Qed.

Lemma bump_ops_dom (ops : list (Z * operation_info D)) ex sid :
  is_Some (fold_left (fun ex op => bump_op op.2 ex) ops ex !! sid) <->
  is_Some (ex !! sid) \/ exists op, op ∈ ops /\ write_shard op.2 = Some sid.
Proof.
  revert ex. induction ops as [|[task op] ops IH]; intros ex; cbn [fold_left].
  { split; [by left|]. intros [?|(? & ?%elem_of_nil & _)]; done. }
  rewrite IH. cbn [snd]. setoid_rewrite elem_of_cons.
  assert (is_Some (bump_op op ex !! sid) <-> is_Some (ex !! sid) \/ write_shard op = Some sid) as E.
  { unfold bump_op, bump. destruct (write_shard op) as [sid'|]; [|naive_solver].
    destruct (decide (sid' = sid)) as [->|]; [rewrite lookup_insert_eq; naive_solver|].
    rewrite lookup_insert_ne by done. naive_solver. }
  rewrite E. naive_solver.
Qed.

(** What a transaction needs to be recorded *)
Record recordable t (e : env) lgt : Prop := {
  rc_tasks : forall task c, tx_op_contexts t !! task = Some c -> in_range 32 task;
  rc_root : in_range 64 (tx_root t);
  rc_id : in_range 32 (tx_identifier t);
  rc_reads : Forall event_wf (tx_ops t ≫= fun op => op_reads op.2);
  rc_blocks : blocks_rep (tl_blocks (en_txs e)) lgt;
  rc_avail : 0 < ps_avail (sh_store (tl_blocks (en_txs e)));
  rc_bounded : forall os, op_set_wf os ->
    (length (os_reads os) <= length (tx_ops t ≫= fun op => op_reads op.2))%nat ->
    Z.of_nat (length (os_writes os)) <= num_writes (tx_ops t) ->
    tx_bounded (D := D) (mkTxEntry (tx_op_contexts t) (tx_root t) (tx_identifier t) os ∅);
}.

(** The transaction [t0], begun in [e0], has committed. *)
Record committed lg A n t0 e0 lgt s : Prop := {
  cm_store : exists lg', log_le lg lg' /\
    sim_but ∅ (en_ledger s.2) lg' (spec_commit (tx_op_contexts t0) A (tx_ops t0)) (n - num_writes (tx_ops t0));
  cm_locks : forall sid, count_of (en_locks s.2) sid = others sid;
  cm_state : tx_state s.1 = TxCommitted;
  cm_active : en_active s.2 = en_active e0 ∖ {[(tx_root t0, tx_identifier t0)]};
  cm_next : en_next_id s.2 = en_next_id e0;
  cm_recorded : exists pos os, op_set_wf os /\ os_reads os = std_set_of_list (tx_ops t0 ≫= fun op => op_reads op.2) /\
    inserted lgt (doc_bytes (transaction_doc (mkTxEntry (tx_op_contexts t0) (tx_root t0) (tx_identifier t0) os ∅) : D))
      (ps_avail (sh_store (tl_blocks (en_txs e0)))) pos (en_txs s.2);
}.

Lemma cleanup_ok k lg A n t e :
  0 <= k < 2 ^ 16 -> 0 <= n -> chain_ok others k [tx_handle t] (en_locks e) -> tx_state t = TxCommitted ->
  (tx_root t, tx_identifier t) ∈ en_active e -> (forall sid ty, tx_lock_types t !! sid = Some ty -> 0 <= sid < NUM_SHARDS_LEDGER) ->
  (exists ex, sim_but ex (en_ledger e) lg A n /\ forall sid, is_Some (ex !! sid) <-> tx_lock_types t !! sid = Some LWrite) ->
  wp (cleanup padding) (fun _ s' => tx_state s'.1 = TxCommitted /\
    (exists lg', log_le lg lg' /\ sim_but ∅ (en_ledger s'.2) lg' A n) /\
    (forall sid, count_of (en_locks s'.2) sid = others sid) /\
    en_active s'.2 = en_active e ∖ {[(tx_root t, tx_identifier t)]} /\ en_next_id s'.2 = en_next_id e /\ en_txs s'.2 = en_txs e) (t, e).
Proof.
  intros Hk Hn Hc Hst Hact Hrange (ex & Hsim & Hex). destruct (clear_handle k _ _ Hk Hc) as (cs' & Ecl & Hcs).
  unfold cleanup. apply wp_bind. unfold get_tx. apply wp_bind, wp_get, wp_ret. cbn [fst]. rewrite decide_True by done. apply wp_bind.
  eapply wp_mono; [apply (organize_shards_ok (sorted_entries (tx_lock_types t)) t e ex lg A n); [done|done|..]|].
  - apply sorted_entries_keys.
  - intros sid. by rewrite Hex, sorted_entries_elem.
  - apply Forall_forall. intros [sid ty] Hin%sorted_entries_elem. by eapply Hrange.
  - cbv beta. intros _ s1 (l1 & lg1 & -> & Hle1 & Hsim1).
    unfold wp, mbind, ST_bind, on_locks. cbn [tx_handle en_locks set_ledger]. rewrite Ecl.
    unfold update_tx, modify_st, remove_transaction. cbn [fst snd tx_root tx_identifier set_ops set_handle en_active set_locks set_ledger].
    rewrite decide_True by done. cbn. split_and!; eauto.
Qed.

Lemma write_set_ok t e lg Hs n :
  rep ∅ (en_ledger e) lg Hs n ->
  let ws := fold_left (fun acc op => extract_writes op acc) (tx_ops t) (replicate (Z.to_nat NUM_SHARDS_LEDGER) 0) in
  wp (on_ledger (on_shards (next_event_ids (zip (seqZ 0 NUM_SHARDS_LEDGER) ws) []))) (fun out s' => exists l',
    s' = (t, set_ledger l' e) /\ rep ∅ l' lg Hs n /\ event_set out /\ Z.of_nat (length out) <= num_writes (tx_ops t)) (t, e).
Proof.
  intros Hr ws. destruct (extract_writes_sum (tx_ops t) (replicate (Z.to_nat NUM_SHARDS_LEDGER) 0)) as [Hlen Hsum].
  { by apply Forall_replicate. }
  fold ws in Hlen, Hsum. rewrite length_replicate in Hlen. apply wp_zoom.
  eapply wp_mono; [eapply next_event_ids_ok; [exact Hr| |split; constructor]|].
  - apply Forall_forall. intros [sid w] Hin. apply elem_of_zip_l in Hin. apply elem_of_seqZ in Hin. cbn. lia.
  - cbv beta. intros out l' (Hr' & Hset & Hle). exists l'. split_and!; [done..|].
    rewrite snd_zip in Hle by (rewrite length_seqZ; lia). unfold num_writes.
    assert (sum_list (Z.to_nat <$> replicate (Z.to_nat NUM_SHARDS_LEDGER) 0) = 0%nat) as E0 by (vm_compute; reflexivity). cbn [length] in Hle. lia.
Qed.

Lemma commit_ok gw lg Hs n A t0 e0 lgt s :
  prepared lg Hs n A t0 e0 s -> store_of Hs A -> no_empty_key Hs ->
  (forall name key, Z.of_nat (length (Hs name key)) + n <= Z.of_nat bound) ->
  registered t0 -> (tx_root t0, tx_identifier t0) ∈ en_active e0 -> recordable t0 e0 lgt -> lock_steps t0 < 2 ^ 16 ->
  ops_fit (tx_op_contexts t0) A (tx_ops t0) -> num_writes (tx_ops t0) <= n -> can_load_more ∅ (num_writes (tx_ops t0)) ->
  wp (commit padding new_primary run_program fuel gw) (fun _ s' => committed lg A n t0 e0 lgt s') s.
Proof.
  intros [[Ht Hrep Hc Hnb Hheld Htxs Hact Hnext] Hvalid] HA Hne Hb [Hrg Hrw] Hin Hrec Hk Hfit Hnw Hld.
  destruct s as [t e]. cbn [fst snd] in *. destruct Ht. cbn in *.
  unfold commit. apply wp_bind. unfold get_tx. apply wp_bind, wp_get, wp_ret. cbn [fst].
  rewrite st_state0, bool_decide_true by done. cbn [negb]. apply wp_bind.
  eapply wp_mono; [by eapply write_set_ok|]. cbv beta. intros write_set s1 (l1 & -> & Hrep1 & Hwset & Hwlen).
  rewrite extract_reads_all, st_contexts0, st_root0, st_id0, st_ops0 in *.
  destruct (event_set_fold _ [] (rc_reads _ _ _ Hrec)) as [Hrset Hrlen]; [split; constructor|].
  set (read_set := fold_left _ _ []) in *. set (os := mkOpSet read_set write_set).
  apply wp_bind, wp_zoom. cbn [fst snd en_txs set_ledger]. rewrite Htxs. eapply wp_mono.
  { eapply TransactionLedger_insert_ok; [apply Hrec|apply Hrec|]. by apply (rc_bounded _ _ _ Hrec os). }
  cbv beta. intros pos x1 Hins. destruct Hins as (lgt' & Hins). pose proof Hins as (_ & _ & _ & Hpb & Hpi & _).
  apply wp_bind. eapply wp_mono.
  { eapply (do_writes_ok t (set_txs x1 (set_ledger l1 e)) pos gw (tx_ops t0) ∅ lg A n); try done.
    - by exists Hs.
    - by rewrite st_contexts0.
    - eapply Forall_impl; [exact Hvalid|]. cbv beta. intros op (ctx & _ & Hv). by eapply valid_key_ok. }
  cbv beta. intros _ [t2 e2] (l2 & (E2 & [] & Hh2) & lg2 & Hle2 & Hsim2). cbn [fst snd] in *.
  apply wp_bind, wp_bind, wp_get, wp_ret. cbn [fst]. apply wp_bind, wp_modify. cbn [fst snd]. apply wp_bind.
  eapply wp_mono; [eapply (cleanup_ok (lock_steps t0) lg2 _ (n - num_writes (tx_ops t0)))|]; cbn [tx_handle tx_state tx_root tx_identifier tx_lock_types set_state].
  - unfold lock_steps in *. lia.
  - lia.
  - rewrite Hh2, E2. exact Hc.
  - done.
  - rewrite E2. cbn. by rewrite st_root1, st_root0, st_id1, st_id0, Hact.
  - rewrite st_lock_types1, st_lock_types0. exact Hrg.
  - eexists. rewrite E2. split; [exact Hsim2|]. intros sid. rewrite bump_ops_dom, st_lock_types1, st_lock_types0, lookup_empty, Hrw.
    split; [by intros [[? ?]|?]|by right].
  - cbv beta. intros _ s3 (Hst3 & (lg3 & Hle3 & Hsim3) & Hlocks3 & Hact3 & Hnext3 & Htxs3). apply wp_ret.
    rewrite E2 in Hact3, Hnext3, Htxs3. cbn in Hact3, Hnext3, Htxs3. split; [|done|done|congruence|congruence|].
    + exists lg3. split; [by etrans|]. by rewrite st_contexts0 in Hsim3.
    + exists pos, os. split; [done|]. split; [done|]. rewrite Htxs3. by exists lgt'.
Qed.

Lemma executor_abort_ok lg Hs n t0 e0 E s :
  tx_is_remote t0 = false -> aborted lg Hs n t0 e0 s ->
  wpx E (executor_abort padding) (fun _ s' => aborted lg Hs n t0 e0 s') s.
Proof.
  intros Hrem Hab. unfold executor_abort, abort, get_tx, wpx, mbind, ST_bind, get_st, mret, ST_ret.
  by rewrite (ab_remote _ _ _ _ _ _ Hab), Hrem, (ab_state _ _ _ _ _ _ Hab).
Qed.

Lemma proxy_work_ok gw lg Hs n A t0 e0 lgt s :
  tx_reading lg Hs n t0 e0 ∅ 0 s -> store_of Hs A -> no_empty_key Hs ->
  (forall name key, Z.of_nat (length (Hs name key)) + n <= Z.of_nat bound) ->
  registered t0 -> tx_state t0 = TxPending -> tx_is_remote t0 = false -> (tx_root t0, tx_identifier t0) ∈ en_active e0 ->
  recordable t0 e0 lgt -> lock_steps t0 < 2 ^ 16 -> ops_ready t0 (tx_ops t0) ->
  ops_fit (tx_op_contexts t0) A (tx_ops t0) -> num_writes (tx_ops t0) <= n -> can_load_more ∅ (num_writes (tx_ops t0)) ->
  wpx (waits lg Hs n t0 e0 (lock_steps t0)) (proxy_work padding new_primary run_program fuel gw) (fun r s' =>
    match r with
    | inr _ => committed lg A n t0 e0 lgt s' /\ ops_valid Hs A t0 (tx_ops t0)
    | inl _ => aborted lg Hs n t0 e0 s'
    end) s.
Proof.
  intros Hr HA Hne Hb Hreg Hst Hrem Hin Hrec Hk Hready Hfit Hn Hld. unfold proxy_work, phase_one. apply wpx_bind.
  xstep (by apply get_tx_ok). intros t s1 [Ht Hr1]. rewrite (st_remote _ _ Ht), Hrem.
  xstep (by eapply prepare_ok). intros [] s2 Hp.
  - apply wpx_bind, wpx_ret, wpx_ret. destruct Hp as [Hp Hval]. unfold phase_two. apply wpx_bind.
    xstep (by apply (get_tx_ok _ _ _ _ _ _ _ _ _ Hp)). intros t2 s3 [Ht2 Hp3]. rewrite (st_remote _ _ Ht2). cbn [tx_is_remote set_state].
    rewrite Hrem. apply wpx_of_wp. eapply wp_mono; [eapply commit_ok; try done; by split|]. cbv beta. intros w s4 Hc. by apply wpx_ret.
  - xstep (by eapply executor_abort_ok). intros _ s3 Hab. apply wpx_ret. cbv beta iota.
    apply wpx_bind. unfold get_tx. apply wpx_bind. by apply wpx_ret.
Qed.

End Others.

(** ** Whole transactions *)

(** What an operation has read or was allowed is what the ledger answers. *)
Definition op_agrees l (isolation : IsolationLevel) ctx (op : operation_info D) : Prop :=
  let reads c key eid := exists h l',
    get_latest_version new_primary run_program fuel ctx c key EmptyString GetObject l = (Ok (eid, h), l') /\ handle_valid h = true in
  let allowed c key path op_type := exists l', prepare_write new_primary run_program fuel ctx c key path op_type l = (Ok true, l') in
  match op with
  | CheckInfo c k p r => exists l',
      check new_primary run_program fuel (fun d => matches_predicates d p) ctx c k EmptyString l = (Ok r, l')
  | HasInfo c k r => exists l', has_object new_primary c k l = (Ok r, l')
  | GetInfo c k eid => if decide (isolation = ReadCommitted) then exists eid, reads c k eid else reads c (parse_path k).1 eid
  | PutInfo c full_path _ => let '(key, path) := parse_path full_path in allowed c key path PutObject
  | AddInfo c full_path _ => let '(key, path) := parse_path full_path in allowed c key path AddToObject
  | RemoveInfo c k => allowed c k EmptyString RemoveObject
  | FindInfo c p _ _ results =>
      match isolation with
      | ReadCommitted => Forall (fun r => exists eid, reads c r.1 eid) results
      | RepeatableRead => Forall (fun r => reads c (parse_path r.1).1 r.2) results
      | Serializable => exists out l' found, handle_find new_primary run_program fuel ctx c p [] (-1) l = (Ok out, l') /\
          found ≡ₚ (fun o => o.1.2) <$> out /\ erase_each found (std_set_of_list (snd <$> results)) = Some []
      end
  end.

Lemma reads_now_agrees l lg Hs n A ctx c key eid :
  rep ∅ l lg Hs n -> store_of Hs A -> no_empty_key Hs -> reads_now Hs A ctx c key eid ->
  exists h l', get_latest_version new_primary run_program fuel ctx c key EmptyString GetObject l = (Ok (eid, h), l') /\
    handle_valid h = true.
Proof.
  intros Hr HA Hne (h & Enow & Hv).
  assert (wp (get_latest_version new_primary run_program fuel ctx c key EmptyString GetObject) (fun r l' => r = now Hs A ctx c key) l) as Hw.
  { eapply wp_mono; [eapply get_latest_version_any; [done|apply Hne|by eapply store_decides]|]. by intros ? ? [-> _]. }
  apply wp_run in Hw as (r & l' & E & ->). rewrite Enow in E. eauto.
Qed.

Lemma may_write_agrees l lg Hs n A ctx c key path op :
  rep ∅ l lg Hs n -> store_of Hs A -> no_empty_key Hs -> may_write A ctx c key path op ->
  exists l', prepare_write new_primary run_program fuel ctx c key path op l = (Ok true, l').
Proof.
  intros Hr HA Hne [Hkey Hcol]%andb_true_iff. unfold prepare_write. rewrite Hkey. cbn [negb].
  assert (wp (check_collection_policy new_primary run_program fuel ctx c key path op) (fun b _ => b = true) l) as Hw.
  { eapply wp_mono; [by eapply check_collection_policy_ok|]. cbv beta. intros b l' [_ ->]. done. }
  apply wp_run in Hw as (b & l' & E & ->). eauto.
Qed.

Lemma op_valid_agrees l lg Hs n A isolation ctx op :
  rep ∅ l lg Hs n -> store_of Hs A -> no_empty_key Hs -> op_ready isolation op -> op_valid Hs A isolation ctx op ->
  op_agrees l isolation ctx op.
Proof.
  intros Hr HA Hne Hready Hval. assert (decides room0 cap run_program Hs (verdict A)) as Hdec by (by eapply store_decides).
  unfold op_agrees.
  destruct op as [c key p r|c key r|c key eid|c key doc|c key doc|c key|c p projection limit results]; cbn [op_valid op_ready] in *.
  - assert (wp (check new_primary run_program fuel (fun d => matches_predicates d p) ctx c key EmptyString) (fun b _ => b = r) l) as Hw.
    { eapply wp_mono; [eapply check_ok; [done|exact Hr|done|done]|]. cbv beta. intros b l' [_ ->]. done. }
    apply wp_run in Hw as (b & l' & E & ->). by exists l'.
  - assert (wp (has_object new_primary c key) (fun b _ => b = r) l) as Hw.
    { eapply wp_mono; [by eapply has_object_ok|]. cbv beta. intros b l' [_ ->]. done. }
    apply wp_run in Hw as (b & l' & E & ->). by exists l'.
  - case_decide; [destruct Hval as [eid' Hval]; exists eid'|]; by eapply reads_now_agrees.
  - destruct (parse_path key). by eapply may_write_agrees.
  - destruct (parse_path key). by eapply may_write_agrees.
  - by eapply may_write_agrees.
  - destruct isolation.
    + eapply Forall_impl; [exact Hval|]. cbn. intros r [eid Hn]. exists eid. by eapply reads_now_agrees.
    + eapply Forall_impl; [exact Hval|]. cbn. intros r Hn. by eapply reads_now_agrees.
    + destruct Hval as (keys & Hnd & Hkeys & Her).
      pose proof (handle_find_ok new_primary room0 cap run_program fuel ctx _ _ _ _ _ _ ctx c p [] (-1)
        Hr (Hne c) Hdec (Hready eq_refl) ltac:(lia)) as Hw.
      apply wp_run in Hw as (out & l' & E & _ & keys' & Hnd' & Hkeys' & ->).
      eexists _, l', _. split; [exact E|]. split; [|exact Her].
      rewrite <-list_fmap_compose.
      rewrite (hits_perm _ _ _ _ _ _ _ _ _ _ _ _ Hr Hnd Hnd' Hkeys Hkeys').
      erewrite list_fmap_ext; [reflexivity|]. by intros ? [? [? ?]] _.
Qed.

(** What a transaction changes in a store *)
Definition spec_transaction A ctx (ops : list (operation_info D)) : store := fold_left (fun A op => tx_apply A ctx op) ops A.

Fixpoint transaction_fits A ctx (ops : list (operation_info D)) : Prop :=
  match ops with
  | [] => True
  | op :: ops => op_fits A ctx op /\ transaction_fits (tx_apply A ctx op) ctx ops
  end.

Lemma spec_commit_one A task ctx ops : spec_commit {[task := ctx]} A ((task,.) <$> ops) = spec_transaction A ctx ops.
Proof.
  revert A. induction ops as [|op ops IH]; intros A; [done|]. unfold spec_commit, spec_transaction in *.
  cbn [fmap list_fmap fold_left fst snd]. by rewrite lookup_singleton_eq.
Qed.

Lemma ops_fit_one A task ctx ops : transaction_fits A ctx ops -> ops_fit {[task := ctx]} A ((task,.) <$> ops).
Proof.
  revert A. induction ops as [|op ops IH]; intros A; [done|]. cbn [transaction_fits fmap list_fmap ops_fit fst snd].
  rewrite lookup_singleton_eq. intros [? ?]. auto.
Qed.

(** A request that the server is ready for: the identifiers have their widths, and
    the documents and the record of the transaction are small enough. *)
Record tx_request_ok A (e : env) (uid task : Z) ctx isolation (ops : list (operation_info D)) : Prop := {
  tr_locks : forall sid, -1 <= count_of (en_locks e) sid < 2 ^ 31 - 2;
  tr_next : in_range 32 (en_next_id e);
  tr_recorder : exists lgt, blocks_rep (tl_blocks (en_txs e)) lgt;
  tr_avail : 0 < ps_avail (sh_store (tl_blocks (en_txs e)));
  tr_uid : in_range 64 uid;
  tr_task : in_range 32 task;
  tr_ops : Z.of_nat (length ops) <= 1000 /\ Z.of_nat (length ops) * cap <= 2 ^ 31;
  tr_ready : Forall (op_ready isolation) ops;
  tr_fits : transaction_fits A ctx ops;
  tr_reads : Forall event_wf (ops ≫= op_reads);
  tr_bounded : forall os, op_set_wf os -> (length (os_reads os) <= length (ops ≫= op_reads))%nat ->
    (length (os_writes os) <= length ops)%nat -> tx_bounded (D := D) (mkTxEntry {[task := ctx]} uid (en_next_id e) os ∅);
}.

(** The transaction as it is registered, with the locks [ls] to take *)
Definition started (uid lid task : Z) ctx isolation (ops : list (operation_info D)) ls : tx :=
  set_lock_types ls (set_ops ((task,.) <$> ops) (set_contexts {[task := ctx]} (new_transaction isolation uid lid false))).

Lemma op_reads_tasks task (ops : list (operation_info D)) :
  (((task,.) <$> ops) ≫= fun op : Z * operation_info D => op_reads op.2) = ops ≫= op_reads.
Proof. induction ops as [|op ops IH]; [done|]. cbn [fmap list_fmap]. by rewrite !bind_cons, IH. Qed.

Lemma num_writes_le (ops : list (Z * operation_info D)) : num_writes ops <= Z.of_nat (length ops).
Proof. unfold num_writes. apply inj_le, length_filter. Qed.

Lemma started_recordable A e uid task ctx isolation ops ls lgt active next :
  tx_request_ok A e uid task ctx isolation ops -> blocks_rep (tl_blocks (en_txs e)) lgt ->
  recordable (started uid (en_next_id e) task ctx isolation ops ls) (mkEnv (en_ledger e) (en_locks e) (en_txs e) active next) lgt.
Proof.
  intros [] Hb. split; cbn [started set_lock_types set_ops set_contexts new_transaction tx_op_contexts tx_root tx_identifier tx_ops en_txs]; try done.
  - intros task' c [<- _]%lookup_singleton_Some. done.
  - by rewrite op_reads_tasks.
  - intros os Hos Hr Hw. rewrite op_reads_tasks in Hr. apply tr_bounded0; [done..|].
    pose proof (num_writes_le ((task,.) <$> ops)) as Hnw. rewrite length_fmap in Hnw. lia.
Qed.

Lemma started_ready uid lid task ctx isolation ops ls :
  Forall (op_ready isolation) ops -> let t0 := started uid lid task ctx isolation ops ls in ops_ready t0 (tx_ops t0).
Proof.
  intros Hall. cbn. unfold ops_ready. apply Forall_fmap. eapply Forall_impl; [exact Hall|]. cbn. intros op Hop.
  rewrite lookup_singleton_eq. eauto.
Qed.

Lemma started_agrees l lg n Hs A uid lid task ctx isolation ops ls :
  rep ∅ l lg Hs n -> store_of Hs A -> no_empty_key Hs -> Forall (op_ready isolation) ops ->
  (let t0 := started uid lid task ctx isolation ops ls in ops_valid Hs A t0 (tx_ops t0)) ->
  Forall (op_agrees l isolation ctx) ops.
Proof.
  intros Hr HA Hne Hready Hval. apply Forall_forall. intros op Hop. cbn in Hval. unfold ops_valid in Hval.
  rewrite Forall_forall in Hval. destruct (Hval (task, op)) as (c & Hc & Hv); [apply list_elem_of_fmap; by exists op|].
  cbn in Hc, Hv. rewrite lookup_singleton_eq in Hc. injection Hc as <-. rewrite Forall_forall in Hready.
  eapply op_valid_agrees; eauto.
Qed.

Lemma recorded_get lgt (doc : D) avail pos (x : txledger S2) :
  inserted lgt (doc_bytes doc) avail pos x -> doc_valid doc = true -> exists x', TransactionLedger_get pos x = (Ok doc, x').
Proof.
  intros (lgt' & Hb & _ & Hp & _) Hv. pose proof (TransactionLedger_get_ok _ _ _ _ Hb Hp Hv) as Hw.
  apply wp_run in Hw as (h & x' & E & -> & _). eauto.
Qed.

(** Running the transaction from a ledger that holds [A] *)
Lemma execute_transaction_ok e lg A n uid task ctx isolation gw ops :
  sim_but ∅ (en_ledger e) lg A n -> Z.of_nat (length ops) <= n -> tx_request_ok A e uid task ctx isolation ops ->
  let '(r, e') := execute_transaction padding new_primary run_program fuel uid task ctx isolation gw ops e in
  let unlocked := forall sid, count_of (en_locks e') sid = count_of (en_locks e) sid in
  let removed := en_active e' = en_active e ∖ {[(uid, en_next_id e)]} in
  let unchanged := sim_but ∅ (en_ledger e') lg A n /\ en_txs e' = en_txs e in
  match r with
  | Ok (inr _) => unlocked /\ removed /\ Forall (op_agrees (en_ledger e) isolation ctx) ops /\
      (exists lg', sim_but ∅ (en_ledger e') lg' (spec_transaction A ctx ops) (n - Z.of_nat (length ops))) /\
      exists pos os (h : D) x', os_reads os = std_set_of_list (ops ≫= op_reads) /\ TransactionLedger_get pos (en_txs e') = (Ok h, x') /\
        handle_of (mkTxEntry {[task := ctx]} uid (en_next_id e) os ∅) h
  | Ok (inl _) => unlocked /\ removed /\ unchanged
  | Throw x => (x = Would_block \/ x = Must_wait) /\ unchanged
  end.
Proof.
  intros Hsim Hn Hreq. pose proof Hsim as (Hs & Hr & HA & Hne & Hb). destruct (tr_recorder _ _ _ _ _ _ _ Hreq) as [lgt Hlgt].
  unfold execute_transaction, init_local_transaction. cbn [fst snd].
  set (e1 := mkEnv (en_ledger e) _ _ _ _). set (t1 := init_task task ctx _).
  destruct (register_all_ok task ops t1) as [Hreg [ls Et]]; [split; cbn; [done|]|].
  { intros sid. split; [done|]. by intros (? & ?%elem_of_nil & _). }
  set (t0 := fold_left _ ops t1) in *. change (t0 = started uid (en_next_id e) task ctx isolation ops ls) in Et.
  pose proof (started_recordable A e uid task ctx isolation ops ls lgt ({[(uid, en_next_id e)]} ∪ en_active e)
    (u32 (en_next_id e + 1)) Hreq Hlgt) as Hrec. fold e1 in Hrec.
  pose proof (num_writes_le ((task,.) <$> ops)) as Hnw. rewrite length_fmap in Hnw.
  pose proof Hreq as [Hlocks Hnext _ _ _ _ [Hlen Hcap] Hready Hfits _ _].
  pose proof (registered_size _ Hreg) as Hsize. unfold NUM_SHARDS_LEDGER in Hsize.
  assert (wpx (waits (count_of (en_locks e)) lg Hs n t0 e1 (lock_steps t0)) (proxy_work padding new_primary run_program fuel gw)
    (fun r s' => match r with
    | inr _ => committed (count_of (en_locks e)) lg A n t0 e1 lgt s' /\ ops_valid Hs A t0 (tx_ops t0)
    | inl _ => aborted (count_of (en_locks e)) lg Hs n t0 e1 s' end) (t0, e1)) as Hw.
  { rewrite Et in *. eapply proxy_work_ok; try done.
    - cbn. set_solver.
    - unfold lock_steps. cbn. cbn in Hsize. rewrite length_fmap. lia.
    - by apply started_ready.
    - by apply ops_fit_one.
    - cbn. lia.
    - intros sid. cbn. unfold load. rewrite lookup_empty. cbn. unfold num_writes in *. nia. }
  unfold wpx in Hw. destruct (proxy_work padding new_primary run_program fuel gw (t0, e1)) as [[[error|w]|x] [t' e']].
  - destruct Hw as [Hrep Hunl _ _ Htxs Hact _]. rewrite Et in Hact. cbn in Hact. split_and!; [done|set_solver|by exists Hs|done].
  - destruct Hw as [[Hst Hunl _ Hact _ Hrecd] Hval]. rewrite Et in *. cbn [fst snd] in *. split_and!; [done|cbn in Hact; set_solver|by eapply started_agrees| |].
    + destruct Hst as (lg' & _ & Hst). exists lg'.
      change (sim_but ∅ (en_ledger e') lg' (spec_commit {[task := ctx]} A ((task,.) <$> ops)) (n - num_writes ((task,.) <$> ops))) in Hst.
      rewrite spec_commit_one in Hst. eapply sim_but_le; [|exact Hst]. lia.
    + destruct Hrecd as (pos & os & Hos & Hreads & Hins). cbn [started set_lock_types set_ops tx_ops] in Hreads.
      rewrite op_reads_tasks in Hreads.
      edestruct recorded_get as [x' Eget]; [exact Hins|apply doc_array_valid|]. exists pos, os. eexists _, x'.
      split_and!; [done|exact Eget|]. apply transaction_doc_handle. destruct Hreq. split; cbn; try done.
      by intros task' c [<- _]%lookup_singleton_Some.
  - destruct Hw as [Hx [_ Hrep _ _ _ Htxs _ _]]. split_and!; [done|by exists Hs|done].
Qed.

(** ** Theorems *)

Variables (new_index : string -> list string -> result X) (server : OpContext).
Hypothesis new_index_rep : forall idx paths, ix_usable paths -> exists x, new_index idx paths = Ok x /\ ix_rep x [] (2 * room0).
Hypothesis cap_range : 0 <= cap <= 2 ^ 31.
Hypothesis programs_blind : forall l policy ctx name key path op,
  run_program (strip l) policy ctx name key path op = run_program l policy ctx name key path op.

Abbreviation handle_all := (handle_requests padding new_primary new_index run_program fuel server bound).

(** The next [n] requests, whatever they are, are answered as the store [A] answers them. *)
Definition serves l A (n : Z) : Prop := forall rs, Z.of_nat (length rs) <= n -> requests_ok (X := X) cap server verdict A rs ->
  exists resps l', handle_all rs l = (Ok resps, l') /\ answer_of <$> resps = (spec_requests verdict A rs).1.

Lemma sim_serves l lg A n : sim_but ∅ l lg A n -> serves l A n.
Proof.
  intros Hsim rs Hn Hok.
  assert (wp (handle_all rs) (fun resps _ => answer_of <$> resps = (spec_requests verdict A rs).1) l) as Hw.
  { eapply wp_mono; [eapply handle_requests_ok; eauto|]. cbv beta. by intros resps l' (lg' & _ & Ha & _). }
  apply wp_run in Hw as (resps & l' & E & Ha). eauto.
Qed.


End Spec.

(** ** On concrete data *)

#[local] Existing Instance primary_kv.
#[local] Existing Instance primary_kv_laws.
#[local] Existing Instance demo_index.
#[local] Existing Instance demo_index_laws.

Abbreviation demo_pages := (page_map (Block buffer)).

(** The server after the requests, with the locks [cs] held by others *)
Definition demo_env (rs : list (OpContext * request jtree)) (cs : counts) : tx_env demo_pages primary index demo_pages :=
  mkEnv (demo_run rs demo_new).2 cs (TransactionLedger_new 0 page_map_empty) ∅ 0.

Abbreviation demo_execute := (execute_transaction (B := buffer) (S := demo_pages) (S2 := demo_pages) (M := primary) (X := index)
  0 demo_primary (fun _ => only_owner) 5 7 3).

(** *** The size of a record *)

Lemma jt_bytes_node n ds : jt_bytes (GenNode n ds) = (ds ≫= jt_bytes) ++ [0; Z.of_nat (length ds); Z.of_nat n].
Proof.
  unfold jt_bytes. cbn [gen_tree_to_list]. rewrite bind_app. f_equal. induction ds as [|d ds IH]; [done|].
  rewrite !bind_cons, bind_app. by f_equal.
Qed.

Lemma length_events (es : list event_id_t) : length ((es ≫= write_event) ≫= jt_bytes) = (6 * length es)%nat.
Proof. induction es as [|e es IH]; [done|]. rewrite bind_cons, bind_app, length_app, IH. cbn. lia. Qed.

Lemma record_length (contexts : list (string * jtree)) root id os :
  length (jt_bytes (doc_array [doc_map contexts; doc_int root; doc_int id; doc_array (write_op_set os); doc_array []])) =
  (length (jt_bytes (jt_map contexts)) + 6 * length (os_reads os) + 6 * length (os_writes os) + 19)%nat.
Proof.
  cbn [doc_array doc_map doc_int jtree_json]. unfold jt_array. rewrite jt_bytes_node, !bind_cons, !length_app.
  rewrite jt_bytes_node, !length_app. unfold write_op_set. cbn [doc_array jtree_json]. unfold jt_array.
  rewrite !bind_cons, !length_app, !jt_bytes_node, !length_app, !length_events. cbn. lia.
Qed.

(** *** A transaction that commits *)

Definition demo_before : list (OpContext * request jtree) := take 9 demo_requests.
Definition ours_4 : event_id_t := EventId 32 33 1.

(** Alice has read [ours] and queried the collection; she changes her object and deletes the other one. *)
Definition demo_ops : list (operation_info jtree) :=
  [GetInfo "c" "ours" ours_4; FindInfo "c" (public 4) [] (-1) [("ours"%string, ours_4)];
   PutInfo "c" "mine.v" (GenLeaf (inl 9)); RemoveInfo "c" "ours"].

Lemma demo_before_ok : requests_ok (X := index) 1000000 demo_server allow_owner empty_store demo_before.
Proof.
  pose proof demo_ok as Hok. rewrite <-(take_drop 9 demo_requests) in Hok.
  apply requests_ok_app in Hok as [Hok _]; [exact Hok|lia].
Qed.

Lemma demo_fits :
  transaction_fits (D := jtree) 1000000 allow_owner (spec_requests allow_owner empty_store demo_before).2 alice demo_ops.
Proof.
  set (A := (spec_requests allow_owner empty_store demo_before).2). unfold demo_ops. cbn [transaction_fits].
  assert (forall A op c key change, tx_change allow_owner A alice op = Some (c, key, change) -> is_valid_key key = true -> kv_key (M := primary) key ->
    (forall tref, write_fits 1000000 alice tref change) -> op_fits (M := primary) 1000000 allow_owner A alice op) as Hop.
  { intros A' op c key change E _ Hkv Hfit. unfold op_fits. rewrite E. split_and!; [exact eq_refl|by intros _|by intros tref _ _]. }
  split; [exact I|]. split; [exact I|]. split; [|split; [|exact I]].
  - eapply Hop; [subst A; vm_compute; reflexivity|vm_compute; reflexivity|vm_compute; by split|intros tref; hnf; intros; vm_compute; reflexivity].
  - eapply Hop; [subst A; vm_compute; reflexivity|vm_compute; reflexivity|vm_compute; by split|intros tref; hnf; intros; vm_compute; reflexivity].
Qed.


Lemma demo_request_ok :
  tx_request_ok (X := index) 1000000 allow_owner (spec_requests allow_owner empty_store demo_before).2
    (demo_env demo_before ∅) 7 3 alice Serializable demo_ops.
Proof.
  destruct (TransactionLedger_new_rep (B := buffer) (S := demo_pages) 0 page_map_empty pages_wf eq_refl ltac:(by vm_compute)) as (lgt & Hb & Hav).
  split.
  - intros sid. unfold demo_env, count_of. cbn [en_locks]. rewrite lookup_empty. cbn. lia.
  - unfold in_range, demo_env. cbn [en_next_id]. lia.
  - exists lgt. exact Hb.
  - unfold demo_env. cbn [en_txs]. eapply Z.lt_le_trans; [|exact Hav]. by vm_compute.
  - unfold in_range. lia.
  - unfold in_range. lia.
  - cbn. lia.
  - repeat (apply Forall_cons; split); try apply Forall_nil; try exact I. intros _. apply demo_query_public.
  - exact demo_fits.
  - repeat (apply Forall_cons; split); try apply Forall_nil; unfold event_wf, in_range; cbn; lia.
  - intros os _ Hr Hw. unfold tx_bounded, transaction_doc. cbn [te_contexts te_root te_id te_local te_remote].
    change (sorted_entries ∅ ≫= write_remote) with (@nil jtree). cbn [doc_bytes jtree_json]. rewrite record_length.
    assert (length (jt_bytes (jt_map (write_context <$> sorted_entries {[3 := alice]}))) = 22%nat) as -> by (vm_compute; reflexivity).
    cbn in Hr, Hw. lia.
Qed.


(** *** What goes wrong *)

(** A transaction commits although one of its writes is refused: the policies of
    the objects are checked when the writes are applied, after the transaction was
    prepared, and the outcome is not looked at.  Bob may change [ours] and not
    [mine]; the first write is there, the second is not, and he is told that the
    transaction was committed. *)
Theorem commit_drops_refused_write :
  let ops := [PutInfo "c" "ours" (public 5); PutInfo "c" "mine" (public 7)] in
  let run := demo_execute bob Serializable false ops (demo_env demo_before ∅) in
  run.1 = Ok (inr None) /\
  match demo_run [(alice, ReqGet "c" "ours.v"); (alice, ReqGet "c" "mine.v")] (en_ledger run.2) with
  | (Ok resps, _) => answer_of <$> resps = [AObject (Some (GenLeaf (inl 5))); AObject (Some (GenLeaf (inl 2)))]
  | _ => False
  end.
Proof. cbv zeta. split; vm_compute; reflexivity. Qed.

(** A serializable transaction whose query finds objects of more than one shard
    cannot commit, also when nothing has changed and nobody else is there: the set of
    events that the query is compared with keeps events of one shard only.  The two
    objects Alice sends are the ones the query finds. *)
Theorem serializable_find_two_shards :
  let found := [("ours"%string, ours_4); ("mine"%string, EventId 33 34 1)] in
  let e := demo_env demo_before ∅ in
  match handle_find demo_primary (fun _ => only_owner) 5 alice "c" (is_in [2; 4]) [] (-1) (en_ledger e) with
  | (Ok out, _) => fst <$> out = found
  | _ => False
  end /\
  (demo_execute alice Serializable false [FindInfo "c" (is_in [2; 4]) [] (-1) found] e).1 = Ok (inl "Phantom read: key=mine"%string) /\
  (demo_execute alice RepeatableRead false [FindInfo "c" (is_in [2; 4]) [] (-1) found] e).1 = Ok (inr None).
Proof. cbv zeta. split_and!; vm_compute; reflexivity. Qed.

(** A transaction that checks an object and writes to the same shard waits for
    itself: [check] does not use the handle of the transaction, but one of its own, which
    waits for the transaction's lock. *)
Theorem check_waits_for_itself :
  let ops := [CheckInfo "c" "ours" (public 4) true; PutInfo "c" "ours" (public 5)] in
  (demo_execute alice Serializable false ops (demo_env demo_before ∅)).1 = Throw Must_wait.
Proof. vm_compute. reflexivity. Qed.

Definition demo_policy : list (OpContext * request jtree) :=
  [(alice, ReqPut false "c" "policy" (GenLeaf (inr "alice"%string)))].

(** A lock that another thread holds ends a transaction by an exception, and its
    own locks stay taken: [prepare] catches [would_block_exception] while it takes the
    locks of the shards, but not while it validates, where the policy of a
    collection is locked.  The transaction stays known to the manager. *)
Theorem prepare_keeps_locks :
  let held : counts := {[shard_of_key "c" "policy" := -1]} in
  let run := demo_execute alice Serializable false [PutInfo "c" "mine" (public 5)] (demo_env demo_policy held) in
  run.1 = Throw Would_block /\ count_of held (shard_of_key "c" "mine") = 0 /\
  count_of (en_locks run.2) (shard_of_key "c" "mine") = -1 /\ en_active run.2 = {[(7, 0)]}.
Proof. cbv zeta. split_and!; vm_compute; reflexivity. Qed.
