(* ===== verification/Wire.v ===== *)
(** * Messages between clients and the server

    Models the requests of [src/client/CollectionImpl.cpp] and [ClientImpl.h], the
    responses that the classes [Pending*Response.h] of the client parse, the encryption of
    messages and the dispatch of responses in [ClientImpl.cpp], and on the other side
    [Client::handle_message] of [src/enclave/Client.cpp] and, of [RemoteParty.cpp],
    [encrypt], [decrypt], [handle_op_request] and the reading of the input and the writing
    of the output in [handle_request_upstream_mode].  The handlers of the decoded requests
    are in [Requests.v].  (The build with encryption: neither [FAKE_ENCLAVE] nor
    [m_unsafe_mode].) *)

From Stdlib Require Import Ascii.
From stdpp Require Import functions.
From S2P Require Import Prelude EventId Keys Bitstream Block PageStore Hash HashMap EncryptedIO Json Identity.
From S2P Require Import Index ObjectEvent Shard Ledger LedgerSpec Find Requests LedgerStore.

(** ** Numbers of the messages and of the operations *)

Definition PlainText : Z := 0.
Definition Encrypted : Z := 1.
Definition OperationRequest : Z := 6.
Definition OperationResponse : Z := 7.

Definition operations : list OperationType :=
  [GetObject; GetObjectWithWitness; GetObjectHistory; HasObject; CheckObject; PutObject;
   PutObjectWithoutKey; AddToObject; CountObjects; FindObjects; ListPeers; DiffVersions;
   RemoveObject; CreateIndex; DropIndex; Clear; CreateWitness; ExecuteCode; CallProgram;
   ReadFromUpstreamDisk; TellPeerType; Peer; SetTrigger; UnsetTrigger; OrderEvents;
   ExecuteTransaction; TransactionPrepare; TransactionPromise; TransactionCommit;
   TransactionAbort; GetStatistics; NOP; DumpEverything; LoadEverything].

Definition op_number (op : OperationType) : Z :=
  match list_find (eq op) operations with Some (i, _) => Z.of_nat i | None => 0 end.

(** [None]: a number that no case of the [switch] has *)
Definition op_of_number (z : Z) : option OperationType := operations !! Z.to_nat z.

Lemma op_of_op_number op : op_of_number (op_number op) = Some op.
Proof. by destruct op. Qed.

Lemma op_number_range op : in_range 8 (op_number op).
Proof. destruct op; vm_compute; split; congruence. Qed.

(** ** The stream operators *)

#[global] Instance bool_codec : Codec bool := {|
  codec_wf (_ : bool) := True;
  enc b := [if b then 1 else 0];
  dec bs := match bs with [] => None | b :: bs => Some (negb (b =? 0), bs) end;
|}.

#[global] Instance bool_codec_laws : CodecLaws bool.
Proof. split; [by intros []|intros; cbn; lia]. Qed.

(** [std::vector]: the number of elements and the elements *)
Section Vector.
Context {A : Type} `{CodecLaws A}.

Definition enc_items (l : list A) : list Z := l ≫= enc.

Fixpoint dec_items (n : nat) (bs : list Z) : option (list A * list Z) :=
  match n with
  | O => Some ([], bs)
  | S n => '(a, bs) ← dec bs; '(l, bs) ← dec_items n bs; Some (a :: l, bs)
  end.

Lemma dec_enc_items l rest : Forall codec_wf l -> dec_items (length l) (enc_items l ++ rest) = Some (l, rest).
Proof.
  induction 1 as [|a l Ha _ IH]; [done|]. unfold enc_items in *. cbn [length dec_items].
  rewrite bind_cons, <- (assoc_L (++)), dec_enc by done. cbn. by rewrite IH.
Qed.

#[export] Instance vector_codec : Codec (list A) := {|
  codec_wf l := in_range 32 (Z.of_nat (length l)) /\ Forall codec_wf l;
  enc l := le_encode 4 (Z.of_nat (length l)) ++ enc_items l;
  dec bs := '(n, bs) ← int_dec 4 bs; dec_items (Z.to_nat n) bs;
|}.

#[export] Instance vector_codec_laws : CodecLaws (list A).
Proof.
  split; cbn -[le_encode int_dec dec_items enc_items].
  - intros l rest [Hn Hl]. rewrite <- (assoc_L (++)), int_dec_enc by done. cbn -[dec_items enc_items].
    rewrite Nat2Z.id. by apply dec_enc_items.
  - intros. rewrite length_app, le_encode_length. lia.
Qed.
End Vector.

(** [std::pair] and the like: one after the other *)
Section Pair.
Context {A1 A2 : Type} `{CodecLaws A1, CodecLaws A2}.

#[export] Instance pair_codec : Codec (A1 * A2) := {|
  codec_wf p := codec_wf p.1 /\ codec_wf p.2;
  enc p := enc p.1 ++ enc p.2;
  dec bs := '(a, bs) ← dec bs; '(b, bs) ← dec bs; Some ((a, b), bs);
|}.

#[export] Instance pair_codec_laws : CodecLaws (A1 * A2).
Proof.
  split; cbn.
  - intros [a b] rest [Ha Hb]. cbn in *. rewrite <- (assoc_L (++)), dec_enc by done. cbn. by rewrite dec_enc.
  - intros [a b] [Ha _]. rewrite length_app. pose proof (enc_nonempty a Ha). cbn in *. lia.
Qed.
End Pair.
#[export] Existing Instances vector_codec vector_codec_laws pair_codec pair_codec_laws.

Lemma dec_pair {A1 A2} `{CodecLaws A1, CodecLaws A2} (a : A1) (b : A2) rest :
  codec_wf a -> codec_wf b -> dec (enc a ++ enc b ++ rest) = Some ((a, b), rest).
Proof. intros Ha Hb. rewrite (assoc_L (++)). exact (dec_enc (a, b) rest (conj Ha Hb)). Qed.

Lemma dec_triple {A1 A2 A3} `{CodecLaws A1, CodecLaws A2, CodecLaws A3} (a : A1) (b : A2) (c : A3) rest :
  codec_wf a -> codec_wf b -> codec_wf c -> dec (enc a ++ enc b ++ enc c ++ rest) = Some ((a, b, c), rest).
Proof. intros Ha Hb Hc. rewrite !(assoc_L (++)). exact (dec_enc (a, b, c) rest (conj (conj Ha Hb) Hc)). Qed.

(** A signed integer is read back from its two's complement. *)
Lemma int_dec_signed z rest : - 2 ^ 31 <= z < 2 ^ 31 ->
  exists n, int_dec 4 (le_encode 4 z ++ rest) = Some (n, rest) /\ s32 n = z.
Proof.
  intros Hz. exists (z mod 2 ^ 32). split.
  - unfold int_dec. rewrite length_app, le_encode_length. destruct (Nat.ltb_spec (4 + length rest) 4); [lia|].
    rewrite <- (le_encode_length 4 z) at 1 3. rewrite take_app_length, drop_app_length. by rewrite le_decode_encode.
  - unfold s32. rewrite Zplus_mod_idemp_l. apply (s32_small z Hz).
Qed.

(** [read_raw_data] *)
Definition read_raw (n : Z) (bs : list Z) : option (list Z * list Z) :=
  if (length bs <? Z.to_nat n)%nat then None else Some (take (Z.to_nat n) bs, drop (Z.to_nat n) bs).

Lemma read_raw_app bs rest : read_raw (Z.of_nat (length bs)) (bs ++ rest) = Some (bs, rest).
Proof.
  unfold read_raw. rewrite Nat2Z.id, length_app, take_app_length, drop_app_length.
  destruct (Nat.ltb_spec (length bs + length rest) (length bs)); [lia|done].
Qed.

(** Documents: their bytes behind a 32-bit length, as the handler of [PutObject] reads them *)
Section Document.
Context {D : Type} `{JsonLaws D}.

#[export] Instance doc_codec : Codec D := {|
  codec_wf d := doc_valid d = true /\ in_range 32 (Z.of_nat (length (doc_bytes d)));
  enc d := le_encode 4 (Z.of_nat (length (doc_bytes d))) ++ doc_bytes d;
  dec bs := '(n, bs) ← int_dec 4 bs; '(data, bs) ← read_raw n bs; Some (doc_parse data, bs);
|}.

#[export] Instance doc_codec_laws : CodecLaws D.
Proof.
  split; cbn -[le_encode int_dec read_raw].
  - intros d rest [Hd Hn]. rewrite <- (assoc_L (++)), int_dec_enc by done. cbn -[read_raw].
    rewrite read_raw_app. cbn. by rewrite doc_parse_bytes.
  - intros. rewrite length_app, le_encode_length. lia.
Qed.
End Document.

(** ** Encryption of a message

    [encrypt] and [decrypt] of the client and of [RemoteParty] write and read the same
    layout: the type, the length, the encrypted data and the tag. *)

Section Channel.
Context `{AesGcm}.

Definition encrypt (key data : list Z) : list Z :=
  let '(cdata, tag) := gcm_encrypt key zero_iv data in
  le_encode 1 Encrypted ++ le_encode 4 (Z.of_nat (length data)) ++ cdata ++ tag.

Inductive decrypted : Type :=
  | Plain (data : list Z)
  | Not_encrypted
  | Bad_tag
  | Truncated.

Definition decrypt (key msg : list Z) : decrypted :=
  match ('(encryption, msg) ← int_dec 1 msg;
         '(payload_size, msg) ← int_dec 4 msg;
         '(payload, msg) ← read_raw payload_size msg;
         Some (encryption, payload, msg)) with
  | None => Truncated
  | Some (encryption, payload, msg) =>
      if negb (encryption =? Encrypted) then Not_encrypted
      else
        match read_raw (Z.of_nat SGX_AESGCM_MAC_SIZE) msg with
        | None => Truncated
        | Some (tag, _) => match gcm_decrypt key zero_iv payload tag with Some data => Plain data | None => Bad_tag end
        end
  end.

Lemma decrypt_encrypt `{!AesGcmLaws} key data :
  in_range 32 (Z.of_nat (length data)) -> decrypt key (encrypt key data) = Plain data.
Proof.
  intros Hn. unfold decrypt, encrypt. pose proof (gcm_tag_length key zero_iv data) as Ht.
  pose proof (gcm_cdata_length key zero_iv data) as Hc. pose proof (gcm_roundtrip key zero_iv data) as Hr.
  destruct (gcm_encrypt key zero_iv data) as [cdata tag]. cbn [fst snd] in *.
  rewrite int_dec_enc by done. cbn -[int_dec le_encode read_raw zero_iv]. rewrite int_dec_enc by done.
  cbn -[int_dec le_encode read_raw zero_iv]. rewrite <- Hc, read_raw_app. cbv beta iota delta [mbind option_bind negb].
  change (Encrypted =? Encrypted) with true. cbv iota.
  pose proof (read_raw_app tag []) as E. rewrite app_nil_r, Ht in E. unfold SGX_AESGCM_MAC_SIZE. by rewrite E, Hr.
Qed.

End Channel.

(** ** Requests: the client *)

Section Wire.
Context {D : Type} `{Json D}.

Definition generate_op_request (op_id : Z) (op_type : OperationType) : list Z :=
  le_encode 1 OperationRequest ++ le_encode 4 0 ++ le_encode 4 op_id ++ le_encode 1 (op_number op_type).

(** The operations of a [CollectionImpl]: the type of the request and what follows its header *)

Abbreviation client_req := (OperationType * list Z)%type.

Definition CollectionImpl_put (m_name key : string) (document : D) : client_req :=
  (PutObject, enc m_name ++ enc key ++ enc document).
Definition CollectionImpl_add (m_name key : string) (value : D) : client_req :=
  (AddToObject, enc m_name ++ enc key ++ enc value).
Definition CollectionImpl_remove (m_name key : string) : client_req := (RemoveObject, enc m_name ++ enc key).
Definition CollectionImpl_has_object (m_name key : string) : client_req := (HasObject, enc m_name ++ enc key).
Definition CollectionImpl_check (m_name key : string) (predicate : D) : client_req :=
  (CheckObject, enc m_name ++ enc key ++ enc predicate).
Definition CollectionImpl_get_with_eid (m_name key : string) : client_req := (GetObject, enc m_name ++ enc key).
Definition CollectionImpl_get_history (m_name key : string) : client_req := (GetObjectHistory, enc m_name ++ enc key).
Definition CollectionImpl_create_index (m_name index_name : string) (paths : list string) : client_req :=
  (CreateIndex, enc m_name ++ enc index_name ++ enc paths).
Definition CollectionImpl_drop_index (m_name index_name : string) : client_req := (DropIndex, enc m_name ++ enc index_name).
Definition CollectionImpl_count (m_name : string) (predicates : D) : client_req := (CountObjects, enc m_name ++ enc predicates).
Definition CollectionImpl_find (m_name : string) (predicates : D) (projection : list string) (limit : Z) : client_req :=
  (FindObjects, enc m_name ++ enc predicates ++ enc projection ++ le_encode 4 limit).

(** [count_writes] is for programs only. *)
Definition client_request (r : request D) : client_req :=
  match r with
  | ReqPut add collection key doc =>
      if add then CollectionImpl_add collection key doc else CollectionImpl_put collection key doc
  | ReqRemove collection key => CollectionImpl_remove collection key
  | ReqGet collection key => CollectionImpl_get_with_eid collection key
  | ReqHas collection key => CollectionImpl_has_object collection key
  | ReqCheck collection key predicate => CollectionImpl_check collection key predicate
  | ReqHistory collection key => CollectionImpl_get_history collection key
  | ReqFind collection predicates projection limit => CollectionImpl_find collection predicates projection limit
  | ReqCountObjects collection predicates => CollectionImpl_count collection predicates
  | ReqCreateIndex collection name paths => CollectionImpl_create_index collection name paths
  | ReqDropIndex collection name => CollectionImpl_drop_index collection name
  | ReqCountWrites _ _ _ => (NOP, [])
  end.

Definition request_type (r : request D) : OperationType := (client_request r).1.
Definition request_body (r : request D) : list Z := (client_request r).2.

(** ** Responses: the server *)

Definition response_body (r : response D) : list Z :=
  match r with
  | RespEvent e => enc e
  | RespObject None => enc INVALID_EVENT
  | RespObject (Some (eid, value)) => enc eid ++ enc value
  | RespBool b | RespIndex b => enc b
  | RespHistory values => enc true ++ enc values
  | RespCount n => le_encode 4 n
  | RespFound objects => enc objects
  end.

(** ** Responses: the client

    What [parse] of the response of each request reads; [None]: the stream ends too early *)

Definition PendingEventIdResponse_parse (msg : list Z) : option (response D) :=
  '((e, _) : event_id_t * list Z) ← dec msg; Some (RespEvent e).

Definition PendingGetResponse_parse (msg : list Z) : option (response D) :=
  '((e, msg) : event_id_t * list Z) ← dec msg;
  if event_is_valid e then '((d, _) : D * list Z) ← dec msg; Some (RespObject (Some (e, d)))
  else Some (RespObject None).

Definition PendingBooleanResponse_parse (msg : list Z) : option bool := fst <$> dec msg.

Definition PendingListResponse_parse (msg : list Z) : option (response D) :=
  '((success, msg) : bool * list Z) ← dec msg;
  if success then '((values, _) : list D * list Z) ← dec msg; Some (RespHistory values) else Some (RespHistory []).

Definition PendingSizeResponse_parse (msg : list Z) : option (response D) :=
  '(n, _) ← int_dec 4 msg; Some (RespCount n).

Definition PendingInternalFindResponse_parse (msg : list Z) : option (response D) :=
  '((objects, _) : list (string * event_id_t * D) * list Z) ← dec msg; Some (RespFound objects).

Definition parse_response (r : request D) (bs : list Z) : option (response D) :=
  match r with
  | ReqPut _ _ _ _ | ReqRemove _ _ => PendingEventIdResponse_parse bs
  | ReqGet _ _ => PendingGetResponse_parse bs
  | ReqHas _ _ | ReqCheck _ _ _ => RespBool <$> PendingBooleanResponse_parse bs
  | ReqCreateIndex _ _ _ | ReqDropIndex _ _ => RespIndex <$> PendingBooleanResponse_parse bs
  | ReqHistory _ _ => PendingListResponse_parse bs
  | ReqCountObjects _ _ => PendingSizeResponse_parse bs
  | ReqFind _ _ _ _ => PendingInternalFindResponse_parse bs
  | ReqCountWrites _ _ _ => None
  end.

(** ** Requests: the server *)

Context {B : Type} `{Bitstream B} {S : Type} `{PageStore S (Block B)}.
Context {M : Type} `{KVMap M string event_id_t} {X : Type} `{Index X D}.
Variables (padding : Z) (new_primary : M) (new_index : string -> list string -> result X).
Variable run_program : ledger S M X -> D -> OpContext -> string -> string -> string -> OperationType -> bool.
Variables (fuel : nat) (server : OpContext) (bound : nat).

Abbreviation L := (ledger S M X).
Implicit Types ctx : OpContext.

(** The handlers of the operations that are not modelled here: the bytes that they add to
    the output, and, for programs, which answer later, what starting one does *)
Variable other_request : OpContext -> OperationType -> list Z -> ST L (list Z).
Variable start_program : OpContext -> OperationType -> Z -> Z -> list Z -> ST L unit.

(** [>>] throws at the end of the stream. *)
Definition from_stream {A} (o : option A) : ST L A :=
  match o with Some a => mret a | None => throw (Runtime_error "end of stream") end.

Definition respond ctx (r : request D) : ST L (list Z) :=
  resp ← handle_request padding new_primary new_index run_program fuel server bound ctx r; mret (response_body resp).

(** A document that is too short is reported in the log only. *)
Definition handle_request_upstream_mode ctx (op_type : OperationType) (input : list Z) : ST L (list Z) :=
  match op_type with
  | NOP => mret (enc true)
  | AddToObject | PutObject =>
      '((collection, input) : string * list Z) ← from_stream (dec input);
      '((full_path, input) : string * list Z) ← from_stream (dec input);
      '((val_len, input) : Z * list Z) ← from_stream (int_dec 4 input);
      match read_raw val_len input with
      | None => mret []
      | Some (value, _) => respond ctx (ReqPut (bool_decide (op_type = AddToObject)) collection full_path (doc_parse value))
      end
  | RemoveObject =>
      '((collection, key, _) : string * string * list Z) ← from_stream (dec input); respond ctx (ReqRemove collection key)
  | GetObjectHistory =>
      '((collection, key, _) : string * string * list Z) ← from_stream (dec input); respond ctx (ReqHistory collection key)
  | HasObject =>
      '((collection, key, _) : string * string * list Z) ← from_stream (dec input); respond ctx (ReqHas collection key)
  | CheckObject =>
      '((collection, key, predicates, _) : string * string * D * list Z) ← from_stream (dec input);
      respond ctx (ReqCheck collection key predicates)
  | GetObject =>
      '((collection, full_path, _) : string * string * list Z) ← from_stream (dec input);
      respond ctx (ReqGet collection full_path)
  | CountObjects =>
      '((collection, predicates, _) : string * D * list Z) ← from_stream (dec input);
      respond ctx (ReqCountObjects collection predicates)
  | CreateIndex =>
      '((collection, name, paths, _) : string * string * list string * list Z) ← from_stream (dec input);
      respond ctx (ReqCreateIndex collection name paths)
  | DropIndex =>
      '((collection, name, _) : string * string * list Z) ← from_stream (dec input); respond ctx (ReqDropIndex collection name)
  | FindObjects =>
      '((collection, predicates, projection, input) : string * D * list string * list Z) ← from_stream (dec input);
      '((limit, _) : Z * list Z) ← from_stream (int_dec 4 input);
      respond ctx (ReqFind collection predicates projection (s32 limit))
  | _ => other_request ctx op_type input
  end.

(** A server that is not in downstream mode *)
Definition handle_op_request ctx (input : list Z) : ST L (list Z) :=
  '((task_id, input) : Z * list Z) ← from_stream (int_dec 4 input);
  '((op_id, input) : Z * list Z) ← from_stream (int_dec 4 input);
  '((number, input) : Z * list Z) ← from_stream (int_dec 1 input);
  let header := le_encode 1 OperationResponse ++ le_encode 4 task_id ++ le_encode 4 op_id in
  match op_of_number number with
  | Some ((CallProgram | ExecuteCode) as op_type) => _ ← start_program ctx op_type task_id op_id input; mret []
  | Some op_type => output ← handle_request_upstream_mode ctx op_type input; mret (header ++ output)
  | None => mret (header ++ enc false)
  end.

(** ** The connection *)

Record connection : Type := mkConn {
  cn_identity : Identity;
  cn_key : list Z;
  cn_next_op : Z;
  cn_responses : gmap Z (list Z);
}.

Context `{AesGcm}.

(** [Client::handle_message] of a client that is connected; [None]: nothing is sent.  The
    result of [decrypt] is not looked at: the input is what it has left there. *)
Definition Client_handle_message (c : connection) (msg : list Z) : ST L (option (list Z)) :=
  match decrypt (cn_key c) msg with
  | Truncated => throw (Runtime_error "end of stream")
  | Not_encrypted => throw (Runtime_error "end of stream")
  | Bad_tag => throw (Undefined "contents of a message that was not decrypted")
  | Plain input =>
      '((type, input) : Z * list Z) ← from_stream (int_dec 1 input);
      if type =? OperationRequest then
        output ← handle_op_request (mkContext (cn_identity c) EmptyString) input;
        mret (if decide (output = []) then None else Some (encrypt (cn_key c) output))
      else mret None
  end.

(** [ClientImpl::on_network_message] of an encrypted message with a response, with
    [handle_message] and [handle_operation_response] *)
Definition on_network_message (msg : list Z) (c : connection) : result connection :=
  match decrypt (cn_key c) msg with
  | Truncated => Throw (Runtime_error "end of stream")
  | Not_encrypted | Bad_tag => Throw (Fatal "Could not decode server message")
  | Plain input =>
      match ('(type, input) ← int_dec 1 input; '(task_id, input) ← int_dec 4 input; '(op_id, input) ← int_dec 4 input;
             Some (type, op_id, input)) with
      | None => Throw (Runtime_error "end of stream")
      | Some (type, op_id, input) =>
          if type =? OperationResponse then
            Ok (mkConn (cn_identity c) (cn_key c) (cn_next_op c)
                  (match cn_responses c !! op_id with
                   | Some _ => cn_responses c
                   | None => <[op_id := input]> (cn_responses c)
                   end))
          else Throw (Runtime_error "Failed to handle message in connected state")
      end
  end.

(** [receive_response]; a response that is not there is waited for. *)
Definition receive_response (op_id : Z) (c : connection) : result (list Z * connection) :=
  match cn_responses c !! op_id with
  | None => Throw Must_wait
  | Some input => Ok (input, mkConn (cn_identity c) (cn_key c) (cn_next_op c) (delete op_id (cn_responses c)))
  end.

Definition get_next_operation_id (c : connection) : Z * connection :=
  (cn_next_op c, mkConn (cn_identity c) (cn_key c) (u32 (cn_next_op c + 1)) (cn_responses c)).

(** A call of the client: the request is built and sent, the server answers, and the
    response is parsed. *)
Definition client_call (i : Z) (r : request D) : ST ((Z -> connection) * L) (response D) := fun '(conns, l) =>
  let '(op_id, c) := get_next_operation_id (conns i) in
  let req := generate_op_request op_id (request_type r) ++ request_body r in
  match Client_handle_message c (encrypt (cn_key c) req) l with
  | (Throw e, l) => (Throw e, (<[i := c]> conns, l))
  | (Ok None, l) => (Throw Must_wait, (<[i := c]> conns, l))
  | (Ok (Some msg), l) =>
      match (c ← on_network_message msg c; receive_response op_id c) with
      | Throw e => (Throw e, (<[i := c]> conns, l))
      | Ok (input, c) =>
          (match parse_response r input with Some resp => Ok resp | None => Throw (Runtime_error "end of stream") end,
           (<[i := c]> conns, l))
      end
  end.

Fixpoint client_session (calls : list (Z * request D)) : ST ((Z -> connection) * L) (list (response D)) :=
  match calls with
  | [] => mret []
  | (i, r) :: calls => resp ← client_call i r; resps ← client_session calls; mret (resp :: resps)
  end.

(** ** The messages are transparent *)

Context `{!JsonLaws D} `{!AesGcmLaws}.

(** Requests whose parts the length fields can describe *)
Definition request_fits (r : request D) : Prop :=
  match r with
  | ReqPut _ collection key doc => codec_wf collection /\ codec_wf key /\ codec_wf doc
  | ReqRemove collection key | ReqGet collection key | ReqHas collection key | ReqHistory collection key
  | ReqDropIndex collection key => codec_wf collection /\ codec_wf key
  | ReqCheck collection key predicates => codec_wf collection /\ codec_wf key /\ codec_wf predicates
  | ReqFind collection predicates projection limit =>
      codec_wf collection /\ codec_wf predicates /\ codec_wf projection /\ - 2 ^ 31 <= limit < 2 ^ 31
  | ReqCountObjects collection predicates => codec_wf collection /\ codec_wf predicates
  | ReqCreateIndex collection name paths => codec_wf collection /\ codec_wf name /\ codec_wf paths
  | ReqCountWrites _ _ _ => False
  end /\ in_range 32 (10 + Z.of_nat (length (request_body r))).

Definition response_fits (r : response D) : Prop :=
  match r with
  | RespEvent e => codec_wf e
  | RespObject (Some (e, d)) => codec_wf e /\ event_is_valid e = true /\ codec_wf d
  | RespObject None | RespBool _ | RespIndex _ => True
  | RespHistory values => codec_wf values
  | RespCount n => in_range 32 n
  | RespFound objects => codec_wf objects
  end /\ in_range 32 (9 + Z.of_nat (length (response_body r))).

(** The response that a request has *)
Definition answers (r : request D) (resp : response D) : Prop :=
  match r, resp with
  | (ReqPut _ _ _ _ | ReqRemove _ _), RespEvent _ | ReqGet _ _, RespObject _
  | (ReqHas _ _ | ReqCheck _ _ _), RespBool _ | ReqHistory _ _, RespHistory _
  | ReqCountObjects _ _, RespCount _
  | ReqFind _ _ _ _, RespFound _ | (ReqCreateIndex _ _ _ | ReqDropIndex _ _), RespIndex _ => True
  | _, _ => False
  end.

Abbreviation serve := (handle_request padding new_primary new_index run_program fuel server bound).

Lemma serve_answers ctx r l resp l' : request_fits r -> serve ctx r l = (Ok resp, l') -> answers r resp.
Proof.
  intros [Hf _]. destruct r; cbn [handle_request]; try done; unfold mbind, ST_bind, mret, ST_ret;
    match goal with |- context [match ?m with _ => _ end] => destruct m as [[?|?] ?] end; intros E; simplify_eq; exact I.
Qed.

Lemma parse_response_body r resp :
  answers r resp -> response_fits resp -> parse_response r (response_body resp) = Some resp.
Proof.
  assert (codec_wf INVALID_EVENT) as Hinv by (vm_compute; split_and!; congruence).
  intros Ha [Hf _]. rewrite <- (app_nil_r (response_body resp)).
  destruct resp as [e|[[e d]|]|b|values|n|objects|b]; destruct r; cbn in Ha; try done; clear Ha;
    cbn [parse_response response_body];
    unfold PendingEventIdResponse_parse, PendingGetResponse_parse, PendingBooleanResponse_parse,
      PendingListResponse_parse, PendingSizeResponse_parse, PendingInternalFindResponse_parse; rewrite <- ?(assoc_L (++)).
  all: lazymatch goal with
       | |- context [int_dec] => by rewrite int_dec_enc
       | |- context [event_is_valid] => idtac
       | |- context [enc true] => rewrite dec_enc by done; cbn [mbind option_bind]; by rewrite dec_enc
       | |- _ => by rewrite dec_enc
       end.
  destruct Hf as (He & Hv & Hd). rewrite dec_enc by done. cbn [mbind option_bind].
  rewrite Hv. by rewrite dec_enc.
Qed.

Lemma from_stream_bind {A C} (a : A) (k : A -> ST L C) l : (from_stream (Some a) ≫= k) l = k a l.
Proof. done. Qed.

Lemma put_request ctx add (collection full_path : string) (doc : D) l :
  codec_wf collection -> codec_wf full_path -> codec_wf doc ->
  handle_request_upstream_mode ctx (if add : bool then AddToObject else PutObject)
    (enc collection ++ enc full_path ++ enc doc ++ []) l = respond ctx (ReqPut add collection full_path doc) l.
Proof.
  intros Hc Hp Hd. destruct add; cbn [handle_request_upstream_mode]; rewrite dec_enc by done;
    rewrite from_stream_bind, dec_enc by done; rewrite from_stream_bind; destruct Hd as [Hv Hn];
    cbn [enc doc_codec]; rewrite <- (assoc_L (++)), int_dec_enc by done; rewrite from_stream_bind, read_raw_app;
    by rewrite doc_parse_bytes.
Qed.

Lemma upstream_request ctx r l :
  request_fits r -> handle_request_upstream_mode ctx (request_type r) (request_body r) l = respond ctx r l.
Proof.
  intros [Hf _]. rewrite <- (app_nil_r (request_body r)).
  destruct r as [add| | | | | | | | | |]; try destruct add; cbn beta iota in Hf; try done;
    repeat match goal with H : _ /\ _ |- _ => destruct H end; unfold request_type, request_body; cbn [client_request fst snd];
    cbv delta [CollectionImpl_put CollectionImpl_add CollectionImpl_remove CollectionImpl_has_object CollectionImpl_check
      CollectionImpl_get_with_eid CollectionImpl_get_history CollectionImpl_create_index CollectionImpl_drop_index
      CollectionImpl_count CollectionImpl_find] beta; cbn [fst snd handle_request_upstream_mode];
    rewrite <- ?(assoc_L (++)).
  all: try (rewrite dec_pair by done; by rewrite from_stream_bind).
  all: try (rewrite dec_triple by done; by rewrite from_stream_bind).
  - by apply (put_request ctx true).
  - by apply (put_request ctx false).
  - rewrite dec_triple by done. rewrite from_stream_bind.
    destruct (int_dec_signed limit []) as (n & En & <-); [done|]. by rewrite En, from_stream_bind.
Qed.

Lemma respond_run ctx r l resp l' : serve ctx r l = (Ok resp, l') -> respond ctx r l = (Ok (response_body resp), l').
Proof. intros E. unfold respond, mbind, ST_bind. by rewrite E. Qed.

Definition response_header (op_id : Z) : list Z := le_encode 1 OperationResponse ++ le_encode 4 0 ++ le_encode 4 op_id.

Lemma handle_op_request_run ctx op_id r l resp l' :
  in_range 32 op_id -> request_fits r -> serve ctx r l = (Ok resp, l') ->
  handle_op_request ctx (le_encode 4 0 ++ le_encode 4 op_id ++ le_encode 1 (op_number (request_type r)) ++ request_body r) l
  = (Ok (response_header op_id ++ response_body resp), l').
Proof.
  intros Hop Hf Hs. unfold handle_op_request. rewrite int_dec_enc by done. rewrite from_stream_bind, int_dec_enc by done.
  rewrite from_stream_bind, int_dec_enc by apply op_number_range. rewrite from_stream_bind, op_of_op_number.
  assert (handle_request_upstream_mode ctx (request_type r) (request_body r) l = (Ok (response_body resp), l')) as E.
  { rewrite upstream_request by done. by apply respond_run. }
  unfold response_header. destruct (request_type r) eqn:Et; try (unfold mbind, ST_bind; by rewrite E);
    by destruct r as [[]| | | | | | | | | |].
Qed.

Lemma Client_handle_message_run c op_id r l resp l' :
  in_range 32 op_id -> request_fits r -> serve (mkContext (cn_identity c) EmptyString) r l = (Ok resp, l') ->
  Client_handle_message c (encrypt (cn_key c) (generate_op_request op_id (request_type r) ++ request_body r)) l
  = (Ok (Some (encrypt (cn_key c) (response_header op_id ++ response_body resp))), l').
Proof.
  intros Hop Hf Hs. unfold Client_handle_message. rewrite decrypt_encrypt.
  - unfold generate_op_request. rewrite <- !(assoc_L (++)), int_dec_enc by done. rewrite from_stream_bind.
    change (OperationRequest =? OperationRequest) with true. cbv iota. unfold mbind, ST_bind.
    rewrite (handle_op_request_run _ _ _ _ _ _ Hop Hf Hs). done.
  - destruct Hf as [_ Hn]. unfold generate_op_request. rewrite !length_app, !le_encode_length. unfold in_range in *. lia.
Qed.

(** The response is found under the identifier of its request. *)
Lemma response_received c op_id body :
  in_range 32 op_id -> in_range 32 (9 + Z.of_nat (length body)) -> cn_responses c = ∅ ->
  (c ← on_network_message (encrypt (cn_key c) (response_header op_id ++ body)) c; receive_response op_id c) = Ok (body, c).
Proof.
  intros Hop Hn Hc. unfold on_network_message. rewrite decrypt_encrypt.
  - unfold response_header. rewrite <- !(assoc_L (++)), int_dec_enc by done. cbn [mbind option_bind].
    rewrite int_dec_enc by done. cbn [mbind option_bind]. rewrite int_dec_enc by done. cbn [mbind option_bind].
    change (OperationResponse =? OperationResponse) with true. cbv iota. rewrite Hc, lookup_empty.
    cbn [mbind result_bind]. unfold receive_response. cbn [cn_responses]. rewrite lookup_insert_eq, delete_insert_id by done.
    destruct c; cbn in *; by subst.
  - unfold response_header. rewrite !length_app, !le_encode_length. unfold in_range in *. lia.
Qed.

(** Every response that has come has been taken. *)
Definition idle (conns : Z -> connection) : Prop :=
  forall i, cn_responses (conns i) = ∅ /\ in_range 32 (cn_next_op (conns i)).

Definition ctx_of (conns : Z -> connection) (i : Z) : OpContext := mkContext (cn_identity (conns i)) EmptyString.

Lemma client_call_run conns i r l resp l' :
  idle conns -> request_fits r -> response_fits resp -> serve (ctx_of conns i) r l = (Ok resp, l') ->
  exists conns', client_call i r (conns, l) = (Ok resp, (conns', l')) /\ idle conns' /\
    forall j, ctx_of conns' j = ctx_of conns j.
Proof.
  intros Hi Hf Hr Hs. destruct (Hi i) as [He Hop]. unfold client_call, get_next_operation_id.
  set (c := mkConn _ _ _ _). rewrite (Client_handle_message_run c _ _ _ _ _ Hop Hf Hs).
  rewrite (response_received c) by (try done; apply Hr).
  rewrite (parse_response_body r resp) by (try done; by eapply serve_answers).
  eexists. split; [reflexivity|]. unfold ctx_of. split; intros j; destruct (decide (j = i)) as [->|Hne];
    rewrite ?fn_lookup_insert, ?fn_lookup_insert_ne by done; try done.
  split; [done|]. apply (wrap_range 32). lia.
Qed.

Abbreviation serve_all := (handle_requests padding new_primary new_index run_program fuel server bound).

(** The requests, each with the context that its client has on the server *)
Definition from_clients (conns : Z -> connection) (calls : list (Z * request D)) : list (OpContext * request D) :=
  (fun c => (ctx_of conns c.1, c.2)) <$> calls.

Lemma from_clients_ext conns conns' (calls : list (Z * request D)) :
  (forall j, ctx_of conns' j = ctx_of conns j) -> from_clients conns' calls = from_clients conns calls.
Proof. intros E. apply list_fmap_ext. intros _ [i r] _. cbn. by rewrite E. Qed.

(** The calls of the clients return what the handlers answer. *)
Lemma client_session_run conns calls l resps l' :
  idle conns -> Forall (fun c => request_fits c.2) calls -> Forall response_fits resps ->
  serve_all (from_clients conns calls) l = (Ok resps, l') ->
  exists conns', client_session calls (conns, l) = (Ok resps, (conns', l')) /\ idle conns'.
Proof.
  revert conns l resps. induction calls as [|[i r] calls IH]; intros conns l resps Hi Hf Hr Hs.
  - injection Hs as <- <-. by exists conns.
  - apply Forall_cons in Hf as [Hf Hfs]. cbn [from_clients fmap list_fmap handle_requests fst snd] in Hs.
    fold (from_clients conns calls) in Hs. unfold mbind, ST_bind in Hs. destruct (serve (ctx_of conns i) r l) as [[resp|e] l1] eqn:E1; [|done].
    destruct (serve_all (from_clients conns calls) l1) as [[resps1|e] l2] eqn:E2; [|done]. injection Hs as <- <-.
    apply Forall_cons in Hr as [Hr Hrs].
    destruct (client_call_run conns i r l resp l1) as (conns1 & Ec & Hi1 & Ectx); [done..|].
    rewrite <- (from_clients_ext _ _ _ Ectx) in E2. destruct (IH conns1 l1 resps1) as (conns2 & Es & Hi2); [done..|].
    exists conns2. split; [|done]. cbn [client_session]. unfold mbind, ST_bind. by rewrite Ec, Es.
Qed.

End Wire.

(** ** Clients of a new server *)

Section Session.
Context {B : Type} `{BitstreamLaws B} {S : Type} `{PageStoreLaws S (Block B)}.
Context {M : Type} `{KVMap M string event_id_t} `{!KVMapLaws M string event_id_t} {D : Type} `{JsonLaws D} {X : Type} `{Index X D} `{!IndexLaws X D}.
Context `{AesGcmLaws}.
Variables (padding : Z) (new_primary : M) (new_index : string -> list string -> result X) (room0 cap : Z).
Variable run_program : ledger S M X -> D -> OpContext -> string -> string -> string -> OperationType -> bool.
Variables (fuel bound : nat) (server : OpContext).
Variable other_request : OpContext -> OperationType -> list Z -> ST (ledger S M X) (list Z).
Variable start_program : OpContext -> OperationType -> Z -> Z -> list Z -> ST (ledger S M X) unit.
Hypothesis new_primary_rep : kv_rep new_primary (fun _ => None) room0.
Hypothesis new_index_rep : forall idx paths, ix_usable paths -> exists x, new_index idx paths = Ok x /\ ix_rep x [] (2 * room0).
Hypothesis index_keys : forall key, kv_key key -> ix_key key.
Hypothesis eid_values : forall e, eid_ok e -> kv_value e.
Hypothesis cap_range : 0 <= cap <= 2 ^ 31.
Abbreviation store := (gmap string (gmap string (list (string * option D)))).
Variable verdict : store -> D -> OpContext -> string -> string -> string -> OperationType -> bool.
Hypothesis programs : programs_see_store room0 cap run_program verdict.
Hypothesis programs_blind : forall l policy ctx name key path op,
  run_program (strip l) policy ctx name key path op = run_program l policy ctx name key path op.

(** C2.  From a client's call to the pages of the ledger and back: whatever requests clients
    send to a new server over their encrypted connections, in whatever order the connections
    take turns, every call returns, with the answer that the abstract versioned store gives
    to the client's identity.  The encoding of requests and responses, the encryption, the
    dispatch on the server and the matching of responses to calls are in between.
    The requests are those of [Ledger_refines_store]: queries and indexes as
    [requests_ok] says.  Requests and responses must be within the 32-bit lengths of
    their fields ([request_fits], [response_fits]). *)
Theorem client_sessions_refine_store s conns calls :
  let rs := from_clients conns calls in
  fresh room0 bound s (Z.of_nat (length calls)) -> requests_ok cap server verdict empty_store rs ->
  idle conns -> Forall (fun c => request_fits c.2) calls ->
  (forall resps l', handle_requests padding new_primary new_index run_program fuel server bound rs (Ledger_new padding s)
     = (Ok resps, l') -> Forall response_fits resps) ->
  exists resps st,
    client_session padding new_primary new_index run_program fuel server bound other_request start_program calls
      (conns, Ledger_new padding s) = (Ok resps, st) /\
    answer_of <$> resps = (spec_requests verdict empty_store rs).1.
Proof.
  intros rs Hf Hok Hi Hfit Hresp.
  assert (length rs = length calls) as Hlen by (unfold rs, from_clients; by rewrite length_fmap).
  destruct (Ledger_new_sim (X := X) (M := M) padding room0 cap bound s _ Hf) as [lg Hsim].
  pose proof (handle_requests_ok padding new_primary new_index room0 cap run_program fuel bound server) as Hw.
  edestruct (proj1 (wp_run _ _ _) (Hw new_primary_rep new_index_rep index_keys eid_values cap_range verdict programs programs_blind
    rs _ lg _ _ Hsim ltac:(lia) Hok)) as (resps & l' & E & lg' & _ & Ha & _).
  destruct (client_session_run padding new_primary new_index run_program fuel server bound other_request start_program
    conns calls _ resps l' Hi Hfit (Hresp _ _ E) E) as (conns' & Es & _). eauto.
Qed.

End Session.

(** ** On the data of [LedgerStore.v]: Alice on connection 1, Bob on the others *)

#[local] Existing Instance primary_kv.
#[local] Existing Instance primary_kv_laws.
#[local] Existing Instance demo_index.
#[local] Existing Instance demo_index_laws.
#[local] Existing Instance null_cipher.
#[local] Existing Instance null_cipher_laws.

Definition demo_conns (i : Z) : connection :=
  mkConn (ctx_identity (if i =? 1 then alice else bob)) [7] 1 ∅.

Definition demo_calls : list (Z * request jtree) := zip [1; 1; 2; 2; 2; 1; 1; 2; 1; 2] (take 10 demo_requests).*2.

Definition demo_responses : result (list (response jtree)) := Eval vm_compute in (demo_run (take 10 demo_requests) demo_new).1.

Lemma demo_run_responses : (demo_run (take 10 demo_requests) demo_new).1 = demo_responses.
Proof. vm_compute. reflexivity. Qed.

Ltac fits := repeat match goal with
  | |- True => exact I
  | |- _ /\ _ => split
  | |- codec_wf _ => cbn [codec_wf string_codec event_id_codec vector_codec pair_codec doc_codec fst snd]
  | |- Forall _ [] => constructor
  | |- Forall _ (_ :: _) => constructor
  | |- in_range _ _ => vm_compute; split; [discriminate|reflexivity]
  | |- _ = true => vm_compute; reflexivity
  | |- _ <= _ => vm_compute; discriminate
  | |- _ < _ => vm_compute; reflexivity
  end.

Lemma demo_responses_fit resps : demo_responses = Ok resps -> Forall response_fits resps.
Proof.
  intros E. unfold demo_responses in E. injection E as <-. repeat (apply Forall_cons; split); try apply Forall_nil.
  all: unfold response_fits; fits.
Qed.

Definition no_other (_ : OpContext) (_ : OperationType) (_ : list Z) : ST demo_ledger (list Z) := mret [].
Definition no_program (_ : OpContext) (_ : OperationType) (_ _ : Z) (_ : list Z) : ST demo_ledger unit := mret tt.

Lemma client_sessions_refine_store_witness :
  exists resps st,
    client_session (B := buffer) (S := page_map (Block buffer)) (M := primary) (X := index) 0 demo_primary demo_new_index
      (fun _ => only_owner) 5 demo_server 20 no_other no_program demo_calls (demo_conns, demo_new) = (Ok resps, st) /\
    answer_of <$> resps =
      [AIndex; AWrote true; AObject None; AWrote false; AWrote false; AWrote true; AObject (Some (GenLeaf (inl 2)));
       AWrote true; AWrote true; AHistory [public 4; public 3]].
Proof.
  destruct (client_sessions_refine_store (B := buffer) (S := page_map (Block buffer)) (X := index) 0 demo_primary demo_new_index
    100 1000000 (fun _ => only_owner) 5 20 demo_server no_other no_program demo_primary_rep demo_index_rep demo_keys demo_values
    ltac:(lia) allow_owner ltac:(done) ltac:(done) page_map_empty demo_conns demo_calls) as (resps & st & E & Ha).
  - split; try done. apply pages_wf.
  - pose proof demo_ok as Hok. rewrite <-(take_drop 10 demo_requests) in Hok.
    apply requests_ok_app in Hok as [Hok _]; [exact Hok|lia].
  - intros i. split; [done|]. split; [done|reflexivity].
  - unfold demo_calls. cbn [take demo_requests fmap list_fmap snd zip zip_with].
    repeat (apply Forall_cons; split); try apply Forall_nil. all: unfold request_fits; cbn [snd]; fits.
  - intros resps l' E. apply demo_responses_fit. rewrite <- demo_run_responses.
    change (take 10 demo_requests) with (from_clients demo_conns demo_calls). by rewrite E.
  - exists resps, st. split; [exact E|]. rewrite Ha. vm_compute. reflexivity.
Defined.
