(* ===== verification/WireTransaction.v ===== *)
(** * Transactions over the wire

    Models how a client runs a transaction: the operations that
    [src/client/TransactionCollectionImpl.cpp] records with what they have read, the
    request that [TransactionImpl::commit] makes of them ([op_info.h] of the client), how
    [TransactionProxy.cpp] and the constructors of [src/enclave/op_info.cpp] read it, and the
    result that comes back.  The execution itself is [execute_transaction] of
    [Transaction.v].  Also the handler of [OrderEvents]. *)

From stdpp Require Import functions pretty.
From S2P Require Import Prelude EventId Keys Bitstream Block PageStore Hash HashMap EncryptedIO Json Identity.
From S2P Require Import Index ObjectEvent Shard LockHandle TransactionLedger Ledger LedgerSpec Find Transaction Requests LedgerStore TransactionSpec Wire.

(** ** The client *)

Section Client.
Context {D : Type} `{Json D}.

(** [queue_op] of the operations of a [TransactionCollectionImpl].  A read is sent to the
    server and recorded with its result; a [get] that finds nothing throws. *)
Definition recorded_read (r : request D) (resp : response D) : option (operation_info D) :=
  match r, resp with
  | ReqCheck collection key predicates, RespBool res => Some (CheckInfo collection key predicates res)
  | ReqHas collection key, RespBool res => Some (HasInfo collection key res)
  | ReqGet collection key, RespObject (Some (event_id, _)) => Some (GetInfo collection key event_id)
  | ReqFind collection predicates projection limit, RespFound objects =>
      Some (FindInfo collection predicates projection limit ((fun o => (o.1.1, o.1.2)) <$> objects))
  | _, _ => None
  end.

(** A write is recorded only. *)
Definition recorded_write (r : request D) : option (operation_info D) :=
  match r with
  | ReqPut add collection key doc => Some (if add then AddInfo collection key doc else PutInfo collection key doc)
  | ReqRemove collection key => Some (RemoveInfo collection key)
  | _ => None
  end.

(** [type] of the client's [operation_info_t]; a check is sent as [HasObject]. *)
Definition info_type (op : operation_info D) : OperationType :=
  match op with
  | CheckInfo _ _ _ _ | HasInfo _ _ _ => HasObject
  | GetInfo _ _ _ => GetObject
  | PutInfo _ _ _ => PutObject
  | AddInfo _ _ _ => AddToObject
  | RemoveInfo _ _ => RemoveObject
  | FindInfo _ _ _ _ _ => FindObjects
  end.

(** [write_to_req] *)
Definition write_to_req (op : operation_info D) : list Z :=
  match op with
  | CheckInfo collection key predicates result => enc collection ++ enc key ++ enc predicates ++ enc result
  | HasInfo collection key result => enc collection ++ enc key ++ enc result
  | GetInfo collection key eid => enc collection ++ enc key ++ enc eid
  | PutInfo collection key doc | AddInfo collection key doc => enc collection ++ enc key ++ enc doc
  | RemoveInfo collection key => enc collection ++ enc key
  | FindInfo collection predicates projection limit res =>
      enc collection ++ enc predicates ++ enc projection ++ le_encode 4 limit ++ enc res
  end.

Definition isolation_number (i : IsolationLevel) : Z :=
  match i with ReadCommitted => 0 | RepeatableRead => 1 | Serializable => 2 end.

Definition write_op (op : operation_info D) : list Z := le_encode 1 (op_number (info_type op)) ++ write_to_req op.

(** What [commit] writes behind the header of the request *)
Definition transaction_body (isolation : IsolationLevel) (generate_witness : bool) (ops : list (operation_info D)) : list Z :=
  le_encode 1 (isolation_number isolation) ++ enc generate_witness ++ le_encode 4 (Z.of_nat (length ops)) ++ (ops ≫= write_op).

(** ** The server *)

Definition isolation_of_number (z : Z) : option IsolationLevel :=
  match z with 0 => Some ReadCommitted | 1 => Some RepeatableRead | 2 => Some Serializable | _ => None end.

(** [inl]: the number of an operation that is not known, for which there is a null pointer *)
Definition new_operation_info_from_req (req : list Z) : option ((Z + operation_info D) * list Z) :=
  '(number, req) ← int_dec 1 req;
  match op_of_number number with
  | Some GetObject =>
      '((collection, key, eid, req) : string * string * event_id_t * list Z) ← dec req; Some (inr (GetInfo collection key eid), req)
  | Some HasObject =>
      '((collection, key, result, req) : string * string * bool * list Z) ← dec req; Some (inr (HasInfo collection key result), req)
  | Some CheckObject =>
      '((collection, key, predicates, req) : string * string * D * list Z) ← dec req;
      '((result, req) : bool * list Z) ← dec req;
      Some (inr (CheckInfo collection key predicates result), req)
  | Some PutObject =>
      '((collection, key, doc, req) : string * string * D * list Z) ← dec req; Some (inr (PutInfo collection key doc), req)
  | Some AddToObject =>
      '((collection, key, doc, req) : string * string * D * list Z) ← dec req; Some (inr (AddInfo collection key doc), req)
  | Some RemoveObject =>
      '((collection, key, req) : string * string * list Z) ← dec req; Some (inr (RemoveInfo collection key), req)
  | Some FindObjects =>
      '((collection, predicates, projection, req) : string * D * list string * list Z) ← dec req;
      '(limit, req) ← int_dec 4 req;
      '((res, req) : list (string * event_id_t) * list Z) ← dec req;
      Some (inr (FindInfo collection predicates projection (s32 limit) res), req)
  | _ => Some (inl number, req)
  end.

(** The loop of the constructor: the operations that are read, and the one that is not known *)
Fixpoint read_operations (n : nat) (req : list Z) : option (list (operation_info D) * option Z) :=
  match n with
  | O => Some ([], None)
  | S n =>
      '(op, req) ← new_operation_info_from_req req;
      match op with
      | inl number => Some ([], Some number)
      | inr op => '(ops, unknown) ← read_operations n req; Some (op :: ops, unknown)
      end
  end.

(** ** The operations are read back *)

Context `{!JsonLaws D}.

Definition info_fits (op : operation_info D) : Prop :=
  match op with
  | CheckInfo collection key predicates _ => codec_wf collection /\ codec_wf key /\ codec_wf predicates
  | HasInfo collection key _ | RemoveInfo collection key => codec_wf collection /\ codec_wf key
  | GetInfo collection key eid => codec_wf collection /\ codec_wf key /\ codec_wf eid
  | PutInfo collection key doc | AddInfo collection key doc => codec_wf collection /\ codec_wf key /\ codec_wf doc
  | FindInfo collection predicates projection limit res =>
      codec_wf collection /\ codec_wf predicates /\ codec_wf projection /\ - 2 ^ 31 <= limit < 2 ^ 31 /\ codec_wf res
  end.

Definition is_check (op : operation_info D) : bool := match op with CheckInfo _ _ _ _ => true | _ => false end.

Lemma read_op op rest :
  info_fits op -> is_check op = false -> new_operation_info_from_req (write_op op ++ rest) = Some (inr op, rest).
Proof.
  intros Hf Hc. unfold new_operation_info_from_req, write_op.
  rewrite <- (assoc_L (++)), int_dec_enc by apply op_number_range. cbn [mbind option_bind]. rewrite op_of_op_number.
  destruct op; try done; cbn [info_type write_to_req]; rewrite <- ?(assoc_L (++)); cbn [info_fits] in Hf;
    repeat match goal with H : _ /\ _ |- _ => destruct H end.
  all: try (rewrite dec_triple by done; done).
  - by rewrite dec_pair.
  - rewrite dec_triple by done. cbn [mbind option_bind].
    destruct (int_dec_signed limit (enc results ++ rest)) as (n & -> & <-); [done|]. cbn [mbind option_bind]. by rewrite dec_enc.
Qed.

Lemma read_operations_ok ops rest :
  Forall info_fits ops -> Forall (fun op => is_check op = false) ops ->
  read_operations (length ops) ((ops ≫= write_op) ++ rest) = Some (ops, None).
Proof.
  induction ops as [|op ops IH]; intros Hf Hc; [done|]. apply Forall_cons in Hf as [Hf Hfs], Hc as [Hc Hcs].
  cbn [length read_operations]. rewrite bind_cons, <- (assoc_L (++)), read_op by done. cbn [mbind option_bind]. by rewrite IH.
Qed.

(** A check that a client makes in a transaction is not checked again when the
    transaction commits: it is sent under the type of a test for existence, and the server
    reads it as one, with the first byte of the length of the predicate as the result. *)
Theorem client_check_becomes_has collection key (predicates : D) result rest :
  info_fits (CheckInfo collection key predicates result) ->
  exists req, new_operation_info_from_req (write_op (CheckInfo collection key predicates result) ++ rest)
    = Some (inr (HasInfo collection key (negb (Z.of_nat (length (doc_bytes predicates)) mod 256 =? 0))), req).
Proof.
  intros (Hc & Hk & _ & _). unfold new_operation_info_from_req, write_op.
  rewrite <- (assoc_L (++)), int_dec_enc by apply op_number_range. cbn [mbind option_bind]. rewrite op_of_op_number.
  cbn [info_type write_to_req]. rewrite <- !(assoc_L (++)). cbn [enc doc_codec]. rewrite <- !(assoc_L (++)). cbn [le_encode app].
  eexists. cbn [dec pair_codec]. rewrite dec_enc by done. cbn [mbind option_bind]. rewrite dec_enc by done. reflexivity.
Qed.

End Client.

(** ** Execution *)

Section Execution.
Context {B : Type} `{Bitstream B} {S : Type} `{PageStore S (Block B)} {S2 : Type} `{PageStore S2 (Block B)}.
Context {M : Type} `{KVMap M string event_id_t} {D : Type} `{Json D} {X : Type} `{Index X D}.
Variables (padding : Z) (new_primary : M).
Variable run_program : ledger S M X -> D -> OpContext -> string -> string -> string -> OperationType -> bool.
Variable fuel : nat.

(** [<<] and [>>] of a witness, which has a signature if it is not empty *)
Context `{Codec (option D)}.

Abbreviation env := (tx_env S M X S2).
Abbreviation proxy_work := (Transaction.proxy_work (S2 := S2) padding new_primary run_program fuel).
Abbreviation end_of_stream := (Runtime_error "end of stream").

(** [TransactionProxy::TransactionProxy] and [process]: the transaction is registered with
    the manager before its operations are read; an operation that is not known aborts it,
    and it is run all the same. *)
Definition execute_request (uid task : Z) (ctx : OpContext) (request : list Z) : ST env (string + option D) := fun e =>
  match ('(isolation, request) ← int_dec 1 request;
         '((generate_witness, request) : bool * list Z) ← dec request; Some (isolation, generate_witness, request)) with
  | None => (Throw end_of_stream, e)
  | Some (number, generate_witness, request) =>
      match isolation_of_number number with
      | None => (Throw (Undefined "isolation level"), e)
      | Some isolation =>
          match init_local_transaction uid isolation e with
          | (Throw x, e) => (Throw x, e)
          | (Ok t, e) =>
              let t := init_task task ctx t in
              match ('(ops_size, request) ← int_dec 4 request; read_operations (Z.to_nat ops_size) request) with
              | None => (Throw end_of_stream, e)
              | Some (ops, unknown) =>
                  let t := fold_left (fun t op => register_operation (task, op) t) ops t in
                  let m := match unknown with
                           | None => proxy_work generate_witness
                           | Some number =>
                               _ ← set_error ("Unknown OperationType " ++ pretty number); _ ← abort padding;
                               proxy_work generate_witness
                           end in
                  let '(r, (_, e)) := m (t, e) in (r, e)
              end
          end
      end
  end.

(** [m_result], and the bitstream that the handler of [ExecuteTransaction] writes *)
Definition result_body (r : string + option D) : list Z :=
  match r with inl error => enc false ++ enc error | inr witness => enc true ++ enc witness end.

Definition handle_execute_transaction (uid task : Z) ctx (input : list Z) : ST env (list Z) :=
  r ← execute_request uid task ctx input;
  mret (le_encode 4 (Z.of_nat (length (result_body r))) ++ result_body r).

(** What [TransactionImpl::commit] makes of the response *)
Definition parse_result (msg : list Z) : option (string + option D) :=
  '(n, msg) ← int_dec 4 msg;
  '(bstream, _) ← read_raw n msg;
  if decide (bstream = []) then Some (inl "empty response"%string)
  else
    '((success, bstream) : bool * list Z) ← dec bstream;
    if success then '((witness, _) : option D * list Z) ← dec bstream; Some (inr witness)
    else '((error, _) : string * list Z) ← dec bstream; Some (inl error).

(** [TransactionImpl::commit]: [done] is [m_done]. *)
Definition client_commit (done : bool) (uid task : Z) ctx (isolation : IsolationLevel) (generate_witness : bool)
    (ops : list (operation_info D)) : ST env (string + option D) :=
  if done then throw (Runtime_error "Already committed this transaction!")
  else
    output ← handle_execute_transaction uid task ctx (transaction_body isolation generate_witness ops);
    match parse_result output with Some r => mret r | None => throw end_of_stream end.

Context `{!JsonLaws D} `{!CodecLaws (option D)}.

Definition result_fits (r : string + option D) : Prop :=
  match r with inl error => codec_wf error | inr witness => codec_wf witness end /\
  in_range 32 (Z.of_nat (length (result_body r))).

Lemma parse_result_body r :
  result_fits r -> parse_result (le_encode 4 (Z.of_nat (length (result_body r))) ++ result_body r) = Some r.
Proof.
  intros [Hf Hn]. unfold parse_result. rewrite int_dec_enc by done. cbn [mbind option_bind].
  rewrite <- (app_nil_r (result_body r)) at 2. rewrite read_raw_app. cbn [mbind option_bind].
  rewrite decide_False by (by destruct r). rewrite <- (app_nil_r (result_body r)).
  destruct r as [error|witness]; cbn [result_body]; rewrite <- (assoc_L (++)), dec_enc by done;
    cbn [mbind option_bind]; by rewrite dec_enc.
Qed.

Lemma execute_request_run uid task ctx isolation generate_witness ops e :
  Forall info_fits ops -> Forall (fun op => is_check op = false) ops -> in_range 32 (Z.of_nat (length ops)) ->
  execute_request uid task ctx (transaction_body isolation generate_witness ops) e =
  execute_transaction padding new_primary run_program fuel uid task ctx isolation generate_witness ops e.
Proof.
  intros Hf Hc Hn. unfold execute_request, execute_transaction, transaction_body.
  rewrite int_dec_enc by (by destruct isolation). cbn [mbind option_bind]. rewrite dec_enc by done. cbn [mbind option_bind].
  assert (isolation_of_number (isolation_number isolation) = Some isolation) as -> by (by destruct isolation).
  destruct (init_local_transaction uid isolation e) as [[t|x] e1]; [|done].
  rewrite int_dec_enc by done. cbn [mbind option_bind]. rewrite Nat2Z.id, <- (app_nil_r (ops ≫= write_op)).
  by rewrite read_operations_ok.
Qed.

(** C34.  A client's transaction, if there is no check among its operations, is the
    transaction that the server runs: what [TransactionImpl::commit] sends is read back
    operation by operation, in the order in which they were recorded and with what they have
    read, and the client is told the result, witness or error, that the execution has had.
    (A check is sent as something else, see [client_check_becomes_has]; the parts are within
    the lengths of their fields.) *)
Theorem client_commit_executes uid task ctx isolation generate_witness ops e r e' :
  Forall info_fits ops -> Forall (fun op => is_check op = false) ops -> in_range 32 (Z.of_nat (length ops)) ->
  execute_transaction padding new_primary run_program fuel uid task ctx isolation generate_witness ops e = (Ok r, e') ->
  result_fits r ->
  client_commit false uid task ctx isolation generate_witness ops e = (Ok r, e').
Proof.
  intros Hf Hc Hn Hx Hr. unfold client_commit, handle_execute_transaction, mbind, ST_bind.
  rewrite execute_request_run, Hx by done. unfold mret at 1, ST_ret at 1. cbv beta iota. by rewrite parse_result_body.
Qed.

End Execution.

(** ** [OrderEvents] *)

Section Order.
Context {B : Type} `{Bitstream B} {S : Type} `{PageStore S (Block B)} {S2 : Type} `{PageStore S2 (Block B)}.
Context {M : Type} {D : Type} `{Json D} {X : Type}.

Abbreviation env := (tx_env S M X S2).

Definition in_ledger {A} (m : ST (ledger S M X) A) : ST env A := zoom en_ledger set_ledger m.
Definition in_txs {A} (m : ST (txledger S2) A) : ST env A := zoom en_txs set_txs m.

Definition ledger_pos_valid (p : ledger_pos_t) : bool := negb (ledger_pos_eqb p INVALID_LEDGER_POS).

(** Events of different shards are ordered by the transactions that have written them. *)
Definition handle_order_events (first second : event_id_t) : ST env OrderResult :=
  let res := order_event first second in
  if decide (res = Unknown) then
    ref1 ← in_ledger (get_transaction_ref (D := D) first);
    ref2 ← in_ledger (get_transaction_ref (D := D) second);
    if ledger_pos_valid ref1 && ledger_pos_valid ref2 then
      if ledger_pos_eqb ref1 ref2 then mret Equal
      else
        tx1 ← in_txs (TransactionLedger_get (D := D) ref1);
        tx2 ← in_txs (TransactionLedger_get (D := D) ref2);
        lift_res (th_order tx1 tx2)
    else mret res
  else mret res.
End Order.

#[local] Existing Instance primary_kv.
#[local] Existing Instance demo_index.

(** Alice has written [a], of shard 31, and [b], of shard 3, in a transaction; then either
    both again, or [a] and an object of shard 33. *)
Definition order_start := (demo_execute alice Serializable false
  [PutInfo "c" "a" (public 1); PutInfo "c" "b" (public 1)] (demo_env demo_before ∅)).2.
Definition order_again := (demo_execute alice Serializable false
  [PutInfo "c" "a" (public 2); PutInfo "c" "b" (public 2)] order_start).2.
Definition order_other := (demo_execute alice Serializable false
  [PutInfo "c" "a" (public 3); PutInfo "c" "mine" (demo_doc 3)] order_start).2.

(** [OrderEvents] orders events of different shards by their transactions: events of one
    transaction are equal, and the events of a later transaction that writes the same objects
    are newer.  But a transaction is recorded with the writes of its first shard only, so that two
    transactions are not ordered although the second has overwritten an object of the first. *)
Theorem order_events_forgets_shards :
  (handle_order_events (EventId 31 32 0) (EventId 3 4 0) order_again).1 = Ok Equal /\
  (handle_order_events (EventId 31 32 0) (EventId 3 4 1) order_again).1 = Ok OlderThan /\
  (handle_order_events (EventId 3 4 1) (EventId 31 32 0) order_again).1 = Ok NewerThan /\
  (handle_order_events (EventId 31 32 0) (EventId 31 32 1) order_other).1 = Ok OlderThan /\
  (handle_order_events (EventId 3 4 0) (EventId 33 34 2) order_other).1 = Ok Unknown.
Proof. split_and!; vm_compute; reflexivity. Qed.

(** ** Examples *)

#[local] Instance witness_codec : Codec (option jtree) := {|
  codec_wf w := match w with None => True | Some d => codec_wf d end;
  enc w := match w with None => [0] | Some d => 1 :: enc d end;
  dec bs := match bs with 0 :: bs => Some (None, bs) | 1 :: bs => '(d, bs) ← dec bs; Some (Some d, bs) | _ => None end;
|}.

#[local] Instance witness_codec_laws : CodecLaws (option jtree).
Proof.
  split; [|intros [d|] _; cbn; lia]. intros [d|] rest Hw; [|done]. cbn [dec enc witness_codec app]. by rewrite dec_enc.
Qed.

Abbreviation demo_commit := (client_commit (B := buffer) (S := demo_pages) (S2 := demo_pages) (M := primary) (X := index)
  0 demo_primary (fun _ => only_owner) 5 false 7 3).

Lemma client_commit_executes_witness :
  exists e', demo_commit alice Serializable false demo_ops (demo_env demo_before ∅) = (Ok (inr None), e').
Proof.
  assert ((demo_execute alice Serializable false demo_ops (demo_env demo_before ∅)).1 = Ok (inr None)) as E
    by (vm_compute; reflexivity).
  destruct (demo_execute alice Serializable false demo_ops (demo_env demo_before ∅)) as [r e'] eqn:Ex. cbn [fst] in E. subst r.
  exists e'. refine (client_commit_executes (B := buffer) (S := demo_pages) (S2 := demo_pages) (M := primary) (X := index)
    0 demo_primary (fun _ => only_owner) 5 7 3 alice Serializable false demo_ops (demo_env demo_before ∅) (inr None) e' _ _ _ Ex _).
  - unfold demo_ops. repeat (apply Forall_cons; split); try apply Forall_nil. all: unfold info_fits; fits.
  - repeat (apply Forall_cons; split); try apply Forall_nil; reflexivity.
  - vm_compute. split; [discriminate|reflexivity].
  - split; [exact I|]. vm_compute. split; [discriminate|reflexivity].
Defined.

Lemma client_check_becomes_has_witness :
  exists req, new_operation_info_from_req (write_op (CheckInfo "c" "mine" (public 1) false) ++ [])
    = Some (inr (HasInfo "c" "mine" true), req).
Proof.
  destruct (client_check_becomes_has "c" "mine" (public 1) false []) as [req E]; [unfold info_fits; fits|].
  exists req. rewrite E. vm_compute. reflexivity.
Defined.
