(* ===== verification/ClearWitness.v ===== *)
(** * Clearing collections and witnesses of events

    Models [Ledger::clear] and [Ledger::create_witness] of [src/enclave/Ledger.cpp].  The first
    goes through the primary index with the iterator of [HashMap.v]; of the second, the
    signature is a parameter. *)

From S2P Require Import Prelude EventId VersionNumber Keys Bitstream Block PageStore Hash HashMapNode AbstractMap HashMap Json Identity.
From S2P Require Import Index ObjectEvent Shard TransactionLedger Ledger Find Requests LedgerStore.

Section Clear.
Context {B : Type} `{Bitstream B} {S : Type} `{PageStore S (Block B)}.
Context {P : Type} `{PageStore P node} {D : Type} `{Json D} {X : Type} `{Index X D}.
Context `{KVMap (amap P) string event_id_t}.
Variables (padding : Z) (new_primary : amap P) (sizeof_node : Z).

Abbreviation L := (ledger S (amap P) X).
Implicit Types ctx : OpContext.

(** One object *)
Definition clear_object ctx (name : string) (it : iterator_t) : ST L unit :=
  '((key, previous_id) : string * event_id_t) ← on_primary new_primary name (it_entry it);
  _ ← on_shards (Shard_get_pending_block (shard_of_key name key));
  previous_event ← get_event previous_id;
  if negb (handle_valid previous_event) then throw (Runtime_error "Broken object reference")
  else if decide (ev_get_type previous_event = Deletion) then mret tt
  else
    id ← put_tombstone ctx previous_id INVALID_LEDGER_POS;
    _ ← on_primary new_primary name (it_set_value (K := string) sizeof_node it id);
    modify_st (fun l => set_object_count (u64 (l_object_count l - 1)) l).

Fixpoint clear_loop (fuel : nat) ctx (name : string) (it : iterator_t) : ST L unit :=
  if it_at_end it then mret tt
  else
    match fuel with
    | O => throw (Undefined "out of fuel")
    | Datatypes.S fuel =>
        _ ← clear_object ctx name it;
        it ← on_primary new_primary name (it_next it);
        clear_loop fuel ctx name it
    end.

Fixpoint organize_all (sids : list Z) : ST L unit :=
  match sids with
  | [] => mret tt
  | sid :: sids => _ ← on_shards (organize_ledger padding sid); organize_all sids
  end.

(** [fuel] bounds the objects. *)
Definition Ledger_clear (fuel : nat) ctx (name : string) : ST L bool :=
  _ ← get_collection new_primary name false;
  it ← on_primary new_primary name (it_new 0);
  _ ← clear_loop fuel ctx name it;
  _ ← organize_all (seqZ 0 NUM_SHARDS_LEDGER);
  mret true.

End Clear.

(** ** Witnesses *)

Section Witness.
Context {B : Type} `{Bitstream B} {S : Type} `{PageStore S (Block B)}.
Context {M : Type} {D : Type} `{Json D} {X : Type}.

(** [sign_witness]: whether there is a signature, and the bytes that are signed *)
Variable sign_witness : list Z -> bool.

Abbreviation L := (ledger S M X).

(** The fields that are written for an event.  The differences, of the event's value with
    itself, are made into documents that are dropped; an event that is neither a deletion nor
    a version is reported in the log only.  [value] throws on an invalid handle, which
    [witness_events] has excluded. *)
Definition witness_fields (eid : event_id_t) (event prev : D) : list (string * D) :=
  [("shard"%string, doc_int (ev_shard eid)); ("block"%string, doc_int (ev_block eid));
   ("index"%string, doc_int (ev_index eid)); ("source"%string, doc_str (ev_source event))] ++
  (if decide (ev_get_type event = Deletion) then [("type"%string, doc_str "deletion")]
   else if handle_valid prev && bool_decide (ev_get_type prev <> Deletion) then
     [("type"%string, doc_str "change"); ("diff"%string, doc_array [])]
   else if decide (ev_get_type event = NewVersion) then
     [("type"%string, doc_str "creation");
      ("value"%string, match ev_value event with Ok v => v | Throw _ => doc_null end)]
   else []).

Fixpoint witness_events (events : list event_id_t) (acc : list D) : ST L (option (list D)) :=
  match events with
  | [] => mret (Some acc)
  | eid :: events =>
      event ← get_event eid;
      if negb (handle_valid event) then mret None
      else
        prev ← get_previous_event (ev_shard eid) event;
        witness_events events (acc ++ [doc_map (witness_fields eid event prev)])
  end.

(** The data of the witness; [None] is the result [false]. *)
Definition create_witness (events : list event_id_t) : ST L (option (list Z)) :=
  entries ← witness_events events [];
  match entries with
  | None => mret None
  | Some entries =>
      let data := doc_bytes (doc_array entries) in
      mret (if sign_witness data then Some data else None)
  end.

End Witness.

(** ** On the data of [LedgerStore.v] *)

#[local] Existing Instance primary_kv.
#[local] Existing Instance demo_index.

Abbreviation demo_clear := (Ledger_clear (B := buffer) (S := page_map (Block buffer)) (X := index) 0 demo_primary 64 100).
Abbreviation demo_witness := (create_witness (B := buffer) (S := page_map (Block buffer)) (M := primary) (X := index) (fun _ => true)).

(** Anybody can delete the objects of a collection: [clear] asks no policy.  Bob may
    neither read, change nor remove Alice's object; Bob clears the collection, and the object
    is gone. *)
Theorem clear_ignores_policies :
  let made := demo_run (take 6 demo_requests) demo_new in
  let cleared := demo_clear bob "c" made.2 in
  match made.1 with Ok resps => answer_of <$> drop 1 resps = [AWrote true; AObject None; AWrote false; AWrote false; AWrote true] | _ => False end /\
  cleared.1 = Ok true /\
  match (demo_run [(alice, ReqGet "c" "mine"); (alice, ReqHas "c" "mine")] cleared.2).1 with
  | Ok resps => answer_of <$> resps = [AObject None; ABool false]
  | _ => False
  end.
Proof. cbv zeta. split_and!; vm_compute; reflexivity. Qed.

(** Alice has created object [x] and changed it to [v]. *)
Definition changed_to (v : Z) := (demo_run [(alice, ReqPut false "c" "x" (public 3)); (alice, ReqPut false "c" "x" (public v))] demo_new).2.
Definition latest_x (v : Z) := (demo_run [(alice, ReqGet "c" "x")] (changed_to v)).1.

(** A witness of a change does not tell what the change was: whether Alice has set the
    value of the object to 4 or to 5, the event has the same identifier and the bytes that are
    signed are the same. *)
Theorem witness_omits_change :
  let eid := EventId 48 49 1 in
  latest_x 4 = Ok [RespObject (Some (eid, public 4))] /\ latest_x 5 = Ok [RespObject (Some (eid, public 5))] /\
  match (demo_witness [eid] (changed_to 4)).1 with
  | Ok (Some data) => (demo_witness [eid] (changed_to 5)).1 = Ok (Some data)
  | _ => False
  end.
Proof. cbv zeta. split_and!; vm_compute; reflexivity. Qed.
