(* ===== verification/KeyExchange.v ===== *)
(** * Key derivation and the messages of remote attestation

    Models [src/enclave/key_derivation.h] (the client has a copy of it), the label and buffer
    sizes of [src/common/util/keys.h] and the layout of the structures that are read in place
    ([sample_quote_t] and [ias_platform_info_blob_t] of [src/enclave/ias_ra.h] and
    [src/common/util/remote_attestation_result.h]).  The cryptographic functions and the
    enclave's side of the attestation are the SDK's, and parameters: [Crypto] and [Ra]. *)

From Stdlib Require Import Ascii.
From S2P Require Import Prelude Bitstream Wire.

(** ** The functions of the SDK

    [None] is any status but [SGX_SUCCESS].  What is random is drawn from a seed that is given:
    [ecc_create_key_pair seed] is a private and a public key. *)
Class Crypto : Type := {
  ecc_create_key_pair : list Z -> option (list Z * list Z);
  ecc_compute_shared_dhkey : list Z -> list Z -> option (list Z);
  cmac_msg : list Z -> list Z -> option (list Z);
  sha256 : list Z -> option (list Z);
  ecdsa_sign : list Z -> list Z -> list Z -> option (list Z);
  ecdsa_verify : list Z -> list Z -> list Z -> bool;
}.

Definition SGX_ECP256_PUBLIC : nat := 64.
Definition MAC_KEY_SIZE : nat := 16.
Definition SAMPLE_MAC_SIZE : nat := 16.

(** Keys have their length, the shared key is the same on both sides, and a signature of data
    that is not empty is accepted for it.  The functions of the crypto library are an instance (Ucrypto.v). *)
Class CryptoLaws `{Crypto} : Prop := {
  key_pair_ok : forall seed, exists private public,
    ecc_create_key_pair seed = Some (private, public) /\ length public = SGX_ECP256_PUBLIC;
  shared_agrees : forall seed1 seed2 private1 public1 private2 public2,
    ecc_create_key_pair seed1 = Some (private1, public1) -> ecc_create_key_pair seed2 = Some (private2, public2) ->
    exists shared, ecc_compute_shared_dhkey private1 public2 = Some shared /\
                   ecc_compute_shared_dhkey private2 public1 = Some shared;
  cmac_ok : forall key msg, exists mac, cmac_msg key msg = Some mac /\ length mac = SAMPLE_MAC_SIZE;
  sha256_ok : forall data, exists hash, sha256 data = Some hash /\ length hash = 32%nat;
  sign_ok : forall seed seed' private public data, data <> [] -> ecc_create_key_pair seed = Some (private, public) ->
    exists signature, ecdsa_sign seed' private data = Some signature /\ length signature = 64%nat /\
                      ecdsa_verify public data signature = true;
}.

(** ** [derive_key] *)

Definition SAMPLE_DERIVE_KEY_SMK : Z := 0.
Definition SAMPLE_DERIVE_KEY_SK : Z := 1.
Definition SAMPLE_DERIVE_KEY_MK : Z := 2.
Definition SAMPLE_DERIVE_KEY_VK : Z := 3.

Definition label_bytes (s : string) : list Z := ascii_byte <$> String.list_ascii_of_string s.

Definition key_label (key_id : Z) : option (list Z) :=
  if key_id =? SAMPLE_DERIVE_KEY_SMK then Some (label_bytes "SMK")
  else if key_id =? SAMPLE_DERIVE_KEY_SK then Some (label_bytes "SK")
  else if key_id =? SAMPLE_DERIVE_KEY_MK then Some (label_bytes "MK")
  else if key_id =? SAMPLE_DERIVE_KEY_VK then Some (label_bytes "VK")
  else None.

Definition EC_DERIVATION_BUFFER_SIZE (label_length : nat) : nat := label_length + 4.

(** The buffer is written in place, over zeros. *)
Definition derivation_buffer (label : list Z) : list Z :=
  let n := EC_DERIVATION_BUFFER_SIZE (length label) in
  splice (n - 2) (le_encode 2 128) (splice 1 label (splice 0 [1] (replicate n 0))).

Definition derive_key `{Crypto} (shared_key : list Z) (key_id : Z) : option (list Z) :=
  key_derive_key ← cmac_msg (replicate MAC_KEY_SIZE 0) shared_key;
  label ← key_label key_id;
  cmac_msg key_derive_key (derivation_buffer label).

Lemma derivation_buffer_spec label : derivation_buffer label = [1] ++ label ++ [0; 128; 0].
Proof.
  unfold derivation_buffer, EC_DERIVATION_BUFFER_SIZE.
  replace (replicate (length label + 4) 0) with ([] ++ [0] ++ (replicate (length label) 0 ++ [0; 0; 0]))
    by (replace (length label + 4)%nat with (1 + (length label + 3))%nat by lia; by rewrite !replicate_add).
  rewrite (splice_app_mid' 0) by done.
  change ([] ++ [1] ++ replicate (length label) 0 ++ [0; 0; 0]) with ([1] ++ replicate (length label) 0 ++ [0; 0; 0]).
  rewrite (splice_app_mid' 1) by (rewrite ?length_replicate; done).
  replace ([1] ++ label ++ [0; 0; 0]) with (([1] ++ label ++ [0]) ++ [0; 0] ++ []) by (rewrite <- !(assoc_L (++)); done).
  rewrite splice_app_mid'; [|autorewrite with credb_len; cbn; lia|done]. rewrite <- !(assoc_L (++)). done.
Qed.

(** Every key has a buffer of its own. *)
Lemma derivation_buffer_inj id id' label label' :
  key_label id = Some label -> key_label id' = Some label' ->
  derivation_buffer label = derivation_buffer label' -> id = id'.
Proof.
  unfold key_label. intros H1 H2.
  repeat (case_match; bool_hyps; subst; simplify_eq; try done); vm_compute; congruence.
Qed.

Lemma derive_key_ok `{CryptoLaws} shared id :
  0 <= id < 4 -> exists key, derive_key shared id = Some key /\ length key = SAMPLE_MAC_SIZE.
Proof.
  intros Hid. unfold derive_key. destruct (cmac_ok (replicate MAC_KEY_SIZE 0) shared) as (kdk & -> & _). cbn.
  assert (exists label, key_label id = Some label) as [label ->].
  { assert (id = 0 \/ id = 1 \/ id = 2 \/ id = 3) as [->|[->|[->| ->]]] by lia; by eexists. }
  apply cmac_ok.
Qed.

(** ** The layout of the messages *)

Definition SAMPLE_QUOTE_LINKABLE_SIGNATURE : Z := 1.
Definition SAMPLE_AES_CMAC_KDF_ID : Z := 1.

(** [sgx_ra_msg2_t]: the MAC covers what is before it. *)
Record sgx_ra_msg2_t : Type := mkMsg2 {
  msg2_g_b : list Z;
  msg2_spid : list Z;
  msg2_quote_type : Z;
  msg2_kdf_id : Z;
  msg2_sign_gb_ga : list Z;
  msg2_mac : list Z;
  msg2_sig_rl_size : Z;
}.

Definition msg2_cmaced (g_b spid : list Z) (quote_type kdf_id : Z) (sign_gb_ga : list Z) : list Z :=
  g_b ++ spid ++ le_encode 2 quote_type ++ le_encode 2 kdf_id ++ sign_gb_ga.

Definition msg2_bytes (m : sgx_ra_msg2_t) : list Z :=
  msg2_cmaced (msg2_g_b m) (msg2_spid m) (msg2_quote_type m) (msg2_kdf_id m) (msg2_sign_gb_ga m) ++
  msg2_mac m ++ le_encode 4 (msg2_sig_rl_size m).

(** [g_spid], a global that nothing sets *)
Definition g_spid : list Z := replicate 16 0.

(** Message 2 of the party that is not attested, with the signature that it has made *)
Definition make_msg2 `{Crypto} (smk g_b signature : list Z) : option sgx_ra_msg2_t :=
  mac ← cmac_msg smk (msg2_cmaced g_b g_spid SAMPLE_QUOTE_LINKABLE_SIGNATURE SAMPLE_AES_CMAC_KDF_ID signature);
  Some (mkMsg2 g_b g_spid SAMPLE_QUOTE_LINKABLE_SIGNATURE SAMPLE_AES_CMAC_KDF_ID signature mac 0).

(** [sgx_ra_msg1_t]: the public key and the group *)
Definition sizeof_msg1 : nat := 68.
Definition msg1_g_a (m : list Z) : list Z := take SGX_ECP256_PUBLIC m.

(** [sgx_ra_msg3_t]: the MAC, the public key, the security properties and the quote.  The report
    data is at 320 in the report, which is at 48 in the quote. *)
Definition msg3_mac (m : list Z) : list Z := slice 0 SAMPLE_MAC_SIZE m.
Definition msg3_cmaced (m : list Z) : list Z := drop SAMPLE_MAC_SIZE m.
Definition msg3_g_a (m : list Z) : list Z := slice 16 SGX_ECP256_PUBLIC m.
Definition msg3_ps_sec_prop (m : list Z) : list Z := slice 80 256 m.
Definition msg3_report_data (m : list Z) : list Z := slice (336 + 48 + 320) 64 m.

(** The fields are read in place, whatever the length of the message is. *)
Definition msg3_in_bounds (m : list Z) : bool := (336 + 48 + 320 + 64 <=? length m)%nat.

(** [ias_platform_info_blob_t] *)
Definition sizeof_info_blob : nat := 1 + 2 + 2 + 18 + 2 + 4 + 4 + 64.

(** ** The enclave's side, in the SDK

    A session is what the SDK keeps for a context.  The number of the attempt stands for what
    makes a call fail that would succeed later. *)
Class Ra : Type := {
  ra_session : Type;
  ra_init : list Z -> list Z -> option ra_session;
  ra_get_msg1 : nat -> ra_session -> option (list Z * ra_session);
  ra_proc_msg2 : nat -> ra_session -> list Z -> option (list Z * ra_session);
  ra_get_sk : ra_session -> option (list Z);
}.

(** Message 3 of a session with public key [g_a]: what its receiver has to find there *)
Definition msg3_good `{Crypto} (smk vk g_a g_b m : list Z) : Prop :=
  msg3_in_bounds m = true /\ in_range 32 (Z.of_nat (length m)) /\ msg3_g_a m = g_a /\
  cmac_msg smk (msg3_cmaced m) = Some (msg3_mac m) /\
  exists hash, sha256 (g_a ++ g_b ++ vk) = Some hash /\ msg3_report_data m = hash ++ replicate 32 0.

(** [ra_seed] is the seed of the session's key pair and [ra_peer] the public key that signatures
    are checked with.  A message 2 is answered if its signature and its MAC are right, and not if
    the signature is wrong. *)
Class RaLaws `{Crypto, Ra} : Type := {
  ra_seed : ra_session -> list Z;
  ra_peer : ra_session -> list Z;
  ra_init_ok : forall seed key, exists s, ra_init seed key = Some s /\ ra_seed s = seed /\ ra_peer s = key;
  ra_msg1_ok : forall i s private g_a, ecc_create_key_pair (ra_seed s) = Some (private, g_a) ->
    exists m s', ra_get_msg1 i s = Some (m, s') /\ length m = sizeof_msg1 /\ msg1_g_a m = g_a /\
      ra_seed s' = ra_seed s /\ ra_peer s' = ra_peer s;
  ra_msg2_ok : forall i s m private g_a shared smk sk vk,
    ecc_create_key_pair (ra_seed s) = Some (private, g_a) -> length (msg2_g_b m) = SGX_ECP256_PUBLIC ->
    length (msg2_sign_gb_ga m) = 64%nat ->
    ecc_compute_shared_dhkey private (msg2_g_b m) = Some shared ->
    derive_key shared SAMPLE_DERIVE_KEY_SMK = Some smk -> derive_key shared SAMPLE_DERIVE_KEY_SK = Some sk ->
    derive_key shared SAMPLE_DERIVE_KEY_VK = Some vk ->
    ecdsa_verify (ra_peer s) (msg2_g_b m ++ g_a) (msg2_sign_gb_ga m) = true ->
    make_msg2 smk (msg2_g_b m) (msg2_sign_gb_ga m) = Some m ->
    exists m3 s', ra_proc_msg2 i s (msg2_bytes m) = Some (m3, s') /\ ra_get_sk s' = Some sk /\
      msg3_good smk vk g_a (msg2_g_b m) m3;
  ra_msg2_refused : forall i s m private g_a,
    ecc_create_key_pair (ra_seed s) = Some (private, g_a) -> length (msg2_g_b m) = SGX_ECP256_PUBLIC ->
    length (msg2_spid m) = 16%nat -> length (msg2_sign_gb_ga m) = 64%nat ->
    ecdsa_verify (ra_peer s) (msg2_g_b m ++ g_a) (msg2_sign_gb_ga m) = false ->
    ra_proc_msg2 i s (msg2_bytes m) = None;
}.

(** ** An SDK for which the laws hold *)

Definition toy_sum (l : list Z) : Z := foldr Z.add 0 l mod 256.
Definition toy_head (l : list Z) : Z := match l with [] => 0 | x :: _ => x end.

#[local] Instance toy_crypto : Crypto := {|
  ecc_create_key_pair seed := Some ([toy_sum seed], replicate 64 (toy_sum seed));
  ecc_compute_shared_dhkey private public := Some (replicate 32 ((toy_head private + toy_head public) mod 256));
  cmac_msg key msg := Some (replicate 16 ((toy_sum key + toy_sum msg) mod 256));
  sha256 data := Some (replicate 32 (toy_sum data));
  ecdsa_sign _ private data := Some (replicate 64 ((toy_head private + toy_sum data) mod 256));
  ecdsa_verify public data signature := bool_decide (signature = replicate 64 ((toy_head public + toy_sum data) mod 256));
|}.

Lemma toy_crypto_laws : @CryptoLaws toy_crypto.
Proof.
  split; cbn -[replicate].
  - intros seed. do 2 eexists. split; [done|]. by rewrite length_replicate.
  - intros ? ? ? ? ? ? [= <- <-] [= <- <-]. cbn. eexists. split; [done|]. by rewrite Z.add_comm.
  - intros. eexists. split; [done|]. by rewrite length_replicate.
  - intros. eexists. split; [done|]. by rewrite length_replicate.
  - intros ? ? ? ? ? _ [= <- <-]. eexists. split_and!; [done|by rewrite length_replicate|]. by apply bool_decide_eq_true.
Qed.

Record toy_session : Type := mkToy { toy_seed : list Z; toy_peer : list Z; toy_sk : option (list Z); }.

Definition toy_msg3 (smk g_a hash : list Z) : list Z :=
  let body := g_a ++ replicate 624 0 ++ hash ++ replicate 32 0 in
  replicate 16 ((toy_sum smk + toy_sum body) mod 256) ++ body.

Definition toy_proc_msg2 (s : toy_session) (msg2 : list Z) : option (list Z * toy_session) :=
  '(private, g_a) ← ecc_create_key_pair (toy_seed s);
  let g_b := slice 0 64 msg2 in
  if negb (ecdsa_verify (toy_peer s) (g_b ++ g_a) (slice 84 64 msg2)) then None
  else
    shared ← ecc_compute_shared_dhkey private g_b;
    smk ← derive_key shared SAMPLE_DERIVE_KEY_SMK;
    sk ← derive_key shared SAMPLE_DERIVE_KEY_SK;
    vk ← derive_key shared SAMPLE_DERIVE_KEY_VK;
    hash ← sha256 (g_a ++ g_b ++ vk);
    Some (toy_msg3 smk g_a hash, mkToy (toy_seed s) (toy_peer s) (Some sk)).

#[local] Instance toy_ra : Ra := {|
  ra_session := toy_session;
  ra_init seed key := Some (mkToy seed key None);
  ra_get_msg1 _ s := Some (replicate 64 (toy_sum (toy_seed s)) ++ [0; 0; 0; 0], s);
  ra_proc_msg2 _ := toy_proc_msg2;
  ra_get_sk := toy_sk;
|}.

Lemma msg2_slices m :
  length (msg2_g_b m) = SGX_ECP256_PUBLIC -> length (msg2_spid m) = 16%nat -> length (msg2_sign_gb_ga m) = 64%nat ->
  slice 0 64 (msg2_bytes m) = msg2_g_b m /\ slice 84 64 (msg2_bytes m) = msg2_sign_gb_ga m.
Proof.
  intros Hb Hs Hg. unfold msg2_bytes, msg2_cmaced. rewrite <- !(assoc_L (++)). split.
  - by apply (slice_app_mid' 0 64 []).
  - rewrite !(assoc_L (++) (msg2_g_b m)), !(assoc_L (++) (msg2_g_b m ++ msg2_spid m)),
      !(assoc_L (++) ((msg2_g_b m ++ msg2_spid m) ++ _)).
    apply slice_app_mid'; [|done]. rewrite !length_app, !le_encode_length, Hb, Hs. done.
Qed.

Lemma toy_msg3_good smk vk g_a g_b hash :
  length g_a = 64%nat -> sha256 (g_a ++ g_b ++ vk) = Some hash -> msg3_good smk vk g_a g_b (toy_msg3 smk g_a hash).
Proof.
  intros Ha Hh. assert (length hash = 32%nat) as Hl.
  { apply (inj Some) in Hh as <-. by rewrite length_replicate. }
  set (body := g_a ++ replicate 624 0 ++ hash ++ replicate 32 0).
  assert (length body = 752%nat) as Hb by (unfold body; rewrite !length_app, !length_replicate, Ha, Hl; done).
  assert (length (toy_msg3 smk g_a hash) = 768%nat) as Hm.
  { unfold toy_msg3. fold body. by rewrite length_app, length_replicate, Hb. }
  unfold msg3_good, msg3_in_bounds. rewrite Hm. split_and!; [done|by vm_compute|..].
  - unfold toy_msg3, msg3_g_a. apply slice_app_mid'; [by rewrite length_replicate|done].
  - unfold toy_msg3, msg3_cmaced, msg3_mac. fold body. unfold slice. rewrite drop_0.
    set (mac := replicate 16 _). replace SAMPLE_MAC_SIZE with (length mac) by (unfold mac; by rewrite length_replicate).
    by rewrite drop_app_length, take_app_length.
  - exists hash. split; [done|]. unfold msg3_report_data.
    assert (toy_msg3 smk g_a hash = (replicate 16 ((toy_sum smk + toy_sum body) mod 256) ++ g_a ++ replicate 624 0) ++
              (hash ++ replicate 32 0) ++ []) as -> by (rewrite app_nil_r; unfold toy_msg3; by rewrite <- !(assoc_L (++))).
    apply slice_app_mid'.
    + rewrite !length_app, !length_replicate, Ha. done.
    + by rewrite length_app, Hl, length_replicate.
Qed.

Definition toy_ra_laws : @RaLaws toy_crypto toy_ra.
Proof.
  refine {| ra_seed := toy_seed : @ra_session toy_ra -> _; ra_peer := toy_peer : @ra_session toy_ra -> _ |}.
  - intros. by eexists.
  - intros i s private g_a [= <- <-]. do 2 eexists. split; [done|]. split_and!; [|..|done|done].
    + by rewrite length_app, length_replicate.
    + unfold msg1_g_a. change SGX_ECP256_PUBLIC with 64%nat.
      rewrite <- (length_replicate 64 (toy_sum (toy_seed s))) at 1. apply take_app_length.
  - intros i s m private g_a shared smk sk vk Hk Hb Hg Hd Hsmk Hsk Hvk Hv Hm.
    assert (length (msg2_spid m) = 16%nat) as Hs.
    { unfold make_msg2 in Hm. cbn -[replicate] in Hm. by apply (inj Some) in Hm as <-. }
    destruct (msg2_slices m Hb Hs Hg) as [E1 E2]. cbn [ra_proc_msg2 toy_ra]. unfold toy_proc_msg2.
    rewrite Hk, E1, E2. cbv beta iota delta [mbind option_bind]. rewrite Hv. cbv beta iota delta [negb].
    rewrite Hd, Hsmk, Hsk, Hvk. destruct (sha256 (g_a ++ msg2_g_b m ++ vk)) as [hash|] eqn:Eh; [|done].
    do 2 eexists. split_and!; [done|done|]. apply toy_msg3_good; [|done].
    apply (inj Some), (inj2 pair) in Hk as [_ <-]. by rewrite length_replicate.
  - intros i s m private g_a Hk Hb Hs Hg Hv. destruct (msg2_slices m Hb Hs Hg) as [E1 E2].
    cbn [ra_proc_msg2 toy_ra]. unfold toy_proc_msg2. rewrite Hk, E1, E2. cbv beta iota delta [mbind option_bind].
    by rewrite Hv.
Defined.
