(* ===== verification/RemoteParties.v ===== *)
(** * The parties a server is connected to

    Models the two registries of connections: [RemoteParties] of the enclave
    ([src/enclave/RemoteParties.cpp], [RemoteParties.h]), with the members of [Client] and [Peer]
    ([src/enclave/Client.h], [Peer.h], [RemoteParty.h]), and [RemoteParties] of the host
    ([src/server/RemoteParties.cpp], [RemoteParties.h]), with the members of [Attestation]
    ([src/server/Attestation.h]).  The state is that of one server; what the requests of
    connected parties act on is left open ([W]). *)

From S2P Require Import Prelude Bitstream Hash Identity Wire KeyExchange.

(** ** The data *)

Inductive ClientState : Type := CS_Attestation | CS_Connected.
Inductive PeerState : Type := Attestation_Phase1 | Attestation_Phase2 | PS_Connected.
Inductive PeerType : Type := PT_Unknown | PT_Client | PT_PeerServer | PT_DownstreamServer.
Inductive AttestationState : Type := TellGroupId | WaitingForGroupIdResult | WaitingForMsg2 | Done.
Inductive AttestationMode : Type := OneWay | TwoWay_IsInitiator | TwoWay_NotInitiator.

#[global] Instance PeerState_eq_dec : EqDecision PeerState.
Proof. solve_decision. Defined.
#[global] Instance PeerType_eq_dec : EqDecision PeerType.
Proof. solve_decision. Defined.
#[global] Instance AttestationState_eq_dec : EqDecision AttestationState.
Proof. solve_decision. Defined.
#[global] Instance AttestationMode_eq_dec : EqDecision AttestationMode.
Proof. solve_decision. Defined.
#[global] Instance ClientState_eq_dec : EqDecision ClientState.
Proof. solve_decision. Defined.

(** [trusted::Client]; [cl_sk_key] is not initialised. *)
Record client_party : Type := mkClientParty { cl_state : ClientState; cl_sk_key : list Z; }.

(** [trusted::Peer]; the keys are not initialised. *)
Record peer_party : Type := mkPeerParty {
  pr_state : PeerState;
  pr_is_initiator : bool;
  pr_type : PeerType;
  pr_group_id : Z;
  pr_next_op : Z;
  pr_pending_count : Z;
  pr_dhke_other_public : list Z;
  pr_dhke_public : list Z;
  pr_dhke_private : list Z;
  pr_vk_key : list Z;
  pr_mk_key : list Z;
  pr_smk_key : list Z;
  pr_sk_internal_key : list Z;
  pr_ps_sec_prop : list Z;
  pr_encryption_key : list Z;
  pr_hostname : string;
  pr_port : Z;
  pr_responses : gmap Z (list Z);
}.

Inductive party_kind : Type := KClient (c : client_party) | KPeer (p : peer_party).

(** [trusted::RemoteParty]: the identity, [nullptr] at first, and the attestation context *)
Record party : Type := mkParty {
  pa_identity : option Identity;
  pa_context : Z;
  pa_kind : party_kind;
}.

(** [untrusted::RemoteParty] with its [Attestation]; [ho_open]: the socket is open.
    [ho_context] is not initialised. *)
Record host_party : Type := mkHostParty {
  ho_open : bool;
  ho_mode : AttestationMode;
  ho_state : AttestationState;
  ho_groupid_result : option bool;
  ho_msg2 : option (list Z);
  ho_context : Z;
}.

(** ** The registry of the enclave *)

Record registry : Type := mkRegistry {
  rg_parties : gmap Z party;
  rg_name_mapping : gmap string Z;
  rg_uid_mapping : gmap Z Z;
  rg_downstream_set : gset Z;
}.

Definition RemoteParties_new : registry := mkRegistry ∅ ∅ ∅ ∅.

Definition identity_uid (i : Identity) : Z := hash_buffer (id_public_key i).

Section Registry.
(** What fresh memory holds *)
Variable uninit : nat -> list Z.

Definition Client_new : party := mkParty None (-1) (KClient (mkClientParty CS_Attestation (uninit 16))).

Definition Peer_new (hostname : string) (port : Z) (is_initiator : bool) : party :=
  mkParty None (-1) (KPeer (mkPeerParty Attestation_Phase1 is_initiator PT_Unknown (le_decode (uninit 4)) 1 0
    (uninit 64) (uninit 64) (uninit 32) (uninit 16) (uninit 16) (uninit 16) (uninit 16) (uninit 256) (uninit 16)
    hostname port ∅)).

Definition set_parties (v : gmap Z party) (r : registry) : registry :=
  mkRegistry v (rg_name_mapping r) (rg_uid_mapping r) (rg_downstream_set r).

(** A party that is there already stays. *)
Definition insert_party (id : Z) (p : party) : ST registry unit :=
  modify_st (fun r => match rg_parties r !! id with
                      | Some _ => r
                      | None => set_parties (<[id := p]> (rg_parties r)) r
                      end).

Definition init_peer (id : Z) (hostname : string) (port : Z) (is_initiator : bool) : ST registry unit :=
  insert_party id (Peer_new hostname port is_initiator).
Definition init_client (id : Z) : ST registry unit := insert_party id Client_new.

Definition find (id : Z) (r : registry) : option party := rg_parties r !! id.

Definition as_peer (p : party) : option peer_party :=
  match pa_kind p with KPeer p => Some p | KClient _ => None end.

Definition find_peer (id : Z) (r : registry) : option peer_party := find id r ≫= as_peer.
Definition find_by_uid (uid : Z) (r : registry) : option party := rg_uid_mapping r !! uid ≫= fun id => find id r.
Definition find_by_name (name : string) (r : registry) : option party := rg_name_mapping r !! name ≫= fun id => find id r.

Definition party_name (p : party) : result string :=
  match pa_identity p with Some i => Ok (id_name i) | None => Throw (Runtime_error "Identity not set up yet!") end.

Definition party_public_key (p : party) : result (list Z) :=
  match pa_identity p with Some i => Ok (id_public_key i) | None => Throw (Runtime_error "Identity not set up yet!") end.

Fixpoint peer_infos (l : list (Z * party)) : result (list (string * string * Z)) :=
  match l with
  | [] => Ok []
  | (_, p) :: l =>
      match as_peer p with
      | None => peer_infos l
      | Some peer => name ← party_name p; infos ← peer_infos l; Ok ((name, pr_hostname peer, pr_port peer) :: infos)
      end
  end.

Definition get_peer_infos (r : registry) : result (list (string * string * Z)) := peer_infos (map_to_list (rg_parties r)).

(** A mapping is removed if it leads to the party. *)
Definition erase_if `{Countable K} (k : K) (id : Z) (m : gmap K Z) : gmap K Z :=
  match m !! k with
  | Some id' => if id' =? id then delete k m else m
  | None => m
  end.

Definition handle_disconnect (local_id : Z) : ST registry unit :=
  modify_st (fun r =>
    match rg_parties r !! local_id with
    | None => r
    | Some rp =>
        let '(names, uids) :=
          match pa_identity rp with
          | None => (rg_name_mapping r, rg_uid_mapping r)
          | Some i => (erase_if (id_name i) local_id (rg_name_mapping r), erase_if (identity_uid i) local_id (rg_uid_mapping r))
          end in
        let downstream :=
          match as_peer rp with
          | Some p => if decide (pr_type p = PT_DownstreamServer) then rg_downstream_set r ∖ {[local_id]} else rg_downstream_set r
          | None => rg_downstream_set r
          end in
        mkRegistry (delete local_id (rg_parties r)) names uids downstream
    end).

Definition add_downstream_server (id : Z) : ST registry unit :=
  modify_st (fun r => mkRegistry (rg_parties r) (rg_name_mapping r) (rg_uid_mapping r) ({[id]} ∪ rg_downstream_set r)).

(** The party that has to be disconnected, if any.  The name of a party that is not found is
    read through a null pointer. *)
Definition set_identity (local_id : Z) (identity : Identity) : ST registry (option Z) :=
  r ← get_st;
  let uid := identity_uid identity in
  to_disconnect ←
    match rg_uid_mapping r !! uid with
    | None => mret None
    | Some other =>
        match find other r with
        | None => throw (Undefined "null pointer")
        | Some p => _ ← lift_res (party_name p); mret (Some other)
        end
    end;
  _ ← put_st (mkRegistry (rg_parties r) (<[id_name identity := local_id]> (rg_name_mapping r))
                (<[uid := local_id]> (rg_uid_mapping r)) (rg_downstream_set r));
  mret to_disconnect.

(** Assignments to members of a party; it is there as long as one of its methods runs. *)
Definition update_party (id : Z) (f : party -> party) : ST registry unit :=
  modify_st (fun r => set_parties (alter f id (rg_parties r)) r).

(** ** The mappings lead to the parties

    Every entry of the two mappings leads to a party that is there and has that name or key. *)
Record registry_ok (r : registry) : Prop := {
  names_ok : map_Forall (fun name id => exists p i, rg_parties r !! id = Some p /\ pa_identity p = Some i /\ id_name i = name)
    (rg_name_mapping r);
  uids_ok : map_Forall (fun uid id => exists p i, rg_parties r !! id = Some p /\ pa_identity p = Some i /\ identity_uid i = uid)
    (rg_uid_mapping r);
}.

(** The identities of the parties in [r] are those in [r'], and the mappings are the same. *)
Definition keeps_identities (r r' : registry) : Prop :=
  (forall id p i, rg_parties r !! id = Some p -> pa_identity p = Some i ->
     exists p', rg_parties r' !! id = Some p' /\ pa_identity p' = Some i) /\
  rg_name_mapping r' = rg_name_mapping r /\ rg_uid_mapping r' = rg_uid_mapping r.

Lemma keeps_identities_ok r r' : keeps_identities r r' -> registry_ok r -> registry_ok r'.
Proof.
  intros (Hk & Hn & Hu) [Hns Hus]. split.
  - rewrite Hn. intros name id Hid. destruct (Hns _ _ Hid) as (p & i & Hp & Hi & ?).
    destruct (Hk _ _ _ Hp Hi) as (p' & ? & ?). eauto.
  - rewrite Hu. intros uid id Hid. destruct (Hus _ _ Hid) as (p & i & Hp & Hi & ?).
    destruct (Hk _ _ _ Hp Hi) as (p' & ? & ?). eauto.
Qed.

Lemma registry_ok_new : registry_ok RemoteParties_new.
Proof. split; apply map_Forall_empty. Qed.

Lemma insert_party_keeps id p r : keeps_identities r (insert_party id p r).2.
Proof.
  unfold insert_party, modify_st. cbn. destruct (rg_parties r !! id) eqn:E; (split; [|done]).
  - eauto.
  - intros j q i Hj Hi. exists q. cbn. rewrite lookup_insert_ne; [done|congruence].
Qed.

Lemma update_party_keeps id f r :
  (forall p i, rg_parties r !! id = Some p -> pa_identity p = Some i -> pa_identity (f p) = Some i) ->
  keeps_identities r (update_party id f r).2.
Proof.
  intros Hf. split; [|done]. intros j p i Hj Hi. cbn. destruct (decide (j = id)) as [->|Hne].
  - exists (f p). rewrite lookup_alter_eq, Hj. eauto.
  - exists p. by rewrite lookup_alter_ne by done.
Qed.

Lemma set_identity_ok id i p r :
  registry_ok r -> rg_parties r !! id = Some p -> pa_identity p = Some i ->
  wp (set_identity id i) (fun _ r' => registry_ok r' /\ rg_parties r' = rg_parties r /\
    find_by_name (id_name i) r' = Some p /\ find_by_uid (identity_uid i) r' = Some p) r.
Proof.
  intros [Hns Hus] Hp Hi. unfold set_identity. apply wp_bind, wp_get, wp_bind.
  assert (wp (match rg_uid_mapping r !! identity_uid i with
              | None => mret None
              | Some other => match find other r with
                              | None => throw (Undefined "null pointer")
                              | Some p => _ ← lift_res (party_name p); mret (Some other)
                              end
              end) (fun (_ : option Z) r' => r' = r) r) as Ho.
  { destruct (rg_uid_mapping r !! identity_uid i) as [other|] eqn:E; [|done].
    destruct (Hus _ _ E) as (q & j & Hq & Hj & _). unfold find. rewrite Hq. unfold party_name. by rewrite Hj. }
  eapply wp_mono; [exact Ho|]. intros o r' ->. apply wp_bind. unfold put_st, wp. cbn.
  split_and!; [|done|unfold find_by_name, find; cbn; by rewrite lookup_insert_eq
              |unfold find_by_uid, find; cbn; by rewrite lookup_insert_eq].
  split; cbn; (apply map_Forall_insert_2; [by exists p, i|done]).
Qed.

Lemma erase_if_ok `{Countable K} (P P' : K -> Z -> Prop) k id (m : gmap K Z) :
  (forall j, P j id -> j = k) -> (forall j id', id' <> id -> P j id' -> P' j id') ->
  map_Forall P m -> map_Forall P' (erase_if k id m).
Proof.
  intros Hid Hne Hm j id' Hj. unfold erase_if in Hj.
  assert (m !! j = Some id' /\ id' <> id) as [Hj' Hne'].
  { destruct (m !! k) as [id1|] eqn:E.
    - destruct (Z.eqb_spec id1 id) as [->|Hx].
      + apply lookup_delete_Some in Hj as [Hjk Hj]. split; [done|]. intros ->.
        by apply Hjk; symmetry; apply Hid, (Hm _ _ Hj).
      + split; [done|]. intros ->. assert (j = k) as -> by (by apply Hid, (Hm _ _ Hj)). congruence.
    - split; [done|]. intros ->. assert (j = k) as -> by (by apply Hid, (Hm _ _ Hj)). congruence. }
  apply Hne; [done|]. by apply Hm.
Qed.

Lemma handle_disconnect_ok id r : registry_ok r -> registry_ok (handle_disconnect id r).2.
Proof.
  intros Hr. unfold handle_disconnect, modify_st. cbn. destruct (rg_parties r !! id) as [rp|] eqn:E; [|done].
  destruct Hr as [Hns Hus].
  destruct (pa_identity rp) as [i|] eqn:Ei; split; cbn.
  - apply (erase_if_ok _ _ _ _ _) with (3 := Hns).
    + intros name (p & j & Hp & Hj & <-). congruence.
    + intros name id' Hne (p & j & Hp & Hj & <-). exists p, j. by rewrite lookup_delete_ne.
  - apply (erase_if_ok _ _ _ _ _) with (3 := Hus).
    + intros uid (p & j & Hp & Hj & <-). congruence.
    + intros uid id' Hne (p & j & Hp & Hj & <-). exists p, j. by rewrite lookup_delete_ne.
  - intros name id' Hid. destruct (Hns _ _ Hid) as (p & j & Hp & Hj & <-). exists p, j.
    rewrite lookup_delete_ne; [done|congruence].
  - intros uid id' Hid. destruct (Hus _ _ Hid) as (p & j & Hp & Hj & <-). exists p, j.
    rewrite lookup_delete_ne; [done|congruence].
Qed.

End Registry.

(** ** The registry of the host *)

Record host : Type := mkHost {
  h_parties : gmap Z host_party;
  h_next : Z;
  h_sent : list (Z * list Z);
}.

Definition host_new : host := mkHost ∅ 1 [].

Definition register_remote_party (mode : AttestationMode) (context : Z) : ST host Z := fun h =>
  let id := h_next h in
  (Ok id, mkHost (match h_parties h !! id with
                  | Some _ => h_parties h
                  | None => <[id := mkHostParty true mode TellGroupId None None context]> (h_parties h)
                  end) (u32 (id + 1)) (h_sent h)).

Definition host_get (id : Z) : ST host host_party := fun h =>
  match h_parties h !! id with
  | Some p => (Ok p, h)
  | None => (Throw (Runtime_error "No such remote party!"), h)
  end.

Definition unregister_remote_party (id : Z) : ST host unit := fun h =>
  match h_parties h !! id with
  | Some _ => (Ok tt, mkHost (delete id (h_parties h)) (h_next h) (h_sent h))
  | None => (Throw (Runtime_error "No such remote_party"), h)
  end.

Definition host_update (id : Z) (f : host_party -> host_party) : ST host unit :=
  _ ← host_get id; modify_st (fun h => mkHost (alter f id (h_parties h)) (h_next h) (h_sent h)).

(** The error of a socket that is closed is reported in the log. *)
Definition host_send (id : Z) (data : list Z) : ST host unit :=
  p ← host_get id;
  modify_st (fun h => mkHost (h_parties h) (h_next h) (if ho_open p then h_sent h ++ [(id, data)] else h_sent h)).

Definition host_disconnect (id : Z) : ST host unit :=
  host_update id (fun p => mkHostParty false (ho_mode p) (ho_state p) (ho_groupid_result p) (ho_msg2 p) (ho_context p)).

Definition set_att_state (v : AttestationState) (p : host_party) : host_party :=
  mkHostParty (ho_open p) (ho_mode p) v (ho_groupid_result p) (ho_msg2 p) (ho_context p).
Definition set_groupid_result (v : option bool) (p : host_party) : host_party :=
  mkHostParty (ho_open p) (ho_mode p) (ho_state p) v (ho_msg2 p) (ho_context p).
Definition set_msg2 (v : option (list Z)) (p : host_party) : host_party :=
  mkHostParty (ho_open p) (ho_mode p) (ho_state p) (ho_groupid_result p) v (ho_context p).
Definition set_context (v : Z) (p : host_party) : host_party :=
  mkHostParty (ho_open p) (ho_mode p) (ho_state p) (ho_groupid_result p) (ho_msg2 p) v.

Definition queue_groupid_result (id : Z) (result : bool) : ST host unit := host_update id (set_groupid_result (Some result)).

Definition queue_msg2 (id : Z) (msg2 : list Z) : ST host unit :=
  p ← host_get id;
  match ho_msg2 p with
  | Some _ => throw (Fatal "Invalid state: Already got msg2 queued up")
  | None => host_update id (set_msg2 (Some msg2))
  end.

Definition set_done (id : Z) : ST host unit :=
  p ← host_get id;
  if decide (ho_state p = Done) then throw (Fatal "Invalid state") else host_update id (set_att_state Done).

(** ** The server *)

(** Who the server is; [cf_upstream]: the public key of the upstream server, once [set_upstream] has
    put it in downstream mode *)
Record config : Type := mkConfig {
  cf_identity : Identity;
  cf_private_key : list Z;
  cf_groupid : Z;
  cf_upstream : option (list Z);
}.

Section Server.
Context `{Ra} {W : Type}.

(** The contexts of the SDK, and where it draws random numbers from *)
Record sdk : Type := mkSdk {
  sd_sessions : gmap Z ra_session;
  sd_next : Z;
  sd_seeds : nat -> list Z;
  sd_drawn : nat;
}.

Record server : Type := mkServer {
  sv_config : config;
  sv_identities : identity_db;
  sv_registry : registry;
  sv_host : host;
  sv_sdk : sdk;
  sv_world : W;
}.

Definition on_identities {A} : ST identity_db A -> ST server A :=
  zoom sv_identities (fun v s => mkServer (sv_config s) v (sv_registry s) (sv_host s) (sv_sdk s) (sv_world s)).
Definition on_registry {A} : ST registry A -> ST server A :=
  zoom sv_registry (fun v s => mkServer (sv_config s) (sv_identities s) v (sv_host s) (sv_sdk s) (sv_world s)).
Definition on_host {A} : ST host A -> ST server A :=
  zoom sv_host (fun v s => mkServer (sv_config s) (sv_identities s) (sv_registry s) v (sv_sdk s) (sv_world s)).
Definition on_sdk {A} : ST sdk A -> ST server A :=
  zoom sv_sdk (fun v s => mkServer (sv_config s) (sv_identities s) (sv_registry s) (sv_host s) v (sv_world s)).
Definition on_world {A} : ST W A -> ST server A :=
  zoom sv_world (fun v s => mkServer (sv_config s) (sv_identities s) (sv_registry s) (sv_host s) (sv_sdk s) v).

Definition draw : ST sdk (list Z) := fun d =>
  (Ok (sd_seeds d (sd_drawn d)), mkSdk (sd_sessions d) (sd_next d) (sd_seeds d) (S (sd_drawn d))).

End Server.
Arguments server {_} W.
Arguments sdk {_}.

(** The components of a state that was assembled step by step *)
Ltac fields := cbn [sv_config sv_identities sv_registry sv_host sv_sdk sv_world h_parties h_next h_sent sd_sessions sd_next
  sd_seeds sd_drawn rg_parties rg_name_mapping rg_uid_mapping rg_downstream_set set_parties fst snd
  ho_open ho_mode ho_state ho_groupid_result ho_msg2 ho_context set_att_state set_groupid_result set_msg2 set_context].
