(* ===== verification/Attestation.v ===== *)
(** * Remote attestation and the dispatch of messages on the server

    Models [src/server/Attestation.cpp], what [ClientHandler], [PeerHandler], [ClientAcceptor] and
    [PeerAcceptor] do with connections and messages, and, in the enclave, [handle_message] and the
    attestation of [src/enclave/Client.cpp] and [src/enclave/Peer.cpp] and what they share in
    [src/enclave/RemoteParty.cpp].  (The build with SGX.)  The requests of connected parties act on
    [W] through handlers that are left open here. *)

From S2P Require Import Prelude Bitstream EncryptedIO Identity Ledger Wire KeyExchange RemoteParties.

Definition AttestationEnc : Z := 2.
Definition MT_TellGroupId : Z := 0.
Definition MT_GroupIdResponse : Z := 1.
Definition MT_AttestationMessage1 : Z := 2.
Definition MT_AttestationMessage2 : Z := 3.
Definition MT_AttestationMessage3 : Z := 4.
Definition MT_AttestationResult : Z := 5.
Definition MT_ForwardedOperationRequest : Z := 8.
Definition MT_PushIndexUpdate : Z := 9.
Definition MT_NotifyTrigger : Z := 10.

Definition attestation_message (type : Z) (body : list Z) : list Z :=
  le_encode 1 AttestationEnc ++ le_encode 1 type ++ body.

(** A call that is tried again *)
Fixpoint attempts {A} (f : nat -> option A) (i n : nat) : option A :=
  match n with
  | O => None
  | S n => match f i with Some a => Some a | None => attempts f (S i) n end
  end.

Definition NUM_RETRIES : nat := 100.

Section Attestation.
Context `{Crypto} `{Ra} `{AesGcm} {W : Type}.
Variable uninit : nat -> list Z.

(** The rest of the enclave: requests, the triggers of a collection, index updates from upstream
    and responses that tasks wait for; and what [TellPeerType] is answered with *)
Variable on_request : Z -> OpContext -> list Z -> ST W (list Z).
Variable get_triggers : string -> ST W (list Z).
Variable push_index_update : list Z -> Z -> Z -> Z -> ST W unit.
Variable handle_task_response : Z -> ST W unit.
Variable remove_triggers_for : Z -> ST W unit.
Variable peer_type_response : W -> list Z.

(** The host: the files of the disk, and where an address leads to, if anybody listens there *)
Variable read_undecrypted_from_disk : string -> ST W (option (list Z)).
Variable resolve_and_connect : string -> option (string * Z).

Abbreviation SV := (ST (server W)).

(** [>>] throws at the end of the stream. *)
Definition stream {A} (o : option A) : SV A :=
  match o with Some a => mret a | None => throw (Runtime_error "end of stream") end.

(** ** The host: [Attestation] *)

Definition tell_groupid (id : Z) : SV unit :=
  s ← get_st;
  let cf := sv_config s in
  _ ← on_host (host_send id (attestation_message MT_TellGroupId
        (le_encode 4 (cf_groupid cf) ++ enc (id_name (cf_identity cf)) ++ id_public_key (cf_identity cf) ++
         match cf_upstream cf with Some key => enc true ++ key | None => enc false end)));
  on_host (host_update id (set_att_state WaitingForGroupIdResult)).

Definition Attestation_init (id : Z) : SV unit :=
  p ← on_host (host_get id);
  match ho_mode p with
  | TwoWay_NotInitiator => mret tt
  | _ => if decide (ho_state p = TellGroupId) then tell_groupid id else throw (Fatal "Invalid state")
  end.

(** [credb_ra_init]: [None] is any status but success *)
Definition credb_ra_init (id : Z) : SV (option Z) :=
  s ← get_st;
  match find id (sv_registry s) with
  | None => mret None
  | Some party =>
      key ← lift_res (party_public_key party);
      seed ← on_sdk draw;
      match ra_init seed key with
      | None => mret None
      | Some session =>
          on_sdk (fun d => (Ok (Some (sd_next d)),
                    mkSdk (<[sd_next d := session]> (sd_sessions d)) (sd_next d + 1) (sd_seeds d) (sd_drawn d)))
      end
  end.

Definition set_session (context : Z) (session : ra_session) : SV unit :=
  on_sdk (modify_st (fun d => mkSdk (<[context := session]> (sd_sessions d)) (sd_next d) (sd_seeds d) (sd_drawn d))).

Definition handle_groupid_result (id : Z) (result : bool) : SV bool :=
  if negb result then mret false
  else
    o ← credb_ra_init id;
    match o with
    | None => mret false
    | Some context =>
        _ ← on_host (host_update id (set_context context));
        s ← get_st;
        match (session ← sd_sessions (sv_sdk s) !! context; attempts (fun i => ra_get_msg1 i session) 0 NUM_RETRIES) with
        | None => mret false
        | Some (msg1, session) =>
            _ ← set_session context session;
            _ ← on_host (host_send id (attestation_message MT_AttestationMessage1 msg1));
            _ ← on_host (host_update id (set_att_state WaitingForMsg2));
            mret true
        end
    end.

(** [set_attestation_context] through the enclave *)
Definition set_attestation_context (id context : Z) : SV unit :=
  on_registry (update_party id (fun p => mkParty (pa_identity p) context (pa_kind p))).

Definition handle_msg2 (id : Z) (msg2 : list Z) : SV bool :=
  p ← on_host (host_get id);
  s ← get_st;
  match (session ← sd_sessions (sv_sdk s) !! ho_context p; attempts (fun i => ra_proc_msg2 i session msg2) 0 NUM_RETRIES) with
  | None => mret false
  | Some (msg3, session) =>
      _ ← set_session (ho_context p) session;
      _ ← on_host (host_send id (attestation_message MT_AttestationMessage3 (le_encode 4 (Z.of_nat (length msg3)) ++ msg3)));
      _ ← set_attestation_context id (ho_context p);
      _ ← (if decide (ho_mode p = TwoWay_IsInitiator) then on_host (host_update id (set_att_state TellGroupId)) else mret tt);
      mret true
  end.

Definition Attestation_update (id : Z) : SV unit :=
  p ← on_host (host_get id);
  res ← match ho_state p with
        | Done | TellGroupId => mret true
        | WaitingForGroupIdResult =>
            match ho_groupid_result p with
            | None => mret true
            | Some result =>
                res ← handle_groupid_result id result;
                _ ← on_host (host_update id (set_groupid_result None));
                mret res
            end
        | WaitingForMsg2 =>
            match ho_msg2 p with
            | None => mret true
            | Some msg2 =>
                res ← handle_msg2 id msg2;
                _ ← on_host (host_update id (set_msg2 None));
                mret res
            end
        end;
  if res : bool then mret tt else on_host (host_disconnect id).

(** ** The enclave: [RemoteParty] *)

(** The party whose method runs *)
Definition self (id : Z) : SV party :=
  s ← get_st;
  match find id (sv_registry s) with
  | Some p => mret p
  | None => throw (Undefined "the party is gone")
  end.

Definition set_kind (id : Z) (kind : party_kind) : SV unit :=
  on_registry (update_party id (fun p => mkParty (pa_identity p) (pa_context p) kind)).

Definition get_encryption_key (p : party) : option (list Z) :=
  match pa_kind p with
  | KClient c => match cl_state c with CS_Connected => Some (cl_sk_key c) | CS_Attestation => None end
  | KPeer p => match pr_state p with PS_Connected => Some (pr_encryption_key p) | _ => None end
  end.

Definition send_attestation_msg (id : Z) (msg : list Z) : SV unit := on_host (host_send id (le_encode 1 AttestationEnc ++ msg)).

Definition RemoteParty_send (id : Z) (msg : list Z) : SV unit :=
  p ← self id;
  on_host (host_send id (match get_encryption_key p with
                         | None => le_encode 1 PlainText ++ msg
                         | Some key => encrypt key msg
                         end)).

(** [decrypt] and the reading of the type, at the start of [handle_message].  The status of
    [decrypt] is not looked at: the input is what it has left there. *)
Definition open_message (p : party) (data : list Z) : SV (Z * list Z) :=
  input ← match get_encryption_key p with
          | None => mret data
          | Some key =>
              match decrypt key data with
              | Plain input => mret input
              | Not_encrypted => mret []
              | Truncated => throw (Runtime_error "end of stream")
              | Bad_tag => throw (Undefined "contents of a message that was not decrypted")
              end
          end;
  '((encryption, _) : Z * list Z) ← stream (int_dec 1 data);
  if encryption =? AttestationEnc then
    '((_, input) : Z * list Z) ← stream (int_dec 1 input); mret (encryption, input)
  else mret (encryption, input).

Definition handle_attestation_message_two (id : Z) (input : list Z) : SV unit :=
  '((size, input) : Z * list Z) ← stream (int_dec 4 input);
  '((msg2, _) : list Z * list Z) ← stream (read_raw size input);
  on_host (queue_msg2 id msg2).

(** [handle_groupid_response], the body of the [try] *)
Definition groupid_identity (id : Z) (name : string) (key : list Z) : SV unit :=
  p ← self id;
  match pa_identity p with
  | Some _ => mret tt
  | None =>
      i ← on_identities (IdentityDatabase_get name key);
      _ ← on_registry (update_party id (fun p => mkParty (Some i) (pa_context p) (pa_kind p)));
      s ← get_st;
      if identity_eqb i (cf_identity (sv_config s)) then throw (Fatal "looks like we connected to ourselves")
      else
        to_disconnect ← on_registry (set_identity id i);
        match to_disconnect with
        | Some other => on_host (host_disconnect other)
        | None => mret tt
        end
  end.

Definition catch_attestation_error (m handler : SV unit) : SV unit := fun s =>
  match m s with
  | (Throw (Attestation_error _), s) => handler s
  | r => r
  end.

Definition handle_groupid_response (id : Z) (input : list Z) : SV unit :=
  '((result, input) : bool * list Z) ← stream (dec input);
  '((name, input) : string * list Z) ← stream (dec input);
  '((key, _) : list Z * list Z) ← stream (read_raw 64 input);
  catch_attestation_error (_ ← groupid_identity id name key; on_host (queue_groupid_result id result))
    (on_host (host_disconnect id)).

(** [handle_op_request] of a connected party: [TellPeerType] is for peers, any other request is
    for the rest of the enclave. *)
Definition peer_type_of (z : Z) : PeerType :=
  if z =? 1 then PT_Client else if z =? 2 then PT_PeerServer else if z =? 3 then PT_DownstreamServer else PT_Unknown.

Definition set_peer (id : Z) (f : peer_party -> peer_party) : SV unit :=
  on_registry (update_party id (fun p => mkParty (pa_identity p) (pa_context p)
    (match pa_kind p with KPeer peer => KPeer (f peer) | k => k end))).

Definition set_peer_type (id : Z) (type : PeerType) : SV unit :=
  _ ← set_peer id (fun p => mkPeerParty (pr_state p) (pr_is_initiator p) type (pr_group_id p) (pr_next_op p)
        (pr_pending_count p) (pr_dhke_other_public p) (pr_dhke_public p) (pr_dhke_private p) (pr_vk_key p) (pr_mk_key p)
        (pr_smk_key p) (pr_sk_internal_key p) (pr_ps_sec_prop p) (pr_encryption_key p) (pr_hostname p) (pr_port p)
        (pr_responses p));
  if decide (type = PT_DownstreamServer) then on_registry (add_downstream_server id) else mret tt.

Definition handle_tell_peer_type (id : Z) (input : list Z) : SV (list Z) :=
  '((type, _) : Z * list Z) ← stream (int_dec 4 input);
  p ← self id;
  match as_peer p with
  | None => throw (Undefined "null pointer")
  | Some _ =>
      _ ← set_peer_type id (peer_type_of type);
      s ← get_st;
      mret (peer_type_response (sv_world s))
  end.

Definition party_request (id : Z) (p : party) (input : list Z) : SV (list Z) :=
  match pa_identity p with
  | None => throw (Undefined "null pointer")
  | Some i =>
      match ('(task_id, rest) ← int_dec 4 input; '(op_id, rest) ← int_dec 4 rest; '(op, rest) ← int_dec 1 rest;
             Some (task_id, op_id, op, rest)) with
      | Some (task_id, op_id, op, rest) =>
          s ← get_st;
          if (op =? op_number TellPeerType) && bool_decide (cf_upstream (sv_config s) = None) then
            output ← handle_tell_peer_type id rest;
            mret (le_encode 1 OperationResponse ++ le_encode 4 task_id ++ le_encode 4 op_id ++ output)
          else on_world (on_request id (mkContext i EmptyString) input)
      | None => on_world (on_request id (mkContext i EmptyString) input)
      end
  end.

Definition send_if_any (id : Z) (output : list Z) : SV unit :=
  if decide (output = []) then mret tt else RemoteParty_send id output.

(** ** The enclave: [Client] *)

Definition Client_handle_attestation_result (id : Z) (input : list Z) : SV unit :=
  '((status0, input) : Z * list Z) ← stream (int_dec 4 input);
  '((status1, input) : Z * list Z) ← stream (int_dec 4 input);
  '((_, input) : list Z * list Z) ← stream (read_raw (Z.of_nat sizeof_info_blob) input);
  '((_, _) : list Z * list Z) ← stream (read_raw (Z.of_nat SAMPLE_MAC_SIZE) input);
  if negb (status0 =? 0) || negb (status1 =? 0) then mret tt
  else
    p ← self id;
    s ← get_st;
    match pa_kind p with
    | KPeer _ => mret tt
    | KClient c =>
        set_kind id (KClient (mkClientParty CS_Connected
          (match (session ← sd_sessions (sv_sdk s) !! pa_context p; ra_get_sk session) with
           | Some key => key
           | None => cl_sk_key c
           end)))
    end.

Definition Client_handle_message (id : Z) (c : client_party) (p : party) (data : list Z) : SV unit :=
  '((_, input) : Z * list Z) ← open_message p data;
  '((type, input) : Z * list Z) ← stream (int_dec 1 input);
  match cl_state c with
  | CS_Connected =>
      if type =? OperationRequest then output ← party_request id p input; send_if_any id output else mret tt
  | CS_Attestation =>
      if type =? MT_GroupIdResponse then handle_groupid_response id input
      else if type =? MT_AttestationMessage2 then handle_attestation_message_two id input
      else if type =? MT_AttestationResult then Client_handle_attestation_result id input
      else mret tt
  end.

(** ** The enclave: [Peer] *)

Definition set_peer_state (v : PeerState) (p : peer_party) : peer_party :=
  mkPeerParty v (pr_is_initiator p) (pr_type p) (pr_group_id p) (pr_next_op p) (pr_pending_count p)
    (pr_dhke_other_public p) (pr_dhke_public p) (pr_dhke_private p) (pr_vk_key p) (pr_mk_key p) (pr_smk_key p)
    (pr_sk_internal_key p) (pr_ps_sec_prop p) (pr_encryption_key p) (pr_hostname p) (pr_port p) (pr_responses p).
Definition set_group_id (v : Z) (p : peer_party) : peer_party :=
  mkPeerParty (pr_state p) (pr_is_initiator p) (pr_type p) v (pr_next_op p) (pr_pending_count p)
    (pr_dhke_other_public p) (pr_dhke_public p) (pr_dhke_private p) (pr_vk_key p) (pr_mk_key p) (pr_smk_key p)
    (pr_sk_internal_key p) (pr_ps_sec_prop p) (pr_encryption_key p) (pr_hostname p) (pr_port p) (pr_responses p).
Definition set_dhke (other public private : list Z) (p : peer_party) : peer_party :=
  mkPeerParty (pr_state p) (pr_is_initiator p) (pr_type p) (pr_group_id p) (pr_next_op p) (pr_pending_count p)
    other public private (pr_vk_key p) (pr_mk_key p) (pr_smk_key p)
    (pr_sk_internal_key p) (pr_ps_sec_prop p) (pr_encryption_key p) (pr_hostname p) (pr_port p) (pr_responses p).
Definition set_keys (vk mk smk sk : list Z) (p : peer_party) : peer_party :=
  mkPeerParty (pr_state p) (pr_is_initiator p) (pr_type p) (pr_group_id p) (pr_next_op p) (pr_pending_count p)
    (pr_dhke_other_public p) (pr_dhke_public p) (pr_dhke_private p) vk mk smk
    sk (pr_ps_sec_prop p) (pr_encryption_key p) (pr_hostname p) (pr_port p) (pr_responses p).
Definition set_ps_sec_prop (v : list Z) (p : peer_party) : peer_party :=
  mkPeerParty (pr_state p) (pr_is_initiator p) (pr_type p) (pr_group_id p) (pr_next_op p) (pr_pending_count p)
    (pr_dhke_other_public p) (pr_dhke_public p) (pr_dhke_private p) (pr_vk_key p) (pr_mk_key p) (pr_smk_key p)
    (pr_sk_internal_key p) v (pr_encryption_key p) (pr_hostname p) (pr_port p) (pr_responses p).
Definition set_encryption_key (v : list Z) (p : peer_party) : peer_party :=
  mkPeerParty (pr_state p) (pr_is_initiator p) (pr_type p) (pr_group_id p) (pr_next_op p) (pr_pending_count p)
    (pr_dhke_other_public p) (pr_dhke_public p) (pr_dhke_private p) (pr_vk_key p) (pr_mk_key p) (pr_smk_key p)
    (pr_sk_internal_key p) (pr_ps_sec_prop p) v (pr_hostname p) (pr_port p) (pr_responses p).
Definition set_responses (v : gmap Z (list Z)) (p : peer_party) : peer_party :=
  mkPeerParty (pr_state p) (pr_is_initiator p) (pr_type p) (pr_group_id p) (pr_next_op p) (pr_pending_count p)
    (pr_dhke_other_public p) (pr_dhke_public p) (pr_dhke_private p) (pr_vk_key p) (pr_mk_key p) (pr_smk_key p)
    (pr_sk_internal_key p) (pr_ps_sec_prop p) (pr_encryption_key p) (pr_hostname p) (pr_port p) v.

Definition self_peer (id : Z) : SV peer_party :=
  p ← self id;
  match as_peer p with Some peer => mret peer | None => throw (Undefined "not a peer") end.

(** A step that fails with [SGX_ERROR_UNEXPECTED] ends the handler: the result is [false]. *)
Definition or_fail {A} (o : option A) (k : A -> SV bool) : SV bool :=
  match o with Some a => k a | None => mret false end.

(** [handle_attestation_message_one].  The keys are members that are assigned one after the
    other; [gb_ga.size()] is the number of its elements, two, and taken for its length. *)
Definition handle_attestation_message_one (id : Z) (input : list Z) : SV bool :=
  '((msg1, _) : list Z * list Z) ← stream (read_raw (Z.of_nat sizeof_msg1) input);
  let other := msg1_g_a msg1 in
  _ ← set_peer id (fun p => set_dhke other (pr_dhke_public p) (pr_dhke_private p) p);
  seed ← on_sdk draw;
  or_fail (ecc_create_key_pair seed) (fun '(private, public) =>
  _ ← set_peer id (set_dhke other public private);
  or_fail (ecc_compute_shared_dhkey private other) (fun dh_key =>
  or_fail (derive_key dh_key SAMPLE_DERIVE_KEY_SMK) (fun smk =>
  _ ← set_peer id (fun p => set_keys (pr_vk_key p) (pr_mk_key p) smk (pr_sk_internal_key p) p);
  or_fail (derive_key dh_key SAMPLE_DERIVE_KEY_MK) (fun mk =>
  _ ← set_peer id (fun p => set_keys (pr_vk_key p) mk smk (pr_sk_internal_key p) p);
  or_fail (derive_key dh_key SAMPLE_DERIVE_KEY_SK) (fun sk =>
  _ ← set_peer id (fun p => set_keys (pr_vk_key p) mk smk sk p);
  or_fail (derive_key dh_key SAMPLE_DERIVE_KEY_VK) (fun vk =>
  _ ← set_peer id (set_keys vk mk smk sk);
  s ← get_st;
  seed ← on_sdk draw;
  or_fail (ecdsa_sign seed (cf_private_key (sv_config s)) (take 2 (public ++ other))) (fun signature =>
  or_fail (make_msg2 smk public signature) (fun msg2 =>
  _ ← send_attestation_msg id (le_encode 1 MT_AttestationMessage2 ++ le_encode 4 (Z.of_nat (length (msg2_bytes msg2))) ++
        msg2_bytes msg2);
  mret true)))))))).

(** [sgx_ra_get_keys] of the context that the party has; the other half comes from message 1. *)
Definition set_connected (id : Z) : SV unit :=
  _ ← set_peer id (set_peer_state PS_Connected);
  p ← self id;
  s ← get_st;
  let external_key := match (session ← sd_sessions (sv_sdk s) !! pa_context p; ra_get_sk session) with
                      | Some key => key
                      | None => uninit 16
                      end in
  _ ← set_peer id (fun p => set_encryption_key (zip_with Z.lxor external_key (pr_sk_internal_key p)) p);
  on_host (set_done id).

Definition next_phase (id : Z) : SV unit :=
  p ← self_peer id;
  if decide (pr_state p = Attestation_Phase1) then _ ← set_peer id (set_peer_state Attestation_Phase2); tell_groupid id
  else set_connected id.

(** [handle_attestation_message_three].  The fields are read where the check before them has
    passed; the report is not sent to the attestation service. *)
Definition handle_attestation_message_three (id : Z) (input : list Z) : SV bool :=
  '((msg3_size, input) : Z * list Z) ← stream (int_dec 4 input);
  '((msg3, _) : list Z * list Z) ← stream (read_raw msg3_size input);
  p ← self_peer id;
  if (length msg3 <? 80)%nat then throw (Undefined "read behind the end of a message")
  else if decide (pr_dhke_other_public p <> msg3_g_a msg3) then mret false
  else
    or_fail (cmac_msg (pr_smk_key p) (msg3_cmaced msg3)) (fun mac =>
    if decide (msg3_mac msg3 <> mac) then mret false
    else if negb (msg3_in_bounds msg3) then throw (Undefined "read behind the end of a message")
    else
      _ ← set_peer id (set_ps_sec_prop (msg3_ps_sec_prop msg3));
      or_fail (sha256 (pr_dhke_other_public p ++ pr_dhke_public p ++ pr_vk_key p)) (fun hash =>
      if decide (hash ++ replicate 32 0 <> msg3_report_data msg3) then mret false
      else
        let info_blob := uninit sizeof_info_blob in
        or_fail (cmac_msg (pr_mk_key p) info_blob) (fun blob_mac =>
        _ ← send_attestation_msg id (le_encode 1 MT_AttestationResult ++ le_encode 4 0 ++ le_encode 4 0 ++ info_blob ++ blob_mac);
        _ ← next_phase id;
        mret true))).

Definition Peer_handle_attestation_result (id : Z) (input : list Z) : SV unit :=
  '((status0, input) : Z * list Z) ← stream (int_dec 4 input);
  '((status1, input) : Z * list Z) ← stream (int_dec 4 input);
  '((_, input) : list Z * list Z) ← stream (read_raw (Z.of_nat sizeof_info_blob) input);
  '((_, _) : list Z * list Z) ← stream (read_raw (Z.of_nat SAMPLE_MAC_SIZE) input);
  if negb (status0 =? 0) || negb (status1 =? 0) then mret tt
  else
    p ← self_peer id;
    if decide (pr_state p = Attestation_Phase2) then set_connected id else set_peer id (set_peer_state Attestation_Phase2).

(** A response that is there already stays. *)
Definition handle_op_response (id : Z) (input : list Z) : SV unit :=
  '((task_id, input) : Z * list Z) ← stream (int_dec 4 input);
  '((op_id, input) : Z * list Z) ← stream (int_dec 4 input);
  _ ← set_peer id (fun p => set_responses (match pr_responses p !! op_id with
                                           | Some _ => pr_responses p
                                           | None => <[op_id := input]> (pr_responses p)
                                           end) p);
  if task_id =? 0 then mret tt else on_world (handle_task_response task_id).

(** The type of the request that is forwarded is skipped. *)
Definition handle_op_forwarded_request (id : Z) (p : party) (input : list Z) : SV unit :=
  '((task_id, input) : Z * list Z) ← stream (int_dec 4 input);
  '((op_id, input) : Z * list Z) ← stream (int_dec 4 input);
  '((size, input) : Z * list Z) ← stream (int_dec 4 input);
  '((forwarded, _) : list Z * list Z) ← stream (read_raw size input);
  '((_, forwarded) : Z * list Z) ← stream (int_dec 1 forwarded);
  output ← party_request id p forwarded;
  RemoteParty_send id (le_encode 1 OperationResponse ++ le_encode 4 task_id ++ le_encode 4 op_id ++
                       le_encode 4 (Z.of_nat (length output)) ++ output).

(** The parties that still are there get the notification. *)
Fixpoint notify_parties (ids : list Z) (msg : list Z) : SV unit :=
  match ids with
  | [] => mret tt
  | i :: ids =>
      s ← get_st;
      _ ← match find i (sv_registry s) with Some _ => RemoteParty_send i msg | None => mret tt end;
      notify_parties ids msg
  end.

Definition handle_connected_message (id : Z) (p : party) (type : Z) (input : list Z) : SV unit :=
  if type =? OperationRequest then output ← party_request id p input; send_if_any id output
  else if type =? MT_NotifyTrigger then
    '((collection, _) : string * list Z) ← stream (dec input);
    ids ← on_world (get_triggers collection);
    notify_parties ids (le_encode 1 MT_NotifyTrigger ++ enc collection)
  else if type =? MT_PushIndexUpdate then
    '((size, input) : Z * list Z) ← stream (int_dec 4 input);
    '((changes, input) : list Z * list Z) ← stream (read_raw size input);
    '((shard, input) : Z * list Z) ← stream (int_dec 2 input);
    '((block_page_no, input) : Z * list Z) ← stream (int_dec 4 input);
    '((block_size, _) : Z * list Z) ← stream (int_dec 2 input);
    on_world (push_index_update changes shard block_page_no block_size)
  else if type =? OperationResponse then handle_op_response id input
  else if type =? MT_ForwardedOperationRequest then handle_op_forwarded_request id p input
  else mret tt.

(** The end that is attested in the phase that the handshake is in: the initiator in the first
    phase, the other end in the second one *)
Definition is_attested (p : peer_party) : bool :=
  match pr_state p with
  | Attestation_Phase1 => pr_is_initiator p
  | Attestation_Phase2 => negb (pr_is_initiator p)
  | PS_Connected => false
  end.

Definition ignore_result (m : SV bool) : SV unit := _ ← m; mret tt.

Definition Peer_handle_message (id : Z) (peer : peer_party) (p : party) (data : list Z) : SV unit :=
  '((encryption, input) : Z * list Z) ← open_message p data;
  if negb (encryption =? AttestationEnc) && negb (encryption =? Encrypted) then throw (Fatal "Got unexpected encryption type")
  else if (length input <? 1)%nat then mret tt
  else
    '((type, input) : Z * list Z) ← stream (int_dec 1 input);
    if decide (pr_state peer = PS_Connected) then handle_connected_message id p type input
    else if is_attested peer then
      if type =? MT_GroupIdResponse then handle_groupid_response id input
      else if type =? MT_AttestationMessage2 then handle_attestation_message_two id input
      else if type =? MT_AttestationResult then Peer_handle_attestation_result id input
      else mret tt
    else
      if type =? MT_TellGroupId then
        '((group_id, _) : Z * list Z) ← stream (int_dec 4 input);
        _ ← set_peer id (set_group_id group_id);
        s ← get_st;
        send_attestation_msg id (le_encode 1 MT_GroupIdResponse ++ enc true ++ enc (id_name (cf_identity (sv_config s))) ++
                                 id_public_key (cf_identity (sv_config s)))
      else if type =? MT_AttestationMessage1 then ignore_result (handle_attestation_message_one id input)
      else if type =? MT_AttestationMessage3 then ignore_result (handle_attestation_message_three id input)
      else mret tt.

(** ** Connections *)

(** [RemoteParties::handle_message] of the enclave; [false] is reported in the log. *)
Definition enclave_handle_message (id : Z) (data : list Z) : SV unit :=
  s ← get_st;
  match find id (sv_registry s) with
  | None => mret tt
  | Some p =>
      match pa_kind p with
      | KClient c => Client_handle_message id c p data
      | KPeer peer => Peer_handle_message id peer p data
      end
  end.

(** [on_new_connection] of [ClientAcceptor] and [PeerAcceptor], and [PeerAcceptor::connect], with
    [setup] of the handlers *)
Definition connect_client : SV Z :=
  id ← on_host (register_remote_party OneWay (le_decode (uninit 4)));
  _ ← on_registry (init_client uninit id);
  _ ← Attestation_init id;
  mret id.

Definition connect_peer (hostname : string) (port : Z) (is_initiator : bool) : SV Z :=
  id ← on_host (register_remote_party (if is_initiator then TwoWay_IsInitiator else TwoWay_NotInitiator) (le_decode (uninit 4)));
  _ ← on_registry (init_peer uninit id hostname port is_initiator);
  _ ← Attestation_init id;
  mret id.

(** [ClientHandler::handle_plain_text_message]: what is thrown is reported in the log.  The caller
    is answered when the attestation of the peer is done ([answer_peer_request]). *)
Definition catch_all (m : SV unit) : SV unit := fun s =>
  match m s with
  | (Throw (Runtime_error _), s) => (Ok tt, s)
  | r => r
  end.

Definition handle_plain_text_message (msg : list Z) : SV unit :=
  catch_all (
    '((_, msg) : Z * list Z) ← stream (int_dec 1 msg);
    '((_, msg) : Z * list Z) ← stream (int_dec 4 msg);
    '((_, msg) : Z * list Z) ← stream (int_dec 4 msg);
    '((op_type, msg) : Z * list Z) ← stream (int_dec 1 msg);
    if negb (op_type =? op_number Peer) then throw (Runtime_error "Unexpected op type")
    else
      '((remote_address, _) : string * list Z) ← stream (dec msg);
      match resolve_and_connect remote_address with
      | None => throw (Runtime_error "Failed to connect to other server")
      | Some (hostname, port) => _ ← connect_peer hostname port true; mret tt
      end).

Definition answer_peer_request (id peer task_id op_id : Z) : SV unit :=
  p ← on_host (host_get peer);
  if decide (ho_state p = Done) then
    on_host (host_send id (le_encode 1 PlainText ++ le_encode 1 OperationResponse ++ le_encode 4 task_id ++
                           le_encode 4 op_id ++ enc true))
  else throw Must_wait.

(** [PeerHandler::handle_op_request]: files are given to anybody, as they are on the disk. *)
Definition PeerHandler_handle_op_request (id : Z) (input : list Z) : SV unit :=
  '((op_id, input) : Z * list Z) ← stream (int_dec 4 input);
  '((op_type, input) : Z * list Z) ← stream (int_dec 1 input);
  let header := le_encode 1 PlainText ++ le_encode 1 OperationResponse ++ le_encode 4 op_id in
  if op_type =? op_number ReadFromUpstreamDisk then
    '((path, _) : string * list Z) ← stream (dec input);
    o ← on_world (read_undecrypted_from_disk path);
    let data := match o with Some data => data | None => [] end in
    on_host (host_send id (header ++ le_encode 4 (Z.of_nat (length data)) ++ data))
  else on_host (host_send id header).

(** [Peer::insert_response], if the enclave knows the peer *)
Definition insert_response (id op_id : Z) (data : list Z) : SV unit :=
  set_peer id (fun p => set_responses (match pr_responses p !! op_id with
                                       | Some _ => pr_responses p
                                       | None => <[op_id := data]> (pr_responses p)
                                       end) p).

Definition handle_peer_plain_text_message (id : Z) (msg : list Z) : SV unit :=
  '((type, input) : Z * list Z) ← stream (int_dec 1 msg);
  if type =? OperationRequest then PeerHandler_handle_op_request id input
  else if type =? OperationResponse then
    '((op_id, input) : Z * list Z) ← stream (int_dec 4 input); insert_response id op_id input
  else mret tt.

(** [on_network_message] of [ClientHandler] and [PeerHandler] *)
Definition on_network_message (id : Z) (data : list Z) : SV unit :=
  p ← on_host (host_get id);
  '((encryption, rest) : Z * list Z) ← stream (int_dec 1 data);
  _ ← (if (encryption =? Encrypted) || (encryption =? AttestationEnc) then enclave_handle_message id data
       else if encryption =? PlainText then
         if decide (ho_mode p = OneWay) then handle_plain_text_message rest else handle_peer_plain_text_message id rest
       else if decide (ho_mode p = OneWay) then throw (Runtime_error "Unknown encryption type")
       else mret tt);
  Attestation_update id.

(** The party goes with its entry: its destructor closes the context and, for a client, removes the
    triggers. *)
Definition destroy_party (id : Z) (p : party) : SV unit :=
  _ ← match pa_kind p with KClient _ => on_world (remove_triggers_for id) | KPeer _ => mret tt end;
  on_sdk (modify_st (fun d => mkSdk (delete (pa_context p) (sd_sessions d)) (sd_next d) (sd_seeds d) (sd_drawn d))).

Definition on_disconnect (id : Z) : SV unit :=
  s ← get_st;
  _ ← on_registry (handle_disconnect id);
  match find id (sv_registry s) with
  | Some p => destroy_party id p
  | None => mret tt
  end.

(** What can happen to a server, and sequences of it *)
Inductive event : Type :=
  | ClientConnects
  | PeerConnects (hostname : string) (port : Z)
  | ConnectTo (hostname : string) (port : Z)
  | Receives (id : Z) (data : list Z)
  | Leaves (id : Z).

Definition server_event (e : event) : SV unit :=
  match e with
  | ClientConnects => _ ← connect_client; mret tt
  | PeerConnects hostname port => _ ← connect_peer hostname port false; mret tt
  | ConnectTo hostname port => _ ← connect_peer hostname port true; mret tt
  | Receives id data => on_network_message id data
  | Leaves id => on_disconnect id
  end.

Fixpoint server_events (es : list event) : SV unit :=
  match es with
  | [] => mret tt
  | e :: es => _ ← server_event e; server_events es
  end.

(** ** The registry stays consistent *)

Definition preserves {A} (m : SV A) : Prop := forall s, registry_ok (sv_registry s) -> registry_ok (sv_registry (m s).2).

Lemma preserves_ret {A} (a : A) : preserves (mret a).
Proof. by intros s Hs. Qed.
Lemma preserves_throw {A} e : preserves (throw (A := A) e).
Proof. by intros s Hs. Qed.
Lemma preserves_get : preserves get_st.
Proof. by intros s Hs. Qed.
Lemma preserves_lift {A} (m : result A) : preserves (lift_res m).
Proof. by intros s Hs. Qed.
Lemma preserves_bind {A B} (m : SV A) (k : A -> SV B) : preserves m -> (forall a, preserves (k a)) -> preserves (m ≫= k).
Proof.
  intros Hm Hk s Hs. unfold mbind, ST_bind. specialize (Hm s Hs). destruct (m s) as [[a|e] s']; [by apply Hk|done].
Qed.
Lemma preserves_host {A} (m : ST host A) : preserves (on_host m).
Proof. intros s Hs. unfold on_host, zoom. by destruct (m (sv_host s)). Qed.
Lemma preserves_sdk {A} (m : ST sdk A) : preserves (on_sdk m).
Proof. intros s Hs. unfold on_sdk, zoom. by destruct (m (sv_sdk s)). Qed.
Lemma preserves_world {A} (m : ST W A) : preserves (on_world m).
Proof. intros s Hs. unfold on_world, zoom. by destruct (m (sv_world s)). Qed.
Lemma preserves_identities {A} (m : ST identity_db A) : preserves (on_identities m).
Proof. intros s Hs. unfold on_identities, zoom. by destruct (m (sv_identities s)). Qed.
Lemma preserves_registry {A} (m : ST registry A) :
  (forall r, registry_ok r -> registry_ok (m r).2) -> preserves (on_registry m).
Proof. intros Hm s Hs. unfold on_registry, zoom. specialize (Hm _ Hs). by destruct (m (sv_registry s)). Qed.
Lemma preserves_update id f : (forall p, pa_identity (f p) = pa_identity p) -> preserves (on_registry (update_party id f)).
Proof.
  intros Hf. apply preserves_registry. intros r. apply keeps_identities_ok, update_party_keeps.
  intros p i _ Hi. by rewrite Hf.
Qed.
Lemma preserves_insert id p : preserves (on_registry (insert_party id p)).
Proof. apply preserves_registry. intros r. apply keeps_identities_ok, insert_party_keeps. Qed.
Lemma preserves_downstream id : preserves (on_registry (add_downstream_server id)).
Proof. apply preserves_registry. intros r [? ?]. by split. Qed.
Lemma preserves_set_peer id f : preserves (set_peer id f).
Proof. by apply preserves_update. Qed.
Lemma preserves_set_kind id k : preserves (set_kind id k).
Proof. by apply preserves_update. Qed.
Lemma preserves_context id c : preserves (set_attestation_context id c).
Proof. by apply preserves_update. Qed.

Create HintDb preserves.
Hint Resolve preserves_ret preserves_throw preserves_get preserves_lift preserves_host preserves_sdk preserves_world
  preserves_identities preserves_insert preserves_downstream preserves_set_peer preserves_set_kind preserves_context : preserves.

(** Goes through a handler step by step and case by case. *)
Ltac preserve :=
  repeat (intros; first
    [ solve [eauto with preserves]
    | apply preserves_bind
    | match goal with
      | |- preserves (match ?x with _ => _ end) => destruct x
      | |- preserves (or_fail ?x _) => destruct x; cbn [or_fail]
      | |- preserves (let '(_, _) := ?x in _) => destruct x
      end ]).

Lemma preserves_tell_groupid id : preserves (tell_groupid id).
Proof. unfold tell_groupid. preserve. Qed.
Lemma preserves_stream {A} (o : option A) : preserves (stream o).
Proof. unfold stream. preserve. Qed.
Lemma preserves_self id : preserves (self id).
Proof. unfold self. preserve. Qed.
Hint Resolve preserves_tell_groupid preserves_stream preserves_self : preserves.

Lemma preserves_attestation_init id : preserves (Attestation_init id).
Proof. unfold Attestation_init. preserve. Qed.
Lemma preserves_ra_init id : preserves (credb_ra_init id).
Proof. unfold credb_ra_init. preserve. Qed.
Hint Resolve preserves_attestation_init preserves_ra_init : preserves.
Lemma preserves_groupid_result id b : preserves (handle_groupid_result id b).
Proof. unfold handle_groupid_result, set_session. preserve. Qed.
Lemma preserves_msg2 id m : preserves (handle_msg2 id m).
Proof. unfold handle_msg2, set_session. preserve. Qed.
Hint Resolve preserves_groupid_result preserves_msg2 : preserves.
Lemma preserves_attestation_update id : preserves (Attestation_update id).
Proof. unfold Attestation_update. preserve. Qed.
Lemma preserves_send id m : preserves (RemoteParty_send id m).
Proof. unfold RemoteParty_send. preserve. Qed.
Lemma preserves_message_two id input : preserves (handle_attestation_message_two id input).
Proof. unfold handle_attestation_message_two. preserve. Qed.
Lemma preserves_open_message p data : preserves (open_message p data).
Proof. unfold open_message. preserve. Qed.
Hint Resolve preserves_attestation_update preserves_send preserves_message_two preserves_open_message : preserves.

(** The identity is set where there was none, and is that of the party when the mappings are set. *)
Lemma preserves_groupid_identity id name key : preserves (groupid_identity id name key).
Proof.
  intros s Hs. unfold groupid_identity, self, mbind, ST_bind, get_st. cbn.
  destruct (find id (sv_registry s)) as [p|] eqn:Ep; [|done]. cbn. destruct (pa_identity p) as [i0|] eqn:Ei; [done|].
  unfold on_identities, zoom. cbn. destruct (IdentityDatabase_get name key (sv_identities s)) as [[i|e] db]; [|done].
  unfold on_registry, zoom. cbn. set (r := set_parties _ _).
  assert (registry_ok r) as Hr.
  { eapply (keeps_identities_ok (sv_registry s)); [|done]. apply (update_party_keeps id).
    intros q j Hq Hj. unfold find in Ep. congruence. }
  destruct (identity_eqb i _); [done|].
  assert (exists q, rg_parties r !! id = Some q /\ pa_identity q = Some i) as (q & Hq & Hqi).
  { exists (mkParty (Some i) (pa_context p) (pa_kind p)). unfold r, find in *. cbn. by rewrite lookup_alter_eq, Ep. }
  pose proof (set_identity_ok id i q r Hr Hq Hqi) as (o & r' & E & Hr' & _)%wp_run. cbn [sv_registry]. rewrite E. cbn.
  destruct o as [other|]; [|done]. unfold on_host, zoom. by destruct (host_disconnect other _).
Qed.
Hint Resolve preserves_groupid_identity : preserves.

Lemma preserves_catch m h : preserves m -> preserves h -> preserves (catch_attestation_error m h).
Proof.
  intros Hm Hh s Hs. unfold catch_attestation_error. specialize (Hm s Hs).
  destruct (m s) as [[a|[]] s']; try done. by apply Hh.
Qed.
Lemma preserves_catch_all m : preserves m -> preserves (catch_all m).
Proof. intros Hm s Hs. unfold catch_all. specialize (Hm s Hs). by destruct (m s) as [[a|[]] s']. Qed.
Lemma preserves_groupid_response id input : preserves (handle_groupid_response id input).
Proof. unfold handle_groupid_response. preserve. apply preserves_catch; preserve. Qed.
Hint Resolve preserves_groupid_response : preserves.

Lemma preserves_set_peer_type id t : preserves (set_peer_type id t).
Proof. unfold set_peer_type. preserve. Qed.
Hint Resolve preserves_set_peer_type : preserves.
Lemma preserves_tell_peer_type id input : preserves (handle_tell_peer_type id input).
Proof. unfold handle_tell_peer_type. preserve. Qed.
Hint Resolve preserves_tell_peer_type : preserves.
Lemma preserves_party_request id p input : preserves (party_request id p input).
Proof. unfold party_request. preserve. Qed.
Lemma preserves_send_if_any id output : preserves (send_if_any id output).
Proof. unfold send_if_any. preserve. Qed.
Lemma preserves_client_result id input : preserves (Client_handle_attestation_result id input).
Proof. unfold Client_handle_attestation_result. preserve. Qed.
Hint Resolve preserves_party_request preserves_send_if_any preserves_client_result : preserves.
Lemma preserves_client_message id c p data : preserves (Client_handle_message id c p data).
Proof. unfold Client_handle_message. preserve. Qed.
Lemma preserves_self_peer id : preserves (self_peer id).
Proof. unfold self_peer. preserve. Qed.
Lemma preserves_message_one id input : preserves (handle_attestation_message_one id input).
Proof. unfold handle_attestation_message_one, send_attestation_msg. preserve. Qed.
Lemma preserves_set_connected id : preserves (set_connected id).
Proof. unfold set_connected. preserve. Qed.
Hint Resolve preserves_client_message preserves_self_peer preserves_message_one preserves_set_connected : preserves.
Lemma preserves_next_phase id : preserves (next_phase id).
Proof. unfold next_phase. preserve. Qed.
Hint Resolve preserves_next_phase : preserves.
Lemma preserves_message_three id input : preserves (handle_attestation_message_three id input).
Proof. unfold handle_attestation_message_three, send_attestation_msg. preserve. Qed.
Lemma preserves_peer_result id input : preserves (Peer_handle_attestation_result id input).
Proof. unfold Peer_handle_attestation_result. preserve. Qed.
Lemma preserves_op_response id input : preserves (handle_op_response id input).
Proof. unfold handle_op_response. preserve. Qed.
Lemma preserves_forwarded id p input : preserves (handle_op_forwarded_request id p input).
Proof. unfold handle_op_forwarded_request. preserve. Qed.
Lemma preserves_notify ids msg : preserves (notify_parties ids msg).
Proof. induction ids as [|i ids IH]; cbn [notify_parties]; preserve. Qed.
Hint Resolve preserves_message_three preserves_peer_result preserves_op_response preserves_forwarded preserves_notify : preserves.
Lemma preserves_connected_message id p type input : preserves (handle_connected_message id p type input).
Proof. unfold handle_connected_message. preserve. Qed.
Hint Resolve preserves_connected_message : preserves.
Lemma preserves_peer_message id peer p data : preserves (Peer_handle_message id peer p data).
Proof. unfold Peer_handle_message, ignore_result, send_attestation_msg. preserve. Qed.
Hint Resolve preserves_peer_message : preserves.
Lemma preserves_enclave_message id data : preserves (enclave_handle_message id data).
Proof. unfold enclave_handle_message. preserve. Qed.
Lemma preserves_connect_client : preserves connect_client.
Proof. unfold connect_client, init_client. preserve. Qed.
Lemma preserves_connect_peer hostname port b : preserves (connect_peer hostname port b).
Proof. unfold connect_peer, init_peer. preserve. Qed.
Hint Resolve preserves_enclave_message preserves_connect_client preserves_connect_peer : preserves.
Lemma preserves_plain_text msg : preserves (handle_plain_text_message msg).
Proof. unfold handle_plain_text_message. apply preserves_catch_all. preserve. Qed.
Lemma preserves_peer_plain_text id msg : preserves (handle_peer_plain_text_message id msg).
Proof. unfold handle_peer_plain_text_message, PeerHandler_handle_op_request, insert_response. preserve. Qed.
Hint Resolve preserves_plain_text preserves_peer_plain_text : preserves.
Lemma preserves_network_message id data : preserves (on_network_message id data).
Proof. unfold on_network_message. preserve. Qed.
Hint Resolve preserves_network_message : preserves.

Lemma preserves_event e : preserves (server_event e).
Proof.
  destruct e; cbn [server_event]; preserve. unfold on_disconnect, destroy_party. preserve.
  apply preserves_registry, handle_disconnect_ok.
Qed.

Lemma preserves_events es : preserves (server_events es).
Proof. induction es as [|e es IH]; cbn [server_events]; [apply preserves_ret|]. apply preserves_bind; [apply preserves_event|done]. Qed.

(** C13.  Whatever arrives on whichever connection, and whoever comes and goes: a party that is
    looked up by a name or by a key has identified itself with that name or key, and no entry of
    the mappings leads to a party that has left. *)
Theorem server_registry_consistent es s :
  registry_ok (sv_registry s) ->
  let r := sv_registry (server_events es s).2 in
  (forall name p, find_by_name name r = Some p -> exists i, pa_identity p = Some i /\ id_name i = name) /\
  (forall uid p, find_by_uid uid r = Some p -> exists i, pa_identity p = Some i /\ identity_uid i = uid) /\
  (forall name id, rg_name_mapping r !! name = Some id -> is_Some (find id r)) /\
  (forall uid id, rg_uid_mapping r !! uid = Some id -> is_Some (find id r)).
Proof.
  intros Hs r. assert (registry_ok r) as [Hn Hu] by (by apply preserves_events).
  unfold find_by_name, find_by_uid, find. split_and!.
  - intros name p (id & Hid & Hp)%bind_Some. destruct (Hn _ _ Hid) as (q & i & Hq & ?). exists i. simplify_eq. naive_solver.
  - intros uid p (id & Hid & Hp)%bind_Some. destruct (Hu _ _ Hid) as (q & i & Hq & ?). exists i. simplify_eq. naive_solver.
  - intros name id Hid. destruct (Hn _ _ Hid) as (q & i & Hq & ?). eauto.
  - intros uid id Hid. destruct (Hu _ _ Hid) as (q & i & Hq & ?). eauto.
Qed.

End Attestation.
