(* ===== verification/ClientAttestation.v ===== *)
(** * Attestation in the client library

    Models the handshake in [src/client/ClientImpl.cpp] (the constructor's state,
    [handle_attestation_message], [process_message_one], [process_message_three] and the part of
    [on_network_message] that concerns them; the mode with encryption), what each step of it
    does, and what a party that is not the server can make of it. *)

From S2P Require Import Prelude Bitstream EncryptedIO Identity Ledger Wire KeyExchange RemoteParties Attestation.

Inductive client_state : Type :=
  | CI_WaitingForGroupId | CI_WaitingForMsg1 | CI_WaitingForMsg3 | CI_Connected | CI_Failure | CI_Closed.

#[global] Instance client_state_eq_dec : EqDecision client_state.
Proof. solve_decision. Defined.

(** The keys of a session: members that are not initialised *)
Record dh_keys : Type := mkDh {
  dh_private : list Z;
  dh_public : list Z;
  dh_server_public : list Z;
  dh_vk : list Z;
  dh_mk : list Z;
  dh_sk : list Z;
  dh_smk : list Z;
  dh_ps_sec_prop : list Z;
}.

(** [ClientImpl]; [ci_log] is what it reports with [LOG(ERROR)], and [ci_seeds] where random
    numbers come from. *)
Record client_impl : Type := mkClient {
  ci_name : string;
  ci_server_name : string;
  ci_state : client_state;
  ci_open : bool;
  ci_error : string;
  ci_groupid : Z;
  ci_server_public_key : list Z;
  ci_upstream_public_key : option (list Z);
  ci_private_key : list Z;
  ci_public_key : list Z;
  ci_dh : dh_keys;
  ci_seeds : nat -> list Z;
  ci_drawn : nat;
  ci_log : list string;
}.

Definition ci_set_state (v : client_state) (c : client_impl) : client_impl :=
  mkClient (ci_name c) (ci_server_name c) v (ci_open c) (ci_error c) (ci_groupid c) (ci_server_public_key c)
    (ci_upstream_public_key c) (ci_private_key c) (ci_public_key c) (ci_dh c) (ci_seeds c) (ci_drawn c) (ci_log c).
Definition ci_set_server (groupid : Z) (key : list Z) (upstream : option (list Z)) (c : client_impl) : client_impl :=
  mkClient (ci_name c) (ci_server_name c) (ci_state c) (ci_open c) (ci_error c) groupid key
    upstream (ci_private_key c) (ci_public_key c) (ci_dh c) (ci_seeds c) (ci_drawn c) (ci_log c).
Definition ci_fail (what : string) (c : client_impl) : client_impl :=
  mkClient (ci_name c) (ci_server_name c) CI_Failure false what (ci_groupid c) (ci_server_public_key c)
    (ci_upstream_public_key c) (ci_private_key c) (ci_public_key c) (ci_dh c) (ci_seeds c) (ci_drawn c) (ci_log c).
Definition ci_set_dh (v : dh_keys) (c : client_impl) : client_impl :=
  mkClient (ci_name c) (ci_server_name c) (ci_state c) (ci_open c) (ci_error c) (ci_groupid c) (ci_server_public_key c)
    (ci_upstream_public_key c) (ci_private_key c) (ci_public_key c) v (ci_seeds c) (ci_drawn c) (ci_log c).
Definition ci_draw : ST client_impl (list Z) := fun c =>
  (Ok (ci_seeds c (ci_drawn c)),
   mkClient (ci_name c) (ci_server_name c) (ci_state c) (ci_open c) (ci_error c) (ci_groupid c) (ci_server_public_key c)
    (ci_upstream_public_key c) (ci_private_key c) (ci_public_key c) (ci_dh c) (ci_seeds c) (S (ci_drawn c)) (ci_log c)).
Definition ci_set_log (v : list string) (c : client_impl) : client_impl :=
  mkClient (ci_name c) (ci_server_name c) (ci_state c) (ci_open c) (ci_error c) (ci_groupid c) (ci_server_public_key c)
    (ci_upstream_public_key c) (ci_private_key c) (ci_public_key c) (ci_dh c) (ci_seeds c) (ci_drawn c) v.
Definition log_error (what : string) : ST client_impl unit := modify_st (fun c => ci_set_log (ci_log c ++ [what]) c).

Section ClientAttestation.
Context `{Crypto}.
Variable uninit : nat -> list Z.

Abbreviation CI := (ST client_impl).

Definition read {A} (o : option A) : CI A :=
  match o with Some a => mret a | None => throw (Runtime_error "end of stream") end.

(** [LOG(FATAL)] if a step fails *)
Definition or_fatal {A} (o : option A) (what : string) : CI A :=
  match o with Some a => mret a | None => throw (Fatal what) end.

Definition in_state (st : client_state) (m : CI (list Z)) : CI (list Z) :=
  c ← get_st; if decide (ci_state c = st) then m else throw (Runtime_error "Client and server state mismatch!").

Definition process_tell_groupid (input : list Z) : CI (list Z) :=
  '((groupid, input) : Z * list Z) ← read (int_dec 4 input);
  '((name, input) : string * list Z) ← read (dec input);
  '((key, input) : list Z * list Z) ← read (read_raw 64 input);
  '((downstream, input) : bool * list Z) ← read (dec input);
  upstream ← (if downstream : bool then '((key, _) : list Z * list Z) ← read (read_raw 64 input); mret (Some key)
              else mret None);
  _ ← modify_st (ci_set_server groupid key upstream);
  c ← get_st;
  if decide (name <> ci_server_name c) then
    _ ← modify_st (ci_fail "Server names don't match. Cowardly refusing to connect."); mret []
  else
    _ ← modify_st (ci_set_state CI_WaitingForMsg1);
    mret (attestation_message MT_GroupIdResponse (enc true ++ enc (ci_name c) ++ ci_public_key c)).

Definition process_message_one (input : list Z) : CI (list Z) :=
  '((msg1, _) : list Z * list Z) ← read (read_raw (Z.of_nat sizeof_msg1) input);
  c ← get_st;
  let server_public := msg1_g_a msg1 in
  seed ← ci_draw;
  '((private, public) : list Z * list Z) ← or_fatal (ecc_create_key_pair seed) "cannot generate key pair";
  dh_key ← or_fatal (ecc_compute_shared_dhkey private server_public) "Failed to compute shared key";
  smk ← or_fatal (derive_key dh_key SAMPLE_DERIVE_KEY_SMK) "Failed to derive SMK key";
  mk ← or_fatal (derive_key dh_key SAMPLE_DERIVE_KEY_MK) "Failed to derive MK key";
  sk ← or_fatal (derive_key dh_key SAMPLE_DERIVE_KEY_SK) "Failed to derive SK key";
  vk ← or_fatal (derive_key dh_key SAMPLE_DERIVE_KEY_VK) "Failed to derive VK key";
  _ ← modify_st (ci_set_dh (mkDh private public server_public vk mk sk smk (dh_ps_sec_prop (ci_dh c))));
  seed ← ci_draw;
  signature ← or_fatal (ecdsa_sign seed (ci_private_key c) (public ++ server_public)) "failed to sign ga_gb";
  msg2 ← or_fatal (make_msg2 smk public signature) "cmac fail in";
  _ ← modify_st (ci_set_state CI_WaitingForMsg3);
  mret (attestation_message MT_AttestationMessage2 (le_encode 4 (Z.of_nat (length (msg2_bytes msg2))) ++ msg2_bytes msg2)).

(** A check that fails is reported in the log. *)
Definition check (ok : bool) (what : string) : CI unit := if ok then mret tt else log_error what.

(** The report of the attestation service is not initialised; no service is asked. *)
Definition process_message_three (input : list Z) : CI (list Z) :=
  '((msg3_size, input) : Z * list Z) ← read (int_dec 4 input);
  '((msg3, _) : list Z * list Z) ← read (read_raw msg3_size input);
  if negb (msg3_in_bounds msg3) then throw (Undefined "read behind the end of a message")
  else
    c ← get_st;
    let dh := ci_dh c in
    _ ← check (bool_decide (dh_server_public dh = msg3_g_a msg3)) "Error, g_a is not same";
    let ret := cmac_msg (dh_smk dh) (msg3_cmaced msg3) in
    _ ← check (bool_decide (ret <> None)) "Error, cmac fail";
    let mac := match ret with Some mac => mac | None => replicate 16 0 end in
    _ ← check (bool_decide (msg3_mac msg3 = mac)) "Error, verify cmac fail";
    _ ← modify_st (fun c => ci_set_dh (mkDh (dh_private dh) (dh_public dh) (dh_server_public dh) (dh_vk dh) (dh_mk dh)
                                        (dh_sk dh) (dh_smk dh) (msg3_ps_sec_prop msg3)) c);
    let hash := sha256 (dh_server_public dh ++ dh_public dh ++ dh_vk dh) in
    _ ← check (bool_decide (hash <> None)) "Generate hash failed";
    let report_data := match hash with Some hash => hash ++ replicate 32 0 | None => replicate 64 0 end in
    _ ← check (bool_decide (report_data = msg3_report_data msg3)) "Compare hash failed";
    match hash with
    | None => throw (Runtime_error "ias verification failed")
    | Some _ =>
        let info_blob := uninit sizeof_info_blob in
        let ret := cmac_msg (dh_mk dh) info_blob in
        _ ← check (bool_decide (ret <> None)) "cmac fail in [%s].";
        let blob_mac := match ret with Some mac => mac | None => uninit 16 end in
        _ ← modify_st (ci_set_state CI_Connected);
        mret (attestation_message MT_AttestationResult (le_encode 4 0 ++ le_encode 4 0 ++ info_blob ++ blob_mac))
    end.

Definition handle_attestation_message (input : list Z) : CI (list Z) :=
  '((type, input) : Z * list Z) ← read (int_dec 1 input);
  if type =? MT_TellGroupId then in_state CI_WaitingForGroupId (process_tell_groupid input)
  else if type =? MT_AttestationMessage1 then in_state CI_WaitingForMsg1 (process_message_one input)
  else if type =? MT_AttestationMessage3 then in_state CI_WaitingForMsg3 (process_message_three input)
  else _ ← log_error "Received unknown message type"; mret [].

(** What is sent in answer to a message, if anything.  The messages of a client that is connected
    are in [Wire.v]. *)
Variable handle_connected : list Z -> CI (list Z).

Definition ClientImpl_on_network_message (msg : list Z) : CI (list Z) :=
  if (length msg <? 2)%nat then _ ← log_error "Received too small message!"; mret []
  else
    '((encryption, input) : Z * list Z) ← read (int_dec 1 msg);
    c ← get_st;
    if encryption =? AttestationEnc then handle_attestation_message input
    else if (encryption =? Encrypted) || (encryption =? PlainText) then
      if decide (ci_state c = CI_Connected) then handle_connected msg else throw (Fatal "Not connected yet")
    else _ ← log_error "Unknown encryption header field"; mret [].

(** ** Reading the messages *)

Lemma read_int {A} w z rest (k : Z * list Z -> CI A) c :
  in_range (8 * Z.of_nat w) z -> (read (int_dec w (le_encode w z ++ rest)) ≫= k) c = k (z, rest) c.
Proof. intros Hz. by rewrite int_dec_enc. Qed.

Lemma read_codec {A B} `{CodecLaws B} (b : B) rest (k : B * list Z -> CI A) c :
  codec_wf b -> (read (dec (enc b ++ rest)) ≫= k) c = k (b, rest) c.
Proof. intros Hb. by rewrite dec_enc. Qed.

Lemma read_bytes {A} n bs rest (k : list Z * list Z -> CI A) c :
  n = Z.of_nat (length bs) -> (read (read_raw n (bs ++ rest)) ≫= k) c = k (bs, rest) c.
Proof. intros ->. by rewrite read_raw_app. Qed.

Lemma wp_eq {S A} (m m' : ST S A) Q s : m s = m' s -> wp m' Q s -> wp m Q s.
Proof. unfold wp. by intros ->. Qed.

(** A message of the handshake is dispatched on its type. *)
Lemma client_dispatch type body c :
  in_range 8 type -> ClientImpl_on_network_message (attestation_message type body) c =
  handle_attestation_message (le_encode 1 type ++ body) c.
Proof.
  intros Ht. unfold ClientImpl_on_network_message, attestation_message.
  rewrite length_app, length_app, !le_encode_length. cbn [Nat.add Nat.ltb Nat.leb].
  rewrite (read_int 1 AttestationEnc) by done. done.
Qed.

Lemma client_message type st (m : list Z -> CI (list Z)) body Q c :
  in_range 8 type -> ci_state c = st ->
  (forall input, handle_attestation_message (le_encode 1 type ++ input) c = in_state st (m input) c) ->
  wp (m body) Q c -> wp (ClientImpl_on_network_message (attestation_message type body)) Q c.
Proof.
  intros Ht Hst Hm Hw. eapply wp_eq; [by apply client_dispatch|]. eapply wp_eq; [apply Hm|].
  unfold in_state. apply wp_bind, wp_get. by rewrite decide_True.
Qed.

Lemma handle_tell_groupid input c :
  handle_attestation_message (le_encode 1 MT_TellGroupId ++ input) c = in_state CI_WaitingForGroupId (process_tell_groupid input) c.
Proof. unfold handle_attestation_message. by rewrite (read_int 1) by done. Qed.
Lemma handle_message_one input c :
  handle_attestation_message (le_encode 1 MT_AttestationMessage1 ++ input) c = in_state CI_WaitingForMsg1 (process_message_one input) c.
Proof. unfold handle_attestation_message. by rewrite (read_int 1) by done. Qed.
Lemma handle_message_three input c :
  handle_attestation_message (le_encode 1 MT_AttestationMessage3 ++ input) c = in_state CI_WaitingForMsg3 (process_message_three input) c.
Proof. unfold handle_attestation_message. by rewrite (read_int 1) by done. Qed.

(** ** What the client does in each step *)

Context `{!CryptoLaws}.

(** What [TellGroupId] carries *)
Definition groupid_body (groupid : Z) (name : string) (key : list Z) (upstream : option (list Z)) : list Z :=
  le_encode 4 groupid ++ enc name ++ key ++ match upstream with Some key => enc true ++ key | None => enc false end.

Lemma client_tell_groupid groupid key upstream c :
  ci_state c = CI_WaitingForGroupId -> in_range 32 groupid -> codec_wf (ci_server_name c) -> length key = 64%nat ->
  (forall k, upstream = Some k -> length k = 64%nat) ->
  wp (ClientImpl_on_network_message (attestation_message MT_TellGroupId (groupid_body groupid (ci_server_name c) key upstream)))
    (fun out c' => out = attestation_message MT_GroupIdResponse (enc true ++ enc (ci_name c) ++ ci_public_key c) /\
       c' = ci_set_state CI_WaitingForMsg1 (ci_set_server groupid key upstream c)) c.
Proof.
  intros Hst Hg Hn Hk Hu. eapply client_message; [done|done|intros; apply handle_tell_groupid|].
  unfold process_tell_groupid, groupid_body. eapply wp_eq; [by apply (read_int 4)|]. cbv beta iota.
  eapply wp_eq; [by apply read_codec|]. cbv beta iota. eapply wp_eq; [apply read_bytes; by rewrite Hk|]. cbv beta iota.
  assert (exists rest, (match upstream with Some key => enc true ++ key | None => enc false end) =
            enc (bool_decide (upstream <> None)) ++ rest /\ (forall k, upstream = Some k -> rest = k)) as (rest & -> & Hrest).
  { destruct upstream as [k|]; [exists k; split; [done|congruence]|]. exists []. by split. }
  eapply wp_eq; [by apply read_codec|]. cbv beta iota. apply wp_bind.
  assert (wp (if bool_decide (upstream <> None) then '((key, _) : list Z * list Z) ← read (read_raw 64 rest); mret (Some key)
              else mret None) (fun u c' => u = upstream /\ c' = c) c) as Hu'.
  { destruct upstream as [k|]; [|done]. rewrite (Hrest k eq_refl), <- (app_nil_r k). cbn [bool_decide].
    eapply wp_eq; [apply read_bytes; by rewrite (Hu k)|]. by rewrite app_nil_r. }
  eapply wp_mono; [exact Hu'|]. intros u c' [-> ->]. apply wp_bind, wp_modify, wp_bind, wp_get. cbn [ci_server_name ci_set_server].
  rewrite decide_False by (by intros ?). by apply wp_bind, wp_modify.
Qed.

Lemma wp_or_fatal {A B} (o : option A) a what (k : A -> CI B) Q c :
  o = Some a -> wp (k a) Q c -> wp (or_fatal o what ≫= k) Q c.
Proof. by intros ->. Qed.

Lemma wp_draw {B} (k : list Z -> CI B) Q c :
  wp (k (ci_seeds c (ci_drawn c))) Q (ci_draw c).2 -> wp (ci_draw ≫= k) Q c.
Proof. done. Qed.

Lemma make_msg2_ok smk g_b signature :
  exists m, make_msg2 smk g_b signature = Some m /\ msg2_g_b m = g_b /\ msg2_sign_gb_ga m = signature /\
    length (msg2_spid m) = 16%nat /\
    (length g_b = SGX_ECP256_PUBLIC -> length signature = 64%nat -> length (msg2_bytes m) = 168%nat).
Proof.
  unfold make_msg2. destruct (cmac_ok smk (msg2_cmaced g_b g_spid SAMPLE_QUOTE_LINKABLE_SIGNATURE SAMPLE_AES_CMAC_KDF_ID
    signature)) as (mac & -> & Hl). eexists. split_and!; [done..|]. intros Hb Hs. unfold msg2_bytes, msg2_cmaced.
  cbn [msg2_g_b msg2_spid msg2_quote_type msg2_kdf_id msg2_sign_gb_ga msg2_mac msg2_sig_rl_size].
  rewrite !length_app, !le_encode_length, Hb, Hs, Hl. done.
Qed.

(** What the two ends have after message 2, if the server's key pair is [private_a] and [g_a] *)
Record message_two_right (private_a g_a : list Z) (c : client_impl) (m : sgx_ra_msg2_t) : Prop := {
  m2_shared : exists shared, ecc_compute_shared_dhkey private_a (msg2_g_b m) = Some shared /\
    derive_key shared SAMPLE_DERIVE_KEY_SMK = Some (dh_smk (ci_dh c)) /\
    derive_key shared SAMPLE_DERIVE_KEY_SK = Some (dh_sk (ci_dh c)) /\
    derive_key shared SAMPLE_DERIVE_KEY_VK = Some (dh_vk (ci_dh c));
  m2_signed : ecdsa_verify (ci_public_key c) (msg2_g_b m ++ g_a) (msg2_sign_gb_ga m) = true;
  m2_mac : make_msg2 (dh_smk (ci_dh c)) (msg2_g_b m) (msg2_sign_gb_ga m) = Some m;
  m2_g_b : dh_public (ci_dh c) = msg2_g_b m;
  m2_g_a : dh_server_public (ci_dh c) = g_a;
  m2_g_b_length : length (msg2_g_b m) = SGX_ECP256_PUBLIC;
  m2_sign_length : length (msg2_sign_gb_ga m) = 64%nat;
}.

Lemma client_message_one m1 seed private_a key_seed c :
  ci_state c = CI_WaitingForMsg1 -> length m1 = sizeof_msg1 ->
  ecc_create_key_pair seed = Some (private_a, msg1_g_a m1) ->
  ecc_create_key_pair key_seed = Some (ci_private_key c, ci_public_key c) ->
  wp (ClientImpl_on_network_message (attestation_message MT_AttestationMessage1 m1))
    (fun out c' => exists m2, message_two_right private_a (msg1_g_a m1) c' m2 /\
       out = attestation_message MT_AttestationMessage2 (le_encode 4 (Z.of_nat (length (msg2_bytes m2))) ++ msg2_bytes m2) /\
       ci_state c' = CI_WaitingForMsg3 /\ ci_log c' = ci_log c /\ ci_name c' = ci_name c /\ ci_public_key c' = ci_public_key c) c.
Proof.
  intros Hst Hm Ha Hk. eapply client_message; [done|done|intros; apply handle_message_one|].
  unfold process_message_one. rewrite <- (app_nil_r m1). eapply wp_eq; [apply read_bytes; by rewrite Hm|].
  rewrite app_nil_r. cbv beta iota. apply wp_bind, wp_get, wp_draw. cbn [ci_seeds ci_drawn].
  destruct (key_pair_ok (ci_seeds c (ci_drawn c))) as (private & public & Eb & Hpl). eapply wp_or_fatal; [exact Eb|].
  destruct (shared_agrees _ _ _ _ _ _ Ha Eb) as (shared & Es & Es'). eapply wp_or_fatal; [exact Es'|].
  destruct (derive_key_ok shared SAMPLE_DERIVE_KEY_SMK) as (smk & Esmk & _); [done|]. eapply wp_or_fatal; [exact Esmk|].
  destruct (derive_key_ok shared SAMPLE_DERIVE_KEY_MK) as (mk & Emk & _); [done|]. eapply wp_or_fatal; [exact Emk|].
  destruct (derive_key_ok shared SAMPLE_DERIVE_KEY_SK) as (sk & Esk & _); [done|]. eapply wp_or_fatal; [exact Esk|].
  destruct (derive_key_ok shared SAMPLE_DERIVE_KEY_VK) as (vk & Evk & _); [done|]. eapply wp_or_fatal; [exact Evk|].
  apply wp_bind, wp_modify, wp_draw. cbn [ci_seeds ci_drawn ci_set_dh].
  destruct (sign_ok key_seed (ci_seeds c (S (ci_drawn c))) _ _ (public ++ msg1_g_a m1) ltac:(by destruct public) Hk) as (sg & Esg & Hsl & Hv).
  eapply wp_or_fatal; [exact Esg|]. destruct (make_msg2_ok smk public sg) as (m2 & Em2 & Hgb & Hsg & _).
  eapply wp_or_fatal; [exact Em2|]. apply wp_bind, wp_modify, wp_ret. exists m2. split_and!; [|done..].
  split; cbn; rewrite ?Hgb, ?Hsg; eauto 6.
Qed.

Definition result_body : list Z -> list Z := fun mac => le_encode 4 0 ++ le_encode 4 0 ++ uninit sizeof_info_blob ++ mac.

Lemma wp_check {B} ok what (k : unit -> CI B) Q c :
  (forall log, (ok = true -> log = ci_log c) -> wp (k tt) Q (ci_set_log log c)) -> wp (check ok what ≫= k) Q c.
Proof.
  intros Hk. apply wp_bind. destruct ok; unfold check, log_error.
  - apply wp_ret. specialize (Hk (ci_log c) (fun _ => eq_refl)). by destruct c.
  - apply wp_modify. by apply Hk.
Qed.

(** Every message 3 of the length connects the client; one that is right is not reported. *)
Lemma client_message_three m3 c :
  ci_state c = CI_WaitingForMsg3 -> msg3_in_bounds m3 = true -> in_range 32 (Z.of_nat (length m3)) ->
  wp (ClientImpl_on_network_message (attestation_message MT_AttestationMessage3 (le_encode 4 (Z.of_nat (length m3)) ++ m3)))
    (fun out c' => (exists mac, length mac = SAMPLE_MAC_SIZE /\ out = attestation_message MT_AttestationResult (result_body mac)) /\
       ci_state c' = CI_Connected /\ dh_sk (ci_dh c') = dh_sk (ci_dh c) /\ dh_public (ci_dh c') = dh_public (ci_dh c) /\
       ci_name c' = ci_name c /\ ci_public_key c' = ci_public_key c /\
       (msg3_good (dh_smk (ci_dh c)) (dh_vk (ci_dh c)) (dh_server_public (ci_dh c)) (dh_public (ci_dh c)) m3 -> ci_log c' = ci_log c)) c.
Proof.
  intros Hst Hb Hr. eapply client_message; [done|done|intros; apply handle_message_three|].
  unfold process_message_three. eapply wp_eq; [by apply (read_int 4)|]. cbv beta iota.
  rewrite <- (app_nil_r m3) at 2. eapply wp_eq; [by apply read_bytes|]. cbv beta iota. rewrite Hb. cbn [negb].
  apply wp_bind, wp_get. cbv zeta.
  destruct (cmac_ok (dh_smk (ci_dh c)) (msg3_cmaced m3)) as (mac & Emac & _).
  destruct (sha256_ok (dh_server_public (ci_dh c) ++ dh_public (ci_dh c) ++ dh_vk (ci_dh c))) as (hash & Ehash & _).
  destruct (cmac_ok (dh_mk (ci_dh c)) (uninit sizeof_info_blob)) as (bmac & Ebmac & Hbl).
  rewrite Emac, Ehash, Ebmac.
  apply wp_check; intros l1 E1. apply wp_check; intros l2 E2. apply wp_check; intros l3 E3. apply wp_bind, wp_modify.
  apply wp_check; intros l4 E4. apply wp_check; intros l5 E5. apply wp_check; intros l6 E6. apply wp_bind, wp_modify, wp_ret.
  split_and!; [by exists bmac|done..|]. cbn [ci_log ci_set_log ci_set_state ci_set_dh] in *.
  intros (_ & _ & Hga & Hmac & h & Hh & Hrep).
  rewrite E6, E5, E4, E3, E2, E1; try done; apply bool_decide_eq_true; congruence.
Qed.

(** What somebody sends who has a key pair but no enclave: message 3 holds anything at all. *)
Definition impostor_messages (groupid : Z) (name : string) (key g_a trailer m3 : list Z) : list (list Z) :=
  [ attestation_message MT_TellGroupId (groupid_body groupid name key None);
    attestation_message MT_AttestationMessage1 (g_a ++ trailer);
    attestation_message MT_AttestationMessage3 (le_encode 4 (Z.of_nat (length m3)) ++ m3) ].

Fixpoint receive (msgs : list (list Z)) : CI unit :=
  match msgs with
  | [] => mret tt
  | msg :: msgs => _ ← ClientImpl_on_network_message msg; receive msgs
  end.

(** The key of the connection is one that the owner of [private] can compute. *)
Definition connected_to (private : list Z) (c : client_impl) : Prop :=
  ci_state c = CI_Connected /\
  exists shared, ecc_compute_shared_dhkey private (dh_public (ci_dh c)) = Some shared /\
    derive_key shared SAMPLE_DERIVE_KEY_SK = Some (dh_sk (ci_dh c)).

(** C37.  Anybody who can be reached in place of the server is taken for it: with a key pair of
    its own, the name of the server, and a message 3 that holds anything at all, the client ends
    up connected under a key that the two have agreed on.  The checks of message 3 (the public
    key, its MAC, the report) only write to the log. *)
Theorem impostor_is_trusted groupid key private g_a seed trailer m3 c :
  ci_state c = CI_WaitingForGroupId -> in_range 32 groupid -> codec_wf (ci_server_name c) -> length key = 64%nat ->
  ecc_create_key_pair seed = Some (private, g_a) -> length trailer = 4%nat ->
  (exists key_seed, ecc_create_key_pair key_seed = Some (ci_private_key c, ci_public_key c)) ->
  msg3_in_bounds m3 = true -> in_range 32 (Z.of_nat (length m3)) ->
  wp (receive (impostor_messages groupid (ci_server_name c) key g_a trailer m3)) (fun _ => connected_to private) c.
Proof.
  intros Hst Hg Hn Hk Ha Ht [key_seed Hks] Hb Hr.
  assert (length g_a = 64%nat) as Hga.
  { destruct (key_pair_ok seed) as (p & g & E & Hl). rewrite Ha in E. by simplify_eq. }
  assert (msg1_g_a (g_a ++ trailer) = g_a) as Hm1 by (by apply take_app_length').
  unfold impostor_messages. cbn [receive].
  apply wp_bind. eapply wp_mono; [by apply client_tell_groupid|]. intros ? c1 [_ ->]. apply wp_bind.
  eapply wp_mono; [eapply client_message_one; [done|by rewrite length_app, Hga, Ht|by rewrite Hm1|exact Hks]|].
  intros ? c2 (m2 & Hm2 & _ & Hst2 & _). apply wp_bind. eapply wp_mono; [by apply client_message_three|].
  intros ? c3 (_ & Hst3 & E & Hgb & _). apply wp_ret. split; [done|].
  destruct (m2_shared _ _ _ _ Hm2) as (sh & ? & _ & ? & _). exists sh. rewrite E, Hgb, (m2_g_b _ _ _ _ Hm2). done.
Qed.

End ClientAttestation.

(** A client, and an impostor that sends zeros for message 3 *)
#[local] Existing Instances toy_crypto toy_crypto_laws.

Definition toy_client : client_impl :=
  mkClient "alice" "server" CI_WaitingForGroupId true EmptyString 0 [] None [1] (replicate 64 1)
    (mkDh [] [] [] [] [] [] [] []) (fun n => [Z.of_nat n]) 0 [].

Lemma impostor_is_trusted_witness :
  wp (receive (fun n => replicate n 0) (fun _ => mret [])
        (impostor_messages 0 "server" (replicate 64 9) (replicate 64 7) [0; 0; 0; 0] (replicate 768 0)))
    (fun _ => connected_to [7]) toy_client.
Proof.
  apply (impostor_is_trusted (fun n => replicate n 0) (fun _ => mret []) 0 (replicate 64 9) [7] (replicate 64 7) [7] [0; 0; 0; 0]
    (replicate 768 0) toy_client); [reflexivity|by vm_compute|by vm_compute|reflexivity|reflexivity|reflexivity| | |].
  - by exists [1].
  - by vm_compute.
  - by vm_compute.
Defined.
