(* ===== verification/Handshake.v ===== *)
(** * The handshake of a client and a server

    Composes the client library ([ClientAttestation.v]) with the server ([Attestation.v]): the
    messages that the server sends to a connection are delivered to the client in their order,
    and what the client answers is delivered to the server.  A handshake that is not disturbed
    ends with both sides connected under one key, and with the server knowing who the client
    is; the server also accepts clients that skip the handshake. *)

From S2P Require Import Prelude Bitstream Hash EncryptedIO Identity Ledger Wire KeyExchange RemoteParties Attestation ClientAttestation.

Section Handshake.
Context `{CryptoLaws} `{!Ra} `{AesGcm} {W : Type}.
Variable uninit : nat -> list Z.
Variable on_request : Z -> OpContext -> list Z -> ST W (list Z).
Variable get_triggers : string -> ST W (list Z).
Variable push_index_update : list Z -> Z -> Z -> Z -> ST W unit.
Variable handle_task_response : Z -> ST W unit.
Variable peer_type_response : W -> list Z.
Variable read_undecrypted_from_disk : string -> ST W (option (list Z)).
Variable resolve_and_connect : string -> option (string * Z).
Variable handle_connected : list Z -> ST client_impl (list Z).

Abbreviation SV := (ST (server W)).
Abbreviation server_receives := (on_network_message uninit on_request get_triggers push_index_update handle_task_response
  peer_type_response read_undecrypted_from_disk resolve_and_connect).
Abbreviation client_receives := (ClientImpl_on_network_message uninit handle_connected).

(** ** A server and a client *)

Definition system : Type := server W * client_impl.

Definition on_server {A} : SV A -> ST system A := zoom fst (fun s sys => (s, sys.2)).
Definition on_client {A} : ST client_impl A -> ST system A := zoom snd (fun c sys => (sys.1, c)).

(** The messages that were sent to a connection *)
Definition sent_to (id : Z) (h : host) : list (list Z) := snd <$> filter (fun m => m.1 = id) (h_sent h).

(** The next message is delivered, and the answer to it. *)
Definition round (id : Z) (i : nat) : ST system unit :=
  sys ← get_st;
  match sent_to id (sv_host sys.1) !! i with
  | None => mret tt
  | Some msg =>
      answer ← on_client (client_receives msg);
      if decide (answer = []) then mret tt else on_server (server_receives id answer)
  end.

Definition handshake : ST system Z :=
  id ← on_server (connect_client uninit);
  _ ← round id 0;
  _ ← round id 1;
  _ ← round id 2;
  mret id.

(** ** Single operations of the server *)

Lemma alter_to_insert {A} (f : A -> A) id (m : gmap Z A) a : m !! id = Some a -> alter f id m = <[id := f a]> m.
Proof.
  intros Ha. apply map_eq. intros j. destruct (decide (j = id)) as [->|Hne].
  - by rewrite lookup_alter_eq, lookup_insert_eq, Ha.
  - by rewrite lookup_alter_ne, lookup_insert_ne.
Qed.

Lemma wp_host_get id p Q h : h_parties h !! id = Some p -> Q p h -> wp (host_get id) Q h.
Proof. unfold wp, host_get. by intros ->. Qed.

Lemma wp_host_update id f p (Q : unit -> host -> Prop) h :
  h_parties h !! id = Some p -> Q tt (mkHost (<[id := f p]> (h_parties h)) (h_next h) (h_sent h)) -> wp (host_update id f) Q h.
Proof. intros Hp HQ. unfold host_update. apply wp_bind. eapply wp_host_get; [done|]. apply wp_modify. by rewrite (alter_to_insert f id _ p). Qed.

Lemma wp_host_send id data p (Q : unit -> host -> Prop) h :
  h_parties h !! id = Some p -> ho_open p = true -> Q tt (mkHost (h_parties h) (h_next h) (h_sent h ++ [(id, data)])) ->
  wp (host_send id data) Q h.
Proof. intros Hp Ho HQ. unfold host_send. apply wp_bind. eapply wp_host_get; [done|]. apply wp_modify. by rewrite Ho. Qed.

Lemma wp_update_party id f p (Q : unit -> registry -> Prop) r :
  rg_parties r !! id = Some p -> Q tt (set_parties (<[id := f p]> (rg_parties r)) r) -> wp (update_party id f) Q r.
Proof. intros Hp HQ. apply wp_modify. by rewrite (alter_to_insert f id _ p). Qed.

Lemma wp_stream {A B} (o : option A) a (k : A -> SV B) Q s : o = Some a -> wp (k a) Q s -> wp (stream o ≫= k) Q s.
Proof. by intros ->. Qed.

Lemma read_raw_all n bs : length bs = n -> read_raw (Z.of_nat n) bs = Some (bs, []).
Proof. intros <-. rewrite <- (app_nil_r bs) at 2. apply read_raw_app. Qed.

Lemma wp_self id p (Q : party -> server W -> Prop) s : rg_parties (sv_registry s) !! id = Some p -> Q p s -> wp (self id) Q s.
Proof. intros Hp HQ. unfold self. apply wp_bind, wp_get. unfold find. by rewrite Hp. Qed.

Lemma attempts_first {A} (f : nat -> option A) a : f 0%nat = Some a -> attempts f 0 NUM_RETRIES = Some a.
Proof. intros E. change NUM_RETRIES with (S 99). cbn [attempts]. by rewrite E. Qed.

(** ** The steps of the server *)

(** The enclave and the host have the party [p] and [hp] for the connection. *)
Definition connection (id : Z) (p : party) (hp : host_party) (s : server W) : Prop :=
  rg_parties (sv_registry s) !! id = Some p /\ h_parties (sv_host s) !! id = Some hp.

Lemma server_connect s :
  h_parties (sv_host s) !! h_next (sv_host s) = None -> rg_parties (sv_registry s) !! h_next (sv_host s) = None ->
  wp (connect_client uninit) (fun id s' => id = h_next (sv_host s) /\
    connection id (Client_new uninit) (mkHostParty true OneWay WaitingForGroupIdResult None None (le_decode (uninit 4))) s' /\
    h_sent (sv_host s') = h_sent (sv_host s) ++ [(id, attestation_message MT_TellGroupId (groupid_body (cf_groupid (sv_config s))
      (id_name (cf_identity (sv_config s))) (id_public_key (cf_identity (sv_config s))) (cf_upstream (sv_config s))))] /\
    sv_config s' = sv_config s /\ sv_identities s' = sv_identities s /\
    rg_uid_mapping (sv_registry s') = rg_uid_mapping (sv_registry s) /\ sv_sdk s' = sv_sdk s) s.
Proof.
  intros Hh Hr. set (id := h_next (sv_host s)) in *. unfold connect_client.
  apply wp_bind, wp_zoom. unfold wp, register_remote_party. fold id. rewrite Hh.
  apply wp_bind, wp_zoom, wp_modify. cbn [sv_registry]. rewrite Hr. apply wp_bind. unfold Attestation_init.
  apply wp_bind, wp_zoom. eapply wp_host_get; [apply lookup_insert_eq|]. cbn [ho_mode ho_state]. rewrite decide_True by done.
  unfold tell_groupid. apply wp_bind, wp_get. cbn [sv_config].
  apply wp_bind, wp_zoom. eapply wp_host_send; [apply lookup_insert_eq|done|].
  apply wp_zoom. eapply wp_host_update; [apply lookup_insert_eq|]. apply wp_ret. cbn.
  split_and!; try done. split; cbn; apply lookup_insert_eq.
Qed.

Lemma server_dispatch id type body p c hp Q s :
  connection id p hp s -> pa_kind p = KClient c -> cl_state c = CS_Attestation -> in_range 8 type ->
  wp (if type =? MT_GroupIdResponse then handle_groupid_response id body
      else if type =? MT_AttestationMessage2 then handle_attestation_message_two id body
      else if type =? MT_AttestationResult then Client_handle_attestation_result id body
      else mret tt) (fun _ => wp (Attestation_update id) Q) s ->
  wp (server_receives id (attestation_message type body)) Q s.
Proof.
  intros [Hp Hh] Hk Hc Ht Hm. unfold on_network_message. apply wp_bind, wp_zoom. eapply wp_host_get; [done|].
  replace (mkServer _ _ _ _ _ _) with s by (by destruct s).
  eapply wp_stream; [by apply (int_dec_enc 1)|]. cbv beta iota. apply wp_bind. cbn [Z.eqb Pos.eqb orb AttestationEnc Encrypted].
  unfold enclave_handle_message. apply wp_bind, wp_get. unfold find. rewrite Hp, Hk.
  unfold Client_handle_message, open_message, get_encryption_key. rewrite Hk, Hc. apply wp_bind, wp_bind, wp_ret.
  eapply wp_stream; [by apply (int_dec_enc 1)|]. cbv beta iota. cbn [Z.eqb Pos.eqb AttestationEnc].
  eapply wp_stream; [by apply (int_dec_enc 1)|]. cbv beta iota. apply wp_ret. cbv beta iota.
  eapply wp_stream; [by apply (int_dec_enc 1)|]. exact Hm.
Qed.

Lemma wp_catch (m h : SV unit) Q s : wp m Q s -> wp (catch_attestation_error m h) Q s.
Proof. unfold wp, catch_attestation_error. by destruct (m s) as [[[]|e] s']. Qed.

Context `{!RaLaws}.

(** What the server can do with a client's name and key *)
Record acceptable (name : string) (key : list Z) (s : server W) : Prop := {
  ac_db : exists i db, IdentityDatabase_get name key (sv_identities s) = (Ok i, db) /\
    id_name i = name /\ id_public_key i = key;
  ac_other : name <> id_name (cf_identity (sv_config s));
  ac_free : rg_uid_mapping (sv_registry s) !! hash_buffer key = None;
}.

Lemma server_groupid_identity id name key p hp s :
  connection id p hp s -> pa_identity p = None -> acceptable name key s ->
  wp (groupid_identity id name key) (fun _ s' =>
    exists i, id_name i = name /\ id_public_key i = key /\ connection id (mkParty (Some i) (pa_context p) (pa_kind p)) hp s' /\
      sv_host s' = sv_host s /\ sv_config s' = sv_config s /\ sv_sdk s' = sv_sdk s) s.
Proof.
  intros [Hp Hh] Hi [(i & db & Edb & Hn & Hk) Ho Hf]. unfold groupid_identity. apply wp_bind. eapply wp_self; [done|].
  rewrite Hi. apply wp_bind, wp_zoom. unfold wp at 1. rewrite Edb. apply wp_bind, wp_zoom.
  eapply wp_update_party; [done|]. apply wp_bind, wp_get. cbn [sv_config].
  unfold identity_eqb. rewrite bool_decide_eq_false_2 by (by rewrite Hn). apply wp_bind, wp_zoom.
  unfold set_identity, identity_uid. apply wp_bind, wp_get. cbn [sv_registry set_parties rg_uid_mapping]. rewrite Hk, Hf.
  apply wp_bind, wp_ret, wp_bind, wp_modify, wp_ret, wp_ret. exists i. split_and!; try done.
  split; cbn; [apply lookup_insert_eq|done].
Qed.

(** What the handler of the group id leaves: message 1 is sent. *)
Definition message_one_sent (id : Z) (p : party) (mode : AttestationMode) (name : string) (key : list Z) (s s' : server W) : Prop :=
  exists i context session private m1,
    connection id (mkParty (Some i) (pa_context p) (pa_kind p)) (mkHostParty true mode WaitingForMsg2 None None context) s' /\
    id_name i = name /\ id_public_key i = key /\ sd_sessions (sv_sdk s') !! context = Some session /\
    ra_peer session = key /\ ecc_create_key_pair (ra_seed session) = Some (private, msg1_g_a m1) /\ length m1 = sizeof_msg1 /\
    ra_seed session = sd_seeds (sv_sdk s) (sd_drawn (sv_sdk s)) /\
    h_sent (sv_host s') = h_sent (sv_host s) ++ [(id, attestation_message MT_AttestationMessage1 m1)] /\ sv_config s' = sv_config s.

Lemma groupid_response_step id p mode name key context s :
  connection id p (mkHostParty true mode WaitingForGroupIdResult None None context) s -> pa_identity p = None ->
  acceptable name key s -> codec_wf name -> length key = 64%nat ->
  wp (handle_groupid_response id (enc true ++ enc name ++ key))
    (fun _ => wp (Attestation_update id) (fun _ => message_one_sent id p mode name key s)) s.
Proof.
  intros Hc Hi Ha Hn Hl.
  unfold handle_groupid_response. eapply wp_stream; [by apply (dec_enc true)|]. cbv beta iota.
  eapply wp_stream; [by apply dec_enc|]. cbv beta iota.
  eapply wp_stream; [by apply (read_raw_all 64)|].
  cbv beta iota. eapply wp_catch. apply wp_bind. eapply wp_mono; [by eapply server_groupid_identity|].
  intros _ s1 (i & Hin & Hik & [Hp1 Hh1] & Eh & Ec & Esd). apply wp_zoom. eapply wp_host_update; [done|]. fields.
  unfold Attestation_update. apply wp_bind, wp_zoom. eapply wp_host_get; [apply lookup_insert_eq|]. fields.
  apply wp_bind, wp_bind. unfold handle_groupid_result. cbn [negb].
  apply wp_bind. unfold credb_ra_init. apply wp_bind, wp_get. unfold find. fields. rewrite Hp1.
  apply wp_bind. unfold party_public_key. cbn [pa_identity]. apply wp_ret. apply wp_bind, wp_zoom. unfold wp at 1, draw. fields.
  set (seed := sd_seeds _ _). rewrite Hik. destruct (ra_init_ok seed key) as (ses & -> & Hseed & Hpeer).
  apply wp_zoom. unfold wp at 1. fields. apply wp_bind, wp_zoom. eapply wp_host_update; [apply lookup_insert_eq|]. fields.
  apply wp_bind, wp_get. fields. rewrite lookup_insert_eq.
  destruct (key_pair_ok seed) as (private & g_a & Ek & _). rewrite <- Hseed in Ek.
  destruct (ra_msg1_ok 0 ses private g_a Ek) as (m1 & ses' & Em1 & Hml & Hga & Hseed' & Hpeer').
  cbn [mbind option_bind]. rewrite (attempts_first (fun i => ra_get_msg1 i ses) (m1, ses') Em1).
  apply wp_bind, wp_zoom, wp_modify. fields. apply wp_bind, wp_zoom. eapply wp_host_send; [apply lookup_insert_eq|done|]. fields.
  apply wp_bind, wp_zoom. eapply wp_host_update; [apply lookup_insert_eq|]. fields. apply wp_ret, wp_bind, wp_zoom.
  eapply wp_host_update; [apply lookup_insert_eq|]. fields. apply wp_ret, wp_ret.
  eexists i, _, ses', private, m1. unfold connection. fields. rewrite Ec, Hga, Hseed', Hpeer', Eh, !lookup_insert_eq, <- Esd. by split_and!.
Qed.

(** The group id is accepted and message 1 sent. *)
Lemma server_groupid_response id name key context s :
  connection id (Client_new uninit) (mkHostParty true OneWay WaitingForGroupIdResult None None context) s ->
  acceptable name key s -> codec_wf name -> length key = 64%nat ->
  wp (server_receives id (attestation_message MT_GroupIdResponse (enc true ++ enc name ++ key)))
    (fun _ => message_one_sent id (Client_new uninit) OneWay name key s) s.
Proof. intros. eapply server_dispatch; [done|done|done|done|]. by eapply groupid_response_step. Qed.

(** Message 2 is answered with message 3. *)
Lemma server_message_two id p c context session private g_a client m2 s :
  connection id p (mkHostParty true OneWay WaitingForMsg2 None None context) s ->
  pa_kind p = KClient c -> cl_state c = CS_Attestation -> sd_sessions (sv_sdk s) !! context = Some session ->
  ecc_create_key_pair (ra_seed session) = Some (private, g_a) -> ra_peer session = ci_public_key client ->
  message_two_right private g_a client m2 -> in_range 32 (Z.of_nat (length (msg2_bytes m2))) ->
  wp (server_receives id (attestation_message MT_AttestationMessage2 (le_encode 4 (Z.of_nat (length (msg2_bytes m2))) ++ msg2_bytes m2)))
    (fun _ s' => exists m3 session,
      connection id (mkParty (pa_identity p) context (pa_kind p)) (mkHostParty true OneWay WaitingForMsg2 None None context) s' /\
      sd_sessions (sv_sdk s') !! context = Some session /\ ra_get_sk session = Some (dh_sk (ci_dh client)) /\
      msg3_good (dh_smk (ci_dh client)) (dh_vk (ci_dh client)) g_a (dh_public (ci_dh client)) m3 /\
      h_sent (sv_host s') = h_sent (sv_host s) ++
        [(id, attestation_message MT_AttestationMessage3 (le_encode 4 (Z.of_nat (length m3)) ++ m3))]) s.
Proof.
  intros Hc Hk Hst Hses Hkp Hpeer Hm Hr. eapply server_dispatch; [done|done|done|done|]. destruct Hc as [Hp Hh].
  cbn [Z.eqb Pos.eqb MT_GroupIdResponse MT_AttestationMessage2].
  unfold handle_attestation_message_two. eapply wp_stream; [by apply (int_dec_enc 4)|]. cbv beta iota.
  eapply wp_stream; [by apply read_raw_all|]. cbv beta iota.
  apply wp_zoom. unfold queue_msg2. apply wp_bind. eapply wp_host_get; [done|]. fields. eapply wp_host_update; [done|]. fields.
  unfold Attestation_update. apply wp_bind, wp_zoom. eapply wp_host_get; [apply lookup_insert_eq|]. fields.
  apply wp_bind, wp_bind. unfold handle_msg2. apply wp_bind, wp_zoom. eapply wp_host_get; [apply lookup_insert_eq|]. fields.
  apply wp_bind, wp_get. fields. rewrite Hses. cbn [mbind option_bind].
  destruct (m2_shared _ _ _ _ Hm) as (shared & Esh & Esmk & Esk & Evk).
  destruct (ra_msg2_ok 0 session m2 private g_a shared (dh_smk (ci_dh client)) (dh_sk (ci_dh client)) (dh_vk (ci_dh client)))
    as (m3 & ses' & Em3 & Hsk & Hgood); try done; try (rewrite ?Hpeer; by apply Hm).
  rewrite (attempts_first (fun i => ra_proc_msg2 i session (msg2_bytes m2)) (m3, ses') Em3).
  apply wp_bind, wp_zoom, wp_modify. fields. apply wp_bind, wp_zoom. eapply wp_host_send; [apply lookup_insert_eq|done|]. fields.
  apply wp_bind, wp_zoom. eapply wp_update_party; [exact Hp|]. fields. cbn [decide]. apply wp_bind.
  rewrite decide_False by done. apply wp_ret, wp_ret, wp_bind, wp_zoom.
  eapply wp_host_update; [apply lookup_insert_eq|]. fields. apply wp_ret, wp_ret.
  exists m3, ses'. unfold connection. fields. rewrite (m2_g_b _ _ _ _ Hm), !lookup_insert_eq. by split_and!.
Qed.

(** The result of the attestation is good news, whatever was attested. *)
Lemma server_result id p c hp blob mac s :
  connection id p hp s -> pa_kind p = KClient c -> cl_state c = CS_Attestation -> length mac = SAMPLE_MAC_SIZE ->
  length blob = sizeof_info_blob -> ho_groupid_result hp = None -> ho_msg2 hp = None ->
  wp (server_receives id (attestation_message MT_AttestationResult (le_encode 4 0 ++ le_encode 4 0 ++ blob ++ mac))) (fun _ s' =>
    connection id (mkParty (pa_identity p) (pa_context p) (KClient (mkClientParty CS_Connected
      (match (session ← sd_sessions (sv_sdk s) !! pa_context p; ra_get_sk session) with
       | Some key => key
       | None => cl_sk_key c
       end)))) hp s' /\ h_sent (sv_host s') = h_sent (sv_host s)) s.
Proof.
  intros Hc Hk Hst Hm Hu Hg Hm2. eapply server_dispatch; [done|done|done|done|]. destruct Hc as [Hp Hh].
  cbn [Z.eqb Pos.eqb MT_GroupIdResponse MT_AttestationMessage2 MT_AttestationResult].
  unfold Client_handle_attestation_result. eapply wp_stream; [by apply (int_dec_enc 4)|]. cbv beta iota.
  eapply wp_stream; [by apply (int_dec_enc 4)|]. cbv beta iota.
  eapply wp_stream; [rewrite <- Hu at 1; apply read_raw_app|]. cbv beta iota.
  eapply wp_stream; [by apply read_raw_all|]. cbv beta iota. cbn [Z.eqb negb orb].
  apply wp_bind. eapply wp_self; [done|]. apply wp_bind, wp_get. rewrite Hk. apply wp_zoom. eapply wp_update_party; [done|]. fields.
  unfold Attestation_update. apply wp_bind, wp_zoom. eapply wp_host_get; [done|]. fields. rewrite Hg, Hm2.
  destruct (ho_state hp); apply wp_bind, wp_ret, wp_ret; unfold connection; fields; rewrite lookup_insert_eq; by split_and!.
Qed.

(** ** The undisturbed handshake *)

Lemma msg2_length private_a g_a c m : message_two_right private_a g_a c m -> length (msg2_bytes m) = 168%nat.
Proof.
  intros [_ _ Hm _ _ Hb Hs]. destruct (make_msg2_ok (dh_smk (ci_dh c)) (msg2_g_b m) (msg2_sign_gb_ga m)) as (m' & E & _ & _ & _ & Hl).
  rewrite Hm in E. simplify_eq. by apply Hl.
Qed.

Lemma sent_to_app id h h' m : h_sent h' = h_sent h ++ [(id, m)] -> sent_to id h' = sent_to id h ++ [m].
Proof. intros E. unfold sent_to. rewrite E, filter_app, fmap_app, filter_cons_True by done. done. Qed.

Lemma wp_round id i msg (Q : unit -> system -> Prop) s c :
  sent_to id (sv_host s) !! i = Some msg ->
  wp (client_receives msg) (fun answer c' => answer <> [] /\ wp (server_receives id answer) (fun _ s' => Q tt (s', c')) s) c ->
  wp (round id i) Q (s, c).
Proof.
  intros Hm Hw. unfold round. apply wp_bind, wp_get. cbn [fst]. rewrite Hm. apply wp_bind, wp_zoom. cbn [snd fst].
  eapply wp_mono; [exact Hw|]. intros a c' [Ha Hs]. cbn beta. rewrite decide_False by done. apply wp_zoom.
  eapply wp_mono; [exact Hs|]. by intros [] ?.
Qed.

(** A client that is about to connect to this server, and that the server can tell from others *)
Record may_connect (s : server W) (c : client_impl) : Prop := {
  mc_host : h_parties (sv_host s) !! h_next (sv_host s) = None;
  mc_registry : rg_parties (sv_registry s) !! h_next (sv_host s) = None;
  mc_sent : sent_to (h_next (sv_host s)) (sv_host s) = [];
  mc_state : ci_state c = CI_WaitingForGroupId;
  mc_name : ci_server_name c = id_name (cf_identity (sv_config s));
  mc_names : codec_wf (ci_server_name c) /\ codec_wf (ci_name c);
  mc_groupid : in_range 32 (cf_groupid (sv_config s));
  mc_key : length (id_public_key (cf_identity (sv_config s))) = 64%nat;
  mc_upstream : forall key, cf_upstream (sv_config s) = Some key -> length key = 64%nat;
  mc_key_pair : exists seed, ecc_create_key_pair seed = Some (ci_private_key c, ci_public_key c);
  mc_acceptable : acceptable (ci_name c) (ci_public_key c) s;
}.

(** The server knows the client by its name and key, the two have the same session key, and the
    client had nothing to report. *)
Definition both_connected (id : Z) (log : list string) (sys : system) : Prop :=
  let '(s, c) := sys in
  ci_state c = CI_Connected /\ ci_log c = log /\
  exists p i, find id (sv_registry s) = Some p /\ pa_identity p = Some i /\ id_name i = ci_name c /\
    id_public_key i = ci_public_key c /\ pa_kind p = KClient (mkClientParty CS_Connected (dh_sk (ci_dh c))).

(** C12.  A handshake that nobody disturbs succeeds.  From the connection on, the group id, message
    1, 2 and 3 and the result are exchanged; then both sides are connected under the same session
    key, none of the client's checks has failed, and the server has the client's identity. *)
Theorem handshake_connects s c :
  may_connect s c -> length (uninit sizeof_info_blob) = sizeof_info_blob ->
  wp handshake (fun id => both_connected id (ci_log c)) (s, c).
Proof.
  intros Hmc Hu. unfold handshake. apply wp_bind, wp_zoom. cbn [fst].
  eapply wp_mono; [by apply server_connect; apply Hmc|]. intros id s1 (-> & Hc1 & Es1 & Ecf & Edb & Euid & _). cbn [snd].
  set (id := h_next (sv_host s)) in *. apply sent_to_app in Es1. unfold id in Es1. rewrite (mc_sent _ _ Hmc) in Es1. fold id in Es1.
  destruct (mc_key_pair _ _ Hmc) as [key_seed Hkp].
  assert (length (ci_public_key c) = 64%nat) as Hkl.
  { destruct (key_pair_ok key_seed) as (? & ? & E & ?). rewrite Hkp in E. by simplify_eq. }
  apply wp_bind. eapply wp_round; [by rewrite Es1|]. rewrite <- (mc_name _ _ Hmc).
  eapply wp_mono; [by apply client_tell_groupid; apply Hmc|]. intros ? c1 [-> ->]. split; [done|].
  assert (acceptable (ci_name c) (ci_public_key c) s1) as Hacc.
  { destruct (mc_acceptable _ _ Hmc). split; by rewrite ?Edb, ?Ecf, ?Euid. }
  eapply wp_mono; [by eapply server_groupid_response; first [done|apply Hmc]|].
  intros _ s2 (i & context & session & private & m1 & Hc2 & Hin & Hik & Hses & Hpeer & Hses2 & Hm1 & _ & Es2 & _).
  apply sent_to_app in Es2. rewrite Es1 in Es2. apply wp_bind. eapply wp_round; [by rewrite Es2|].
  eapply wp_mono; [by eapply client_message_one|]. intros ? c2 (m2 & Hm2 & -> & Hst2 & Hlog2 & Hn2 & Hk2). split; [done|].
  eapply wp_mono; [eapply (server_message_two _ _ _ _ _ _ _ c2); [exact Hc2|done|done|exact Hses|exact Hses2|by rewrite Hk2|done|
    by rewrite (msg2_length _ _ _ _ Hm2)]|].
  intros _ s3 (m3 & session' & Hc3 & Hses3 & Hsk & Hgood & Es3).
  apply sent_to_app in Es3. rewrite Es2 in Es3. apply wp_bind. eapply wp_round; [by rewrite Es3|].
  eapply wp_mono; [by eapply client_message_three; first [done|apply Hgood]|].
  intros ? c3 ((mac & Hmac & ->) & Hst3 & Esk & _ & Hn3 & Hk3 & Hlog3). split; [done|].
  eapply wp_mono; [by eapply server_result|]. intros _ s4 [[Hp4 _] _]. apply wp_ret.
  cbn [pa_context] in Hp4. rewrite Hses3 in Hp4. cbn [mbind option_bind] in Hp4. rewrite Hsk in Hp4.
  split_and!; [done| |].
  - rewrite Hlog3, Hlog2; [done|]. by rewrite (m2_g_a _ _ _ _ Hm2).
  - eexists _, i. split_and!; [exact Hp4|done|by rewrite Hn3, Hn2|by rewrite Hk3, Hk2|by rewrite Esk].
Qed.

(** A client that sends a result and nothing else *)
Definition send_result_only (blob mac : list Z) : SV Z :=
  id ← connect_client uninit;
  _ ← server_receives id (attestation_message MT_AttestationResult (le_encode 4 0 ++ le_encode 4 0 ++ blob ++ mac));
  mret id.

(**  A client does not have to go through the handshake: if the first thing it sends is a
    result that says that attestation has succeeded (the MAC is not looked at), the server takes
    it for connected, without a name or key of it, under a key that nothing was written to. *)
Theorem result_alone_connects blob mac s :
  h_parties (sv_host s) !! h_next (sv_host s) = None -> rg_parties (sv_registry s) !! h_next (sv_host s) = None ->
  sd_sessions (sv_sdk s) = ∅ -> length blob = sizeof_info_blob -> length mac = SAMPLE_MAC_SIZE ->
  wp (send_result_only blob mac)
    (fun id s' => find id (sv_registry s') = Some (mkParty None (-1) (KClient (mkClientParty CS_Connected (uninit 16))))) s.
Proof.
  intros Hh Hr Hs Hb Hm. apply wp_bind. eapply wp_mono; [by apply server_connect|].
  intros id s1 (-> & Hc & _ & _ & _ & _ & Esd). apply wp_bind. eapply wp_mono; [by eapply server_result|].
  intros _ s2 [[Hp _] _]. apply wp_ret. unfold find. rewrite Hp, Esd, Hs. done.
Qed.

End Handshake.

(** ** A server and a client for which the hypotheses hold *)

#[local] Existing Instances toy_crypto toy_crypto_laws toy_ra toy_ra_laws null_cipher.

Definition toy_config : config := mkConfig (mkIdentity IdServer "server" (replicate 64 5)) [5] 0 None.
Definition toy_server : server unit :=
  mkServer toy_config ∅ RemoteParties_new host_new (mkSdk ∅ 0 (fun n => [Z.of_nat n]) 0) tt.
Definition zeros (n : nat) : list Z := replicate n 0.

Lemma handshake_connects_witness :
  wp (handshake zeros (fun _ _ _ => mret []) (fun _ => mret []) (fun _ _ _ _ => mret tt) (fun _ => mret tt) (fun _ => [])
        (fun _ => mret None) (fun _ => None) (fun _ => mret []))
    (fun id => both_connected id []) (toy_server, toy_client).
Proof.
  apply (handshake_connects zeros (fun _ _ _ => mret []) (fun _ => mret []) (fun _ _ _ _ => mret tt) (fun _ => mret tt) (fun _ => [])
    (fun _ => mret None) (fun _ => None) (fun _ => mret []) toy_server toy_client); [|reflexivity].
  split; [reflexivity..| |by vm_compute|reflexivity|done|by exists [1]|].
  - split; by vm_compute.
  - split; [|by vm_compute|apply lookup_empty]. exists (mkIdentity IdServer "alice" (replicate 64 1)). eexists.
    split; [|split; reflexivity]. unfold IdentityDatabase_get.
    rewrite decide_False by (by vm_compute). reflexivity.
Defined.

Lemma result_alone_connects_witness :
  wp (send_result_only zeros (fun _ _ _ => mret []) (fun _ => mret []) (fun _ _ _ _ => mret tt) (fun _ => mret tt) (fun _ => [])
        (fun _ => mret None) (fun _ => None) (zeros sizeof_info_blob) (zeros 16))
    (fun id s' => find id (sv_registry s') = Some (mkParty None (-1) (KClient (mkClientParty CS_Connected (zeros 16))))) toy_server.
Proof.
  apply (result_alone_connects zeros (fun _ _ _ => mret []) (fun _ => mret []) (fun _ _ _ _ => mret tt) (fun _ => mret tt) (fun _ => [])
    (fun _ => mret None) (fun _ => None)); reflexivity.
Defined.

(** Two connections, of which one sends something and leaves *)
Lemma server_registry_consistent_witness :
  let r := sv_registry (server_events zeros (fun _ _ _ => mret []) (fun _ => mret []) (fun _ _ _ _ => mret tt) (fun _ => mret tt)
    (fun _ => mret tt) (fun _ => []) (fun _ => mret None) (fun _ => None)
    [ClientConnects; PeerConnects "host" 5042; Receives 1 [2; 1; 1]; Leaves 1] toy_server).2 in
  (forall name p, find_by_name name r = Some p -> exists i, pa_identity p = Some i /\ id_name i = name) /\
  (forall uid p, find_by_uid uid r = Some p -> exists i, pa_identity p = Some i /\ identity_uid i = uid) /\
  (forall name id, rg_name_mapping r !! name = Some id -> is_Some (find id r)) /\
  (forall uid id, rg_uid_mapping r !! uid = Some id -> is_Some (find id r)).
Proof. apply server_registry_consistent. apply registry_ok_new. Defined.
