(* ===== verification/PeerAttestation.v ===== *)
(** * Attestation among servers

    Two servers of [Attestation.v] that attest each other: what a server checks before it trusts
    another one, and how far two servers get.  The one that connects (the initiator) is attested
    in the first phase, the other one in the second phase. *)

From S2P Require Import Prelude Bitstream Hash EncryptedIO Identity Ledger Wire KeyExchange RemoteParties Attestation ClientAttestation Handshake.

Section PeerAttestation.
Context `{CryptoLaws} `{!Ra} `{AesGcm} {W : Type}.
Variable uninit : nat -> list Z.
Variable on_request : Z -> OpContext -> list Z -> ST W (list Z).
Variable get_triggers : string -> ST W (list Z).
Variable push_index_update : list Z -> Z -> Z -> Z -> ST W unit.
Variable handle_task_response : Z -> ST W unit.
Variable peer_type_response : W -> list Z.
Variable read_undecrypted_from_disk : string -> ST W (option (list Z)).
Variable resolve_and_connect : string -> option (string * Z).

Abbreviation SV := (ST (server W)).
Abbreviation server_receives := (on_network_message uninit on_request get_triggers push_index_update handle_task_response
  peer_type_response read_undecrypted_from_disk resolve_and_connect).

(** ** What is checked *)

Lemma self_peer_run id p peer s : rg_parties (sv_registry s) !! id = Some p -> pa_kind p = KPeer peer ->
  self_peer id s = (Ok peer, s : server W).
Proof.
  intros Hp Hk. unfold self_peer, self, mbind, ST_bind, get_st, find. cbn. rewrite Hp. cbn. unfold as_peer. by rewrite Hk.
Qed.

(** The keys of the peer and a message 3 that agree *)
Definition peer_trusts (peer : peer_party) (m3 : list Z) : Prop :=
  msg3_g_a m3 = pr_dhke_other_public peer /\ cmac_msg (pr_smk_key peer) (msg3_cmaced m3) = Some (msg3_mac m3) /\
  exists hash, sha256 (pr_dhke_other_public peer ++ pr_dhke_public peer ++ pr_vk_key peer) = Some hash /\
    msg3_report_data m3 = hash ++ replicate 32 0.

(** C14.  A server goes on with the attestation of another server only if message 3 is right: its
    public key is that of message 1, its MAC is right, and the report is over the two public keys
    and the key [VK].  Otherwise nothing is sent and the phase does not change. *)
Theorem peer_message_three_checked id p peer m3 (s : server W) :
  rg_parties (sv_registry s) !! id = Some p -> pa_kind p = KPeer peer ->
  msg3_in_bounds m3 = true -> in_range 32 (Z.of_nat (length m3)) ->
  ~ peer_trusts peer m3 ->
  wp (handle_attestation_message_three uninit id (le_encode 4 (Z.of_nat (length m3)) ++ m3))
    (fun ok s' => ok = false /\ sv_host s' = sv_host s /\
       exists peer', find_peer id (sv_registry s') = Some peer' /\ pr_state peer' = pr_state peer /\
         pr_encryption_key peer' = pr_encryption_key peer) s.
Proof.
  intros Hp Hk Hb Hr Hno. assert (find_peer id (sv_registry s) = Some peer) as Hf.
  { unfold find_peer, find. rewrite Hp. cbn. unfold as_peer. by rewrite Hk. }
  unfold handle_attestation_message_three. eapply wp_stream; [by apply (int_dec_enc 4)|]. cbv beta iota.
  eapply wp_stream; [by apply read_raw_all|]. cbv beta iota.
  apply wp_bind. unfold wp at 1. erewrite self_peer_run by done.
  assert ((length m3 <? 80)%nat = false) as ->.
  { apply Nat.ltb_ge. unfold msg3_in_bounds in Hb. apply Nat.leb_le in Hb. etrans; [|exact Hb]. apply Nat.leb_le. reflexivity. }
  case_decide as Hga; [apply wp_ret; eauto 6|].
  destruct (cmac_ok (pr_smk_key peer) (msg3_cmaced m3)) as (mac & Emac & _). rewrite Emac. cbn [or_fail].
  case_decide as Hmac; [apply wp_ret; eauto 6|]. rewrite Hb. cbn [negb].
  apply wp_bind, wp_zoom. eapply wp_update_party; [done|].
  destruct (sha256_ok (pr_dhke_other_public peer ++ pr_dhke_public peer ++ pr_vk_key peer)) as (hash & Ehash & _).
  rewrite Ehash. cbn [or_fail]. rewrite decide_True.
  - apply wp_ret. split_and!; [done|done|]. unfold find_peer, find. fields. rewrite lookup_insert_eq. cbn. rewrite Hk. by eexists.
  - intros Hrep. apply Hno. split_and!; [done|by rewrite Hmac|]. exists hash. by rewrite Hrep.
Qed.

(** ** Two servers *)

Definition servers : Type := server W * server W.

Definition on_first {A} : SV A -> ST servers A := zoom fst (fun s sys => (s, sys.2)).
Definition on_second {A} : SV A -> ST servers A := zoom snd (fun t sys => (sys.1, t)).

(** Message [i] of the one is delivered to the other. *)
Definition to_second (a b : Z) (i : nat) : ST servers unit :=
  sys ← get_st;
  match sent_to a (sv_host sys.1) !! i with Some msg => on_second (server_receives b msg) | None => mret tt end.
Definition to_first (a b : Z) (i : nat) : ST servers unit :=
  sys ← get_st;
  match sent_to b (sv_host sys.2) !! i with Some msg => on_first (server_receives a msg) | None => mret tt end.

(** The first server connects to the second one: group id, its response, message 1, message 2 *)
Definition peers_attest (hostname : string) (port : Z) : ST servers (Z * Z) :=
  a ← on_first (connect_peer uninit hostname port true);
  b ← on_second (connect_peer uninit hostname port false);
  _ ← to_second a b 0;
  _ ← to_first a b 0;
  _ ← to_second a b 1;
  _ ← to_first a b 1;
  mret (a, b).

Lemma wp_to_second a b i msg (Q : unit -> servers -> Prop) s t :
  sent_to a (sv_host s) !! i = Some msg -> wp (server_receives b msg) (fun _ t' => Q tt (s, t')) t -> wp (to_second a b i) Q (s, t).
Proof.
  intros Hm Hw. unfold to_second. apply wp_bind, wp_get. cbn [fst]. rewrite Hm. apply wp_zoom. eapply wp_mono; [exact Hw|]. by intros [] ?.
Qed.
Lemma wp_to_first a b i msg (Q : unit -> servers -> Prop) s t :
  sent_to b (sv_host t) !! i = Some msg -> wp (server_receives a msg) (fun _ s' => Q tt (s', t)) s -> wp (to_first a b i) Q (s, t).
Proof.
  intros Hm Hw. unfold to_first. apply wp_bind, wp_get. cbn [snd]. rewrite Hm. apply wp_zoom. eapply wp_mono; [exact Hw|]. by intros [] ?.
Qed.

(** ** The steps *)

Definition fresh (s : server W) : Prop :=
  h_parties (sv_host s) !! h_next (sv_host s) = None /\ rg_parties (sv_registry s) !! h_next (sv_host s) = None /\
  sent_to (h_next (sv_host s)) (sv_host s) = [].

Lemma initiator_connects hostname port s :
  fresh s ->
  wp (connect_peer uninit hostname port true) (fun id s' => id = h_next (sv_host s) /\
    connection id (Peer_new uninit hostname port true)
      (mkHostParty true TwoWay_IsInitiator WaitingForGroupIdResult None None (le_decode (uninit 4))) s' /\
    sent_to id (sv_host s') = [attestation_message MT_TellGroupId (groupid_body (cf_groupid (sv_config s))
      (id_name (cf_identity (sv_config s))) (id_public_key (cf_identity (sv_config s))) (cf_upstream (sv_config s)))] /\
    sv_config s' = sv_config s /\ sv_identities s' = sv_identities s /\ sv_sdk s' = sv_sdk s /\
    rg_uid_mapping (sv_registry s') = rg_uid_mapping (sv_registry s)) s.
Proof.
  intros (Hh & Hr & Hs). set (id := h_next (sv_host s)) in *. unfold connect_peer.
  apply wp_bind, wp_zoom. unfold wp, register_remote_party. fold id. rewrite Hh.
  apply wp_bind, wp_zoom, wp_modify. fields. rewrite Hr. apply wp_bind. unfold Attestation_init.
  apply wp_bind, wp_zoom. eapply wp_host_get; [apply lookup_insert_eq|]. fields. rewrite decide_True by done.
  unfold tell_groupid. apply wp_bind, wp_get. fields.
  apply wp_bind, wp_zoom. eapply wp_host_send; [apply lookup_insert_eq|done|]. fields.
  apply wp_zoom. eapply wp_host_update; [apply lookup_insert_eq|]. fields. apply wp_ret. unfold connection. fields.
  split_and!; try done; [by rewrite !lookup_insert_eq..|].
  by erewrite (sent_to_app id (sv_host s)), Hs.
Qed.

Lemma other_accepts hostname port t :
  fresh t ->
  wp (connect_peer uninit hostname port false) (fun id t' => id = h_next (sv_host t) /\
    connection id (Peer_new uninit hostname port false)
      (mkHostParty true TwoWay_NotInitiator TellGroupId None None (le_decode (uninit 4))) t' /\
    sent_to id (sv_host t') = [] /\ sv_config t' = sv_config t /\ sv_sdk t' = sv_sdk t /\ sv_world t' = sv_world t) t.
Proof.
  intros (Hh & Hr & Hs). set (id := h_next (sv_host t)) in *. unfold connect_peer.
  apply wp_bind, wp_zoom. unfold wp, register_remote_party. fold id. rewrite Hh.
  apply wp_bind, wp_zoom, wp_modify. fields. rewrite Hr. apply wp_bind. unfold Attestation_init.
  apply wp_bind, wp_zoom. eapply wp_host_get; [apply lookup_insert_eq|]. fields. do 2 apply wp_ret. unfold connection. fields.
  by rewrite !lookup_insert_eq.
Qed.

(** A message of the attestation, as long as the peer is not connected *)
Lemma peer_dispatch id type body p peer hp Q s :
  connection id p hp s -> pa_kind p = KPeer peer -> pr_state peer = Attestation_Phase1 -> in_range 8 type ->
  wp (if pr_is_initiator peer then
        if type =? MT_GroupIdResponse then handle_groupid_response id body
        else if type =? MT_AttestationMessage2 then handle_attestation_message_two id body
        else if type =? MT_AttestationResult then Peer_handle_attestation_result uninit id body
        else mret tt
      else
        if type =? MT_TellGroupId then
          '((group_id, _) : Z * list Z) ← stream (int_dec 4 body);
          _ ← set_peer id (set_group_id group_id);
          s ← get_st;
          send_attestation_msg id (le_encode 1 MT_GroupIdResponse ++ enc true ++ enc (id_name (cf_identity (sv_config s))) ++
                                   id_public_key (cf_identity (sv_config s)))
        else if type =? MT_AttestationMessage1 then ignore_result (handle_attestation_message_one id body)
        else if type =? MT_AttestationMessage3 then ignore_result (handle_attestation_message_three uninit id body)
        else mret tt) (fun _ => wp (Attestation_update id) Q) s ->
  wp (server_receives id (attestation_message type body)) Q s.
Proof.
  intros [Hp Hh] Hk Hc Ht Hm. unfold on_network_message. apply wp_bind, wp_zoom. eapply wp_host_get; [done|].
  replace (mkServer _ _ _ _ _ _) with s by (by destruct s).
  eapply wp_stream; [by apply (int_dec_enc 1)|]. cbv beta iota. apply wp_bind. cbn [Z.eqb Pos.eqb orb AttestationEnc Encrypted].
  unfold enclave_handle_message. apply wp_bind, wp_get. unfold find. rewrite Hp, Hk.
  unfold Peer_handle_message, open_message, get_encryption_key. rewrite Hk, Hc. apply wp_bind, wp_bind, wp_ret.
  eapply wp_stream; [by apply (int_dec_enc 1)|]. cbv beta iota. cbn [Z.eqb Pos.eqb AttestationEnc].
  eapply wp_stream; [by apply (int_dec_enc 1)|]. cbv beta iota. apply wp_ret. cbv beta iota.
  rewrite length_app, le_encode_length. cbn [Z.eqb Pos.eqb negb andb Nat.add Nat.ltb Nat.leb AttestationEnc Encrypted].
  eapply wp_stream; [by apply (int_dec_enc 1)|]. cbv beta iota. rewrite decide_False by done. unfold is_attested. rewrite Hc. exact Hm.
Qed.

Lemma wp_set_peer id f p peer (Q : unit -> server W -> Prop) s :
  rg_parties (sv_registry s) !! id = Some p -> pa_kind p = KPeer peer ->
  Q tt (mkServer (sv_config s) (sv_identities s)
         (set_parties (<[id := mkParty (pa_identity p) (pa_context p) (KPeer (f peer))]> (rg_parties (sv_registry s))) (sv_registry s))
         (sv_host s) (sv_sdk s) (sv_world s)) -> wp (set_peer id f) Q s.
Proof. intros Hp Hk HQ. unfold set_peer. apply wp_zoom. eapply wp_update_party; [done|]. by rewrite Hk. Qed.

(** A peer in the first phase that attests the other one *)
Definition attesting (id : Z) (context : Z) (t : server W) : Prop :=
  exists p peer, connection id p (mkHostParty true TwoWay_NotInitiator TellGroupId None None context) t /\
    pa_kind p = KPeer peer /\ pr_state peer = Attestation_Phase1 /\ pr_is_initiator peer = false.

Lemma attesting_update id context (Q : unit -> server W -> Prop) t : attesting id context t -> Q tt t -> wp (Attestation_update id) Q t.
Proof.
  intros (p & peer & [Hp Hh] & _) HQ. unfold Attestation_update. apply wp_bind, wp_zoom. eapply wp_host_get; [done|]. fields.
  apply wp_bind, wp_ret, wp_ret. by destruct t.
Qed.

Lemma other_group_id id context groupid body t :
  attesting id context t -> in_range 32 groupid ->
  wp (server_receives id (attestation_message MT_TellGroupId (le_encode 4 groupid ++ body))) (fun _ t' =>
    attesting id context t' /\ sv_config t' = sv_config t /\ sv_sdk t' = sv_sdk t /\
    sent_to id (sv_host t') = sent_to id (sv_host t) ++ [attestation_message MT_GroupIdResponse
      (enc true ++ enc (id_name (cf_identity (sv_config t))) ++ id_public_key (cf_identity (sv_config t)))]) t.
Proof.
  intros (p & peer & [Hp Hh] & Hk & Hst & Hi) Hg. eapply peer_dispatch; [done|done|done|done|]. rewrite Hi.
  cbn [Z.eqb MT_TellGroupId]. eapply wp_stream; [by apply (int_dec_enc 4)|]. cbv beta iota. apply wp_bind.
  eapply wp_set_peer; [done|done|]. apply wp_bind, wp_get. fields. apply wp_zoom. eapply wp_host_send; [done|done|]. fields.
  set (t' := mkServer _ _ _ _ _ _). assert (attesting id context t') as Ht'.
  { unfold attesting, connection, t'. fields. do 2 eexists. by rewrite lookup_insert_eq. }
  eapply attesting_update; [done|]. split_and!; [done|done|done|]. by apply sent_to_app.
Qed.

(** Message 1 is answered with a message 2 that is signed, but not over the two public keys. *)
Lemma other_message_one id context m1 seed private_a t :
  attesting id context t -> length m1 = sizeof_msg1 -> ecc_create_key_pair seed = Some (private_a, msg1_g_a m1) ->
  (exists seed, ecc_create_key_pair seed = Some (cf_private_key (sv_config t), id_public_key (cf_identity (sv_config t)))) ->
  wp (server_receives id (attestation_message MT_AttestationMessage1 m1)) (fun _ t' =>
    exists private_b m2 seed', ecc_create_key_pair (sd_seeds (sv_sdk t) (sd_drawn (sv_sdk t))) = Some (private_b, msg2_g_b m2) /\
      ecdsa_sign seed' (cf_private_key (sv_config t)) (take 2 (msg2_g_b m2 ++ msg1_g_a m1)) = Some (msg2_sign_gb_ga m2) /\
      length (msg2_sign_gb_ga m2) = 64%nat /\ length (msg2_spid m2) = 16%nat /\ in_range 32 (Z.of_nat (length (msg2_bytes m2))) /\
      sent_to id (sv_host t') = sent_to id (sv_host t) ++
        [attestation_message MT_AttestationMessage2 (le_encode 4 (Z.of_nat (length (msg2_bytes m2))) ++ msg2_bytes m2)]) t.
Proof.
  intros (p & peer & [Hp Hh] & Hk & Hst & Hi) Hm Ha [key_seed Hks]. eapply peer_dispatch; [done|done|done|done|]. rewrite Hi.
  cbn [Z.eqb Pos.eqb MT_TellGroupId MT_AttestationMessage1]. unfold ignore_result. apply wp_bind.
  unfold handle_attestation_message_one. eapply wp_stream; [by apply read_raw_all|]. cbv beta iota.
  apply wp_bind. eapply wp_set_peer; [done|done|]. apply wp_bind, wp_zoom. unfold wp at 1, draw. fields.
  destruct (key_pair_ok (sd_seeds (sv_sdk t) (sd_drawn (sv_sdk t)))) as (private & public & Eb & Hpl). rewrite Eb. cbn [or_fail].
  apply wp_bind. eapply wp_set_peer; [apply lookup_insert_eq|done|]. fields.
  destruct (shared_agrees _ _ _ _ _ _ Ha Eb) as (shared & _ & ->). cbn [or_fail].
  destruct (derive_key_ok shared SAMPLE_DERIVE_KEY_SMK) as (smk & -> & _); [done|]. cbn [or_fail].
  apply wp_bind. eapply wp_set_peer; [apply lookup_insert_eq|done|]. fields.
  destruct (derive_key_ok shared SAMPLE_DERIVE_KEY_MK) as (mk & -> & _); [done|]. cbn [or_fail].
  apply wp_bind. eapply wp_set_peer; [apply lookup_insert_eq|done|]. fields.
  destruct (derive_key_ok shared SAMPLE_DERIVE_KEY_SK) as (sk & -> & _); [done|]. cbn [or_fail].
  apply wp_bind. eapply wp_set_peer; [apply lookup_insert_eq|done|]. fields.
  destruct (derive_key_ok shared SAMPLE_DERIVE_KEY_VK) as (vk & -> & _); [done|]. cbn [or_fail].
  apply wp_bind. eapply wp_set_peer; [apply lookup_insert_eq|done|]. fields. apply wp_bind, wp_get. fields.
  apply wp_bind, wp_zoom. unfold wp at 1, draw. fields. set (seed' := sd_seeds _ _).
  destruct (sign_ok key_seed seed' _ _ (take 2 (public ++ msg1_g_a m1)) ltac:(by destruct public) Hks) as (sg & Esg & Hsl & _). rewrite Esg. cbn [or_fail].
  destruct (make_msg2_ok smk public sg) as (m2 & Em2 & Hgb & Hsg & Hspid & Hml). rewrite Em2. cbn [or_fail].
  apply wp_bind, wp_zoom. eapply wp_host_send; [done|done|]. fields. apply wp_ret, wp_ret.
  set (t' := mkServer _ _ _ _ _ _). assert (attesting id context t') as Ht'.
  { unfold attesting, connection, t'. fields. do 2 eexists. by rewrite lookup_insert_eq. }
  eapply attesting_update; [done|]. exists private, m2, seed'. rewrite Hgb, Hsg. split_and!; [done..| |].
  - by rewrite Hml.
  - by apply sent_to_app.
Qed.

Lemma attempts_none {A} (f : nat -> option A) i n : (forall i, f i = None) -> attempts f i n = None.
Proof. intros Hf. revert i. induction n as [|n IH]; intros i; [done|]. cbn [attempts]. by rewrite Hf. Qed.

Context `{!RaLaws}.

Lemma initiator_refuses id p peer context session private g_a m2 s :
  connection id p (mkHostParty true TwoWay_IsInitiator WaitingForMsg2 None None context) s ->
  pa_kind p = KPeer peer -> pr_state peer = Attestation_Phase1 -> pr_is_initiator peer = true ->
  sd_sessions (sv_sdk s) !! context = Some session -> ecc_create_key_pair (ra_seed session) = Some (private, g_a) ->
  length (msg2_g_b m2) = SGX_ECP256_PUBLIC -> length (msg2_spid m2) = 16%nat -> length (msg2_sign_gb_ga m2) = 64%nat ->
  in_range 32 (Z.of_nat (length (msg2_bytes m2))) ->
  ecdsa_verify (ra_peer session) (msg2_g_b m2 ++ g_a) (msg2_sign_gb_ga m2) = false ->
  wp (server_receives id (attestation_message MT_AttestationMessage2 (le_encode 4 (Z.of_nat (length (msg2_bytes m2))) ++ msg2_bytes m2)))
    (fun _ s' => connection id p (mkHostParty false TwoWay_IsInitiator WaitingForMsg2 None None context) s' /\
       h_sent (sv_host s') = h_sent (sv_host s)) s.
Proof.
  intros Hc Hk Hst Hi Hses Hkp Hb Hsp Hsl Hr Hv. eapply peer_dispatch; [done|done|done|done|]. rewrite Hi. destruct Hc as [Hp Hh].
  cbn [Z.eqb Pos.eqb MT_GroupIdResponse MT_AttestationMessage2].
  unfold handle_attestation_message_two. eapply wp_stream; [by apply (int_dec_enc 4)|]. cbv beta iota.
  eapply wp_stream; [by apply read_raw_all|]. cbv beta iota.
  apply wp_zoom. unfold queue_msg2. apply wp_bind. eapply wp_host_get; [done|]. fields. eapply wp_host_update; [done|]. fields.
  unfold Attestation_update. apply wp_bind, wp_zoom. eapply wp_host_get; [apply lookup_insert_eq|]. fields.
  apply wp_bind, wp_bind. unfold handle_msg2. apply wp_bind, wp_zoom. eapply wp_host_get; [apply lookup_insert_eq|]. fields.
  apply wp_bind, wp_get. fields. rewrite Hses. cbn [mbind option_bind].
  rewrite (attempts_none (fun i => ra_proc_msg2 i session (msg2_bytes m2)) 0 NUM_RETRIES) by (intros; by eapply ra_msg2_refused).
  apply wp_ret, wp_bind, wp_zoom. eapply wp_host_update; [apply lookup_insert_eq|]. fields. apply wp_ret, wp_zoom.
  unfold host_disconnect. eapply wp_host_update; [apply lookup_insert_eq|]. fields. unfold connection. fields.
  by rewrite lookup_insert_eq.
Qed.

(** Two servers that know of each other what they need to *)
Record may_attest (s t : server W) : Prop := {
  ma_first : fresh s;
  ma_second : fresh t;
  ma_groupid : in_range 32 (cf_groupid (sv_config s));
  ma_name : codec_wf (id_name (cf_identity (sv_config t)));
  ma_key_pair : exists seed, ecc_create_key_pair seed = Some (cf_private_key (sv_config t), id_public_key (cf_identity (sv_config t)));
  ma_acceptable : acceptable (id_name (cf_identity (sv_config t))) (id_public_key (cf_identity (sv_config t))) s;
}.

(** A signature over the first two bytes is not one over the two public keys that the servers draw. *)
Definition prefix_not_enough (s t : server W) : Prop :=
  forall seed private_a g_a private_b g_b signature,
    ecc_create_key_pair (sd_seeds (sv_sdk s) (sd_drawn (sv_sdk s))) = Some (private_a, g_a) ->
    ecc_create_key_pair (sd_seeds (sv_sdk t) (sd_drawn (sv_sdk t))) = Some (private_b, g_b) ->
    ecdsa_sign seed (cf_private_key (sv_config t)) (take 2 (g_b ++ g_a)) = Some signature ->
    ecdsa_verify (id_public_key (cf_identity (sv_config t))) (g_b ++ g_a) signature = false.

(** C39.  Two servers never get to trust each other.  With nobody interfering, the server that is
    connected to signs two bytes of the two public keys where it should sign all of them
    ([gb_ga.size()] is the number of keys); the SDK of the other one refuses its message 2, and the
    other one closes the connection, in the first phase still. *)
Theorem peers_never_attest hostname port s t :
  may_attest s t -> prefix_not_enough s t ->
  wp (peers_attest hostname port) (fun '(a, _) '(s', _) =>
    (exists hp, h_parties (sv_host s') !! a = Some hp /\ ho_open hp = false) /\
    (exists peer, find_peer a (sv_registry s') = Some peer /\ pr_state peer = Attestation_Phase1)) (s, t).
Proof.
  intros [Hf1 Hf2 Hg Hn [kseed Hkp] Hacc] Hno. unfold peers_attest. apply wp_bind, wp_zoom. cbn [fst].
  eapply wp_mono; [by apply initiator_connects|]. intros a s1 (-> & Hc1 & Es1 & Ecf & Edb & Esd & Euid).
  set (a := h_next (sv_host s)) in *. apply wp_bind, wp_zoom. cbn [fst snd].
  eapply wp_mono; [by apply other_accepts|]. intros b t1 (-> & Hc2 & Et1 & Ecft & Esdt & _). set (b := h_next (sv_host t)) in *.
  assert (attesting b (le_decode (uninit 4)) t1) as Hat1 by (do 2 eexists; by split_and!).
  assert (length (id_public_key (cf_identity (sv_config t))) = 64%nat) as Hkl.
  { destruct (key_pair_ok kseed) as (? & ? & E & ?). rewrite Hkp in E. by simplify_eq. }
  apply wp_bind. eapply wp_to_second; [by rewrite Es1|]. eapply wp_mono; [by eapply other_group_id|].
  intros _ t2 (Hat2 & Ecft2 & Esdt2 & Et2). rewrite Et1 in Et2.
  apply wp_bind. eapply wp_to_first; [by rewrite Et2|]. rewrite Ecft. destruct Hc1 as [Hp1 Hh1].
  assert (acceptable (id_name (cf_identity (sv_config t))) (id_public_key (cf_identity (sv_config t))) s1) as Hacc1.
  { destruct Hacc. split; by rewrite ?Edb, ?Ecf, ?Euid. }
  eapply wp_mono; [eapply peer_dispatch; [by split|done|done|done|]; by eapply groupid_response_step|].
  intros _ s2 (i & context & session & private & m1 & Hc3 & Hin & Hik & Hses & Hpeer & Hkp1 & Hm1 & Hseed & Es2 & _).
  apply sent_to_app in Es2. rewrite Es1 in Es2. apply wp_bind. eapply wp_to_second; [by rewrite Es2|].
  eapply wp_mono; [eapply other_message_one; [done|done|exact Hkp1|rewrite Ecft2, Ecft; eauto]|].
  intros _ t3 (private_b & m2 & seed' & Eb & Esg & Hsl & Hsp & Hml & Et3). rewrite Et2 in Et3.
  rewrite Esdt2, Esdt in Eb. rewrite Ecft2, Ecft in Esg. rewrite Hseed, Esd in Hkp1.
  apply wp_bind. eapply wp_to_first; [by rewrite Et3|].
  eapply wp_mono; [eapply initiator_refuses; try done; [by rewrite Hseed, Esd| |rewrite Hpeer; by eapply Hno]|].
  { destruct (key_pair_ok (sd_seeds (sv_sdk t) (sd_drawn (sv_sdk t)))) as (? & ? & E & ?). rewrite Eb in E. by simplify_eq. }
  intros _ s3 [[Hp3 Hh3] _]. apply wp_ret. split; [by eexists|]. unfold find_peer, find. rewrite Hp3. by eexists.
Qed.

End PeerAttestation.

(** ** Two servers for which the hypotheses hold *)

#[local] Existing Instances toy_crypto toy_crypto_laws toy_ra toy_ra_laws null_cipher.

Definition toy_other : server unit :=
  mkServer (mkConfig (mkIdentity IdServer "other" (replicate 64 9)) [9] 0 None) ∅ RemoteParties_new host_new
    (mkSdk ∅ 0 (fun n => [1 + Z.of_nat n]) 0) tt.

Lemma peers_never_attest_witness :
  wp (peers_attest zeros (fun _ _ _ => mret []) (fun _ => mret []) (fun _ _ _ _ => mret tt) (fun _ => mret tt) (fun _ => [])
        (fun _ => mret None) (fun _ => None) "host" 5042) (fun '(a, _) '(s', _) =>
    (exists hp, h_parties (sv_host s') !! a = Some hp /\ ho_open hp = false) /\
    (exists peer, find_peer a (sv_registry s') = Some peer /\ pr_state peer = Attestation_Phase1)) (toy_server, toy_other).
Proof.
  apply (peers_never_attest zeros (fun _ _ _ => mret []) (fun _ => mret []) (fun _ _ _ _ => mret tt) (fun _ => mret tt) (fun _ => [])
    (fun _ => mret None) (fun _ => None) "host" 5042 toy_server toy_other).
  - split; [by split_and!|by split_and!|by vm_compute|by vm_compute|by exists [9]|].
    split; [|by vm_compute|apply lookup_empty]. exists (mkIdentity IdServer "other" (replicate 64 9)). eexists.
    split; [|split; reflexivity]. unfold IdentityDatabase_get. rewrite decide_False by (by vm_compute). reflexivity.
  - intros seed pa g_a pb g_b sg Ea Eb Es. apply (inj Some), (inj2 pair) in Ea as [<- <-].
    apply (inj Some), (inj2 pair) in Eb as [<- <-]. apply (inj Some) in Es as <-. by vm_compute.
Defined.

(** A peer without keys, and a message 3 of zeros that has another public key *)
Definition toy_peer_server : server unit :=
  mkServer toy_config ∅ (mkRegistry {[ 1 := Peer_new (fun n => replicate n 7) "host" 5042 false ]} ∅ ∅ ∅) host_new
    (mkSdk ∅ 0 (fun n => [Z.of_nat n]) 0) tt.

Lemma peer_message_three_checked_witness :
  wp (handle_attestation_message_three zeros 1 (le_encode 4 768 ++ replicate 768 0))
    (fun ok s' => ok = false /\ sv_host s' = sv_host toy_peer_server /\
       exists peer', find_peer 1 (sv_registry s') = Some peer' /\ pr_state peer' = Attestation_Phase1 /\
         pr_encryption_key peer' = replicate 16 7) toy_peer_server.
Proof.
  apply (peer_message_three_checked zeros 1 (Peer_new (fun n => replicate n 7) "host" 5042 false)
    (mkPeerParty Attestation_Phase1 false PT_Unknown (le_decode (replicate 4 7)) 1 0 (replicate 64 7) (replicate 64 7) (replicate 32 7)
       (replicate 16 7) (replicate 16 7) (replicate 16 7) (replicate 16 7) (replicate 256 7) (replicate 16 7) "host" 5042 ∅)
    (replicate 768 0) toy_peer_server); [reflexivity|reflexivity|by vm_compute|by vm_compute|].
  intros [Hga _]. by vm_compute in Hga.
Defined.
