(* ===== verification/Downstream.v ===== *)
(** * The index on a downstream server

    A downstream server keeps the buckets of the upstream server's index and reads the nodes from
    the upstream server's disk.  Models the other half of [src/enclave/AbstractMap.h]: the branch
    of [get_node_internal] for remote pages ([is_remote()]), [load_root] and [apply_changes] with
    their locks, [BufferManager::reload_page], and [HashMap::get] on top of them.

    Index updates may arrive in any order: the replica ends up with the buckets of the upstream
    server, and then answers what the upstream server answers.  A reader that is ahead of an
    update, though, waits for ever. *)

From S2P Require Import Prelude EventId Keys VersionNumber Bitstream PageStore Hash HashMapNode AbstractMap HashMap.

(** ** The replica

    [rm_cache] are the pages in the buffer manager, [rm_disk] what the upstream server has on its
    disk now; [rm_counts] are the read counts of the shards' locks. *)
Record rmap : Type := mkRmap {
  rm_buckets : gmap Z bucket_t;
  rm_cache : gmap Z node;
  rm_disk : gmap Z node;
  rm_counts : gmap Z Z;
}.

Definition rm_bucket (bid : Z) (r : rmap) : bucket_t := default default_bucket (rm_buckets r !! bid).
Definition rm_count (shard : Z) (r : rmap) : Z := default 0 (rm_counts r !! shard).
Definition rm_shard (bid : Z) : Z := bid mod NUM_SHARDS.

Definition rm_set_count (shard v : Z) (r : rmap) : rmap :=
  mkRmap (rm_buckets r) (rm_cache r) (rm_disk r) (<[shard := v]> (rm_counts r)).
Definition rm_set_cache (v : gmap Z node) (r : rmap) : rmap := mkRmap (rm_buckets r) v (rm_disk r) (rm_counts r).

(** [RWLockable]: a lock that is not free is waited for. *)
Definition rm_read_lock (shard : Z) : ST rmap unit :=
  r ← get_st; if rm_count shard r <? 0 then throw Must_wait else modify_st (rm_set_count shard (rm_count shard r + 1)).
Definition rm_read_unlock (shard : Z) : ST rmap unit := modify_st (fun r => rm_set_count shard (rm_count shard r - 1) r).
Definition rm_write_lock (shard : Z) : ST rmap unit :=
  r ← get_st; if rm_count shard r =? 0 then modify_st (rm_set_count shard (-1)) else throw Must_wait.
Definition rm_write_unlock (shard : Z) : ST rmap unit := modify_st (rm_set_count shard 0).

(** [get_page] loads a page that is not in the cache, [reload_page] in any case. *)
Definition reload_page (p : Z) : ST rmap node :=
  r ← get_st;
  match rm_disk r !! p with
  | Some n => _ ← modify_st (rm_set_cache (<[p := n]> (rm_cache r))); mret n
  | None => throw (Undefined "null pointer")
  end.

Definition remote_get_page (p : Z) : ST rmap node :=
  r ← get_st; match rm_cache r !! p with Some n => mret n | None => reload_page p end.

(** The loop of [get_node_internal].  A page that is too old is read again, as long as it takes.
    Where the page is newer than expected, [condition_var.wait] releases the lock, which is not held. *)
Fixpoint remote_node_loop (fuel : nat) (shard page_no expected : Z) : ST rmap (option node) :=
  match fuel with
  | O => throw Must_wait
  | S fuel =>
      n ← remote_get_page page_no;
      if version_ltb (nd_version n) expected then _ ← reload_page page_no; remote_node_loop fuel shard page_no expected
      else if version_eqb (nd_version n) expected then _ ← rm_read_lock shard; mret (Some n)
      else _ ← rm_read_unlock shard; throw Must_wait
  end.

(** How often a page is read again before the reader is taken to wait *)
Definition reload_fuel : nat := 2.

Definition remote_get_node (shard page_no expected : Z) : ST rmap (option node) :=
  if page_no =? INVALID_PAGE_NO then mret None
  else _ ← rm_read_unlock shard; remote_node_loop reload_fuel shard page_no expected.

(** The loops over the shards *)
Definition rm_shards : list Z := seqZ 0 NUM_SHARDS.
Fixpoint loop_shards (op : Z -> ST rmap unit) (shards : list Z) : ST rmap unit :=
  match shards with
  | [] => mret tt
  | shard :: shards => _ ← op shard; loop_shards op shards
  end.

Definition load_root (buckets : gmap Z bucket_t) : ST rmap unit :=
  _ ← loop_shards rm_write_lock rm_shards;
  _ ← modify_st (fun r => mkRmap buckets (rm_cache r) (rm_disk r) (rm_counts r));
  loop_shards rm_write_unlock rm_shards.

Definition apply_changes (bid : Z) (new_val : bucket_t) : ST rmap unit :=
  _ ← rm_write_lock (rm_shard bid);
  _ ← modify_st (fun r => if version_ltb (bk_version new_val) (bk_version (rm_bucket bid r)) then r
                          else mkRmap (<[bid := new_val]> (rm_buckets r)) (rm_cache r) (rm_disk r) (rm_counts r));
  rm_write_unlock (rm_shard bid).

Fixpoint apply_all (cs : list (Z * bucket_t)) : ST rmap unit :=
  match cs with
  | [] => mret tt
  | (bid, b) :: cs => _ ← apply_changes bid b; apply_all cs
  end.

Section Get.
Context {K V : Type} `{EqDecision K, Countable V, Codec K, Codec V}.
Variable hash : K -> Z.

Fixpoint remote_walk (key : K) (fuel : nat) (shard : Z) (handle : option node) : ST rmap (option V) :=
  match handle, fuel with
  | None, _ => mret None
  | Some _, O => throw (Undefined "out of fuel")
  | Some n, S fuel =>
      o ← lift_res (node_get key n);
      match o with
      | Some v => mret (Some v)
      | None => succ ← remote_get_node shard (nd_successor n) (nd_successor_version n); remote_walk key fuel shard succ
      end
  end.

(** [HashMap::get]; the lock is released when the handle goes. *)
Definition remote_get (key : K) : ST rmap (option V) :=
  r ← get_st;
  let bid := to_bucket hash key in
  let shard := rm_shard bid in
  _ ← rm_read_lock shard;
  node ← remote_get_node shard (bk_page_no (rm_bucket bid r)) (bk_version (rm_bucket bid r));
  v ← remote_walk key (S (size (rm_disk r))) shard node;
  _ ← rm_read_unlock shard;
  mret v.

End Get.

(** ** Any order of the updates

    [versioned f cs]: the changes [cs] of the buckets [f], each of which makes the version of its
    bucket the next one *)
Fixpoint versioned (f : Z -> bucket_t) (cs : list (Z * bucket_t)) : Prop :=
  match cs with
  | [] => True
  | (bid, b) :: cs =>
      bk_version b = version_increment (bk_version (f bid)) /\ versioned (fun x => if decide (x = bid) then b else f x) cs
  end.

(** The buckets in the end, and all the values that a bucket has had *)
Fixpoint changed (f : Z -> bucket_t) (cs : list (Z * bucket_t)) : Z -> bucket_t :=
  match cs with
  | [] => f
  | (bid, b) :: cs => changed (fun x => if decide (x = bid) then b else f x) cs
  end.

Definition history (f : Z -> bucket_t) (cs : list (Z * bucket_t)) (bid : Z) : list bucket_t :=
  f bid :: (snd <$> filter (fun c => c.1 = bid) cs).

Lemma history_cons f b cs bid : history f ((bid, b) :: cs) bid = f bid :: history (fun x => if decide (x = bid) then b else f x) cs bid.
Proof. unfold history. rewrite filter_cons_True by done. cbn. by rewrite decide_True. Qed.

Lemma history_skip f c cs bid : c.1 <> bid -> history f (c :: cs) bid = history (fun x => if decide (x = c.1) then c.2 else f x) cs bid.
Proof. intros Hne. unfold history. rewrite filter_cons_False by done. by rewrite decide_False. Qed.

Lemma history_last f cs bid : last (history f cs bid) = Some (changed f cs bid).
Proof.
  revert f. induction cs as [|[bid' b] cs IH]; intros f; [done|]. cbn [changed]. destruct (decide (bid' = bid)) as [->|Hne].
  - by rewrite history_cons, <- IH.
  - rewrite history_skip by done. apply IH.
Qed.

Lemma history_version f cs bid i b :
  versioned f cs -> history f cs bid !! i = Some b -> bk_version b = version_advance i (bk_version (f bid)).
Proof.
  revert f i. induction cs as [|[bid' b'] cs IH]; intros f i Hv Hi.
  - destruct i; [by injection Hi as <-|done].
  - destruct Hv as [Hb Hv]. destruct (decide (bid' = bid)) as [->|Hne].
    + rewrite history_cons in Hi. destruct i as [|i]; [by injection Hi as <-|].
      rewrite (IH _ _ Hv Hi), decide_True, Hb by done. unfold version_advance. by rewrite <- Nat.iter_succ_r.
    + rewrite history_skip in Hi by done. rewrite (IH _ _ Hv Hi). cbn. by rewrite decide_False.
Qed.

Lemma history_length f cs bid : (length (history f cs bid) <= S (length cs))%nat.
Proof. unfold history. cbn. rewrite length_fmap. apply le_n_S, length_filter. Qed.

Lemma history_elem f cs bid b : (bid, b) ∈ cs -> exists j, history f cs bid !! j = Some b.
Proof.
  intros Hin. assert (b ∈ history f cs bid) as [j Hj]%list_elem_of_lookup; [|eauto].
  unfold history. apply elem_of_cons. right. apply list_elem_of_fmap. exists (bid, b). split; [done|]. by apply list_elem_of_filter.
Qed.

(** Versions that are not too far from each other are told apart. *)
Lemma version_advance_ltb v i j :
  version_wf v -> Z.of_nat i < WINDOW_SIZE -> Z.of_nat j < WINDOW_SIZE ->
  version_ltb (version_advance j v) (version_advance i v) = (j <? i)%nat.
Proof.
  intros Hv Hi Hj.
  assert (forall a b, (a < b)%nat -> version_advance b v = version_advance (b - a) (version_advance a v)) as Hadd.
  { intros a b Hab. unfold version_advance. rewrite <- Nat.iter_add. f_equal. lia. }
  assert (forall a, version_wf (version_advance a v)) as Hwf.
  { intros a. unfold version_advance. induction a; cbn; [done|]. by apply version_increment_wf. }
  destruct (Nat.ltb_spec j i) as [Hlt|Hge].
  - rewrite (Hadd j i Hlt). apply version_ltb_window; [done|lia].
  - destruct (decide (i = j)) as [->|Hne].
    + unfold version_ltb, version_eqb. by rewrite Z.eqb_refl.
    + rewrite (Hadd i j) by lia. apply version_ltb_window; [done|lia].
Qed.

Definition unlocked (r : rmap) : Prop := forall shard, rm_count shard r = 0.

Lemma rm_count_set shard shard' v r : rm_count shard (rm_set_count shard' v r) = if decide (shard = shard') then v else rm_count shard r.
Proof.
  unfold rm_count, rm_set_count. cbn. destruct (decide (shard = shard')) as [->|Hne]; [by rewrite lookup_insert_eq|].
  by rewrite lookup_insert_ne.
Qed.

(** A loop that sets the lock of one shard after the other *)
Lemma loop_shards_ok (op : Z -> ST rmap unit) (v : Z) (P : Z -> Prop) shards r :
  (forall shard r, P (rm_count shard r) -> op shard r = (Ok tt, rm_set_count shard v r)) ->
  NoDup shards -> (forall shard, shard ∈ shards -> P (rm_count shard r)) ->
  wp (loop_shards op shards) (fun _ r' => rm_buckets r' = rm_buckets r /\ rm_cache r' = rm_cache r /\ rm_disk r' = rm_disk r /\
    forall shard, rm_count shard r' = if decide (shard ∈ shards) then v else rm_count shard r) r.
Proof.
  intros Hop. revert r. induction shards as [|sh shards IH]; intros r Hnd HP.
  { apply wp_ret. split_and!; [done..|]. intros shard. by rewrite decide_False by apply not_elem_of_nil. }
  apply NoDup_cons in Hnd as [Hsh Hnd]. apply wp_bind. unfold wp at 1. rewrite Hop by (apply HP; left).
  eapply wp_mono; [apply IH; [done|]|].
  - intros shard Hin. rewrite rm_count_set, decide_False by (by intros ->). apply HP. by right.
  - cbv beta. intros _ r' (-> & -> & -> & Hc). split_and!; [done..|]. intros shard. rewrite Hc, rm_count_set.
    destruct (decide (shard ∈ shards)); [by rewrite decide_True by (by right)|].
    case_decide as E; [rewrite decide_True; [done|]; rewrite E; left|].
    rewrite decide_False; [done|]. by intros [?|?]%elem_of_cons.
Qed.

Lemma load_root_ok buckets r :
  unlocked r ->
  wp (load_root buckets) (fun _ r' => unlocked r' /\ rm_buckets r' = buckets /\ rm_cache r' = rm_cache r /\ rm_disk r' = rm_disk r) r.
Proof.
  intros Hu. assert (NoDup rm_shards) as Hnd by apply NoDup_seqZ. apply wp_bind. eapply wp_mono.
  { apply (loop_shards_ok _ (-1) (fun c => c = 0)); [|done|intros; apply Hu].
    intros shard r' E. unfold rm_write_lock. rewrite (ST_bind_run get_st _ r' r' r') by done. by rewrite E. }
  cbv beta. intros _ r1 (_ & Ec1 & Ed1 & Hc1). apply wp_bind, wp_modify. eapply wp_mono.
  { apply (loop_shards_ok _ 0 (fun _ => True)); done. }
  cbv beta. intros _ r2 (-> & -> & -> & Hc2). split_and!; [|done..]. intros shard. rewrite Hc2. case_decide as E; [done|].
  change (rm_count shard (mkRmap buckets (rm_cache r1) (rm_disk r1) (rm_counts r1))) with (rm_count shard r1).
  rewrite Hc1, decide_False by done. apply Hu.
Qed.

Lemma apply_changes_ok bid b r :
  unlocked r ->
  wp (apply_changes bid b) (fun _ r' => unlocked r' /\ rm_cache r' = rm_cache r /\ rm_disk r' = rm_disk r /\
    forall x, rm_bucket x r' = if decide (x = bid) then
                                 if version_ltb (bk_version b) (bk_version (rm_bucket bid r)) then rm_bucket bid r else b
                               else rm_bucket x r) r.
Proof.
  intros Hu. unfold apply_changes, rm_write_lock. apply wp_bind, wp_bind, wp_get. rewrite Hu. cbn [Z.eqb]. apply wp_modify.
  apply wp_bind, wp_modify, wp_modify.
  change (rm_bucket bid (rm_set_count (rm_shard bid) (-1) r)) with (rm_bucket bid r). split_and!.
  - intros shard. rewrite rm_count_set. case_decide as Hs; [done|].
    destruct (version_ltb (bk_version b) (bk_version (rm_bucket bid r)));
      unfold rm_count; cbn; rewrite lookup_insert_ne by done; apply Hu.
  - by destruct (version_ltb (bk_version b) (bk_version (rm_bucket bid r))).
  - by destruct (version_ltb (bk_version b) (bk_version (rm_bucket bid r))).
  - intros x. destruct (version_ltb (bk_version b) (bk_version (rm_bucket bid r))); unfold rm_bucket; cbn.
    + by case_decide as Hx; [rewrite Hx|].
    + case_decide as Hx; [by rewrite Hx, lookup_insert_eq|by rewrite lookup_insert_ne].
Qed.

Section AnyOrder.
Variables (f : Z -> bucket_t) (cs : list (Z * bucket_t)).
Hypothesis Hv : versioned f cs.
Hypothesis Hwf : forall bid, version_wf (bk_version (f bid)).
Hypothesis Hlen : Z.of_nat (length cs) < WINDOW_SIZE.

Lemma history_ltb bid i j b b' :
  history f cs bid !! i = Some b -> history f cs bid !! j = Some b' ->
  version_ltb (bk_version b') (bk_version b) = (j <? i)%nat.
Proof.
  intros Hi Hj. rewrite (history_version _ _ _ _ _ Hv Hi), (history_version _ _ _ _ _ Hv Hj).
  apply lookup_lt_Some in Hi, Hj. pose proof (history_length f cs bid). apply version_advance_ltb; [done|lia|lia].
Qed.

Lemma history_inj bid i j b : history f cs bid !! i = Some b -> history f cs bid !! j = Some b -> i = j.
Proof.
  intros Hi Hj. pose proof (history_ltb _ _ _ _ _ Hi Hj) as E1. pose proof (history_ltb _ _ _ _ _ Hj Hi) as E2.
  rewrite E1 in E2. destruct (Nat.ltb_spec j i), (Nat.ltb_spec i j); try done; lia.
Qed.

(** The replica has, for every bucket, the newest value that it was told. *)
Lemma apply_all_newest l r :
  (forall c, c ∈ l -> c ∈ cs) -> unlocked r ->
  (forall bid, exists i, history f cs bid !! i = Some (rm_bucket bid r)) ->
  wp (apply_all l) (fun _ r' => unlocked r' /\ rm_cache r' = rm_cache r /\ rm_disk r' = rm_disk r /\
    forall bid, exists i, history f cs bid !! i = Some (rm_bucket bid r') /\
      (forall k, history f cs bid !! k = Some (rm_bucket bid r) -> (k <= i)%nat) /\
      (forall b k, (bid, b) ∈ l -> history f cs bid !! k = Some b -> (k <= i)%nat)) r.
Proof.
  revert r. induction l as [|[bid0 b0] l IH]; intros r Hl Hu Hr.
  - apply wp_ret. split_and!; try done. intros bid. destruct (Hr bid) as [i Hi]. exists i. split_and!; [done| |].
    + intros k Hk. by rewrite (history_inj _ _ _ _ Hk Hi).
    + by intros b k []%elem_of_nil.
  - cbn [apply_all]. apply wp_bind. eapply wp_mono; [by apply apply_changes_ok|]. cbv beta. intros _ r1 (Hu1 & Ec1 & Ed1 & Hb1).
    destruct (history_elem f cs bid0 b0) as [j Hj]; [apply Hl, elem_of_cons; by left|].
    destruct (Hr bid0) as [i0 Hi0].
    assert (exists i1, history f cs bid0 !! i1 = Some (rm_bucket bid0 r1) /\ (i0 <= i1)%nat /\ (j <= i1)%nat) as (i1 & Hi1 & Hle & Hlj).
    { rewrite Hb1, decide_True by done. pose proof (history_ltb _ _ _ _ _ Hi0 Hj) as E. rewrite E.
      destruct (Nat.ltb_spec j i0); [exists i0|exists j]; split_and!; (done || lia). }
    assert (forall bid, bid <> bid0 -> rm_bucket bid r1 = rm_bucket bid r) as Hother by (intros; by rewrite Hb1, decide_False).
    eapply wp_mono; [apply (IH r1); [|done|]|].
    + intros c Hc. apply Hl, elem_of_cons. by right.
    + intros bid. destruct (decide (bid = bid0)) as [->|Hne]; [eauto|]. by rewrite Hother.
    + cbv beta. intros _ r2 (Hu2 & Ec2 & Ed2 & Hb2). split_and!; [done|congruence|congruence|].
      intros bid. destruct (Hb2 bid) as (i & Hi & Hk & Hin). exists i. split_and!; [done| |].
      * intros k Hk'. destruct (decide (bid = bid0)) as [->|Hne]; [|apply Hk; by rewrite Hother].
        rewrite (history_inj _ _ _ _ Hk' Hi0). etrans; [exact Hle|]. by apply Hk.
      * intros b k [[= -> ->]|Hbl]%elem_of_cons Hk'; [|by eapply Hin].
        rewrite (history_inj _ _ _ _ Hk' Hj). etrans; [exact Hlj|]. by apply Hk.
Qed.

(** All the changes, in any order, possibly more than once: the buckets are those of the end. *)
Lemma apply_all_converges l r :
  (forall c, c ∈ l <-> c ∈ cs) -> unlocked r -> (forall bid, rm_bucket bid r = f bid) ->
  wp (apply_all l) (fun _ r' => unlocked r' /\ rm_cache r' = rm_cache r /\ rm_disk r' = rm_disk r /\
    forall bid, rm_bucket bid r' = changed f cs bid) r.
Proof.
  intros Hl Hu Hr. eapply wp_mono; [apply apply_all_newest; [naive_solver|done|]|].
  - intros bid. exists 0%nat. by rewrite Hr.
  - cbv beta. intros _ r' (Hu' & Ec & Ed & Hb). split_and!; [done..|]. intros bid. destruct (Hb bid) as (i & Hi & Hk & Hin).
    pose proof (history_last f cs bid) as Hlast. rewrite last_lookup in Hlast.
    assert (pred (length (history f cs bid)) <= i)%nat as Hle.
    { destruct (snd <$> filter (fun c => c.1 = bid) cs) as [|b0 bs] eqn:E; [unfold history; rewrite E; cbn; lia|].
      apply (Hin (changed f cs bid)); [|done]. apply Hl.
      assert (changed f cs bid ∈ b0 :: bs) as Hc.
      { rewrite <- E. unfold history in Hlast. rewrite E in *. cbn in Hlast. by eapply list_elem_of_lookup_2. }
      rewrite <- E in Hc. apply list_elem_of_fmap in Hc as ([bid' b] & -> & [? ?]%list_elem_of_filter). cbn in *. by subst. }
    apply lookup_lt_Some in Hi as Hlt. assert (i = pred (length (history f cs bid))) as -> by lia. congruence.
Qed.

End AnyOrder.

(** ** Lookups

    A cached page is the one on the disk or has an older version. *)
Definition cache_behind (cache disk : gmap Z node) : Prop := forall p n n',
  cache !! p = Some n -> disk !! p = Some n' -> n = n' \/ version_ltb (nd_version n) (nd_version n') = true.

Lemma cache_behind_insert cache disk p n : disk !! p = Some n -> cache_behind cache disk -> cache_behind (<[p := n]> cache) disk.
Proof.
  intros Hp Hc q n1 n2 Hq Hq'. destruct (decide (q = p)) as [->|Hne].
  - rewrite lookup_insert_eq in Hq. left. congruence.
  - rewrite lookup_insert_ne in Hq by done. eauto.
Qed.

(** What reading leaves as it is *)
Definition same_root (r r' : rmap) : Prop :=
  rm_buckets r' = rm_buckets r /\ rm_disk r' = rm_disk r /\ cache_behind (rm_cache r') (rm_disk r') /\
  forall shard, rm_count shard r' = rm_count shard r.

Lemma version_ltb_irrefl v : version_ltb v v = false.
Proof. unfold version_ltb, version_eqb. by rewrite Z.eqb_refl. Qed.

Lemma reload_page_ok p n r :
  rm_disk r !! p = Some n ->
  wp (reload_page p) (fun n' r' => n' = n /\ r' = rm_set_cache (<[p := n]> (rm_cache r)) r) r.
Proof. intros Hp. unfold reload_page. apply wp_bind, wp_get. rewrite Hp. by apply wp_bind, wp_modify, wp_ret. Qed.

Lemma remote_get_page_ok p n r :
  rm_disk r !! p = Some n -> cache_behind (rm_cache r) (rm_disk r) ->
  wp (remote_get_page p) (fun n0 r' => exists cache, r' = rm_set_cache cache r /\ cache_behind cache (rm_disk r) /\
    cache !! p = Some n0 /\ (rm_cache r !! p = Some n -> n0 = n)) r.
Proof.
  intros Hp Hc. unfold remote_get_page. apply wp_bind, wp_get. destruct (rm_cache r !! p) as [n0|] eqn:E.
  - apply wp_ret. exists (rm_cache r). split_and!; [by destruct r|done|done|congruence].
  - eapply wp_mono; [by apply reload_page_ok|]. cbv beta. intros ? ? [-> ->]. eexists.
    split_and!; [done|by apply cache_behind_insert|apply lookup_insert_eq|done].
Qed.

(** The current page is found, if need be by reading it again. *)
Lemma remote_node_loop_ok shard p n r :
  rm_disk r !! p = Some n -> cache_behind (rm_cache r) (rm_disk r) -> 0 <= rm_count shard r ->
  wp (remote_node_loop reload_fuel shard p (nd_version n)) (fun o r' => o = Some n /\
    exists cache, cache_behind cache (rm_disk r) /\ r' = rm_set_count shard (rm_count shard r + 1) (rm_set_cache cache r)) r.
Proof.
  intros Hp Hc Hk.
  assert (forall cache, cache_behind cache (rm_disk r) -> wp (_ ← rm_read_lock shard; mret (Some n)) (fun o r' => o = Some n /\
    exists cache, cache_behind cache (rm_disk r) /\ r' = rm_set_count shard (rm_count shard r + 1) (rm_set_cache cache r))
    (rm_set_cache cache r)) as Hlock.
  { intros cache Hb. apply wp_bind. unfold rm_read_lock. apply wp_bind, wp_get.
    change (rm_count shard (rm_set_cache cache r)) with (rm_count shard r).
    rewrite (proj2 (Z.ltb_ge _ _) Hk). apply wp_modify, wp_ret. eauto. }
  unfold reload_fuel. cbn [remote_node_loop]. apply wp_bind. eapply wp_mono; [by apply remote_get_page_ok|].
  cbv beta. intros n0 ? (cache & -> & Hb & Hn0 & _). destruct (Hb _ _ _ Hn0 Hp) as [->|Hlt].
  - rewrite version_ltb_irrefl. unfold version_eqb. rewrite Z.eqb_refl. by apply Hlock.
  - rewrite Hlt. apply wp_bind. eapply wp_mono; [by apply reload_page_ok|]. cbv beta. intros ? ? [-> ->].
    apply wp_bind. eapply wp_mono; [by apply remote_get_page_ok; [|apply cache_behind_insert]|].
    cbv beta. intros n1 ? (cache' & -> & Hb' & Hn1 & ->); [|apply lookup_insert_eq].
    rewrite version_ltb_irrefl. unfold version_eqb. rewrite Z.eqb_refl. by apply Hlock.
Qed.

Section Lookup.
Context {K V : Type} `{EqDecision K, Countable V, CodecLaws K, CodecLaws V}.
Implicit Types (c : list (Z * list (K * V))).

Lemma remote_get_node_ok shard p v c r :
  chain (rm_disk r) p v c -> cache_behind (rm_cache r) (rm_disk r) -> 1 <= rm_count shard r ->
  wp (remote_get_node shard p v) (fun o r' => same_root r r' /\
    match c with
    | [] => o = None
    | (_, es) :: c => exists n, o = Some n /\ node_rep n es /\ chain (rm_disk r) (nd_successor n) (nd_successor_version n) c
    end) r.
Proof.
  intros Hc Hb Hk. unfold remote_get_node. destruct c as [|[q es] c].
  - destruct Hc as [-> _]. by apply wp_ret.
  - destruct Hc as (-> & Hq & n & Hn & Hr & <- & Hc). rewrite (proj2 (Z.eqb_neq q _) Hq).
    apply wp_bind, wp_modify. set (r1 := rm_set_count shard (rm_count shard r - 1) r).
    assert (rm_count shard r1 = rm_count shard r - 1) as E1 by (unfold r1; by rewrite rm_count_set, decide_True).
    eapply wp_mono; [apply (remote_node_loop_ok shard q n r1); [done|done|lia]|]. cbv beta.
    intros o r2 (-> & cache & Hb2 & ->). split; [|by exists n]. split_and!; [done|done|done|].
    intros shard'. rewrite rm_count_set. case_decide as Hs; [rewrite Hs, E1; lia|].
    change (rm_count shard' (rm_set_cache cache r1)) with (rm_count shard' r1). unfold r1. by rewrite rm_count_set, decide_False.
Qed.

Lemma remote_walk_ok key shard c r n es fuel :
  node_rep n es -> chain (rm_disk r) (nd_successor n) (nd_successor_version n) c ->
  cache_behind (rm_cache r) (rm_disk r) -> 1 <= rm_count shard r -> (length c < fuel)%nat ->
  wp (remote_walk (V := V) key fuel shard (Some n)) (fun v r' => same_root r r' /\ v = chain_find key (es :: c.*2)) r.
Proof.
  revert r n es fuel. induction c as [|[q es1] c IH]; intros r n es fuel Hr Hc Hb Hk Hf;
    (destruct fuel as [|fuel]; [lia|]); cbn [remote_walk]; rewrite (node_get_rep _ _ _ Hr); apply wp_bind, wp_ret;
    cbn [chain_find fmap list_fmap]; (destruct (assoc_find key es) as [v|]; [by apply wp_ret|]);
    apply wp_bind; (eapply wp_mono; [by eapply remote_get_node_ok|]); cbv beta.
  - intros o r1 [Hr1 ->]. destruct fuel; by apply wp_ret.
  - intros o r1 [(Eb & Ed & Hb1 & Hk1) (n1 & -> & Hr' & Hc1)].
    eapply wp_mono; [eapply (IH r1 n1 es1); [done|by rewrite Ed|done|by rewrite Hk1|cbn in Hf; lia]|].
    cbv beta. intros v r2 [(Eb2 & Ed2 & Hb2 & Hk2) ->]. split; [|done]. split_and!; [congruence|congruence|done|].
    intros shard'. by rewrite Hk2, Hk1.
Qed.

Variable hash : K -> Z.

(** A replica with the buckets of the upstream server finds what is in its map. *)
Lemma remote_get_ok key r (cs : Z -> list (Z * list (K * V))) :
  (forall bid, chain (rm_disk r) (bk_page_no (rm_bucket bid r)) (bk_version (rm_bucket bid r)) (cs bid)) ->
  (forall bid, NoDup (cs bid).*1) -> cache_behind (rm_cache r) (rm_disk r) -> unlocked r ->
  wp (remote_get (V := V) hash key) (fun v r' => v = map_find hash cs key /\ unlocked r') r.
Proof.
  intros Hc Hnd Hb Hu. unfold remote_get. apply wp_bind, wp_get. cbv zeta. set (bid := to_bucket hash key).
  apply wp_bind. unfold rm_read_lock. apply wp_bind, wp_get. rewrite Hu. cbn [Z.ltb Z.compare Z.add]. apply wp_modify.
  set (r1 := rm_set_count (rm_shard bid) 1 r).
  assert (rm_count (rm_shard bid) r1 = 1) as E1 by (unfold r1; by rewrite rm_count_set, decide_True).
  assert (forall r2, (forall shard, rm_count shard r2 = rm_count shard r1) ->
    unlocked (rm_set_count (rm_shard bid) (rm_count (rm_shard bid) r2 - 1) r2)) as Hunlock.
  { intros r2 Hk2 shard. rewrite rm_count_set. case_decide as Hs; [rewrite Hk2, E1; lia|].
    rewrite Hk2. unfold r1. by rewrite rm_count_set, decide_False. }
  apply wp_bind. eapply wp_mono; [apply (remote_get_node_ok _ _ _ (cs bid) r1); [apply Hc|done|lia]|]. cbv beta.
  intros o r2 [(Eb & Ed & Hb2 & Hk2) Ho]. unfold map_find. fold bid. pose proof (chain_length _ _ _ _ (Hc bid) (Hnd bid)) as Hlen.
  destruct (cs bid) as [|[q es] c].
  - subst o. apply wp_bind. cbn [remote_walk]. apply wp_ret, wp_bind, wp_modify, wp_ret. split; [done|]. by apply Hunlock.
  - destruct Ho as (n & -> & Hr & Hc'). apply wp_bind.
    eapply wp_mono; [eapply remote_walk_ok; [done|by rewrite Ed|done|rewrite Hk2; lia|cbn in Hlen; lia]|].
    cbv beta. intros v r3 [(_ & _ & _ & Hk3) ->]. apply wp_bind, wp_modify, wp_ret. split; [done|].
    apply Hunlock. intros shard. by rewrite Hk3, Hk2.
Qed.

End Lookup.

(** ** The upstream server *)

Lemma pages_aged_behind j pg pg' p n n' :
  Z.of_nat j < WINDOW_SIZE -> pages_aged j pg pg' -> pg !! p = Some n -> pg' !! p = Some n' ->
  n = n' \/ version_ltb (nd_version n) (nd_version n') = true.
Proof.
  intros Hj Ha Hp Hp'. destruct (Ha p n Hp) as (n1 & k & Hn1 & Hk & Hv & Hcase).
  assert (n1 = n') as -> by congruence. destruct Hcase as [[-> ->]|[Hk0 Hw]]; [by left|]. right. rewrite Hv.
  apply version_ltb_window; [done|lia].
Qed.

Lemma versioned_ext f g cs : (forall x, f x = g x) -> versioned f cs -> versioned g cs.
Proof.
  revert f g. induction cs as [|[bid b] cs IH]; intros f g Hfg; [done|]. intros [Hb Hcs]. split; [by rewrite <- Hfg|].
  eapply IH; [|done]. intros x. cbv beta. by case_decide.
Qed.

Lemma changed_ext f g cs x : (forall x, f x = g x) -> changed f cs x = changed g cs x.
Proof.
  revert f g. induction cs as [|[bid b] cs IH]; intros f g Hfg; [apply Hfg|]. cbn. apply IH. intros y. cbv beta. by case_decide.
Qed.

Section Upstream.
Context {K V : Type} `{EqDecision K, Countable V, CodecLaws K, CodecLaws V, !FixedSize V}.
Context {S : Type} `{PageStoreLaws S node}.
Variables (sizeof_node : Z) (hash : K -> Z).
Hypothesis sizeof_node_small : 0 <= sizeof_node < MAX_NODE_SIZE - 24.

(** Insertions, and the changes that are sent downstream *)
Fixpoint insert_changes (kvs : list (K * V)) : ST (amap S) (list (Z * bucket_t)) :=
  match kvs with
  | [] => mret []
  | (k, v) :: kvs => c ← HashMap_insert sizeof_node hash k v; cs ← insert_changes kvs; mret (c :: cs)
  end.

Lemma insert_changes_ok kvs m cs av :
  map_inv (K := K) (V := V) m cs av -> 2 * Z.of_nat (length kvs) <= av -> Forall entry_wf kvs ->
  wp (insert_changes kvs) (fun ch m' => exists cs' av', map_inv m' cs' av' /\ av - 2 * Z.of_nat (length kvs) <= av' /\
    (forall k, map_find hash cs' k = match assoc_find k (reverse kvs) with Some v => Some v | None => map_find hash cs k end) /\
    versioned (fun b => get_bucket b m) ch /\ (forall b, changed (fun b => get_bucket b m) ch b = get_bucket b m') /\
    length ch = length kvs /\ pages_aged (length kvs) (ps_pages (am_store m)) (ps_pages (am_store m'))) m.
Proof.
  revert m cs av. induction kvs as [|[k v] kvs IH]; intros m cs av Hinv Hav Hwf.
  { apply wp_ret. exists cs, av. split_and!; try done; [cbn; lia|apply pages_aged_refl]. }
  apply Forall_cons in Hwf as [[Hk Hv] Hwf]. cbn [length fst snd] in *. cbn [insert_changes]. apply wp_bind. eapply wp_mono.
  { apply wp_and; [eapply HashMap_insert_ok|eapply HashMap_insert_change]; (done || lia). }
  cbv beta. intros c m1 [(cs1 & av1 & Hinv1 & Hav1 & _ & _ & _ & _ & Hfind) (Hstep & Hver & Hbk)].
  apply wp_bind. eapply wp_mono; [eapply (IH m1 cs1 av1); [done|lia|done]|]. cbv beta.
  intros ch m2 (cs2 & av2 & Hinv2 & Hav2 & Hfind2 & Hvers & Hch & Hlen & Hage). apply wp_ret. exists cs2, av2. split_and!.
  - done.
  - lia.
  - intros k'. rewrite Hfind2, reverse_cons, assoc_find_app, Hfind. cbn. by destruct (assoc_find k' (reverse kvs)); [|case_decide].
  - destruct c as [bid b]. cbn in *. split; [done|]. eapply versioned_ext; [|done]. intros x. cbv beta. by rewrite Hbk.
  - intros b. destruct c as [bid b']. cbn in *. rewrite <- Hch. apply changed_ext. intros x. by rewrite Hbk.
  - cbn. by rewrite Hlen.
  - by eapply pages_aged_step.
Qed.

Lemma insert_changes_app a b m : insert_changes (a ++ b) m =
  (c1 ← insert_changes a; c2 ← insert_changes b; mret (c1 ++ c2)) m.
Proof.
  revert m. induction a as [|[k v] a IH]; intros m.
  - cbn. unfold mbind, ST_bind, mret, ST_ret. by destruct (insert_changes b m) as [[c|e] m'].
  - cbn [app insert_changes]. unfold mbind, ST_bind, mret, ST_ret in *.
    destruct (HashMap_insert sizeof_node hash k v m) as [[c|e] m1]; [|done]. rewrite IH.
    destruct (insert_changes a m1) as [[c1|e] m2]; [|done]. by destruct (insert_changes b m2) as [[c2|e] m3].
Qed.

(** Every cached page is one that the upstream server has had since. *)
Definition seen_upstream (kvs : list (K * V)) (m : amap S) (cache : gmap Z node) : Prop := forall p n,
  cache !! p = Some n -> exists a b, kvs = a ++ b /\ ps_pages (am_store (insert_changes a m).2) !! p = Some n.

Lemma seen_upstream_behind kvs m m' cs av ch cache :
  map_inv (K := K) (V := V) m cs av -> 2 * Z.of_nat (length kvs) <= av -> Forall entry_wf kvs ->
  Z.of_nat (length kvs) < WINDOW_SIZE -> insert_changes kvs m = (Ok ch, m') ->
  seen_upstream kvs m cache -> cache_behind cache (ps_pages (am_store m')).
Proof.
  intros Hinv Hav Hwf Hw Hrun Hseen p n n' Hp Hp'. destruct (Hseen _ _ Hp) as (a & b & -> & Ha).
  rewrite length_app in *. apply Forall_app in Hwf as [Hwa Hwb]. rewrite insert_changes_app in Hrun.
  destruct (proj1 (wp_run _ _ _) (insert_changes_ok a m cs av Hinv ltac:(lia) Hwa)) as (ca & ma & Ea & csa & ava & Hia & Hva & _).
  rewrite Ea in Ha. cbn in Ha.
  destruct (proj1 (wp_run _ _ _) (insert_changes_ok b ma csa ava Hia ltac:(lia) Hwb)) as (cb & mb & Eb & csb & avb & _ & _ & _ & _ & _ & _ & Hage).
  unfold mbind, ST_bind in Hrun. rewrite Ea, Eb in Hrun. injection Hrun as _ <-.
  eapply pages_aged_behind; [|done..]. lia.
Qed.

End Upstream.

Lemma bucket_version_wf {K V} `{EqDecision K, Countable V, CodecLaws K, CodecLaws V} {S} `{PageStoreLaws S node}
    (m : amap S) (cs : Z -> list (Z * list (K * V))) av bid :
  map_inv m cs av -> version_wf (bk_version (get_bucket bid m)).
Proof.
  intros (pg & _ & Hc & _). specialize (Hc bid). destruct (cs bid) as [|[q es] c].
  - destruct Hc as [_ ->]. by vm_compute.
  - destruct Hc as (_ & _ & n & _ & Hr & <- & _). apply Hr.
Qed.

(** C15.  A downstream server answers as the upstream server does.  It takes over the root of the
    upstream server's index at some time; the upstream server goes on inserting, and the changes
    of its buckets arrive in any order, possibly several times.  When they have all arrived, a
    lookup, over pages that were cached at any time since, finds the value inserted last, and
    leaves the locks free.  (Fewer than half of the versions may pass in between.) *)
Theorem downstream_answers_as_upstream {K V} `{EqDecision K, Countable V, CodecLaws K, CodecLaws V, !FixedSize V}
    {S} `{PageStoreLaws S node} (sizeof_node : Z) (hash : K -> Z) (s : S) (before after : list (K * V))
    (m0 m1 : amap S) (changes0 changes deliveries : list (Z * bucket_t)) (r : rmap) (key : K) :
  0 <= sizeof_node < MAX_NODE_SIZE - 24 -> ps_wf s ->
  2 * Z.of_nat (length before) + 2 * Z.of_nat (length after) <= ps_avail s -> Z.of_nat (length after) < WINDOW_SIZE ->
  Forall entry_wf before -> Forall entry_wf after ->
  insert_changes sizeof_node hash before (amap_init s) = (Ok changes0, m0) ->
  insert_changes sizeof_node hash after m0 = (Ok changes, m1) ->
  (forall c, c ∈ deliveries <-> c ∈ changes) ->
  unlocked r -> rm_disk r = ps_pages (am_store m1) -> seen_upstream sizeof_node hash after m0 (rm_cache r) ->
  wp (_ ← load_root (serialize_root m0); _ ← apply_all deliveries; remote_get hash key)
    (fun v r' => v = assoc_find key (reverse (before ++ after)) /\ unlocked r') r.
Proof.
  intros Hsz Hw Hav Hwin Hwf0 Hwf1 E0 E1 Hdel Hu Hd Hseen.
  pose proof (insert_changes_ok sizeof_node hash Hsz before _ _ _ (map_inv_init s _ Hw eq_refl) ltac:(lia) Hwf0) as H0'.
  apply wp_run in H0' as (? & ? & E & cs0 & av0 & Hinv0 & Hav0 & Hf0 & _). rewrite E0 in E. injection E as <- <-.
  pose proof (insert_changes_ok sizeof_node hash Hsz after _ _ _ Hinv0 ltac:(lia) Hwf1) as H1'.
  apply wp_run in H1' as (? & ? & E & cs1 & av1 & Hinv1 & _ & Hf1 & Hvers & Hch & Hlen & _). rewrite E1 in E. injection E as <- <-.
  apply wp_bind. eapply wp_mono; [by apply load_root_ok|]. cbv beta. intros _ r0 (Hu0 & Ebk & Ec0 & Ed0).
  apply wp_bind. eapply wp_mono.
  { eapply (apply_all_converges (fun b => get_bucket b m0) changes Hvers); [intros bid; exact (bucket_version_wf m0 cs0 av0 bid Hinv0)|by rewrite Hlen|done|done|intros bid; unfold rm_bucket; by rewrite Ebk]. }
  cbv beta. intros _ r1 (Hu1 & Ec & Ed & Hb). rewrite Ec0 in Ec. rewrite Ed0, Hd in Ed.
  destruct (Hinv1) as (pg & (_ & <- & _) & Hc & Hnd & _).
  eapply wp_mono; [apply (remote_get_ok hash key r1 cs1); [|done| |done]|].
  - intros bid. rewrite Hb, Hch, Ed. apply Hc.
  - rewrite Ec, Ed. apply (seen_upstream_behind sizeof_node hash Hsz after m0 m1 cs0 av0 changes); (done || lia).
  - cbv beta. intros v r2 [-> Hu2]. split; [|done]. rewrite Hf1, Hf0, reverse_app, assoc_find_app.
    destruct (assoc_find key (reverse after)); [done|]. unfold map_find. cbn. by destruct (assoc_find key (reverse before)).
Qed.

(**  A reader that is faster than an update stops the replica.  The page that it gets is newer
    than its bucket says, so it waits for the change of the bucket; but it has released the lock
    of the shard before, and waiting releases it once more.  The count of the lock is then that of
    a write lock, held by nobody: the change cannot be applied, and neither can any other change
    of the shard. *)
Theorem early_reader_blocks_updates {K V} `{EqDecision K, Countable V, Codec K, Codec V} (hash : K -> Z) (key : K) (r : rmap) (n : node) :
  let b := rm_bucket (to_bucket hash key) r in
  unlocked r -> bk_page_no b <> INVALID_PAGE_NO -> (rm_cache r ∪ rm_disk r) !! bk_page_no b = Some n ->
  version_ltb (nd_version n) (bk_version b) = false -> nd_version n <> bk_version b ->
  exists r', remote_get (V := V) hash key r = (Throw Must_wait, r') /\
    forall bid new, rm_shard bid = rm_shard (to_bucket hash key) -> apply_changes bid new r' = (Throw Must_wait, r').
Proof.
  intros b Hu Hp Hn Hlt Hne. set (shard := rm_shard (to_bucket hash key)).
  set (r2 := rm_set_count shard (rm_count shard (rm_set_count shard 1 r) - 1) (rm_set_count shard 1 r)).
  assert (rm_count shard r2 = 0) as E2 by (unfold r2; by rewrite !rm_count_set, !decide_True by done).
  assert (exists cache, remote_get_page (bk_page_no b) r2 = (Ok n, rm_set_cache cache r2)) as [cache Ec].
  { unfold remote_get_page, reload_page, mbind, ST_bind, get_st, modify_st, mret, ST_ret. cbv beta iota.
    change (rm_cache r2) with (rm_cache r).
    apply lookup_union_Some_raw in Hn as [Hn|[Hn Hn']]; rewrite Hn; [by exists (rm_cache r)|].
    change (rm_disk r2) with (rm_disk r). rewrite Hn'. eauto. }
  exists (rm_set_count shard (-1) (rm_set_cache cache r2)). split.
  - assert (rm_read_lock shard r = (Ok tt, rm_set_count shard 1 r)) as E1.
    { unfold rm_read_lock. rewrite (ST_bind_run get_st _ r r r) by done. by rewrite Hu. }
    unfold remote_get. rewrite (ST_bind_run get_st _ r r r) by done. cbv zeta. fold b shard.
    rewrite (ST_bind_run _ _ _ _ _ E1). apply ST_bind_throw. unfold remote_get_node. rewrite (proj2 (Z.eqb_neq _ _) Hp).
    rewrite (ST_bind_run _ _ _ tt r2) by done. cbn [reload_fuel remote_node_loop]. rewrite (ST_bind_run _ _ _ _ _ Ec), Hlt.
    unfold version_eqb. rewrite (proj2 (Z.eqb_neq _ _) Hne). unfold rm_read_unlock, modify_st, mbind, ST_bind.
    change (rm_count shard (rm_set_cache cache r2)) with (rm_count shard r2). by rewrite E2.
  - intros bid new Hs. unfold apply_changes, rm_write_lock, mbind, ST_bind, get_st. cbn. rewrite Hs. fold shard.
    by rewrite rm_count_set, decide_True.
Qed.

(** ** An upstream server with one page map, and a replica *)

Definition toy_before : list (string * event_id_t) := [("k"%string, EventId 1 2 3)].
Definition toy_after : list (string * event_id_t) := [("k"%string, EventId 1 2 4); ("l"%string, EventId 1 2 5); ("k"%string, EventId 1 2 6)].
Definition toy_m0 : amap (page_map node) := (insert_changes 64 hash_string toy_before (amap_init page_map_empty)).2.
Definition toy_m1 : amap (page_map node) := (insert_changes 64 hash_string toy_after toy_m0).2.
Definition toy_changes : list (Z * bucket_t) :=
  match (insert_changes 64 hash_string toy_after toy_m0).1 with Ok cs => cs | Throw _ => [] end.
Definition toy_replica : rmap := mkRmap ∅ (ps_pages (am_store toy_m0)) (ps_pages (am_store toy_m1)) ∅.

(** The last change comes first, and the cache is that of the beginning. *)
Lemma downstream_answers_as_upstream_witness :
  wp (_ ← load_root (serialize_root toy_m0); _ ← apply_all (reverse toy_changes); remote_get hash_string "k"%string)
    (fun v r' => v = Some (EventId 1 2 6) /\ unlocked r') toy_replica.
Proof.
  change (Some (EventId 1 2 6)) with (assoc_find "k"%string (reverse (toy_before ++ toy_after))).
  apply (downstream_answers_as_upstream 64 hash_string page_map_empty toy_before toy_after toy_m0 toy_m1
    (match (insert_changes 64 hash_string toy_before (amap_init page_map_empty)).1 with Ok cs => cs | Throw _ => [] end)
    toy_changes (reverse toy_changes) toy_replica "k"%string).
  - unfold MAX_NODE_SIZE. lia.
  - split; [done|]. intros p [n Hn]. cbn in Hn. by rewrite lookup_empty in Hn.
  - vm_compute. discriminate.
  - vm_compute. done.
  - repeat constructor; vm_compute; done.
  - repeat constructor; vm_compute; done.
  - vm_compute. reflexivity.
  - vm_compute. reflexivity.
  - intros c. apply elem_of_reverse.
  - intros shard. unfold rm_count. cbn. by rewrite lookup_empty.
  - reflexivity.
  - intros p n Hp. by exists [], toy_after.
Defined.

(** The root is that of the beginning, and so is every bucket; the page is newer. *)
Lemma early_reader_blocks_updates_witness :
  let r := mkRmap (serialize_root toy_m0) ∅ (ps_pages (am_store toy_m1)) ∅ in
  exists r', remote_get (V := event_id_t) hash_string "k"%string r = (Throw Must_wait, r') /\
    forall bid new, rm_shard bid = rm_shard (to_bucket hash_string "k"%string) -> apply_changes bid new r' = (Throw Must_wait, r').
Proof.
  intros r. apply (early_reader_blocks_updates hash_string "k"%string r (default node_new (ps_pages (am_store toy_m1) !! 1))).
  - intros shard. unfold rm_count. cbn. by rewrite lookup_empty.
  - vm_compute. done.
  - vm_compute. reflexivity.
  - vm_compute. reflexivity.
  - vm_compute. done.
Defined.
