(* ===== verification/Upstream.v ===== *)
(** * Upstream and downstream servers

    A downstream server answers clients in the place of its upstream server.  Models what the two
    say to each other: [PendingMessage], [PendingResponse] and [PendingBitstreamResponse], the
    responses of [src/enclave/Peer.cpp], in [src/enclave/Enclave.cpp] [set_upstream],
    [read_from_upstream_disk] and the triggers, [RemoteEncryptedIO.cpp],
    [handle_request_downstream_mode] of [RemoteParty.cpp] and
    [send_index_updates_to_downstream] of [Ledger.cpp].

    A handler that has to wait for a response stops there and is taken up again afterwards
    ([pending]).  The two servers are those of [Attestation.v], their messages go through its
    [on_network_message]. *)

From S2P Require Import Prelude Bitstream AbstractMap EncryptedIO Disk Identity Ledger Wire KeyExchange RemoteParties Attestation.
From S2P Require Import ClientAttestation Handshake PeerAttestation.

(** ** The state

    [en_disk_key] is the key of [m_encrypted_io]; [en_roots]: the collections, with the buckets of
    their primary index as they lie in memory; [en_disk] are the files of the host.
    [en_pending]: the handle of the pending block of every shard, which the ledger has since it was
    made, as the page that it stands for; [en_cached]: the pages in the buffer manager. *)
Record enclave : Type := mkEnclave {
  en_upstream_id : Z;
  en_disk_key : list Z;
  en_roots : gmap string (list Z);
  en_triggers : gmap string (gset Z);
  en_trigger_mutex : bool;
  en_disk : disk;
  en_pending : gmap Z Z;
  en_cached : gset Z;
}.

Definition set_upstream_id (v : Z) (w : enclave) : enclave :=
  mkEnclave v (en_disk_key w) (en_roots w) (en_triggers w) (en_trigger_mutex w) (en_disk w) (en_pending w) (en_cached w).
Definition set_disk_key (v : list Z) (w : enclave) : enclave :=
  mkEnclave (en_upstream_id w) v (en_roots w) (en_triggers w) (en_trigger_mutex w) (en_disk w) (en_pending w) (en_cached w).
Definition set_roots (v : gmap string (list Z)) (w : enclave) : enclave :=
  mkEnclave (en_upstream_id w) (en_disk_key w) v (en_triggers w) (en_trigger_mutex w) (en_disk w) (en_pending w) (en_cached w).
Definition set_triggers (v : gmap string (gset Z)) (w : enclave) : enclave :=
  mkEnclave (en_upstream_id w) (en_disk_key w) (en_roots w) v (en_trigger_mutex w) (en_disk w) (en_pending w) (en_cached w).
Definition set_trigger_mutex (v : bool) (w : enclave) : enclave :=
  mkEnclave (en_upstream_id w) (en_disk_key w) (en_roots w) (en_triggers w) v (en_disk w) (en_pending w) (en_cached w).
Definition set_disk (v : disk) (w : enclave) : enclave :=
  mkEnclave (en_upstream_id w) (en_disk_key w) (en_roots w) (en_triggers w) (en_trigger_mutex w) v (en_pending w) (en_cached w).

(** [Ledger::clear_cached_blocks]: every shard discards its pending block, the handle and the page in
    the cache.  ([set_upstream], the only caller, runs once, so the handles are there.) *)
Definition clear_cached_blocks (w : enclave) : enclave :=
  mkEnclave (en_upstream_id w) (en_disk_key w) (en_roots w) (en_triggers w) (en_trigger_mutex w) (en_disk w) ∅
    (en_cached w ∖ list_to_set (map_to_list (en_pending w)).*2).

(** The array of the buckets: a page number, a version and padding each *)
Definition sizeof_buckets : Z := 8 * NUM_BUCKETS.

(** A bitstream in a bitstream *)
Definition stream_enc (bs : list Z) : list Z := le_encode 4 (Z.of_nat (length bs)) ++ bs.
Definition stream_dec (bs : list Z) : option (list Z * list Z) := '(n, bs) ← int_dec 4 bs; read_raw n bs.

(** [PT_DownstreamServer] as the number that [peer_type_of] reads *)
Definition downstream_server_type : Z := 3.

Definition on_disk {A} : ST disk A -> ST enclave A := zoom en_disk set_disk.

Definition set_upstream_key (key : list Z) (c : config) : config :=
  mkConfig (cf_identity c) (cf_private_key c) (cf_groupid c) (Some key).

Section Upstream.
Context `{Crypto} `{Ra} `{AesGcm}.
Variable uninit : nat -> list Z.
Variable string_hash : string -> Z.

(** What an upstream server does with requests, what a downstream server does with those that it
    answers itself and with index updates, and the tasks *)
Variable on_request : Z -> OpContext -> list Z -> ST enclave (list Z).
Variable local_request : OperationType -> OpContext -> list Z -> ST enclave (list Z).
Variable push_index_update : list Z -> Z -> Z -> Z -> ST enclave unit.
Variable handle_task_response : Z -> ST enclave unit.
Variable resolve_and_connect : string -> option (string * Z).

Abbreviation SV := (ST (server enclave)).

(** ** Pending messages *)

Definition set_next_op (v : Z) (p : peer_party) : peer_party :=
  mkPeerParty (pr_state p) (pr_is_initiator p) (pr_type p) (pr_group_id p) v (pr_pending_count p)
    (pr_dhke_other_public p) (pr_dhke_public p) (pr_dhke_private p) (pr_vk_key p) (pr_mk_key p) (pr_smk_key p)
    (pr_sk_internal_key p) (pr_ps_sec_prop p) (pr_encryption_key p) (pr_hostname p) (pr_port p) (pr_responses p).
Definition set_pending_count (v : Z) (p : peer_party) : peer_party :=
  mkPeerParty (pr_state p) (pr_is_initiator p) (pr_type p) (pr_group_id p) (pr_next_op p) v
    (pr_dhke_other_public p) (pr_dhke_public p) (pr_dhke_private p) (pr_vk_key p) (pr_mk_key p) (pr_smk_key p)
    (pr_sk_internal_key p) (pr_ps_sec_prop p) (pr_encryption_key p) (pr_hostname p) (pr_port p) (pr_responses p).

Definition get_next_operation_id (id : Z) : SV Z :=
  p ← self_peer id; _ ← set_peer id (fun p => set_next_op (u32 (pr_next_op p + 1)) p); mret (pr_next_op p).

Definition increment_pending_count (id : Z) : SV unit :=
  set_peer id (fun p => set_pending_count (u16 (pr_pending_count p + 1)) p).

Definition decrement_pending_count (id : Z) : SV unit :=
  p ← self_peer id;
  if pr_pending_count p <=? 0 then throw (Runtime_error "Pending count broken!")
  else set_peer id (fun p => set_pending_count (pr_pending_count p - 1) p).

(** [None]: not there, and the caller does not wait *)
Definition receive_response (id op_id : Z) (wait : bool) : SV (option (list Z)) :=
  p ← self_peer id;
  match pr_responses p !! op_id with
  | None => if wait then throw Must_wait else mret None
  | Some msg => _ ← set_peer id (fun p => set_responses (delete op_id (pr_responses p)) p); mret (Some msg)
  end.

(** [PendingMessage::wait] with the result that [parse] leaves *)
Definition PendingMessage_wait {A} (parse : list Z -> option (A * list Z)) (id op_id : Z) (block : bool) : SV (option A) :=
  o ← receive_response id op_id block;
  match o with
  | None => mret None
  | Some msg => '((a, _) : A * list Z) ← stream (parse msg); _ ← decrement_pending_count id; mret (Some a)
  end.

(** A handler up to the point where it waits, and what is left of it *)
Inductive pending (A : Type) : Type :=
  | Finished (a : A)
  | Awaits (rest : SV A).
Arguments Finished {_} a.
Arguments Awaits {_} rest.

(** The response to [op_id] is waited for; the peer stays there as long as somebody waits. *)
Definition await {A B} (parse : list Z -> option (A * list Z)) (id op_id : Z) (k : A -> SV B) : SV (pending B) :=
  _ ← increment_pending_count id;
  mret (Awaits (o ← PendingMessage_wait parse id op_id true; match o with Some a => k a | None => throw Must_wait end)).

(** ** The upstream server *)

(** The response to [TellPeerType] *)
Definition root_entry (c : string * list Z) : list Z := enc c.1 ++ c.2.
Definition peer_type_response (w : enclave) : list Z :=
  stream_enc (en_disk_key w ++ le_encode 4 (Z.of_nat (size (en_roots w))) ++ (map_to_list (en_roots w) ≫= root_entry)).

Definition read_undecrypted_from_disk (path : string) : ST enclave (option (list Z)) :=
  on_disk (Disk_read_undecrypted string_hash path).

Definition get_triggers (collection : string) : ST enclave (list Z) :=
  w ← get_st;
  if en_trigger_mutex w then throw Must_wait
  else mret (match en_triggers w !! collection with Some ids => elements ids | None => [] end).

Definition receives : Z -> list Z -> SV unit :=
  on_network_message uninit on_request get_triggers push_index_update handle_task_response
    peer_type_response read_undecrypted_from_disk resolve_and_connect.

(** The name of an index, always empty, is at the end. *)
Definition index_update (changes : list Z) (shard page block_size : Z) : list Z :=
  le_encode 1 MT_PushIndexUpdate ++ stream_enc changes ++ le_encode 2 shard ++ le_encode 4 page ++ le_encode 2 block_size ++
  enc EmptyString.

Fixpoint send_to_downstream (ids : list Z) (msg : list Z) : SV unit :=
  match ids with
  | [] => mret tt
  | id :: ids =>
      s ← get_st;
      match find_peer id (sv_registry s) with
      | None => throw (Fatal "Peer in downstream set but not in remote party set")
      | Some _ => _ ← RemoteParty_send id msg; send_to_downstream ids msg
      end
  end.

Definition send_index_updates_to_downstream (changes : list Z) (shard page block_size : Z) : SV unit :=
  s ← get_st; send_to_downstream (elements (rg_downstream_set (sv_registry s))) (index_update changes shard page block_size).

(** ** The downstream server *)

(** [decrypt_disk] asserts that there is a tag. *)
Definition read_from_upstream_disk (filename : string) : SV (pending (option (list Z))) :=
  s ← get_st;
  let upstream := en_upstream_id (sv_world s) in
  match find_peer upstream (sv_registry s) with
  | None => mret (Finished None)
  | Some _ =>
      op_id ← get_next_operation_id upstream;
      _ ← on_host (host_send upstream (le_encode 1 PlainText ++ le_encode 1 OperationRequest ++ le_encode 4 op_id ++
            le_encode 1 (op_number ReadFromUpstreamDisk) ++ enc filename));
      await stream_dec upstream op_id (fun encrypted =>
        if decide (encrypted = []) then mret None
        else if (length encrypted <? SGX_AESGCM_MAC_SIZE)%nat then throw (Fatal "Assertion failed")
        else
          s ← get_st;
          mret (match decrypt_disk (en_disk_key (sv_world s)) encrypted with
                | Some (b :: data) => Some (b :: data)
                | _ => None
                end))
  end.

(** [RemoteEncryptedIO]: writes are left to the upstream server. *)
Definition RemoteEncryptedIO_read (filename : string) : SV (pending (option (list Z))) := read_from_upstream_disk filename.
Definition RemoteEncryptedIO_write (filename : string) (data : list Z) : SV bool := mret true.

(** [upstream->send] of a request, with task 0 *)
Definition upstream_request (type op_id : Z) (body : list Z) : list Z :=
  le_encode 1 type ++ le_encode 4 0 ++ le_encode 4 op_id ++ body.

Definition send_request {A B} (upstream type : Z) (body : list Z) (parse : list Z -> option (A * list Z)) (k : A -> SV B) :
    SV (pending B) :=
  op_id ← get_next_operation_id upstream;
  _ ← RemoteParty_send upstream (upstream_request type op_id body);
  await parse upstream op_id k.

Definition set_config (c : config) : SV unit :=
  modify_st (fun s => mkServer c (sv_identities s) (sv_registry s) (sv_host s) (sv_sdk s) (sv_world s)).

Fixpoint load_roots (n : nat) (bs : list Z) : SV unit :=
  match n with
  | O => mret tt
  | S n =>
      '((col, bs) : string * list Z) ← stream (dec bs);
      '((root, bs) : list Z * list Z) ← stream (read_raw sizeof_buckets bs);
      _ ← on_world (modify_st (fun w => set_roots (<[col := root]> (en_roots w)) w));
      load_roots n bs
  end.

(** The mode is [cf_upstream]; the public key follows when the peer is found. *)
Definition set_upstream (upstream : Z) : SV (pending unit) :=
  s ← get_st;
  match cf_upstream (sv_config s) with
  | Some _ => throw (Fatal "Downstream mode has already been set before")
  | None =>
      _ ← set_config (set_upstream_key (uninit 64) (sv_config s));
      _ ← on_world (modify_st (set_upstream_id upstream));
      match find upstream (sv_registry s) with
      | None => throw (Undefined "null pointer")
      | Some p =>
          match as_peer p with
          | None => throw (Undefined "null pointer")
          | Some _ =>
              key ← lift_res (party_public_key p);
              _ ← set_config (set_upstream_key key (sv_config s));
              send_request upstream OperationRequest (le_encode 1 (op_number TellPeerType) ++ le_encode 4 downstream_server_type)
                stream_dec (fun bs =>
                  '((disk_key, bs) : list Z * list Z) ← stream (read_raw 16 bs);
                  _ ← on_world (modify_st (set_disk_key disk_key));
                  _ ← on_world (modify_st clear_cached_blocks);
                  '((n, bs) : Z * list Z) ← stream (int_dec 4 bs);
                  load_roots (Z.to_nat n) bs)
          end
      end
  end.

(** *** Triggers

    [m_trigger_mutex] is held while a response is waited for, and released when the function is
    left. *)
Definition trigger_lock : SV unit :=
  s ← get_st; if en_trigger_mutex (sv_world s) then throw Must_wait else on_world (modify_st (set_trigger_mutex true)).

Definition trigger_unlock (s : server enclave) : server enclave :=
  mkServer (sv_config s) (sv_identities s) (sv_registry s) (sv_host s) (sv_sdk s) (set_trigger_mutex false (sv_world s)).

Definition guarded {A} (m : SV A) : SV A := fun s =>
  match m s with
  | (Throw Must_wait, s) => (Throw Must_wait, s)
  | (r, s) => (r, trigger_unlock s)
  end.

(** The guard is left with the function: at the end, or with what is left after the waiting. *)
Definition with_trigger_mutex {A} (m : SV (pending A)) : SV (pending A) := fun s =>
  match (_ ← trigger_lock; m) s with
  | (Throw Must_wait, s) => (Throw Must_wait, s)
  | (Throw e, s) => (Throw e, trigger_unlock s)
  | (Ok (Finished a), s) => (Ok (Finished a), trigger_unlock s)
  | (Ok (Awaits rest), s) => (Ok (Awaits (guarded rest)), s)
  end.

Definition update_triggers (f : gmap string (gset Z) -> gmap string (gset Z)) : SV unit :=
  on_world (modify_st (fun w => set_triggers (f (en_triggers w)) w)).

Definition set_trigger (collection : string) (identifier : Z) : SV (pending bool) :=
  with_trigger_mutex (
    s ← get_st;
    match en_triggers (sv_world s) !! collection with
    | Some ids => _ ← update_triggers <[collection := {[identifier]} ∪ ids]>; mret (Finished true)
    | None =>
        let upstream := en_upstream_id (sv_world s) in
        match find_peer upstream (sv_registry s) with
        | None => mret (Finished false)
        | Some _ =>
            send_request upstream OperationRequest (le_encode 1 (op_number SetTrigger) ++ enc collection) dec (fun result : bool =>
              if negb result then mret false else _ ← update_triggers <[collection := {[identifier]}]>; mret true)
        end
    end).

Definition unset_trigger (collection : string) (identifier : Z) : SV (pending bool) :=
  with_trigger_mutex (
    s ← get_st;
    match en_triggers (sv_world s) !! collection with
    | None => mret (Finished false)
    | Some ids =>
        if decide (identifier ∈ ids) then
          let ids := ids ∖ {[identifier]} in
          _ ← update_triggers <[collection := ids]>;
          if decide (ids = ∅) then
            let upstream := en_upstream_id (sv_world s) in
            match find_peer upstream (sv_registry s) with
            | None => mret (Finished false)
            | Some _ =>
                send_request upstream OperationRequest (le_encode 1 (op_number UnsetTrigger) ++ enc collection) dec
                  (fun result : bool => _ ← update_triggers (delete collection); mret result)
            end
          else mret (Finished true)
        else mret (Finished false)
    end).

(** *** Requests *)

Definition pending_map {A B} (f : A -> B) (p : pending A) : pending B :=
  match p with
  | Finished a => Finished (f a)
  | Awaits rest => Awaits (a ← rest; mret (f a))
  end.

Definition is_local (op : OperationType) : bool :=
  match op with GetObject | HasObject | GetObjectWithWitness => true | _ => false end.

Definition is_forwarded (op : OperationType) : bool :=
  match op with
  | GetStatistics | NOP | DiffVersions | AddToObject | PutObject | PutObjectWithoutKey | CreateIndex | CountObjects
  | DropIndex | RemoveObject | Clear | GetObjectHistory | FindObjects | ExecuteTransaction | OrderEvents => true
  | _ => false
  end.

(** [handle_request_downstream_mode]; [input] is the message from its start, [output] is what has
    been written already and is replaced by the upstream server's response. *)
Definition handle_request_downstream_mode (id : Z) (op_context : OpContext) (op_type : option OperationType)
    (input body output : list Z) : SV (pending (list Z)) :=
  match op_type with
  | Some SetTrigger =>
      '((collection, _) : string * list Z) ← stream (dec body);
      res ← set_trigger collection id; mret (pending_map (fun b : bool => output ++ enc b) res)
  | Some UnsetTrigger =>
      '((collection, _) : string * list Z) ← stream (dec body);
      res ← unset_trigger collection id; mret (pending_map (fun b : bool => output ++ enc b) res)
  | Some op =>
      if is_local op then out ← on_world (local_request op op_context body); mret (Finished (output ++ out))
      else if is_forwarded op then
        s ← get_st;
        let upstream := en_upstream_id (sv_world s) in
        match find_peer upstream (sv_registry s) with
        | None => mret (Finished output)
        | Some _ => send_request upstream MT_ForwardedOperationRequest (stream_enc input) stream_dec mret
        end
      else mret (Finished (output ++ enc false))
  | None => mret (Finished (output ++ enc false))
  end.

(** [handle_op_request] in downstream mode *)
Definition downstream_op_request (id : Z) (op_context : OpContext) (input : list Z) : SV (pending (list Z)) :=
  '((_, body) : Z * list Z) ← stream (int_dec 1 input);
  '((task_id, body) : Z * list Z) ← stream (int_dec 4 body);
  '((op_id, body) : Z * list Z) ← stream (int_dec 4 body);
  '((op, body) : Z * list Z) ← stream (int_dec 1 body);
  handle_request_downstream_mode id op_context (op_of_number op) input body
    (le_encode 1 OperationResponse ++ le_encode 4 task_id ++ le_encode 4 op_id).

(** ** Steps of a server

    The state after a few steps that concern the peer [id]: its members are [q] now, the messages
    [l] have been sent to it, and the rest of the enclave is [w]. *)
Definition after (id : Z) (i : option Identity) (c : Z) (q : peer_party) (l : list (list Z)) (w : enclave)
    (s : server enclave) : server enclave :=
  mkServer (sv_config s) (sv_identities s)
    (set_parties (<[id := mkParty i c (KPeer q)]> (rg_parties (sv_registry s))) (sv_registry s))
    (mkHost (h_parties (sv_host s)) (h_next (sv_host s)) (h_sent (sv_host s) ++ (pair id <$> l))) (sv_sdk s) w.

(** A connection to another server, with no attestation under way *)
Record ready (id : Z) (i : option Identity) (c : Z) (q : peer_party) (s : server enclave) : Prop := {
  rd_party : rg_parties (sv_registry s) !! id = Some (mkParty i c (KPeer q));
  rd_host : exists hp, h_parties (sv_host s) !! id = Some hp /\ ho_open hp = true /\ ho_mode hp <> OneWay /\
    (ho_state hp = Done \/ ho_state hp = TellGroupId);
}.

Lemma ready_after id i c q q' l w s : ready id i c q s -> ready id i c q' (after id i c q' l w s).
Proof. intros [Hp Hh]. split; [apply lookup_insert_eq|done]. Qed.

Lemma after_after id i c q q' l l' w w' s : after id i c q' l' w' (after id i c q l w s) = after id i c q' (l ++ l') w' s.
Proof.
  unfold after. fields. rewrite fmap_app, (assoc_L (++)). unfold set_parties. fields. by rewrite insert_insert_eq.
Qed.

Lemma after_nothing id i c q s : ready id i c q s -> after id i c q [] (sv_world s) s = s.
Proof.
  intros [Hp _]. unfold after, set_parties. destruct s as [cf ids [ps nm um ds] [hps nx snt] sd w]. fields. cbn in Hp.
  by rewrite insert_id, app_nil_r.
Qed.

Lemma ready_find id i c q s : ready id i c q s -> find_peer id (sv_registry s) = Some q.
Proof. intros [Hp _]. unfold find_peer, find. by rewrite Hp. Qed.

Lemma wp_self_peer id i c q Q s : ready id i c q s -> Q q s -> wp (self_peer id) Q s.
Proof. intros [Hp _] HQ. unfold wp. by erewrite self_peer_run. Qed.

Lemma wp_members id i c q f (Q : unit -> server enclave -> Prop) s :
  ready id i c q s -> Q tt (after id i c (f q) [] (sv_world s) s) -> wp (set_peer id f) Q s.
Proof.
  intros [Hp _] HQ. eapply wp_set_peer; [done..|]. unfold after in HQ. cbn [fmap list_fmap] in HQ. rewrite app_nil_r in HQ.
  by destruct (sv_host s).
Qed.

Lemma wp_plain id i c q data (Q : unit -> server enclave -> Prop) s :
  ready id i c q s -> Q tt (after id i c q [data] (sv_world s) s) -> wp (on_host (host_send id data)) Q s.
Proof.
  intros [Hp (hp & Hh & Ho & _)] HQ. apply wp_zoom. eapply wp_host_send; [done..|].
  unfold after, set_parties in HQ. rewrite insert_id in HQ by done. by destruct (sv_registry s).
Qed.

Lemma wp_encrypted id i c q msg (Q : unit -> server enclave -> Prop) s :
  ready id i c q s -> pr_state q = PS_Connected ->
  Q tt (after id i c q [encrypt (pr_encryption_key q) msg] (sv_world s) s) -> wp (RemoteParty_send id msg) Q s.
Proof.
  intros Hr Hc HQ. unfold RemoteParty_send. apply wp_bind. eapply wp_self; [apply Hr|].
  unfold get_encryption_key. cbn [pa_kind]. rewrite Hc. by eapply wp_plain.
Qed.

Lemma wp_enclave {A} id i c q (m : ST enclave A) Q s :
  ready id i c q s -> wp m (fun a w => Q a (after id i c q [] w s)) (sv_world s) -> wp (on_world m) Q s.
Proof.
  intros [Hp _] Hm. apply wp_zoom. eapply wp_mono; [exact Hm|]. intros a w HQ.
  unfold after, set_parties in HQ. rewrite insert_id, app_nil_r in HQ by done. by destruct (sv_registry s), (sv_host s).
Qed.

Lemma wp_next_op id i c q (Q : Z -> server enclave -> Prop) s :
  ready id i c q s -> Q (pr_next_op q) (after id i c (set_next_op (u32 (pr_next_op q + 1)) q) [] (sv_world s) s) ->
  wp (get_next_operation_id id) Q s.
Proof.
  intros Hr HQ. unfold get_next_operation_id. apply wp_bind. eapply wp_self_peer; [done|].
  apply wp_bind. eapply wp_members; [done|]. by apply wp_ret.
Qed.

(** *** Waiting *)

Definition resume {A B} (parse : list Z -> option (A * list Z)) (id op_id : Z) (k : A -> SV B) : SV B :=
  o ← PendingMessage_wait parse id op_id true; match o with Some a => k a | None => throw Must_wait end.

Lemma wp_await {A B} (parse : list Z -> option (A * list Z)) id i c q op (k : A -> SV B) (Q : pending B -> server enclave -> Prop) s :
  ready id i c q s -> Q (Awaits (resume parse id op k)) (after id i c (set_pending_count (u16 (pr_pending_count q + 1)) q) [] (sv_world s) s) ->
  wp (await parse id op k) Q s.
Proof. intros Hr HQ. unfold await. apply wp_bind. eapply wp_members; [done|]. by apply wp_ret. Qed.

Lemma wp_resume {A B} (parse : list Z -> option (A * list Z)) id i c q op msg a rest (k : A -> SV B) Q s :
  ready id i c q s -> pr_responses q !! op = Some msg -> parse msg = Some (a, rest) -> 0 < pr_pending_count q ->
  wp (k a) Q (after id i c (set_pending_count (pr_pending_count q - 1) (set_responses (delete op (pr_responses q)) q)) [] (sv_world s) s) ->
  wp (resume parse id op k) Q s.
Proof.
  intros Hr Hm Hp Hn Hk. unfold resume, PendingMessage_wait, receive_response. do 3 apply wp_bind.
  eapply wp_self_peer; [done|]. rewrite Hm. apply wp_bind. eapply wp_members; [done|]. apply wp_ret. rewrite Hp. cbn [stream].
  apply wp_bind, wp_ret. cbv beta iota. apply wp_bind. unfold decrement_pending_count. apply wp_bind.
  assert (ready id i c (set_responses (delete op (pr_responses q)) q)
    (after id i c (set_responses (delete op (pr_responses q)) q) [] (sv_world s) s)) as Hr' by (by eapply ready_after).
  eapply wp_self_peer; [done|]. cbn [pr_pending_count set_responses]. rewrite (proj2 (Z.leb_gt _ _)) by lia.
  eapply wp_members; [done|]. apply wp_ret. rewrite after_after. exact Hk.
Qed.

Lemma resume_waits {A B} (parse : list Z -> option (A * list Z)) id i c q op (k : A -> SV B) s :
  ready id i c q s -> pr_responses q !! op = None -> resume parse id op k s = (Throw Must_wait, s).
Proof.
  intros [Hp _] Hm. unfold resume, PendingMessage_wait, receive_response, mbind, ST_bind.
  erewrite self_peer_run by done. by rewrite Hm.
Qed.

(** *** Receiving *)

Lemma wp_quiet id i c q (Q : unit -> server enclave -> Prop) s : ready id i c q s -> Q tt s -> wp (Attestation_update id) Q s.
Proof.
  intros [_ (hp & Hh & _ & _ & Hq)] HQ. unfold Attestation_update. apply wp_bind, wp_zoom. eapply wp_host_get; [done|].
  replace (mkServer _ _ _ _ _ _) with s by (by destruct s). apply wp_bind.
  destruct Hq as [-> | ->]; by do 2 apply wp_ret.
Qed.

Lemma wp_receive_plain id i c q msg Q s :
  ready id i c q s ->
  wp (handle_peer_plain_text_message read_undecrypted_from_disk id msg) (fun _ => wp (Attestation_update id) Q) s ->
  wp (receives id (le_encode 1 PlainText ++ msg)) Q s.
Proof.
  intros [Hp (hp & Hh & _ & Hm & _)] Hw. unfold receives, on_network_message. apply wp_bind, wp_zoom.
  eapply wp_host_get; [done|]. replace (mkServer _ _ _ _ _ _) with s by (by destruct s).
  eapply wp_stream; [by apply (int_dec_enc 1)|]. cbv beta iota. apply wp_bind. cbn [Z.eqb Pos.eqb orb AttestationEnc Encrypted PlainText].
  by rewrite decide_False.
Qed.

Lemma stream_run {A B} (o : option A) a (k : A -> SV B) s : o = Some a -> (stream o ≫= k) s = k a s.
Proof. by intros ->. Qed.

Lemma receive_encrypted `{!AesGcmLaws} id i c q type body s :
  ready id i c q s -> pr_state q = PS_Connected -> in_range 8 type -> in_range 32 (Z.of_nat (length (le_encode 1 type ++ body))) ->
  receives id (encrypt (pr_encryption_key q) (le_encode 1 type ++ body)) s =
  (_ ← handle_connected_message on_request get_triggers push_index_update handle_task_response peer_type_response id
         (mkParty i c (KPeer q)) type body; Attestation_update id) s.
Proof.
  intros [Hp (hp & Hh & _ & Hm & _)] Hc Ht Hl. unfold receives, on_network_message.
  erewrite ST_bind_run by (unfold on_host, zoom, host_get; by rewrite Hh). replace (mkServer _ _ _ _ _ _) with s by (by destruct s).
  assert (exists rest, int_dec 1 (encrypt (pr_encryption_key q) (le_encode 1 type ++ body)) = Some (Encrypted, rest)) as [rest E].
  { unfold encrypt. destruct (gcm_encrypt _ _ _). eexists. by apply (int_dec_enc 1). }
  erewrite stream_run by done. cbv beta iota. cbn [Z.eqb Pos.eqb orb Encrypted]. unfold mbind at 1 2, ST_bind. f_equal.
  unfold enclave_handle_message. erewrite ST_bind_run by done. unfold find. rewrite Hp. cbn [pa_kind].
  unfold Peer_handle_message, open_message, get_encryption_key. cbn [pa_kind]. rewrite Hc, decrypt_encrypt by done.
  erewrite ST_bind_run; cycle 1.
  { erewrite ST_bind_run by done. erewrite stream_run by done. cbv beta iota. cbn [Z.eqb Pos.eqb Encrypted AttestationEnc]. done. }
  cbn [Z.eqb Pos.eqb Encrypted AttestationEnc negb andb].
  rewrite (proj2 (Nat.ltb_ge _ _)) by (rewrite length_app; cbn; lia).
  erewrite stream_run by (by apply (int_dec_enc 1)). cbv beta iota. by rewrite decide_True.
Qed.

Lemma wp_receive_encrypted `{!AesGcmLaws} id i c q type body Q s :
  ready id i c q s -> pr_state q = PS_Connected -> in_range 8 type -> in_range 32 (Z.of_nat (length (le_encode 1 type ++ body))) ->
  wp (handle_connected_message on_request get_triggers push_index_update handle_task_response peer_type_response id
        (mkParty i c (KPeer q)) type body) (fun _ => wp (Attestation_update id) Q) s ->
  wp (receives id (encrypt (pr_encryption_key q) (le_encode 1 type ++ body))) Q s.
Proof. intros Hr Hc Ht Hl Hw. unfold wp. erewrite receive_encrypted by done. by apply wp_bind. Qed.

Definition responded (op : Z) (data : list Z) (q : peer_party) : peer_party := set_responses (<[op := data]> (pr_responses q)) q.

Lemma wp_plain_response id i c q op data (Q : unit -> server enclave -> Prop) s :
  ready id i c q s -> in_range 32 op -> pr_responses q !! op = None ->
  Q tt (after id i c (responded op data q) [] (sv_world s) s) ->
  wp (receives id (le_encode 1 PlainText ++ le_encode 1 OperationResponse ++ le_encode 4 op ++ data)) Q s.
Proof.
  intros Hr Hop Hn HQ. eapply wp_receive_plain; [done|]. unfold handle_peer_plain_text_message.
  eapply wp_stream; [by apply (int_dec_enc 1)|]. cbv beta iota. cbn [Z.eqb Pos.eqb OperationRequest OperationResponse].
  eapply wp_stream; [by apply (int_dec_enc 4)|]. cbv beta iota. unfold insert_response. eapply wp_members; [done|].
  rewrite Hn. eapply wp_quiet; [by eapply ready_after|]. exact HQ.
Qed.

Lemma wp_response `{!AesGcmLaws} id i c q op data (Q : unit -> server enclave -> Prop) s :
  ready id i c q s -> pr_state q = PS_Connected -> in_range 32 op -> pr_responses q !! op = None ->
  in_range 32 (Z.of_nat (length data) + 9) ->
  Q tt (after id i c (responded op data q) [] (sv_world s) s) ->
  wp (receives id (encrypt (pr_encryption_key q) (le_encode 1 OperationResponse ++ le_encode 4 0 ++ le_encode 4 op ++ data))) Q s.
Proof.
  intros Hr Hc Hop Hn Hl HQ. eapply wp_receive_encrypted; [done|done|done| |].
  { rewrite !length_app, !le_encode_length. unfold in_range in *. lia. }
  unfold handle_connected_message. cbn [Z.eqb Pos.eqb OperationRequest OperationResponse MT_NotifyTrigger MT_PushIndexUpdate].
  unfold handle_op_response.
  eapply wp_stream; [by apply (int_dec_enc 4)|]. cbv beta iota. eapply wp_stream; [by apply (int_dec_enc 4)|]. cbv beta iota.
  apply wp_bind. eapply wp_members; [done|]. rewrite Hn. cbn [Z.eqb]. apply wp_ret. eapply wp_quiet; [by eapply ready_after|]. exact HQ.
Qed.

(** ** Two servers

    The first one is the upstream server, [a] its connection to the second one, [b] the other end. *)

Definition pass_up (a b : Z) : ST servers unit :=
  sys ← get_st;
  match last (sent_to b (sv_host sys.2)) with Some msg => on_first (receives a msg) | None => mret tt end.
Definition pass_down (a b : Z) : ST servers unit :=
  sys ← get_st;
  match last (sent_to a (sv_host sys.1)) with Some msg => on_second (receives b msg) | None => mret tt end.

(** A handler of the second server, with the request and the response on their ways *)
Definition ask_upstream {A} (a b : Z) (m : SV (pending A)) : ST servers A :=
  p ← on_second m;
  match p with
  | Finished x => mret x
  | Awaits rest => _ ← pass_up a b; _ ← pass_down a b; on_second rest
  end.

Lemma wp_ask {A} a b (m : SV (pending A)) Q s t :
  wp m (fun p t1 => exists rest msg, p = Awaits rest /\ last (sent_to b (sv_host t1)) = Some msg /\
    wp (receives a msg) (fun _ s1 => exists resp, last (sent_to a (sv_host s1)) = Some resp /\
      wp (receives b resp) (fun _ => wp rest (fun x t3 => Q x (s1, t3))) t1) s) t ->
  wp (ask_upstream a b m) Q (s, t).
Proof.
  intros Hm. unfold ask_upstream. apply wp_bind, wp_zoom. eapply wp_mono; [exact Hm|].
  intros p t1 (rest & msg & -> & Hl & Hup). cbn [fst]. unfold pass_up, pass_down. apply wp_bind, wp_bind, wp_get. cbn [snd].
  rewrite Hl. apply wp_zoom. eapply wp_mono; [exact Hup|]. intros [] s1 (resp & Hl' & Hdown).
  apply wp_bind, wp_bind, wp_get. cbn [fst]. rewrite Hl'. apply wp_zoom. eapply wp_mono; [exact Hdown|].
  intros [] t2 Hrest. by apply wp_zoom.
Qed.

Lemma last_sent id i c q l m w s : last (sent_to id (sv_host (after id i c q (l ++ [m]) w s))) = Some m.
Proof.
  erewrite (sent_to_app id (mkHost (h_parties (sv_host s)) (h_next (sv_host s)) (h_sent (sv_host s) ++ (pair id <$> l)))).
  - apply last_snoc.
  - unfold after. fields. by rewrite fmap_app, (assoc_L (++)).
Qed.

(** *** Files *)

(** What [LocalEncryptedIO] leaves on the disk *)
Definition disk_image (key data : list Z) : list Z :=
  let '(cdata, tag) := gcm_encrypt key zero_iv data in tag ++ cdata.

Lemma disk_image_length `{!AesGcmLaws} key data : length (disk_image key data) = (16 + length data)%nat.
Proof.
  unfold disk_image. pose proof (gcm_tag_length key zero_iv data) as Ht. pose proof (gcm_cdata_length key zero_iv data) as Hc.
  destruct (gcm_encrypt key zero_iv data). rewrite length_app. cbn in *. lia.
Qed.

Lemma decrypt_disk_image `{!AesGcmLaws} key data : decrypt_disk key (disk_image key data) = Some data.
Proof.
  unfold disk_image, decrypt_disk, SGX_AESGCM_MAC_SIZE. pose proof (gcm_tag_length key zero_iv data) as Ht.
  pose proof (gcm_roundtrip key zero_iv data) as Hr. destruct (gcm_encrypt key zero_iv data) as [cdata tag]. cbn [snd] in Ht.
  by rewrite <- Ht, take_app_length, drop_app_length.
Qed.

Definition same_shards (d d' : disk) : Prop := forall sid, dk_shards d' sid = dk_shards d sid.

Lemma read_undecrypted_ok f file d :
  let sid := disk_shard_of string_hash f in
  ds_locked (dk_shards d sid) = false -> ds_files (dk_shards d sid) !! f = Some file ->
  wp (Disk_read_undecrypted string_hash f) (fun o d' => o = Some file /\ same_shards d d') d.
Proof.
  intros sid Hl Hf. unfold Disk_read_undecrypted. fold sid. unfold shard_lock, the_shard, update_shard.
  apply wp_bind, wp_bind, wp_bind, wp_get, wp_ret. rewrite Hl. apply wp_modify, wp_bind, wp_bind, wp_get, wp_ret.
  apply wp_bind, wp_modify. rewrite set_shard_same. cbn [ds_files set_locked]. rewrite Hf.
  apply wp_bind. unfold shard_unlock, the_shard, update_shard. apply wp_bind, wp_bind, wp_get, wp_ret.
  cbn [dk_shards set_counters]. rewrite set_shard_same. cbn [ds_locked set_locked]. apply wp_modify, wp_ret.
  split; [done|]. intros sid'. cbn [dk_shards set_counters]. rewrite set_shard_same. destruct (decide (sid' = sid)) as [->|Hne].
  - rewrite set_shard_same. destruct (dk_shards d sid); cbn in *. by subst.
  - rewrite set_shard_other by done. cbn [dk_shards set_counters]. by rewrite set_shard_other.
Qed.

Lemma stream_dec_enc bs rest : in_range 32 (Z.of_nat (length bs)) -> stream_dec (stream_enc bs ++ rest) = Some (bs, rest).
Proof.
  intros Hn. unfold stream_dec, stream_enc. rewrite <- (assoc_L (++)), int_dec_enc by done. apply read_raw_app.
Qed.

(** A request that is waited for next: its number is not taken *)
Record can_ask (q : peer_party) : Prop := {
  ca_op : in_range 32 (pr_next_op q);
  ca_fresh : pr_responses q !! pr_next_op q = None;
  ca_count : 0 <= pr_pending_count q < 2 ^ 16 - 1;
}.

(** The peer after a request that was answered *)
Definition asked (q : peer_party) : peer_party := set_next_op (u32 (pr_next_op q + 1)) q.

Lemma asked_peer q data :
  can_ask q ->
  let q1 := set_pending_count (u16 (pr_pending_count q + 1)) (asked q) in
  let q2 := responded (pr_next_op q) data q1 in
  set_pending_count (pr_pending_count q2 - 1) (set_responses (delete (pr_next_op q) (pr_responses q2)) q2) = asked q.
Proof.
  intros [_ Hf Hc]. destruct q as [? ? ? ? op n ? ? ? ? ? ? ? ? ? ? ? resp]. cbn in *. unfold set_pending_count, responded, asked, set_responses. cbn.
  assert (u16 (n + 1) - 1 = n) as -> by (rewrite wrap_small; unfold in_range; lia). by rewrite delete_insert_id.
Qed.

Lemma ask_counted q op data : can_ask q -> 0 < pr_pending_count (responded op data (set_pending_count (u16 (pr_pending_count q + 1)) (asked q))).
Proof. intros [_ _ Hc]. cbn. rewrite wrap_small; unfold in_range; lia. Qed.

Definition file_request (op : Z) (f : string) : list Z :=
  le_encode 1 PlainText ++ le_encode 1 OperationRequest ++ le_encode 4 op ++ le_encode 1 (op_number ReadFromUpstreamDisk) ++ enc f.
Definition file_response (op : Z) (file : list Z) : list Z :=
  le_encode 1 PlainText ++ le_encode 1 OperationResponse ++ le_encode 4 op ++ stream_enc file.

(** The host answers a request for a file. *)
Lemma wp_file_request a i c q op f (Q : unit -> server enclave -> Prop) s :
  ready a i c q s -> in_range 32 op -> codec_wf f ->
  wp (Disk_read_undecrypted string_hash f)
    (fun o d => Q tt (after a i c q [file_response op (default [] o)] (set_disk d (sv_world s)) s)) (en_disk (sv_world s)) ->
  wp (receives a (file_request op f)) Q s.
Proof.
  intros Hr Hop Hf Hd. eapply wp_receive_plain; [done|]. unfold handle_peer_plain_text_message.
  eapply wp_stream; [by apply (int_dec_enc 1)|]. cbv beta iota. cbn [Z.eqb Pos.eqb OperationRequest OperationResponse].
  unfold PeerHandler_handle_op_request. eapply wp_stream; [by apply (int_dec_enc 4)|]. cbv beta iota.
  eapply wp_stream; [by apply (int_dec_enc 1)|]. cbv beta iota. rewrite Z.eqb_refl.
  eapply wp_stream; [rewrite <- (app_nil_r (enc f)); by apply dec_enc|]. cbv beta iota.
  apply wp_bind. eapply wp_enclave; [done|]. unfold read_undecrypted_from_disk, on_disk. apply wp_zoom.
  eapply wp_mono; [exact Hd|]. intros o d HQ.
  eapply wp_plain; [by eapply ready_after|]. eapply wp_quiet; [do 2 eapply ready_after; done|].
  rewrite after_after. unfold file_response in HQ. by destruct o.
Qed.

(** C18.  A downstream server that reads a file gets what the upstream server's enclave has written
    under that name: the request and the response go through the hosts in plain text, the contents
    are encrypted with the disk key that both have.  The files of the upstream server and the
    state of the connection are as before. *)
Theorem upstream_file_read `{!AesGcmLaws} a b i c q i' c' q' f data s t :
  let d := en_disk (sv_world s) in
  let sid := disk_shard_of string_hash f in
  ready a i c q s -> ready b i' c' q' t -> en_upstream_id (sv_world t) = b -> can_ask q' ->
  ds_locked (dk_shards d sid) = false ->
  ds_files (dk_shards d sid) !! f = Some (disk_image (en_disk_key (sv_world t)) data) ->
  data <> [] -> codec_wf f -> in_range 32 (Z.of_nat (length data) + 16) ->
  wp (ask_upstream a b (read_from_upstream_disk f))
    (fun r '(s', t') => r = Some data /\ same_shards d (en_disk (sv_world s')) /\ sv_world t' = sv_world t /\
       ready a i c q s' /\ ready b i' c' (asked q') t') (s, t).
Proof.
  intros d sid Hs Ht Hb Hq Hl Hf Hd Hwf Hn. apply wp_ask. unfold read_from_upstream_disk. apply wp_bind, wp_get.
  rewrite Hb, (ready_find _ _ _ _ _ Ht). apply wp_bind. eapply wp_next_op; [done|]. fold (asked q').
  apply wp_bind. eapply wp_plain; [by eapply ready_after|]. rewrite after_after. eapply wp_await; [by eapply ready_after|].
  rewrite after_after. eexists _, _. split; [done|]. rewrite app_nil_r, (last_sent _ _ _ _ []). split; [done|].
  eapply wp_file_request; [done|apply Hq|done|]. eapply wp_mono; [by apply read_undecrypted_ok|]. intros o d' [-> Hsame]. cbn [from_option id].
  eexists. split; [apply (last_sent _ _ _ _ [])|].
  eapply (wp_plain_response b i' c' (set_pending_count (u16 (pr_pending_count q' + 1)) (asked q'))); [by eapply ready_after|apply Hq|apply Hq|].
  rewrite after_after.
  eapply wp_resume; [by eapply ready_after|apply lookup_insert_eq| |apply ask_counted, Hq|].
  { rewrite <- (app_nil_r (stream_enc _)). apply stream_dec_enc. rewrite disk_image_length. unfold in_range in *. lia. }
  rewrite after_after, (asked_peer q' _ Hq). rewrite decide_False by (intros E; by apply (f_equal length) in E; rewrite disk_image_length in E).
  rewrite (proj2 (Nat.ltb_ge _ _)) by (rewrite disk_image_length; unfold SGX_AESGCM_MAC_SIZE; lia).
  apply wp_bind, wp_get, wp_ret. unfold after at 1. fields. rewrite decrypt_disk_image.
  split_and!; [by destruct data|exact Hsame|done|by eapply ready_after..].
Qed.

(** Nobody gets at the files of a shard that stays locked. *)
Definition shard_blocked (sid : Z) (d : disk) : Prop :=
  forall g data n, disk_shard_of string_hash g = sid -> has_slash g = false ->
    Disk_write string_hash g data d = (Throw Must_wait, d) /\ Disk_read string_hash g n d = (Throw Must_wait, d) /\
    Disk_get_size string_hash g d = (Throw Must_wait, d).

Lemma locked_blocked sid d : ds_locked (dk_shards d sid) = true -> shard_blocked sid d.
Proof.
  intros Hl g data n Hg Hs. unfold Disk_write, Disk_read, Disk_get_size, shard_lock, the_shard, mbind, ST_bind, get_st, mret, ST_ret.
  by rewrite Hs, Hg, Hl.
Qed.

Lemma read_undecrypted_missing f d :
  let sid := disk_shard_of string_hash f in
  ds_locked (dk_shards d sid) = false -> ds_files (dk_shards d sid) !! f = None ->
  wp (Disk_read_undecrypted string_hash f) (fun o d' => o = None /\ ds_locked (dk_shards d' sid) = true) d.
Proof.
  intros sid Hl Hf. unfold Disk_read_undecrypted. fold sid. unfold shard_lock, the_shard, update_shard.
  apply wp_bind, wp_bind, wp_bind, wp_get, wp_ret. rewrite Hl. apply wp_modify, wp_bind, wp_bind, wp_get, wp_ret.
  apply wp_bind, wp_modify. rewrite set_shard_same. cbn [ds_files set_locked]. rewrite Hf. apply wp_ret.
  split; [done|]. cbn [dk_shards set_counters]. by rewrite set_shard_same.
Qed.

(**  Anybody who connects to the port for servers can stop the server: a single message, in plain
    text and before any attestation, that asks for a file which the host does not have in memory
    leaves the shard of that file's name locked.  From then on every access to a file of this shard
    waits for ever. *)
Theorem missing_file_blocks_disk hostname port f op s :
  let d := en_disk (sv_world s) in
  let sid := disk_shard_of string_hash f in
  fresh s -> codec_wf f -> in_range 32 op ->
  ds_locked (dk_shards d sid) = false -> ds_files (dk_shards d sid) !! f = None ->
  wp (id ← connect_peer uninit hostname port false; receives id (file_request op f))
    (fun _ s' => shard_blocked sid (en_disk (sv_world s'))) s.
Proof.
  intros d sid Hs Hf Hop Hl Hn. apply wp_bind. eapply wp_mono; [by apply other_accepts|].
  intros id s1 (-> & [Hp Hh] & _ & _ & _ & Hw). set (id := h_next (sv_host s)) in *.
  assert (exists q, ready id None (-1) q s1) as [q Hr].
  { eexists. split; [exact Hp|]. eexists. split; [exact Hh|]. cbn. auto. }
  eapply wp_file_request; [done..|].
  eapply wp_mono; [apply read_undecrypted_missing; by rewrite Hw|]. intros o d' [-> Hlocked].
  by apply locked_blocked.
Qed.

(** *** Encrypted requests *)

Definition response_to (op : Z) (data : list Z) : list Z := le_encode 1 OperationResponse ++ le_encode 4 0 ++ le_encode 4 op ++ data.

(** What a request of the downstream server [t] comes down to: what the upstream server [s] answers, and
    what is done with the answer *)
Lemma wp_send_request `{!AesGcmLaws} {A B} a b i c q type body (parse : list Z -> option (A * list Z)) (k : A -> SV B) Q s t :
  let request := encrypt (pr_encryption_key q) (upstream_request type (pr_next_op q) body) in
  ready b i c q t -> pr_state q = PS_Connected -> can_ask q ->
  wp (receives a request) (fun _ s1 => exists data x rest,
    last (sent_to a (sv_host s1)) = Some (encrypt (pr_encryption_key q) (response_to (pr_next_op q) data)) /\
    parse data = Some (x, rest) /\ in_range 32 (Z.of_nat (length data) + 9) /\
    wp (k x) (fun y t3 => Q y (s1, t3)) (after b i c (asked q) [request] (sv_world t) t)) s ->
  wp (send_request b type body parse k) (fun p t1 => exists rest msg, p = Awaits rest /\ last (sent_to b (sv_host t1)) = Some msg /\
    wp (receives a msg) (fun _ s1 => exists resp, last (sent_to a (sv_host s1)) = Some resp /\
      wp (receives b resp) (fun _ => wp rest (fun x t3 => Q x (s1, t3))) t1) s) t.
Proof.
  intros request Hr Hc Hq Hup. unfold send_request. apply wp_bind. eapply wp_next_op; [done|]. fold (asked q).
  apply wp_bind. eapply wp_encrypted; [by eapply ready_after|done|]. rewrite after_after. eapply wp_await; [by eapply ready_after|].
  rewrite after_after. eexists _, _. split; [done|]. rewrite app_nil_r, (last_sent _ _ _ _ []). split; [done|].
  change (pr_encryption_key (asked q)) with (pr_encryption_key q). fold request.
  eapply wp_mono; [exact Hup|]. intros [] s1 (data & x & rest & Hl & Hp & Hn & Hk). eexists. split; [exact Hl|].
  eapply (wp_response b i c (set_pending_count (u16 (pr_pending_count q + 1)) (asked q)));
    [by eapply ready_after|done|apply Hq|apply Hq|done|].
  rewrite after_after. eapply wp_resume; [by eapply ready_after|apply lookup_insert_eq|done|apply ask_counted, Hq|].
  by rewrite after_after, (asked_peer q _ Hq), !app_nil_r.
Qed.

(** The upstream server answers. *)
Lemma wp_serve `{!AesGcmLaws} a i c q op request response s (Q : unit -> server enclave -> Prop) :
  ready a (Some i) c q s -> pr_state q = PS_Connected -> in_range 32 (Z.of_nat (length request) + 1) ->
  wp (party_request on_request peer_type_response a (mkParty (Some i) c (KPeer q)) request)
    (fun out s1 => out = response_to op response /\ exists q1, ready a (Some i) c q1 s1 /\
       pr_state q1 = PS_Connected /\ pr_encryption_key q1 = pr_encryption_key q /\
       Q tt (after a (Some i) c q1 [encrypt (pr_encryption_key q) (response_to op response)] (sv_world s1) s1)) s ->
  wp (receives a (encrypt (pr_encryption_key q) (le_encode 1 OperationRequest ++ request))) Q s.
Proof.
  intros Hr Hc Hn Hreq. eapply wp_receive_encrypted; [done|done|done| |].
  { rewrite length_app, le_encode_length. unfold in_range in *. lia. }
  unfold handle_connected_message. cbn [Z.eqb Pos.eqb OperationRequest]. apply wp_bind. eapply wp_mono; [exact Hreq|].
  intros out s1 (-> & q1 & Hr1 & Hc1 & Hk1 & HQ). unfold send_if_any. rewrite decide_False by done.
  eapply wp_encrypted; [done|done|]. rewrite Hk1. eapply wp_quiet; [by eapply ready_after|]. done.
Qed.

(** *** Becoming a downstream server *)

Definition join_downstream (a : Z) (s : server enclave) : server enclave :=
  mkServer (sv_config s) (sv_identities s)
    (mkRegistry (rg_parties (sv_registry s)) (rg_name_mapping (sv_registry s)) (rg_uid_mapping (sv_registry s))
       ({[a]} ∪ rg_downstream_set (sv_registry s))) (sv_host s) (sv_sdk s) (sv_world s).

Definition set_type (v : PeerType) (p : peer_party) : peer_party :=
  mkPeerParty (pr_state p) (pr_is_initiator p) v (pr_group_id p) (pr_next_op p) (pr_pending_count p)
    (pr_dhke_other_public p) (pr_dhke_public p) (pr_dhke_private p) (pr_vk_key p) (pr_mk_key p) (pr_smk_key p)
    (pr_sk_internal_key p) (pr_ps_sec_prop p) (pr_encryption_key p) (pr_hostname p) (pr_port p) (pr_responses p).

(** The request [TellPeerType] of a connected server *)
Lemma tell_peer_type a i c q op type (Q : list Z -> server enclave -> Prop) s :
  ready a (Some i) c q s -> in_range 32 op -> in_range 32 type -> cf_upstream (sv_config s) = None ->
  (let s' := after a (Some i) c (set_type (peer_type_of type) q) [] (sv_world s) s in
   Q (response_to op (peer_type_response (sv_world s)))
     (if decide (peer_type_of type = PT_DownstreamServer) then join_downstream a s' else s')) ->
  wp (party_request on_request peer_type_response a (mkParty (Some i) c (KPeer q))
        (le_encode 4 0 ++ le_encode 4 op ++ le_encode 1 (op_number TellPeerType) ++ le_encode 4 type)) Q s.
Proof.
  intros Hr Hop Ht Hu HQ. unfold party_request. cbn [pa_identity].
  rewrite int_dec_enc by done. cbn [mbind option_bind]. rewrite int_dec_enc by done. cbn [mbind option_bind].
  rewrite int_dec_enc by done. cbn [mbind option_bind]. apply wp_bind, wp_get.
  rewrite Z.eqb_refl, bool_decide_true by done. cbn [andb]. apply wp_bind. unfold handle_tell_peer_type.
  eapply wp_stream; [rewrite <- (app_nil_r (le_encode 4 type)); by apply (int_dec_enc 4)|]. cbv beta iota.
  apply wp_bind. eapply wp_self; [apply Hr|]. cbn [as_peer pa_kind]. apply wp_bind. unfold set_peer_type. apply wp_bind.
  eapply wp_members; [done|]. case_decide.
  - apply wp_zoom, wp_modify. apply wp_bind, wp_get, wp_ret, wp_ret. exact HQ.
  - apply wp_ret, wp_bind, wp_get, wp_ret, wp_ret. exact HQ.
Qed.

Definition roots_ok (roots : gmap string (list Z)) : Prop :=
  map_Forall (fun name root => codec_wf name /\ Z.of_nat (length root) = sizeof_buckets) roots.

(** The roots of [new] where it has some, of [old] elsewhere *)
Definition loaded (l : list (string * list Z)) (old : gmap string (list Z)) : gmap string (list Z) := foldl (fun m c => <[c.1 := c.2]> m) old l.

Lemma loaded_list l old : NoDup l.*1 -> loaded l old = list_to_map l ∪ old.
Proof.
  revert old. induction l as [|[k v] l IH]; intros old Hd; cbn; [by rewrite (left_id_L ∅ (∪))|].
  apply NoDup_cons in Hd as [Hk Hd]. unfold loaded in *. cbn. rewrite IH by done.
  rewrite <- insert_union_r by (by apply not_elem_of_list_to_map_1). by rewrite insert_union_l.
Qed.

Lemma load_roots_ok b i c q l t :
  ready b i c q t -> Forall (fun e => codec_wf e.1 /\ Z.of_nat (length e.2) = sizeof_buckets) l ->
  wp (load_roots (length l) (l ≫= root_entry))
    (fun _ t' => t' = after b i c q [] (set_roots (loaded l (en_roots (sv_world t))) (sv_world t)) t) t.
Proof.
  revert t. induction l as [|[name root] l IH]; intros t Hr Hl; cbn [length load_roots].
  - apply wp_ret. rewrite <- (after_nothing b i c q t Hr) at 1. f_equal. cbn. by destruct (sv_world t).
  - apply Forall_cons in Hl as [[Hn Hs] Hl]. cbn [fst snd] in *. rewrite bind_cons. unfold root_entry at 1. cbn [fst snd].
    rewrite <- (assoc_L (++)). eapply wp_stream; [by apply dec_enc|]. cbv beta iota.
    rewrite <- Hs. eapply wp_stream; [apply read_raw_app|]. cbv beta iota. apply wp_bind. eapply wp_enclave; [done|]. apply wp_modify.
    eapply wp_mono; [by apply IH; [eapply ready_after|]|]. intros [] t' ->. by rewrite after_after.
Qed.

Lemma roots_count w :
  roots_ok (en_roots w) -> in_range 32 (Z.of_nat (length (peer_type_response w)) + 9) -> in_range 32 (Z.of_nat (size (en_roots w))).
Proof.
  intros Hroots. unfold peer_type_response, stream_enc. rewrite !length_app, <- length_map_to_list.
  assert (forall l, Forall (fun e => 1 <= Z.of_nat (length e.2)) l -> (length l <= length (l ≫= root_entry))%nat) as Hlen.
  { induction 1 as [|e l He _ IH]; [done|]. rewrite bind_cons, length_app. unfold root_entry at 1. rewrite length_app. cbn [length]. lia. }
  unfold in_range. specialize (Hlen (map_to_list (en_roots w))). intros Hn.
  assert (length (map_to_list (en_roots w)) <= length (map_to_list (en_roots w) ≫= root_entry))%nat; [|lia].
  apply Hlen, Forall_forall. intros [name root] Hin%elem_of_map_to_list. destruct (Hroots _ _ Hin) as [_ Hs]. cbn. rewrite Hs. done.
Qed.

(** C17.  [set_upstream]: afterwards the two servers have the same disk key, the downstream server has
    the root of the index of every collection of the upstream server and none of its own pending blocks
    in the cache, and the upstream server has it in the set of the servers that get its index updates. *)
Theorem set_upstream_joins `{!AesGcmLaws} a b i c q i' c' q' s t :
  ready a (Some i) c q s -> ready b (Some i') c' q' t -> pr_state q = PS_Connected -> pr_state q' = PS_Connected ->
  pr_encryption_key q = pr_encryption_key q' -> can_ask q' ->
  cf_upstream (sv_config s) = None -> cf_upstream (sv_config t) = None ->
  length (en_disk_key (sv_world s)) = 16%nat -> roots_ok (en_roots (sv_world s)) ->
  in_range 32 (Z.of_nat (length (peer_type_response (sv_world s))) + 9) ->
  wp (ask_upstream a b (set_upstream b)) (fun _ '(s', t') =>
    a ∈ rg_downstream_set (sv_registry s') /\ sv_world s' = sv_world s /\
    cf_upstream (sv_config t') = Some (id_public_key i') /\ en_upstream_id (sv_world t') = b /\
    en_disk_key (sv_world t') = en_disk_key (sv_world s) /\
    en_roots (sv_world t') = en_roots (sv_world s) ∪ en_roots (sv_world t) /\
    en_pending (sv_world t') = ∅ /\
    forall shard page, en_pending (sv_world t) !! shard = Some page -> page ∉ en_cached (sv_world t')) (s, t).
Proof.
  intros Hs Ht Hc Hc' Hk Hq Hu Hu' Hkey Hroots Hn. match goal with |- wp _ ?Q _ => set (post := Q) end. apply wp_ask. unfold set_upstream. apply wp_bind, wp_get. rewrite Hu'.
  apply wp_bind. unfold set_config at 1. apply wp_modify. apply wp_bind, wp_zoom, wp_modify. fields.
  unfold find. rewrite (rd_party _ _ _ _ _ Ht). cbn [as_peer pa_kind party_public_key pa_identity lift_res].
  apply wp_bind, wp_ret, wp_bind. apply wp_modify. fields. set (t0 := mkServer _ _ _ _ _ _).
  assert (ready b (Some i') c' q' t0) as Ht0 by (by destruct Ht).
  eapply (wp_send_request a b _ _ _ _ _ _ _ post); [done..|]. unfold upstream_request. rewrite <- Hk.
  eapply wp_serve; [done|done|by rewrite !length_app, !le_encode_length|].
  eapply tell_peer_type; [done|apply Hq|done|done|]. cbv zeta. rewrite decide_True by done.
  split; [done|]. eexists. split; [split; [apply lookup_insert_eq|apply Hs]|]. split; [done|]. split; [done|].
  eexists _, _, _. split; [apply (last_sent _ _ _ _ [])|]. split; [|split; [done|]].
  { unfold peer_type_response. rewrite <- (app_nil_r (stream_enc _)). apply stream_dec_enc.
    unfold peer_type_response, stream_enc in Hn. rewrite length_app, le_encode_length in Hn. unfold in_range in *. lia. }
  change (read_raw 16) with (read_raw (Z.of_nat 16)). rewrite <- Hkey. eapply wp_stream; [apply read_raw_app|]. cbv beta iota. apply wp_bind.
  eapply wp_enclave; [by eapply ready_after|]. apply wp_modify. rewrite after_after.
  apply wp_bind. eapply wp_enclave; [by eapply ready_after|]. apply wp_modify. rewrite after_after.
  eapply wp_stream; [by apply (int_dec_enc 4), roots_count|]. cbv beta iota.
  rewrite Nat2Z.id, <- length_map_to_list. eapply wp_mono; [apply load_roots_ok; [by eapply ready_after|]|].
  { apply Forall_forall. intros [name root] Hin%elem_of_map_to_list. by apply Hroots. }
  intros [] t' ->. unfold post. rewrite loaded_list by apply NoDup_fst_map_to_list. rewrite list_to_map_to_list.
  split_and!; try done; [unfold join_downstream, after; fields; set_solver|].
  intros shard page Hp [_ Hn']%elem_of_difference. apply Hn', elem_of_list_to_set, list_elem_of_fmap.
  exists (shard, page). split; [done|]. by apply elem_of_map_to_list.
Qed.

(** *** Requests that are forwarded *)

(** A request as it comes from a client *)
Definition client_request (task_id op_id : Z) (op : OperationType) (body : list Z) : list Z :=
  le_encode 4 task_id ++ le_encode 4 op_id ++ le_encode 1 (op_number op) ++ body.

Lemma serve_forwarded `{!AesGcmLaws} a i c q op input output w s :
  ready a (Some i) c q s -> pr_state q = PS_Connected -> in_range 32 op -> in_range 32 (Z.of_nat (length input) + 14) ->
  (forall Q, Q output (after a (Some i) c q [] w s) -> wp (party_request on_request peer_type_response a (mkParty (Some i) c (KPeer q)) input) Q s) ->
  wp (receives a (encrypt (pr_encryption_key q) (upstream_request MT_ForwardedOperationRequest op
        (stream_enc (le_encode 1 OperationRequest ++ input)))))
    (fun _ s' => s' = after a (Some i) c q [encrypt (pr_encryption_key q) (response_to op (stream_enc output))] w s) s.
Proof.
  intros Hr Hc Hop Hn Hreq. eapply wp_receive_encrypted; [done|done|done| |].
  { unfold stream_enc. rewrite !length_app, !le_encode_length. unfold in_range in *. lia. }
  unfold handle_connected_message.
  cbn [Z.eqb Pos.eqb OperationRequest OperationResponse MT_NotifyTrigger MT_PushIndexUpdate MT_ForwardedOperationRequest].
  unfold handle_op_forwarded_request. eapply wp_stream; [by apply (int_dec_enc 4)|]. cbv beta iota.
  eapply wp_stream; [by apply (int_dec_enc 4)|]. cbv beta iota. unfold stream_enc at 1.
  eapply wp_stream; [apply (int_dec_enc 4); rewrite length_app, le_encode_length; unfold in_range in *; lia|]. cbv beta iota.
  eapply wp_stream; [by apply read_raw_all|]. cbv beta iota. eapply wp_stream; [by apply (int_dec_enc 1)|]. cbv beta iota.
  apply wp_bind, Hreq. eapply wp_encrypted; [by eapply ready_after|done|]. rewrite after_after.
  eapply wp_quiet; [by eapply ready_after|]. done.
Qed.

Lemma forwarded_request_run a i c q task_id op_id op body output w s :
  ready a (Some i) c q s -> in_range 32 task_id -> in_range 32 op_id -> is_forwarded op = true ->
  on_request a (mkContext i EmptyString) (client_request task_id op_id op body) (sv_world s) = (Ok output, w) ->
  forall Q, Q output (after a (Some i) c q [] w s) ->
  wp (party_request on_request peer_type_response a (mkParty (Some i) c (KPeer q)) (client_request task_id op_id op body)) Q s.
Proof.
  intros Hr Ht Ho Hf E Q HQ. unfold party_request. cbn [pa_identity]. unfold client_request at 1.
  rewrite int_dec_enc by done. cbn [mbind option_bind]. rewrite int_dec_enc by done. cbn [mbind option_bind].
  rewrite int_dec_enc by apply op_number_range. cbn [mbind option_bind]. apply wp_bind, wp_get.
  replace (op_number op =? op_number TellPeerType) with false by (by destruct op). cbn [andb].
  eapply wp_enclave; [done|]. unfold wp. by rewrite E.
Qed.

Lemma wp_forward id ctx op input body output q Q t :
  is_forwarded op = true -> find_peer (en_upstream_id (sv_world t)) (sv_registry t) = Some q ->
  wp (send_request (en_upstream_id (sv_world t)) MT_ForwardedOperationRequest (stream_enc input) stream_dec mret) Q t ->
  wp (handle_request_downstream_mode id ctx (Some op) input body output) Q t.
Proof.
  intros Hop Hf Hw. unfold handle_request_downstream_mode.
  destruct op; try discriminate Hop; cbn [is_local is_forwarded]; apply wp_bind, wp_get; by rewrite Hf.
Qed.

(** C16.  A request that a downstream server does not answer itself is answered as if the upstream server
    had received it: the client gets the same bytes, and the upstream server is left in the same state.
    It is executed with the identity of the downstream server, whoever the client is. *)
Theorem forwarded_request_answered `{!AesGcmLaws} a b i c q i' c' q' id client task_id op_id op body output w s t :
  let request := client_request task_id op_id op body in
  ready a (Some i) c q s -> ready b (Some i') c' q' t -> pr_state q = PS_Connected -> pr_state q' = PS_Connected ->
  pr_encryption_key q = pr_encryption_key q' -> can_ask q' -> en_upstream_id (sv_world t) = b ->
  is_forwarded op = true -> in_range 32 task_id -> in_range 32 op_id ->
  in_range 32 (Z.of_nat (length request) + 14) -> in_range 32 (Z.of_nat (length output) + 13) ->
  on_request a (mkContext i EmptyString) request (sv_world s) = (Ok output, w) ->
  wp (ask_upstream a b (downstream_op_request id (mkContext client EmptyString) (le_encode 1 OperationRequest ++ request)))
    (fun r '(s', t') => r = output /\ sv_world s' = w /\ sv_world t' = sv_world t) (s, t).
Proof.
  intros request Hs Ht Hc Hc' Hk Hq Hb Hf Htask Hopid Hn Ho E.
  match goal with |- wp _ ?Q _ => set (post := Q) end. apply wp_ask.
  unfold downstream_op_request. eapply wp_stream; [by apply (int_dec_enc 1)|]. cbv beta iota.
  eapply wp_stream; [by apply (int_dec_enc 4)|]. cbv beta iota. eapply wp_stream; [by apply (int_dec_enc 4)|]. cbv beta iota.
  eapply wp_stream; [apply (int_dec_enc 1), op_number_range|]. cbv beta iota. rewrite op_of_op_number.
  eapply wp_forward; [done|by rewrite Hb, (ready_find _ _ _ _ _ Ht)|]. rewrite Hb.
  eapply (wp_send_request a b _ _ _ _ _ _ _ post); [done..|]. rewrite <- Hk.
  eapply wp_mono; [eapply (serve_forwarded a i c q); [done|done|apply Hq|done|by eapply forwarded_request_run]|].
  intros [] s' ->. eexists _, _, _. split; [apply (last_sent _ _ _ _ [])|].
  split; [rewrite <- (app_nil_r (stream_enc _)); apply stream_dec_enc; unfold in_range in *; lia|].
  split; [|by apply wp_ret]. unfold stream_enc. rewrite length_app, le_encode_length. unfold in_range in *. lia.
Qed.

(** *** Index updates *)

Lemma send_update_ok a i c q changes shard page block_size (Q : unit -> server enclave -> Prop) s :
  ready a i c q s -> pr_state q = PS_Connected -> rg_downstream_set (sv_registry s) = {[a]} ->
  Q tt (after a i c q [encrypt (pr_encryption_key q) (index_update changes shard page block_size)] (sv_world s) s) ->
  wp (send_index_updates_to_downstream changes shard page block_size) Q s.
Proof.
  intros Hr Hc Hd HQ. unfold send_index_updates_to_downstream. apply wp_bind, wp_get. rewrite Hd, elements_singleton. cbn [send_to_downstream].
  apply wp_bind, wp_get. rewrite (ready_find _ _ _ _ _ Hr). apply wp_bind. eapply wp_encrypted; [done|done|]. by apply wp_ret.
Qed.

(**  An update of the index that the upstream server sends is applied by the downstream server as it
    was sent: the same changes, shard, page and size. *)
Theorem index_update_applied `{!AesGcmLaws} a b i c q i' c' q' changes shard page block_size w s t :
  ready a i c q s -> ready b i' c' q' t -> pr_state q = PS_Connected -> pr_state q' = PS_Connected ->
  pr_encryption_key q = pr_encryption_key q' -> rg_downstream_set (sv_registry s) = {[a]} ->
  in_range 32 (Z.of_nat (length changes) + 17) -> in_range 16 shard -> in_range 32 page -> in_range 16 block_size ->
  push_index_update changes shard page block_size (sv_world t) = (Ok tt, w) ->
  wp (_ ← on_first (send_index_updates_to_downstream changes shard page block_size); pass_down a b)
    (fun _ '(s', t') => sv_world t' = w /\ sv_world s' = sv_world s) (s, t).
Proof.
  intros Hs Ht Hc Hc' Hk Hd Hn Hshard Hpage Hsize E. apply wp_bind, wp_zoom. eapply send_update_ok; [done..|].
  unfold pass_down. apply wp_bind, wp_get. cbn [fst snd]. rewrite (last_sent a i c q [] : forall m w s, last (sent_to a (sv_host (after a i c q [m] w s))) = Some m), Hk. apply wp_zoom. cbn [snd].
  eapply wp_receive_encrypted; [done|done|done| |].
  { unfold stream_enc. rewrite !length_app, !le_encode_length. change (length (enc EmptyString)) with 4%nat. unfold in_range in *. lia. }
  unfold handle_connected_message. cbn [Z.eqb Pos.eqb OperationRequest MT_NotifyTrigger MT_PushIndexUpdate].
  unfold stream_enc. rewrite <- (assoc_L (++)).
  eapply wp_stream; [apply (int_dec_enc 4); unfold in_range in *; lia|]. cbv beta iota.
  eapply wp_stream; [apply read_raw_app|]. cbv beta iota. do 3 (eapply wp_stream; [by apply int_dec_enc|]; cbv beta iota).
  eapply wp_enclave; [done|]. unfold wp. rewrite E. eapply wp_quiet; [by eapply ready_after|]. done.
Qed.

(** *** A peer that is forgotten *)

Definition type_message (q : peer_party) (op type : Z) : list Z :=
  encrypt (pr_encryption_key q) (le_encode 1 OperationRequest ++ le_encode 4 0 ++ le_encode 4 op ++
    le_encode 1 (op_number TellPeerType) ++ le_encode 4 type).

Lemma type_told `{!AesGcmLaws} a i c q op type (Q : unit -> server enclave -> Prop) s :
  ready a (Some i) c q s -> pr_state q = PS_Connected -> in_range 32 op -> in_range 32 type -> cf_upstream (sv_config s) = None ->
  (forall l, let s' := after a (Some i) c (set_type (peer_type_of type) q) l (sv_world s) s in
   Q tt (if decide (peer_type_of type = PT_DownstreamServer) then join_downstream a s' else s')) ->
  wp (receives a (type_message q op type)) Q s.
Proof.
  intros Hr Hc Hop Ht Hu HQ. eapply wp_serve; [done|done|by rewrite !length_app, !le_encode_length|].
  eapply tell_peer_type; [done..|]. cbv zeta. split; [done|]. exists (set_type (peer_type_of type) q).
  specialize (HQ [encrypt (pr_encryption_key q) (response_to op (peer_type_response (sv_world s)))]). cbv zeta in HQ.
  assert (ready a (Some i) c (set_type (peer_type_of type) q)
    (if decide (peer_type_of type = PT_DownstreamServer)
     then join_downstream a (after a (Some i) c (set_type (peer_type_of type) q) [] (sv_world s) s)
     else after a (Some i) c (set_type (peer_type_of type) q) [] (sv_world s) s)) as Hr'.
  { destruct (ready_after a (Some i) c q (set_type (peer_type_of type) q) [] (sv_world s) s Hr). by case_decide. }
  split; [done|]. split; [done|]. split; [done|]. case_decide.
  - unfold after, join_downstream, set_parties in *. fields. cbn [fmap list_fmap] in *. rewrite app_nil_r, insert_insert_eq. exact HQ.
  - by rewrite after_after.
Qed.

(**  A connected server can stop its upstream server: it says that it is a downstream server, says
    then that it is something else, and leaves.  It stays in the set of the downstream servers, and the
    next write of anybody aborts. *)
Theorem stale_downstream_aborts `{!AesGcmLaws} remove_triggers_for a i c q changes shard page block_size s :
  ready a (Some i) c q s -> pr_state q = PS_Connected -> cf_upstream (sv_config s) = None -> rg_downstream_set (sv_registry s) = ∅ ->
  wp (_ ← receives a (type_message q 1 3); _ ← receives a (type_message q 2 2); on_disconnect remove_triggers_for a)
    (fun _ s' => (send_index_updates_to_downstream changes shard page block_size s').1 =
       Throw (Fatal "Peer in downstream set but not in remote party set")) s.
Proof.
  intros Hr Hc Hu Hd. apply wp_bind. eapply type_told; [done..|]. intros l. cbv zeta. rewrite decide_True by done.
  set (q1 := set_type _ q). set (s1 := join_downstream _ _).
  assert (ready a (Some i) c q1 s1) as Hr1 by (split; [apply lookup_insert_eq|apply Hr]).
  apply wp_bind. change (type_message q 2 2) with (type_message q1 2 2). eapply type_told; [done..|]. intros l'. cbv zeta.
  rewrite decide_False by done. set (q2 := set_type _ q1).
  assert (ready a (Some i) c q2 (after a (Some i) c q2 l' (sv_world s1) s1)) as [Hp _] by (by eapply ready_after).
  unfold on_disconnect. apply wp_bind, wp_get, wp_bind, wp_zoom. unfold find. rewrite Hp. unfold handle_disconnect. apply wp_modify.
  rewrite Hp. cbn [pa_identity as_peer pa_kind]. rewrite decide_False by done. unfold destroy_party. cbn [pa_kind].
  apply wp_bind, wp_ret, wp_zoom, wp_modify. fields. unfold s1, join_downstream, after. fields. rewrite Hd.
  unfold send_index_updates_to_downstream. erewrite ST_bind_run by done. fields. rewrite right_id_L, elements_singleton by apply _.
  cbn [send_to_downstream]. erewrite ST_bind_run by done. unfold find_peer, find. fields. by rewrite lookup_delete_eq.
Qed.

(** *** Triggers *)

(** A trigger is set through the upstream server. *)
Lemma wp_trigger_lock (m : SV (pending bool)) (Q : pending bool -> server enclave -> Prop) t :
  en_trigger_mutex (sv_world t) = false ->
  wp m (fun p t' => match p with
                    | Finished x => Q (Finished x) (trigger_unlock t')
                    | Awaits rest => Q (Awaits (guarded rest)) t'
                    end)
    (mkServer (sv_config t) (sv_identities t) (sv_registry t) (sv_host t) (sv_sdk t) (set_trigger_mutex true (sv_world t))) ->
  wp (with_trigger_mutex m) Q t.
Proof.
  intros Hl Hm. unfold wp, with_trigger_mutex, trigger_lock, mbind, ST_bind, get_st. rewrite Hl. cbn -[set_trigger_mutex].
  unfold wp in Hm. destruct (m _) as [[[x|rest]|e] t']; done.
Qed.

(** C40.  A downstream server hangs when a notification crosses a request for a trigger: [set_trigger] waits
    for the response of the upstream server with the mutex of the triggers locked, the notification
    that comes before the response waits for that mutex, and the messages of a connection are
    handled one after the other. *)
Theorem trigger_deadlock `{!AesGcmLaws} b i c q collection (notified : string) identifier t :
  ready b i c q t -> pr_state q = PS_Connected -> can_ask q -> en_upstream_id (sv_world t) = b -> codec_wf notified ->
  in_range 32 (Z.of_nat (length (enc notified)) + 1) ->
  en_trigger_mutex (sv_world t) = false -> en_triggers (sv_world t) !! collection = None ->
  wp (set_trigger collection identifier) (fun p t1 => exists rest, p = Awaits rest /\
    (rest t1).1 = Throw Must_wait /\
    (receives b (encrypt (pr_encryption_key q) (le_encode 1 MT_NotifyTrigger ++ enc notified)) t1).1 = Throw Must_wait) t.
Proof.
  intros Hr Hc Hq Hb Hwf Hn Hl Htr. apply wp_trigger_lock; [done|]. set (t0 := mkServer _ _ _ _ _ _).
  assert (ready b i c q t0) as Hr0 by (by destruct Hr). apply wp_bind, wp_get.
  change (en_triggers (sv_world t0)) with (en_triggers (sv_world t)).
  change (en_upstream_id (sv_world t0)) with (en_upstream_id (sv_world t)). rewrite Htr, Hb. cbv zeta. rewrite (ready_find _ _ _ _ _ Hr0). unfold send_request.
  apply wp_bind. eapply wp_next_op; [done|]. fold (asked q). apply wp_bind. eapply wp_encrypted; [by eapply ready_after|done|].
  rewrite after_after. eapply wp_await; [by eapply ready_after|]. rewrite after_after. eexists. split; [done|].
  set (q1 := set_pending_count _ _). set (t1 := after _ _ _ _ _ _ _).
  assert (ready b i c q1 t1) as Hr1 by (by eapply ready_after). split.
  - unfold guarded. erewrite (resume_waits _ _ _ _ q1); [done|done|apply Hq].
  - change (pr_encryption_key q) with (pr_encryption_key q1). erewrite receive_encrypted; [|done..|].
    2: { rewrite length_app, le_encode_length. unfold in_range in *. lia. }
    erewrite ST_bind_throw; [done|]. unfold handle_connected_message.
    cbn [Z.eqb Pos.eqb OperationRequest MT_NotifyTrigger]. erewrite stream_run by (rewrite <- (app_nil_r (enc notified)); by apply dec_enc).
    cbv beta iota. by erewrite ST_bind_throw.
Qed.

End Upstream.
Arguments Finished {_ _} a.
Arguments Awaits {_ _} rest.

(** ** Two servers for which the hypotheses hold *)

#[local] Existing Instances toy_crypto toy_crypto_laws toy_ra toy_ra_laws null_cipher null_cipher_laws.

Definition toy_link : peer_party :=
  mkPeerParty PS_Connected false PT_Unknown 0 1 0 [] [] [] [] [] [] [] [] (zeros 16) "host" 5042 ∅.
Definition toy_other_identity : Identity := mkIdentity IdServer "other" (replicate 64 9).

(** Connected to the other one, with the number 1 *)
Definition toy_linked (downstream : gset Z) (w : enclave) : server enclave :=
  mkServer toy_config ∅ (mkRegistry {[ 1 := mkParty (Some toy_other_identity) 0 (KPeer toy_link) ]} ∅ ∅ downstream)
    (mkHost {[ 1 := mkHostParty true TwoWay_NotInitiator Done None None 0 ]} 2 []) (mkSdk ∅ 0 (fun n => [Z.of_nat n]) 0) w.

Definition toy_disk : disk := mkDisk EmptyString (fun _ => mkDiskShard false 0 ∅ {[ "page0"%string := disk_image (zeros 16) [7; 8] ]}) 0 0 0 ∅.
Definition toy_root : list Z := zeros (Z.to_nat sizeof_buckets).
Definition toy_upstream : enclave := mkEnclave 0 (zeros 16) {[ "objects"%string := toy_root ]} ∅ false toy_disk ∅ ∅.
Definition toy_downstream : enclave := mkEnclave 1 (zeros 16) ∅ ∅ false (Disk_new EmptyString ∅) {[0 := 1; 1 := 2]} {[1; 2; 3]}.

Lemma toy_ready ds w : ready 1 (Some toy_other_identity) 0 toy_link (toy_linked ds w).
Proof. split; [reflexivity|]. eexists. split; [reflexivity|]. by cbn; auto. Qed.
Lemma toy_can_ask : can_ask toy_link.
Proof. by split. Qed.

Lemma upstream_file_read_witness :
  wp (ask_upstream zeros (fun _ => 0) (fun _ _ _ => mret []) (fun _ _ _ _ => mret tt) (fun _ => mret tt) (fun _ => None) 1 1
        (read_from_upstream_disk "page0"))
    (fun r '(s', t') => r = Some [7; 8] /\ same_shards toy_disk (en_disk (sv_world s')) /\ sv_world t' = toy_downstream /\
       ready 1 (Some toy_other_identity) 0 toy_link s' /\ ready 1 (Some toy_other_identity) 0 (asked toy_link) t')
    (toy_linked ∅ toy_upstream, toy_linked ∅ toy_downstream).
Proof.
  apply (upstream_file_read zeros (fun _ => 0) (fun _ _ _ => mret []) (fun _ _ _ _ => mret tt) (fun _ => mret tt) (fun _ => None) 1 1
    (Some toy_other_identity) 0 toy_link (Some toy_other_identity) 0 toy_link "page0" [7; 8]);
    [apply toy_ready|apply toy_ready|reflexivity|apply toy_can_ask|reflexivity|reflexivity|done|by vm_compute|by vm_compute].
Defined.

Lemma missing_file_blocks_disk_witness :
  wp (id ← connect_peer zeros "host" 5042 false;
      receives zeros (fun _ => 0) (fun _ _ _ => mret []) (fun _ _ _ _ => mret tt) (fun _ => mret tt) (fun _ => None) id (file_request 1 "nothing"))
    (fun _ s' => shard_blocked (fun _ => 0) 0 (en_disk (sv_world s'))) (toy_linked ∅ toy_upstream).
Proof.
  apply (missing_file_blocks_disk zeros (fun _ => 0) (fun _ _ _ => mret []) (fun _ _ _ _ => mret tt) (fun _ => mret tt) (fun _ => None)
    "host" 5042 "nothing" 1 (toy_linked ∅ toy_upstream)); [by split_and!|by vm_compute|done|reflexivity|reflexivity].
Defined.

Lemma set_upstream_joins_witness :
  wp (ask_upstream zeros (fun _ => 0) (fun _ _ _ => mret []) (fun _ _ _ _ => mret tt) (fun _ => mret tt) (fun _ => None) 1 1 (set_upstream zeros 1))
    (fun _ '(s', t') => 1 ∈ rg_downstream_set (sv_registry s') /\ sv_world s' = toy_upstream /\
       cf_upstream (sv_config t') = Some (replicate 64 9) /\ en_upstream_id (sv_world t') = 1 /\
       en_disk_key (sv_world t') = zeros 16 /\ en_roots (sv_world t') = en_roots toy_upstream ∪ en_roots toy_downstream /\
       en_pending (sv_world t') = ∅ /\
       forall shard page, en_pending toy_downstream !! shard = Some page -> page ∉ en_cached (sv_world t'))
    (toy_linked ∅ toy_upstream, toy_linked ∅ toy_downstream).
Proof.
  apply (set_upstream_joins zeros (fun _ => 0) (fun _ _ _ => mret []) (fun _ _ _ _ => mret tt) (fun _ => mret tt) (fun _ => None) 1 1
    toy_other_identity 0 toy_link toy_other_identity 0 toy_link (toy_linked ∅ toy_upstream) (toy_linked ∅ toy_downstream));
    [apply toy_ready|apply toy_ready|done|done|done|apply toy_can_ask|done|done|reflexivity| |by vm_compute].
  apply map_Forall_singleton. split; by vm_compute.
Defined.

(** A request that only counts: it is answered with two bytes. *)
Lemma forwarded_request_answered_witness :
  wp (ask_upstream zeros (fun _ => 0) (fun _ _ _ => mret [1; 2]) (fun _ _ _ _ => mret tt) (fun _ => mret tt) (fun _ => None) 1 1
        (downstream_op_request (fun _ _ _ => mret []) 5 (mkContext toy_other_identity EmptyString)
           (le_encode 1 OperationRequest ++ client_request 0 3 CountObjects [4; 5])))
    (fun r '(s', t') => r = [1; 2] /\ sv_world s' = toy_upstream /\ sv_world t' = toy_downstream)
    (toy_linked ∅ toy_upstream, toy_linked ∅ toy_downstream).
Proof.
  apply (forwarded_request_answered zeros (fun _ => 0) (fun _ _ _ => mret [1; 2]) (fun _ _ _ => mret []) (fun _ _ _ _ => mret tt)
    (fun _ => mret tt) (fun _ => None) 1 1 toy_other_identity 0 toy_link toy_other_identity 0 toy_link 5 toy_other_identity 0 3 CountObjects
    [4; 5] [1; 2] toy_upstream (toy_linked ∅ toy_upstream) (toy_linked ∅ toy_downstream));
    [apply toy_ready|apply toy_ready|done|done|done|apply toy_can_ask|reflexivity|reflexivity|by vm_compute..|reflexivity].
Defined.

(** The changes are taken for a new root. *)
Lemma index_update_applied_witness :
  wp (_ ← on_first (send_index_updates_to_downstream [1; 2; 3] 4 5 6);
      pass_down zeros (fun _ => 0) (fun _ _ _ => mret []) (fun changes _ _ _ => modify_st (set_roots {[ "objects"%string := changes ]}))
        (fun _ => mret tt) (fun _ => None) 1 1)
    (fun _ '(s', t') => sv_world t' = set_roots {[ "objects"%string := [1; 2; 3] ]} toy_downstream /\ sv_world s' = toy_upstream)
    (toy_linked {[ 1 ]} toy_upstream, toy_linked ∅ toy_downstream).
Proof.
  apply (index_update_applied zeros (fun _ => 0) (fun _ _ _ => mret []) (fun changes _ _ _ => modify_st (set_roots {[ "objects"%string := changes ]}))
    (fun _ => mret tt) (fun _ => None) 1 1 (Some toy_other_identity) 0 toy_link (Some toy_other_identity) 0 toy_link [1; 2; 3] 4 5 6);
    [apply toy_ready|apply toy_ready|done|done|done|done|by vm_compute..|reflexivity].
Defined.

Lemma stale_downstream_aborts_witness :
  wp (_ ← receives zeros (fun _ => 0) (fun _ _ _ => mret []) (fun _ _ _ _ => mret tt) (fun _ => mret tt) (fun _ => None) 1 (type_message toy_link 1 3);
      _ ← receives zeros (fun _ => 0) (fun _ _ _ => mret []) (fun _ _ _ _ => mret tt) (fun _ => mret tt) (fun _ => None) 1 (type_message toy_link 2 2);
      on_disconnect (fun _ => mret tt) 1)
    (fun _ s' => (send_index_updates_to_downstream [1] 0 0 0 s').1 =
       Throw (Fatal "Peer in downstream set but not in remote party set")) (toy_linked ∅ toy_upstream).
Proof.
  apply (stale_downstream_aborts zeros (fun _ => 0) (fun _ _ _ => mret []) (fun _ _ _ _ => mret tt) (fun _ => mret tt) (fun _ => None)
    (fun _ => mret tt) 1 toy_other_identity 0 toy_link); [apply toy_ready|done|done|done].
Defined.

Lemma trigger_deadlock_witness :
  wp (set_trigger "objects" 7) (fun p t1 => exists rest, p = Awaits rest /\
    (rest t1).1 = Throw Must_wait /\
    (receives zeros (fun _ => 0) (fun _ _ _ => mret []) (fun _ _ _ _ => mret tt) (fun _ => mret tt) (fun _ => None) 1
       (encrypt (zeros 16) (le_encode 1 MT_NotifyTrigger ++ enc "others"%string)) t1).1 = Throw Must_wait) (toy_linked ∅ toy_downstream).
Proof.
  apply (trigger_deadlock zeros (fun _ => 0) (fun _ _ _ => mret []) (fun _ _ _ _ => mret tt) (fun _ => mret tt) (fun _ => None) 1
    (Some toy_other_identity) 0 toy_link "objects" "others" 7 (toy_linked ∅ toy_downstream));
    [apply toy_ready|done|apply toy_can_ask|done|by vm_compute|by vm_compute|done|done].
Defined.
