(* ===== verification/Dump.v ===== *)
(** * Dumps of the whole server

    Models [dump_metadata], [load_metadata] and [unload_everything] of [src/enclave/Ledger.cpp],
    [Collection.cpp], [Index.cpp] and [Shard.cpp], and [dump_everything] and [load_everything] of
    [Enclave.cpp], over the files of the host ([Disk.v]).

    What is written of the ledger is read back, but it is not all that [load_metadata] reads: the
    ledger ends with an exception, after everything has been unloaded. *)

From S2P Require Import Prelude EventId Bitstream Block PageStore HashMap AbstractMap Index Shard Ledger Disk EncryptedIO Wire.

Section Dump.
Context {B : Type} `{Bitstream B} {S : Type} `{PageStore S (Block B)} {M T : Type}.

(** The map of a new collection, and where the map of a new index keeps its pages *)
Variables (new_primary : M) (new_store : T).

Abbreviation X := (HashIndex T).
Abbreviation L := (ledger S M X).

(** The ledger, [m_pending_block] of the shards (nothing if the handle is empty), and the input *)
Record loading : Type := mkLoading { ld_ledger : L; ld_pending : gmap Z Z; ld_input : list Z; }.
Implicit Types (l : L) (c : collection M X) (x : X) (s : loading).

Definition on_ledger {A} (m : ST L A) : ST loading A :=
  zoom ld_ledger (fun l s => mkLoading l (ld_pending s) (ld_input s)) m.

(** [>>] throws at the end of the stream. *)
Definition extract {A} (read : list Z -> option (A * list Z)) : ST loading A :=
  s ← get_st;
  match read (ld_input s) with
  | Some (a, rest) => _ ← put_st (mkLoading (ld_ledger s) (ld_pending s) rest); mret a
  | None => throw (Runtime_error "end of stream")
  end.

(** ** Indexes *)

Definition HashIndex_dump_metadata x : list Z := enc (hi_name x) ++ enc (hi_paths x).

(** The map of the index is not in the input. *)
Definition HashIndex_new_from_metadata : ST loading X :=
  name ← extract dec;
  paths ← extract dec;
  lift_res (HashIndex_new new_store name paths).

(** ** Collections *)

Definition dump_index (p : string * X) : list Z := enc p.1 ++ HashIndex_dump_metadata p.2.
Definition Collection_dump_metadata c : list Z :=
  le_encode 8 (Z.of_nat (size (col_indexes c))) ++ (map_to_list (col_indexes c) ≫= dump_index).

Definition Collection_unload_everything c : collection M X := mkCollection (col_primary c) ∅ (col_triggers c).

Fixpoint load_indexes (n : nat) (col : string) : ST loading unit :=
  match n with
  | O => mret tt
  | Datatypes.S n =>
      name ← extract dec;
      index ← HashIndex_new_from_metadata;
      _ ← on_ledger (modify_st (fun l => set_cols (alter (fun c =>
            mkCollection (col_primary c) (<[name := index]> (col_indexes c)) (col_triggers c)) col (l_cols l)) l));
      load_indexes n col
  end.

Definition Collection_load_metadata (col : string) : ST loading unit :=
  num_s_indexes ← extract (int_dec 8);
  load_indexes (Z.to_nat num_s_indexes) col.

(** ** Shards *)

Definition Shard_unload_everything (sid : Z) : ST loading unit :=
  modify_st (fun s => mkLoading (ld_ledger s) (delete sid (ld_pending s)) (ld_input s)).

Definition Shard_dump_metadata (sid : Z) s : result (list Z) :=
  match ld_pending s !! sid with
  | Some page_no => Ok (le_encode 4 page_no)
  | None => Throw (Undefined "null pointer")
  end.

(** [m_pending_block_id] stays as it is. *)
Definition Shard_load_metadata (sid : Z) : ST loading unit :=
  page_no ← extract (int_dec 4);
  _ ← on_ledger (zoom l_shards set_shards (get_page page_no));
  _ ← modify_st (fun s => mkLoading (ld_ledger s) (<[sid := page_no]> (ld_pending s)) (ld_input s));
  on_ledger (zoom l_shards set_shards (on_page page_no Block_unseal)).

Fixpoint each_shard (f : Z -> ST loading unit) (sids : list Z) : ST loading unit :=
  match sids with
  | [] => mret tt
  | sid :: sids => _ ← f sid; each_shard f sids
  end.

(** ** The ledger *)

Definition dump_collection (p : string * collection M X) : list Z := enc p.1 ++ Collection_dump_metadata p.2.

(** Neither the primary indexes nor the shards are written. *)
Definition Ledger_dump_metadata l : list Z :=
  le_encode 8 (l_object_count l) ++ le_encode 8 (l_version_count l) ++
  le_encode 8 (Z.of_nat (size (l_cols l))) ++ (map_to_list (l_cols l) ≫= dump_collection).

Definition Ledger_unload_everything : ST loading unit :=
  _ ← on_ledger (modify_st (fun l => set_cols (Collection_unload_everything <$> l_cols l) l));
  each_shard Shard_unload_everything (seqZ 0 NUM_SHARDS_LEDGER).

Fixpoint load_collections (n : nat) : ST loading unit :=
  match n with
  | O => mret tt
  | Datatypes.S n =>
      name ← extract dec;
      _ ← on_ledger (modify_st (fun l =>
            match l_cols l !! name with
            | Some _ => l
            | None => set_cols (<[name := mkCollection new_primary ∅ ∅]> (l_cols l)) l
            end));
      _ ← Collection_load_metadata name;
      load_collections n
  end.

Definition Ledger_load_metadata : ST loading unit :=
  object_count ← extract (int_dec 8);
  _ ← on_ledger (modify_st (set_object_count object_count));
  version_count ← extract (int_dec 8);
  _ ← on_ledger (modify_st (set_version_count version_count));
  num_collections ← extract (int_dec 8);
  _ ← load_collections (Z.to_nat num_collections);
  each_shard Shard_load_metadata (seqZ 0 NUM_SHARDS_LEDGER).

(** ** What a dump holds *)

Definition index_meta x : string * list string := (hi_name x, hi_paths x).
Definition fresh_index x : X := mkHashIndex (hi_name x) (hi_paths x) (amap_init new_store).

Record index_wf (name : string) x : Prop := {
  iw_key : codec_wf name;
  iw_name : codec_wf (hi_name x);
  iw_paths : codec_wf (hi_paths x);
  iw_one : length (hi_paths x) = 1%nat;
}.
Record collection_wf (name : string) c : Prop := {
  cw_name : codec_wf name;
  cw_size : in_range 64 (Z.of_nat (size (col_indexes c)));
  cw_indexes : map_Forall index_wf (col_indexes c);
}.
Record dumpable l : Prop := {
  dw_objects : in_range 64 (l_object_count l);
  dw_versions : in_range 64 (l_version_count l);
  dw_size : in_range 64 (Z.of_nat (size (l_cols l)));
  dw_cols : map_Forall collection_wf (l_cols l);
}.

(** A map that is filled entry by entry, each from the entry that was there *)
Definition fill {V W} (g : V -> option W -> W) (m : gmap string W) (ps : list (string * V)) : gmap string W :=
  foldl (fun m p => <[p.1 := g p.2 (m !! p.1)]> m) m ps.

Lemma fill_lookup {V W} (g : V -> option W -> W) ps m k :
  NoDup ps.*1 ->
  fill g m ps !! k = match (list_to_map ps : gmap string V) !! k with Some v => Some (g v (m !! k)) | None => m !! k end.
Proof.
  revert m. induction ps as [|[n v] ps IH]; intros m Hnd; [done|]. apply NoDup_cons in Hnd as [Hn Hnd].
  unfold fill in *. cbn [foldl fst snd list_to_map foldr]. rewrite IH by done. destruct (decide (n = k)) as [->|Hne].
  - rewrite lookup_insert_eq. cbn [uncurry]. rewrite lookup_insert_eq. by rewrite not_elem_of_list_to_map_1.
  - cbn [uncurry]. by rewrite !lookup_insert_ne.
Qed.

Lemma fill_map {V W} (g : V -> option W -> W) (src : gmap string V) m k :
  fill g m (map_to_list src) !! k = match src !! k with Some v => Some (g v (m !! k)) | None => m !! k end.
Proof. rewrite fill_lookup by apply NoDup_fst_map_to_list. by rewrite list_to_map_to_list. Qed.

(** ** Reading it back *)

Lemma extract_run {A R} (read : list Z -> option (A * list Z)) (k : A -> ST loading R) l pend input a rest :
  read input = Some (a, rest) -> (extract read ≫= k) (mkLoading l pend input) = k a (mkLoading l pend rest).
Proof. intros E. apply ST_bind_run. unfold extract. erewrite ST_bind_run by reflexivity. cbn. by rewrite E. Qed.

Definition with_indexes (xs : gmap string X) c : collection M X := mkCollection (col_primary c) xs (col_triggers c).

Lemma new_from_metadata_run x l pend rest :
  codec_wf (hi_name x) -> codec_wf (hi_paths x) -> length (hi_paths x) = 1%nat ->
  HashIndex_new_from_metadata (mkLoading l pend (HashIndex_dump_metadata x ++ rest)) = (Ok (fresh_index x), mkLoading l pend rest).
Proof.
  intros Hn Hp H1. unfold HashIndex_new_from_metadata, HashIndex_dump_metadata. rewrite <- (assoc_L (++)).
  erewrite extract_run by (by apply dec_enc). erewrite extract_run by (by apply dec_enc).
  unfold HashIndex_new. by rewrite H1.
Qed.

Lemma load_indexes_run ixs col l c pend rest :
  l_cols l !! col = Some c -> Forall (fun p => index_wf p.1 p.2) ixs ->
  load_indexes (length ixs) col (mkLoading l pend ((ixs ≫= dump_index) ++ rest)) =
  (Ok tt, mkLoading (set_cols (<[col := with_indexes (fill (fun x _ => fresh_index x) (col_indexes c) ixs) c]> (l_cols l)) l) pend rest).
Proof.
  intros Hc Hw. revert l c Hc. induction Hw as [|[n x] ixs [Hk Hn Hp H1] _ IH]; intros l c Hc.
  - cbn. unfold with_indexes. destruct c, l. cbn in *. by rewrite insert_id.
  - cbn [length load_indexes]. rewrite bind_cons. unfold dump_index at 1. cbn [fst snd] in *. rewrite <- !(assoc_L (++)).
    erewrite extract_run by (by apply dec_enc). erewrite ST_bind_run by (by apply new_from_metadata_run).
    erewrite ST_bind_run by reflexivity. cbn [ld_ledger ld_pending ld_input].
    unfold set_cols at 1. cbn [l_cols l_shards l_object_count l_version_count].
    rewrite (IH _ (with_indexes (<[n := fresh_index x]> (col_indexes c)) c)) by (cbn [l_cols]; by rewrite lookup_alter_eq, Hc).
    do 2 f_equal. unfold set_cols. cbn [l_cols l_shards l_object_count l_version_count]. f_equal. apply map_eq. intros k. destruct (decide (k = col)) as [->|]; [by rewrite !lookup_insert_eq|].
    by rewrite !lookup_insert_ne, lookup_alter_ne by done.
Qed.

Lemma collection_load_run col l c pend c0 rest :
  l_cols l !! col = Some c0 -> collection_wf col c ->
  Collection_load_metadata col (mkLoading l pend (Collection_dump_metadata c ++ rest)) =
  (Ok tt, mkLoading (set_cols (<[col := with_indexes (fill (fun x _ => fresh_index x) (col_indexes c0) (map_to_list (col_indexes c))) c0]>
     (l_cols l)) l) pend rest).
Proof.
  intros Hc [_ Hs Hx]. unfold Collection_load_metadata, Collection_dump_metadata. rewrite <- (assoc_L (++)).
  erewrite extract_run by (by apply int_dec_enc). rewrite Nat2Z.id, <- length_map_to_list.
  apply load_indexes_run; [done|]. apply Forall_forall. intros [n x] Hin%elem_of_map_to_list. by apply Hx.
Qed.

(** A collection that has been read: of the one that was there, or of a new one *)
Definition loaded c (old : option (collection M X)) : collection M X :=
  let c0 := default (mkCollection new_primary ∅ ∅) old in
  with_indexes (fill (fun x _ => fresh_index x) (col_indexes c0) (map_to_list (col_indexes c))) c0.

Lemma load_collections_run cols l pend rest :
  Forall (fun p => collection_wf p.1 p.2) cols ->
  load_collections (length cols) (mkLoading l pend ((cols ≫= dump_collection) ++ rest)) =
  (Ok tt, mkLoading (set_cols (fill loaded (l_cols l) cols) l) pend rest).
Proof.
  intros Hw. revert l. induction Hw as [|[n c] cols Hc _ IH]; intros l.
  - cbn. by destruct l.
  - cbn [length load_collections]. rewrite bind_cons. unfold dump_collection at 1. cbn [fst snd] in *. rewrite <- !(assoc_L (++)).
    erewrite extract_run by (apply dec_enc, Hc). erewrite ST_bind_run by reflexivity. cbn [ld_ledger ld_pending ld_input].
    erewrite ST_bind_run.
    2:{ apply (collection_load_run _ _ _ _ (default (mkCollection new_primary ∅ ∅) (l_cols l !! n))); [|done].
        destruct (l_cols l !! n) eqn:E; cbn; [done|]. by rewrite lookup_insert_eq. }
    rewrite IH. do 2 f_equal. unfold set_cols, fill. cbn [foldl fst snd l_cols l_shards].
    destruct (l_cols l !! n) eqn:E; cbn; unfold loaded at 2; cbn; rewrite ?E; [done|]. by rewrite insert_insert_eq.
Qed.

Lemma unload_shards_run sids l pend input :
  each_shard Shard_unload_everything sids (mkLoading l pend input) =
  (Ok tt, mkLoading l (foldl (fun m sid => delete sid m) pend sids) input).
Proof.
  revert pend. induction sids as [|sid sids IH]; intros pend; [done|]. cbn [each_shard foldl].
  erewrite ST_bind_run by reflexivity. apply IH.
Qed.

Lemma foldl_delete_lookup (sids : list Z) (m : gmap Z Z) sid :
  sid ∈ sids -> foldl (fun m sid => delete sid m) m sids !! sid = None.
Proof.
  assert (forall (sids : list Z) (m : gmap Z Z), m !! sid = None -> foldl (fun m sid => delete sid m) m sids !! sid = None) as Hnone.
  { clear. intros sids. induction sids as [|s sids IH]; intros m Hm; [done|]. cbn. apply IH.
    destruct (decide (s = sid)) as [->|]; [apply lookup_delete_eq|by rewrite lookup_delete_ne]. }
  intros Hin. revert m. induction sids as [|s sids IH]; intros m; [by apply not_elem_of_nil in Hin|]. cbn.
  apply elem_of_cons in Hin as [->|Hin]; [apply Hnone, lookup_delete_eq|by apply IH].
Qed.

Definition reload : ST loading unit := _ ← Ledger_unload_everything; Ledger_load_metadata.

(** What is left when the metadata of [l] has been read into a ledger: the counts and the definitions
    of the indexes are those of [l], while every index is empty and every primary index is the old one
    or a new one; no shard has a pending block. *)
Record reloaded (l l0 : L) s : Prop := {
  re_objects : l_object_count (ld_ledger s) = l_object_count l;
  re_versions : l_version_count (ld_ledger s) = l_version_count l;
  re_shards : l_shards (ld_ledger s) = l_shards l0;
  re_cols : forall name c, l_cols l !! name = Some c ->
    exists c', l_cols (ld_ledger s) !! name = Some c' /\ col_indexes c' = fresh_index <$> col_indexes c /\
      col_primary c' = match l_cols l0 !! name with Some c0 => col_primary c0 | None => new_primary end;
  re_pending : forall sid, 0 <= sid < NUM_SHARDS_LEDGER -> ld_pending s !! sid = None;
  re_input : ld_input s = [];
}.

Lemma loaded_indexes c (old : option (collection M X)) :
  (forall c0, old = Some c0 -> col_indexes c0 = ∅) -> col_indexes (loaded c old) = fresh_index <$> col_indexes c.
Proof.
  intros Ho. apply map_eq. intros k. unfold loaded, with_indexes. cbn [col_indexes]. rewrite fill_map, lookup_fmap.
  destruct (col_indexes c !! k); [done|]. destruct old as [c0|]; cbn; [by rewrite (Ho c0)|done].
Qed.

(** C38.  A ledger that reads back its own dump restores the counts, the collections and the definitions of
    the indexes, and then throws, since the dump ends before the shards: everything has been unloaded by
    then. *)
Theorem metadata_ends_early l l0 pend :
  dumpable l ->
  exists s, reload (mkLoading l0 pend (Ledger_dump_metadata l)) = (Throw (Runtime_error "end of stream"), s) /\ reloaded l l0 s.
Proof.
  intros [Ho Hv Hs Hw]. eexists. split.
  - unfold reload. erewrite ST_bind_run.
    2:{ unfold Ledger_unload_everything. erewrite ST_bind_run by reflexivity. apply unload_shards_run. }
    unfold Ledger_load_metadata, Ledger_dump_metadata. erewrite extract_run by (by apply int_dec_enc).
    erewrite ST_bind_run by reflexivity. cbn [ld_ledger ld_pending ld_input].
    erewrite extract_run by (by apply int_dec_enc). erewrite ST_bind_run by reflexivity. cbn [ld_ledger ld_pending ld_input].
    erewrite extract_run by (by apply int_dec_enc). rewrite Nat2Z.id, <- length_map_to_list.
    rewrite <- (app_nil_r (map_to_list (l_cols l) ≫= _)). erewrite ST_bind_run.
    2:{ apply load_collections_run, Forall_forall. intros [n c] Hin%elem_of_map_to_list. by apply Hw. }
    apply ST_bind_throw. reflexivity.
  - cbn [ld_ledger ld_pending ld_input]. split; cbn [ld_ledger ld_pending ld_input]; try done.
    + intros name c Hc. cbn. rewrite fill_map, Hc, lookup_fmap. eexists. split; [done|]. split.
      * apply loaded_indexes. intros c0. destruct (l_cols l0 !! name); cbn; [by intros [= <-]|done].
      * by destruct (l_cols l0 !! name).
    + intros sid Hsid. apply foldl_delete_lookup, elem_of_seqZ. lia.
Qed.

(** ** The enclave *)

Context `{AesGcm}.
Variable string_hash : string -> Z.

(** [du_disk]: the files of the host *)
Record dumping : Type := mkDumping { du_loading : loading; du_disk : disk; du_key : list Z; }.
Implicit Type e : dumping.

Definition on_loading {A} (m : ST loading A) : ST dumping A :=
  zoom du_loading (fun s e => mkDumping s (du_disk e) (du_key e)) m.
Definition on_disk {A} (m : ST disk A) : ST dumping A :=
  zoom du_disk (fun d e => mkDumping (du_loading e) d (du_key e)) m.

(** The encrypted files of [LocalEncryptedIO.cpp] are those of the host. *)
Definition write_to_disk (filename : string) (data : list Z) : ST dumping bool :=
  e ← get_st;
  let '(cdata, tag) := gcm_encrypt (du_key e) zero_iv data in
  on_disk (Disk_write string_hash filename (tag ++ cdata)).
Definition read_from_disk (filename : string) : ST dumping (option (list Z)) :=
  size ← on_disk (Disk_get_size string_hash filename);
  if size <? 0 then mret None
  else
    buffer ← on_disk (Disk_read string_hash filename size);
    e ← get_st;
    mret (decrypt_disk (du_key e) buffer).
Definition remove_from_disk (filename : string) : ST dumping unit := on_disk (Disk_remove string_hash filename).

Definition METADATA_FILE : string := "___metadata".

(** What the buffer manager does ([BufferManager.v]), and what is on the stack where [disk_key] is *)
Variables (flush_all_pages clear_cache : ST dumping unit) (uninit_key : list Z).

Definition Enclave_dump_everything (filename : string) : ST dumping bool :=
  e ← get_st;
  let metadata := Ledger_dump_metadata (ld_ledger (du_loading e)) in
  _ ← flush_all_pages;
  ok ← write_to_disk METADATA_FILE metadata;
  if negb ok then mret false
  else
    e ← get_st;
    ok ← on_disk (dump_everything string_hash filename (du_key e));
    _ ← remove_from_disk METADATA_FILE;
    mret ok.

(** The result of the host is not looked at before the key is replaced. *)
Definition Enclave_load_everything (filename : string) : ST dumping bool :=
  _ ← on_loading Ledger_unload_everything;
  _ ← clear_cache;
  key ← on_disk (load_everything string_hash filename 16);
  _ ← modify_st (fun e => mkDumping (du_loading e) (du_disk e) (default uninit_key key));
  metadata ← read_from_disk METADATA_FILE;
  match metadata with
  | None => mret false
  | Some metadata =>
      _ ← remove_from_disk METADATA_FILE;
      _ ← on_loading (modify_st (fun s => mkLoading (ld_ledger s) (ld_pending s) metadata));
      _ ← on_loading Ledger_load_metadata;
      mret (bool_decide (is_Some key))
  end.

(** What the theorems rely on: the buffer manager works on the files of its pages. *)
Definition keeps (m : ST dumping unit) : Prop := forall e, disk_rep string_hash None (du_disk e) ->
  wp m (fun _ e' => du_loading e' = du_loading e /\ du_key e' = du_key e /\ disk_rep string_hash None (du_disk e') /\
    dk_path (du_disk e') = dk_path (du_disk e) /\
    (dk_path (du_disk e) = EmptyString -> dk_os (du_disk e') = dk_os (du_disk e)) /\
    contents string_hash (du_disk e') METADATA_FILE = contents string_hash (du_disk e) METADATA_FILE) e.

(** All mutexes of a disk, or none *)
Definition all_locked (b : bool) (d d' : disk) : Prop :=
  dk_path d' = dk_path d /\ dk_os d' = dk_os d /\
  forall sid, 0 <= sid < DISK_NUM_SHARDS -> ds_files (dk_shards d' sid) = ds_files (dk_shards d sid) /\ ds_locked (dk_shards d' sid) = b.

(** A file that is not there *)
Lemma host_load_missing filename d :
  disk_rep string_hash None d -> dk_os d !! filename = None ->
  wp (load_everything string_hash filename 16) (fun r d' => r = None /\ all_locked false d d') d.
Proof.
  intros Hr Hf. unfold load_everything, Disk_load_everything. cbn [Z.eqb Pos.eqb negb]. apply wp_bind, wp_bind.
  change shard_lock with (toggle true). change shard_unlock with (toggle false).
  eapply wp_mono; [apply toggle_all; [apply NoDup_seqZ|]|].
  { apply Forall_forall. intros sid _. by rewrite (dr_locked _ _ _ Hr). }
  intros _ d1 (Hp1 & Ho1 & Hl1). cbn beta. apply wp_bind, wp_get. rewrite Ho1, Hf. apply wp_bind.
  eapply wp_mono; [apply toggle_all; [apply NoDup_seqZ|]|].
  { apply Forall_forall. intros sid Hs. rewrite (proj2 (Hl1 sid)). by rewrite decide_True. }
  intros _ d2 (Hp2 & Ho2 & Hl2). cbn beta. apply wp_ret, wp_ret. split; [done|]. split_and!; [congruence..|].
  intros sid Hs. destruct (Hl1 sid) as [E1 _], (Hl2 sid) as [E2 ->]. split; [by rewrite E2, E1|].
  rewrite decide_True; [done|]. apply elem_of_seqZ. lia.
Qed.

Lemma shard_in_range name : 0 <= disk_shard_of string_hash name < DISK_NUM_SHARDS.
Proof. by apply Z.mod_pos_bound. Qed.

Lemma read_missing name d d' :
  has_slash name = false -> dk_path d = EmptyString -> contents string_hash d name = None -> all_locked false d d' ->
  wp (Disk_get_size string_hash name) (fun r _ => r = -1) d'.
Proof.
  intros Hn Hp Hc (Hp' & _ & Hs). destruct (Hs _ (shard_in_range name)) as [Ef El].
  unfold Disk_get_size. rewrite Hn. apply wp_bind, wp_run. eexists _, _.
  split; [apply (toggle_run true); by rewrite El|]. cbn beta.
  apply wp_bind. unfold get_file. apply wp_bind, wp_get. rewrite set_shard_same. cbn [ds_files set_locked dk_path set_shard].
  unfold contents in Hc. rewrite Ef. destruct (ds_files _ !! name); [done|]. rewrite Hp', Hp. apply wp_ret. apply wp_bind, wp_run.
  eexists _, _. split; [apply (toggle_run false); by rewrite set_shard_same|]. by apply wp_ret.
Qed.

Definition unloaded (l : L) : L := set_cols (Collection_unload_everything <$> l_cols l) l.

(** A request to load a file that does not exist is answered with false.  By then the server has
    no secondary index and no pending block any more, and its disk key is whatever has been on the
    stack: none of its files can be read again. *)
Theorem load_missing_file_destroys filename e :
  keeps clear_cache -> disk_rep string_hash None (du_disk e) -> dk_path (du_disk e) = EmptyString ->
  dk_os (du_disk e) !! filename = None -> contents string_hash (du_disk e) METADATA_FILE = None ->
  wp (Enclave_load_everything filename) (fun r e' => r = false /\ du_key e' = uninit_key /\
    ld_ledger (du_loading e') = unloaded (ld_ledger (du_loading e)) /\
    forall sid, 0 <= sid < NUM_SHARDS_LEDGER -> ld_pending (du_loading e') !! sid = None) e.
Proof.
  intros Hk Hr Hp Hf Hm. unfold Enclave_load_everything. destruct e as [[l pend input] d key]. cbn [du_disk du_loading ld_ledger] in *.
  apply wp_bind, wp_zoom, wp_run. eexists _, _. split.
  { unfold Ledger_unload_everything. erewrite ST_bind_run by reflexivity. apply unload_shards_run. }
  apply wp_bind. eapply wp_mono; [by apply Hk|]. intros _ [ld1 d1 key1] (El & _ & Hr1 & Hp1 & Ho1 & Hc1). cbn in El, Hr1, Hp1, Ho1, Hc1. subst ld1.
  apply wp_bind, wp_zoom. eapply wp_mono; [apply host_load_missing; [done|cbn; by rewrite (Ho1 Hp)]|]. intros r d2 [-> Hd2]. cbn beta.
  apply wp_bind, wp_modify. apply wp_bind. unfold read_from_disk. apply wp_bind, wp_zoom. cbn [du_disk].
  eapply wp_mono; [eapply read_missing; [done| | |exact Hd2]|].
  - cbn. by rewrite Hp1.
  - cbn. by rewrite Hc1.
  - intros r d3 ->. cbn beta. apply wp_ret, wp_ret. split_and!; [done|done|done|]. intros sid Hsid. cbn.
    apply foldl_delete_lookup, elem_of_seqZ. lia.
Qed.

Lemma contents_cached d d' name :
  dk_path d = EmptyString -> dk_path d' = dk_path d -> (forall sid, ds_files (dk_shards d' sid) = ds_files (dk_shards d sid)) ->
  contents string_hash d' name = contents string_hash d name.
Proof. intros Hp Hp' Hf. unfold contents. by rewrite Hp', Hp, Hf. Qed.

(** A request to dump everything never returns, and the disk key stays among the files of the
    host, in the clear. *)
Theorem dump_leaves_key filename e :
  keeps flush_all_pages -> disk_rep string_hash None (du_disk e) -> dk_path (du_disk e) = EmptyString ->
  exists e', Enclave_dump_everything filename e = (Throw (Undefined "unlock of a mutex that is not locked"), e') /\
    contents string_hash (du_disk e') DISK_KEY_FILE = Some (du_key e).
Proof.
  intros Hk Hr Hp. apply Hk in Hr as ([] & [ld1 d1 key1] & E1 & _ & Ekey & Hr1 & Hp1 & _)%wp_run. cbn in Ekey, Hr1, Hp1. subst key1.
  unfold Enclave_dump_everything. erewrite ST_bind_run by reflexivity. erewrite ST_bind_run by exact E1.
  destruct (gcm_encrypt (du_key e) zero_iv (Ledger_dump_metadata (ld_ledger (du_loading e)))) as [cdata tag] eqn:Eg.
  destruct (proj1 (wp_run _ _ _) (Disk_write_ok string_hash METADATA_FILE (tag ++ cdata) d1 eq_refl Hr1)) as (? & d2 & E2 & -> & Hr2 & Hp2 & _).
  erewrite ST_bind_run.
  2:{ unfold write_to_disk. erewrite ST_bind_run by reflexivity. cbn [du_key]. rewrite Eg. unfold on_disk, zoom. cbn [du_disk]. by rewrite E2. }
  cbn [negb]. erewrite ST_bind_run by reflexivity. cbn [du_key du_disk du_loading].
  destruct (proj1 (wp_run _ _ _) (Disk_write_ok string_hash DISK_KEY_FILE (du_key e) d2 eq_refl Hr2)) as (? & d3 & E3 & -> & Hr3 & Hp3 & Hc3).
  destruct (Disk_dump_fails string_hash filename d3 Hr3) as (d4 & E4 & Hp4 & Hf4).
  eexists (mkDumping ld1 d4 (du_key e)). split.
  - apply ST_bind_throw. unfold on_disk, zoom. cbn [du_disk]. unfold dump_everything. erewrite ST_bind_run by exact E3. cbn [negb].
    by erewrite ST_bind_throw by exact E4.
  - cbn [du_disk]. rewrite (contents_cached d3) by (done || congruence). by rewrite Hc3, decide_True.
Qed.
End Dump.

(** ** Examples *)

#[local] Existing Instances null_cipher null_cipher_laws.

Abbreviation blocks := (page_map (Block buffer)).

Definition example_store : blocks := page_map_empty.
Definition example_ledger : ledger blocks unit (HashIndex unit) :=
  mkLedger (mkShards example_store ∅) {[ "accounts" := mkCollection tt {[ "by_name" := mkHashIndex "by_name" ["name"] (amap_init tt) ]} ∅ ]} 7 9.

Lemma example_dumpable : dumpable example_ledger.
Proof.
  split; [vm_compute; split; congruence..|]. cbn [l_cols example_ledger]. apply map_Forall_singleton.
  split; [vm_compute; split; congruence..|]. cbn [col_indexes]. apply map_Forall_singleton.
  split; [vm_compute; split; congruence..| |done]. split; [vm_compute; split; congruence|]. repeat constructor; vm_compute; congruence.
Qed.

(** The dump of a ledger with one collection and one index, read by a new ledger *)
Definition empty_ledger : ledger blocks unit (HashIndex unit) := mkLedger (mkShards example_store ∅) ∅ 0 0.

Example metadata_ends_early_witness : exists s,
  reload tt tt (mkLoading empty_ledger {[ 0 := 3 ]} (Ledger_dump_metadata example_ledger)) = (Throw (Runtime_error "end of stream"), s) /\
  reloaded tt tt example_ledger empty_ledger s.
Proof. apply (metadata_ends_early tt tt example_ledger empty_ledger {[ 0 := 3 ]}), example_dumpable. Defined.

Definition example_server : dumping := mkDumping (mkLoading example_ledger {[ 0 := 3 ]} []) (Disk_new EmptyString ∅) (replicate 16 7).

Lemma nothing_keeps : keeps (S := blocks) (M := unit) (T := unit) example_hash (mret tt).
Proof. intros e Hr. by apply wp_ret. Qed.

Example load_missing_file_destroys_witness :
  wp (Enclave_load_everything tt tt example_hash (mret tt) (replicate 16 0) "backup") (fun r e' => r = false /\ du_key e' = replicate 16 0 /\
    ld_ledger (du_loading e') = unloaded example_ledger /\
    forall sid, 0 <= sid < NUM_SHARDS_LEDGER -> ld_pending (du_loading e') !! sid = None) example_server.
Proof.
  apply (load_missing_file_destroys tt tt example_hash (mret tt) (replicate 16 0) "backup" example_server); [|apply Disk_new_rep|done..].
  apply nothing_keeps.
Defined.

Example dump_leaves_key_witness : exists e',
  Enclave_dump_everything example_hash (mret tt) "backup" example_server = (Throw (Undefined "unlock of a mutex that is not locked"), e') /\
  contents example_hash (du_disk e') DISK_KEY_FILE = Some (replicate 16 7).
Proof. apply (dump_leaves_key example_hash (mret tt) "backup" example_server); [apply nothing_keeps|apply Disk_new_rep|done]. Defined.
