(* ===== verification/Ucrypto.v ===== *)
(** * The crypto library of the client

    Models [src/ulibcrypto]: the functions of the SGX SDK that the client library uses outside of an
    enclave, implemented over OpenSSL ([sgx_aes_gcm.cpp], [sgx_aes_ctr.cpp], [sgx_cmac128.cpp],
    [sgx_sha256.cpp], [sgx_sha256_msg.cpp], [sgx_ecc256.cpp], [sgx_ecc256_ecdsa.cpp],
    [consttime_memequal.cpp], [memset_s.cpp], and [sgx_rsa3072.cpp] and [sgx_ecc256_internal.cpp], which
    are there but not among the files that [meson.build] compiles).

    OpenSSL is a parameter: [OpenSsl] is what its functions compute, and every call may fail at will
    ([os_results]).  The objects that it allocates are counted, with the pointer variables that lead to
    them and with what they own.  Whatever fails, nothing is freed twice and nothing is left behind;
    if nothing fails, the functions are those that [AesGcm] and [Crypto] ask for. *)

From S2P Require Import Prelude Hash Bitstream EncryptedIO KeyExchange.

(** ** OpenSSL

    Keys and points are numbers; [ec_generate] draws a private key from a seed. *)
Class OpenSsl : Type := {
  evp_gcm_cipher : list Z -> list Z -> list Z -> list Z;
  evp_gcm_plain : list Z -> list Z -> list Z -> list Z;
  evp_gcm_tag : list Z -> list Z -> list Z -> list Z -> list Z;
  evp_ctr : list Z -> list Z -> list Z -> list Z;
  openssl_cmac : list Z -> list Z -> list Z;
  openssl_sha256 : list Z -> list Z;
  ec_generate : list Z -> Z;
  ec_public : Z -> Z * Z;
  ec_on_curve : Z * Z -> bool;
  ec_dh : Z -> Z * Z -> Z;
  ec_mul : Z -> Z * Z -> Z * Z;
  ec_sign : list Z -> Z -> list Z -> Z * Z;
  ec_verify : Z * Z -> list Z -> Z * Z -> bool;
  rsa_sign : Z * Z * Z -> list Z -> list Z;
  rsa_verify : Z * Z -> list Z -> list Z -> Z;
  (** Does [ECDSA_SIG_new] allocate the two numbers of a signature? *)
  ecdsa_sig_allocates : bool;
}.

Definition fits (z : Z) : Prop := in_range 256 z.

Class OpenSslLaws `{OpenSsl} : Prop := {
  gcm_plain_cipher : forall key iv data, evp_gcm_plain key iv (evp_gcm_cipher key iv data) = data;
  gcm_cipher_length : forall key iv data, length (evp_gcm_cipher key iv data) = length data;
  gcm_tag_size : forall key iv aad cdata, length (evp_gcm_tag key iv aad cdata) = 16%nat;
  ctr_involutive : forall key ctr data, evp_ctr key ctr (evp_ctr key ctr data) = data;
  openssl_cmac_length : forall key data, length (openssl_cmac key data) = 16%nat;
  openssl_sha256_length : forall data, length (openssl_sha256 data) = 32%nat;
  ec_generate_fits : forall seed, fits (ec_generate seed);
  ec_public_fits : forall k, fits (ec_public k).1 /\ fits (ec_public k).2;
  ec_public_curve : forall k, ec_on_curve (ec_public k) = true;
  ec_dh_agrees : forall a b, ec_dh a (ec_public b) = ec_dh b (ec_public a);
  ec_dh_mul : forall a p, ec_dh a p = (ec_mul a p).1;
  ec_mul_fits : forall a p, fits (ec_mul a p).1 /\ fits (ec_mul a p).2;
  ec_mul_curve : forall a b, ec_on_curve (ec_mul a (ec_public b)) = true;
  ec_sign_fits : forall seed k digest, fits (ec_sign seed k digest).1 /\ fits (ec_sign seed k digest).2;
  ec_sign_verifies : forall seed k digest, ec_verify (ec_public k) digest (ec_sign seed k digest) = true;
  (** "Before OpenSSL 1.1.0, the r and s components were initialised"; [ECDSA_SIG_set0] is there
      since 1.1.0. *)
  ecdsa_sig_empty : ecdsa_sig_allocates = false;
}.

(** ** The state of a call

    [os_live]: the objects that are allocated, with those that they own; [os_locals]: the pointer
    variables ([NULL] if not there); [os_bufs]: the buffers that the caller has passed; [os_ctx]:
    the key and the data so far of a context; [os_results]: what the calls of OpenSSL return, one after
    the other. *)
Fixpoint assoc {K V} `{EqDecision K} (k : K) (l : list (K * V)) : option V :=
  match l with
  | [] => None
  | (k', v) :: l => if decide (k = k') then Some v else assoc k l
  end.
Definition drop_key {K V} `{EqDecision K} (k : K) (l : list (K * V)) : list (K * V) := filter (fun p => p.1 <> k) l.

Record ossl : Type := mkOssl {
  os_live : list (Z * list Z);
  os_next : Z;
  os_locals : list (string * Z);
  os_bufs : gmap string (list Z);
  os_ctx : gmap Z (list Z * list Z);
  os_results : nat -> Z;
  os_calls : nat;
}.

Definition start (bufs : gmap string (list Z)) (results : nat -> Z) : ossl := mkOssl [] 0 [] bufs ∅ results 0.

Definition set_live (v : list (Z * list Z)) (s : ossl) : ossl :=
  mkOssl v (os_next s) (os_locals s) (os_bufs s) (os_ctx s) (os_results s) (os_calls s).
Definition set_locals (v : list (string * Z)) (s : ossl) : ossl :=
  mkOssl (os_live s) (os_next s) v (os_bufs s) (os_ctx s) (os_results s) (os_calls s).
Definition set_bufs (v : gmap string (list Z)) (s : ossl) : ossl :=
  mkOssl (os_live s) (os_next s) (os_locals s) v (os_ctx s) (os_results s) (os_calls s).
Definition set_ctx (v : gmap Z (list Z * list Z)) (s : ossl) : ossl :=
  mkOssl (os_live s) (os_next s) (os_locals s) (os_bufs s) v (os_results s) (os_calls s).

Inductive sgx_status : Type := SGX_SUCCESS | SGX_ERROR_UNEXPECTED | SGX_ERROR_INVALID_PARAMETER | SGX_ERROR_OUT_OF_MEMORY.

Abbreviation OS := (ST ossl).

Definition call : OS Z := fun s =>
  (Ok (os_results s (os_calls s)),
   mkOssl (os_live s) (os_next s) (os_locals s) (os_bufs s) (os_ctx s) (os_results s) (S (os_calls s))).

(** How results are tested *)
Definition is_one (r : Z) : bool := r =? 1.
Definition is_true (r : Z) : bool := negb (r =? 0).
Definition is_positive (r : Z) : bool := 0 <? r.
Definition not_minus_one (r : Z) : bool := negb (r =? -1).

(** [x = ..._new()]; [false]: [NULL] *)
Definition new (x : string) : OS bool :=
  r ← call;
  if negb (is_true r) then mret false
  else
    _ ← modify_st (fun s => mkOssl ((os_next s, []) :: os_live s) (os_next s + 1) ((x, os_next s) :: os_locals s) (os_bufs s)
          (os_ctx s) (os_results s) (os_calls s));
    mret true.

(** An object goes with what it owns; there are at most [fuel] of them. *)
Fixpoint release (fuel : nat) (ids : list Z) (live : list (Z * list Z)) : option (list (Z * list Z)) :=
  match fuel, ids with
  | _, [] => Some live
  | O, _ => None
  | S fuel, id :: ids =>
      match assoc id live with
      | None => None
      | Some owned => release fuel (owned ++ ids) (drop_key id live)
      end
  end.

(** [..._free(x)]; the variable keeps its value. *)
Definition free (x : string) : OS unit :=
  s ← get_st;
  match assoc x (os_locals s) with
  | None => mret tt
  | Some id =>
      match release (S (length (os_live s))) [id] (os_live s) with
      | Some live => put_st (set_live live s)
      | None => throw (Undefined "double free")
      end
  end.

(** [x = NULL] *)
Definition nullify (x : string) : OS unit :=
  modify_st (fun s => set_locals (drop_key x (os_locals s)) s).

Definition is_null (x : string) : OS bool := s ← get_st; mret (bool_decide (assoc x (os_locals s) = None)).

(** [x] takes over the object of [y]. *)
Definition own (x y : string) : OS unit :=
  modify_st (fun s =>
    match assoc x (os_locals s), assoc y (os_locals s) with
    | Some p, Some c => set_live (map (fun o => if o.1 =? p then (o.1, c :: o.2) else o) (os_live s)) s
    | _, _ => s
    end).

(** An object that another call allocates as well *)
Definition alloc (x : string) : OS unit :=
  modify_st (fun s => mkOssl ((os_next s, []) :: os_live s) (os_next s + 1) ((x, os_next s) :: os_locals s) (os_bufs s)
    (os_ctx s) (os_results s) (os_calls s)).

(** [x = y] *)
Definition copy_ptr (x y : string) : OS unit :=
  modify_st (fun s => set_locals (match assoc y (os_locals s) with
                                  | Some id => (x, id) :: drop_key x (os_locals s)
                                  | None => drop_key x (os_locals s)
                                  end) s).

(** [x] no longer owns anything. *)
Definition disown (x : string) : OS unit :=
  modify_st (fun s => match assoc x (os_locals s) with
                      | Some p => set_live (map (fun o => if o.1 =? p then (o.1, []) else o) (os_live s)) s
                      | None => s
                      end).

Definition write (buf : string) (bs : list Z) : OS unit :=
  modify_st (fun s => set_bufs (<[buf := bs]> (os_bufs s)) s).
Definition read_buf (buf : string) : OS (list Z) := s ← get_st; mret (default [] (os_bufs s !! buf)).

(** A [break] of the block leaves a status. *)
Definition must (ok : Z -> bool) (k : OS sgx_status) : OS sgx_status := r ← call; if ok r then k else mret SGX_ERROR_UNEXPECTED.
Definition create (x : string) (fail : sgx_status) (k : OS sgx_status) : OS sgx_status :=
  ok ← new x; if ok : bool then k else mret fail.

Fixpoint free_all (xs : list string) : OS unit :=
  match xs with
  | [] => mret tt
  | x :: xs => _ ← free x; free_all xs
  end.

(** Pointers of the caller, and a length that goes with them *)
Definition ptr : Type := option (list Z).
Definition null (p : ptr) : bool := match p with None => true | Some _ => false end.
Definition bytes (p : ptr) (n : Z) : list Z := take (Z.to_nat n) (default [] p).
Definition INT_MAX : Z := 2 ^ 31 - 1.
Definition SGX_AESGCM_IV_SIZE : Z := 12.
Definition SGX_ECP256_KEY_SIZE : nat := 32.

(** ** [memset_s] and [consttime_memequal] *)

(** Two of the conditions cannot hold of a [size_t].  The buffer is that which [s] points to. *)
Definition memset_s (s : ptr) (smax c n : Z) : Z * ptr :=
  match s with
  | None => (22, None)
  | Some buf =>
      let '(err, n) := if smax <? n then (75, smax) else (0, n) in
      (err, Some (replicate (Z.to_nat n) (u8 c) ++ drop (Z.to_nat n) buf))
  end.

Fixpoint memequal_loop (l1 l2 : list Z) (res : Z) : Z :=
  match l1, l2 with
  | b1 :: l1, b2 :: l2 => memequal_loop l1 l2 (Z.lor res (Z.lxor b1 b2))
  | _, _ => res
  end.

(** [res] is an [unsigned int]. *)
Definition consttime_memequal (l1 l2 : list Z) : Z := Z.land 1 (Z.shiftr (u32 (memequal_loop l1 l2 0 - 1)) 8).

Section Ucrypto.
Context `{OpenSsl}.

(** ** AES-GCM *)

Definition gcm_invalid (p_key p_src : ptr) (src_len : Z) (p_dst : bool) (p_iv : ptr) (iv_len : Z) (p_aad : ptr) (aad_len : Z)
    (p_mac : bool) : bool :=
  (INT_MAX <? src_len) || (INT_MAX <? aad_len) || null p_key || ((0 <? src_len) && negb p_dst) || ((0 <? src_len) && null p_src) ||
  negb p_mac || negb (iv_len =? SGX_AESGCM_IV_SIZE) || ((0 <? aad_len) && null p_aad) || null p_iv || (null p_src && null p_aad).

Definition sgx_rijndael128GCM_encrypt (p_key p_src : ptr) (src_len : Z) (p_dst : bool) (p_iv : ptr) (iv_len : Z) (p_aad : ptr)
    (aad_len : Z) (p_out_mac : bool) : OS sgx_status :=
  if gcm_invalid p_key p_src src_len p_dst p_iv iv_len p_aad aad_len p_out_mac then mret SGX_ERROR_INVALID_PARAMETER
  else
    let key := default [] p_key in
    let iv := default [] p_iv in
    let cdata := evp_gcm_cipher key iv (bytes p_src src_len) in
    let update := must is_one (_ ← write "p_dst" cdata; must is_one (must is_one (
      _ ← write "p_out_mac" (evp_gcm_tag key iv (bytes p_aad aad_len) cdata); mret SGX_SUCCESS))) in
    ret ← create "pState" SGX_ERROR_OUT_OF_MEMORY (must is_one (if null p_aad then update else must is_one update));
    _ ← free "pState";
    mret ret.

(** [EVP_DecryptFinal_ex] compares the tags; what has been decrypted has been written before. *)
Definition sgx_rijndael128GCM_decrypt (p_key p_src : ptr) (src_len : Z) (p_dst : bool) (p_iv : ptr) (iv_len : Z) (p_aad : ptr)
    (aad_len : Z) (p_in_mac : ptr) : OS sgx_status :=
  if gcm_invalid p_key p_src src_len p_dst p_iv iv_len p_aad aad_len (negb (null p_in_mac)) then mret SGX_ERROR_INVALID_PARAMETER
  else
    let key := default [] p_key in
    let iv := default [] p_iv in
    let cdata := bytes p_src src_len in
    let authentic := bool_decide (evp_gcm_tag key iv (bytes p_aad aad_len) cdata = bytes p_in_mac 16) in
    let update := must is_true (_ ← write "p_dst" (evp_gcm_plain key iv cdata); must is_true (
      must (fun r => authentic && is_positive r) (mret SGX_SUCCESS))) in
    ret ← create "pState" SGX_ERROR_OUT_OF_MEMORY (must is_true (if null p_aad then update else must is_true update));
    _ ← free "pState";
    mret ret.

(** ** AES-CTR *)

(** The counter is a big-endian number; the loop runs from its end, with the carry in [c]. *)
Fixpoint ctr128_loop (l : list Z) (c : Z) : list Z :=
  match l with
  | [] => []
  | b :: l => let c := c + b in u8 c :: ctr128_loop l (Z.shiftr c 8)
  end.
Definition ctr128_inc (counter : list Z) : list Z := reverse (ctr128_loop (reverse counter) 1).

(** [while (len >= 0) { ctr128_inc(p_ctr); len -= 16; }] *)
Fixpoint ctr_advance (fuel : nat) (len : Z) (counter : list Z) : list Z :=
  match fuel with
  | O => counter
  | S fuel => if 0 <=? len then ctr_advance fuel (len - 16) (ctr128_inc counter) else counter
  end.

(** The two directions test the results in different ways. *)
Definition aes_ctr (ok_init ok_final : Z -> bool) (p_key p_src : ptr) (src_len : Z) (p_ctr : bool) (ctr_inc_bits : Z) (p_dst : bool) :
    OS sgx_status :=
  if (INT_MAX <? src_len) || null p_key || null p_src || negb p_ctr || negb p_dst then mret SGX_ERROR_INVALID_PARAMETER
  else if negb (ctr_inc_bits =? 128) then mret SGX_ERROR_INVALID_PARAMETER
  else
    ret ← create "ptr_ctx" SGX_ERROR_OUT_OF_MEMORY (must ok_init (must ok_init (
      ctr ← read_buf "p_ctr";
      _ ← write "p_dst" (evp_ctr (default [] p_key) ctr (bytes p_src src_len));
      must ok_final (_ ← write "p_ctr" (ctr_advance (S (Z.to_nat src_len)) src_len ctr); mret SGX_SUCCESS))));
    _ ← free "ptr_ctx";
    mret ret.
Definition sgx_aes_ctr_encrypt := aes_ctr is_one is_one.
Definition sgx_aes_ctr_decrypt := aes_ctr is_true is_positive.

(** ** CMAC and SHA-256 *)

(** The content of the context that [x] points to *)
Definition ctx_write (x : string) (f : list Z * list Z -> list Z * list Z) : OS unit :=
  modify_st (fun s => match assoc x (os_locals s) with
                      | Some id => set_ctx (<[id := f (default ([], []) (os_ctx s !! id))]> (os_ctx s)) s
                      | None => s
                      end).
Definition ctx_read (x : string) : OS (list Z * list Z) :=
  s ← get_st; mret (default ([], []) (assoc x (os_locals s) ≫= fun id => os_ctx s !! id)).

(** The length that [CMAC_Final] reports is that of the MAC. *)
Definition sgx_rijndael128_cmac_msg (p_key p_src : ptr) (src_len : Z) (p_mac : bool) : OS sgx_status :=
  if null p_key || null p_src || negb p_mac then mret SGX_ERROR_INVALID_PARAMETER
  else
    ret ← create "pState" SGX_ERROR_OUT_OF_MEMORY (must is_true (
      _ ← ctx_write "pState" (fun _ => (default [] p_key, []));
      must is_true (
        _ ← ctx_write "pState" (fun '(key, data) => (key, data ++ bytes p_src src_len));
        must is_true (
          '(key, data) ← ctx_read "pState";
          let mac := openssl_cmac key data in
          _ ← write "p_mac" mac;
          if negb (Z.of_nat (length mac) =? 16) then mret SGX_ERROR_UNEXPECTED else mret SGX_SUCCESS))));
    _ ← free "pState";
    mret ret.

(** The handle of the caller is a pointer variable. *)
Definition sgx_cmac128_init (p_key : ptr) (p_cmac_handle : bool) : OS sgx_status :=
  if null p_key || negb p_cmac_handle then mret SGX_ERROR_INVALID_PARAMETER
  else
    ok ← new "cmac_handle";
    if negb ok then mret SGX_ERROR_OUT_OF_MEMORY
    else
      r ← call;
      if negb (is_true r) then _ ← free "cmac_handle"; _ ← nullify "cmac_handle"; mret SGX_ERROR_UNEXPECTED
      else _ ← ctx_write "cmac_handle" (fun _ => (default [] p_key, [])); mret SGX_SUCCESS.

Definition sgx_cmac128_update (p_src : ptr) (src_len : Z) : OS sgx_status :=
  no_handle ← is_null "cmac_handle";
  if null p_src || no_handle then mret SGX_ERROR_INVALID_PARAMETER
  else must is_true (_ ← ctx_write "cmac_handle" (fun '(key, data) => (key, data ++ bytes p_src src_len)); mret SGX_SUCCESS).

Definition sgx_cmac128_final (p_hash : bool) : OS sgx_status :=
  no_handle ← is_null "cmac_handle";
  if no_handle || negb p_hash then mret SGX_ERROR_INVALID_PARAMETER
  else must is_true ('(key, data) ← ctx_read "cmac_handle"; _ ← write "p_hash" (openssl_cmac key data); mret SGX_SUCCESS).

Definition sgx_cmac128_close : OS sgx_status :=
  no_handle ← is_null "cmac_handle";
  if no_handle : bool then mret SGX_ERROR_INVALID_PARAMETER else _ ← free "cmac_handle"; mret SGX_SUCCESS.

Definition sgx_sha256_init (p_sha_handle : bool) : OS sgx_status :=
  if negb p_sha_handle then mret SGX_ERROR_INVALID_PARAMETER
  else
    retval ← create "sha_handle" SGX_ERROR_OUT_OF_MEMORY (must is_true (must is_one (
      _ ← ctx_write "sha_handle" (fun _ => ([], [])); mret SGX_SUCCESS)));
    _ ← match retval with SGX_SUCCESS => mret tt | _ => _ ← free "sha_handle"; nullify "sha_handle" end;
    mret retval.

Definition sgx_sha256_update (p_src : ptr) (src_len : Z) : OS sgx_status :=
  no_handle ← is_null "sha_handle";
  if null p_src || no_handle then mret SGX_ERROR_INVALID_PARAMETER
  else must is_one (_ ← ctx_write "sha_handle" (fun '(key, data) => (key, data ++ bytes p_src src_len)); mret SGX_SUCCESS).

Definition sgx_sha256_get_hash (p_hash : bool) : OS sgx_status :=
  no_handle ← is_null "sha_handle";
  if no_handle || negb p_hash then mret SGX_ERROR_INVALID_PARAMETER
  else must is_one (
    '(_, data) ← ctx_read "sha_handle";
    let hash := openssl_sha256 data in
    _ ← write "p_hash" hash;
    if negb (Z.of_nat (length hash) =? 32) then mret SGX_ERROR_UNEXPECTED else mret SGX_SUCCESS).

Definition sgx_sha256_close : OS sgx_status :=
  no_handle ← is_null "sha_handle";
  if no_handle : bool then mret SGX_ERROR_INVALID_PARAMETER else _ ← free "sha_handle"; mret SGX_SUCCESS.

Definition sgx_sha256_msg (p_src : ptr) (src_len : Z) (p_hash : bool) : OS sgx_status :=
  if null p_src || negb p_hash then mret SGX_ERROR_INVALID_PARAMETER
  else must is_true (_ ← write "p_hash" (openssl_sha256 (bytes p_src src_len)); mret SGX_SUCCESS).

(** ** Elliptic curves *)

(** [BN_bn2lebinpad] of 32 bytes *)
Definition bn2lebinpad (n : Z) (buf : string) (ok : Z -> bool) (k : OS sgx_status) : OS sgx_status :=
  must (fun r => bool_decide (in_range 256 n) && ok r) (_ ← write buf (le_encode SGX_ECP256_KEY_SIZE n); k).

(** [memset_s] of a buffer of the caller *)
Definition clear_buf (size : Z) (buf : string) : OS unit :=
  b ← read_buf buf; write buf (default [] (memset_s (Some b) size 0 size).2).

(** The context of the caller *)
Definition sgx_ecc256_open_context (p_ecc_handle : bool) : OS sgx_status :=
  if negb p_ecc_handle then mret SGX_ERROR_INVALID_PARAMETER
  else ok ← new "ecc_handle"; mret (if ok : bool then SGX_SUCCESS else SGX_ERROR_UNEXPECTED).

Definition sgx_ecc256_close_context : OS sgx_status :=
  no_handle ← is_null "ecc_handle";
  if no_handle : bool then mret SGX_ERROR_INVALID_PARAMETER else _ ← free "ecc_handle"; mret SGX_SUCCESS.

(** The private key is cleared by the size of a pointer. *)
Definition sgx_ecc256_create_key_pair (seed : list Z) (ecc_handle p_private p_public : bool) : OS sgx_status :=
  if negb ecc_handle || negb p_private || negb p_public then mret SGX_ERROR_INVALID_PARAMETER
  else
    let private := ec_generate seed in
    let public := ec_public private in
    ret ← create "ec_key" SGX_ERROR_OUT_OF_MEMORY (must is_true (must is_true (
      x ← new "pub_k_x";
      y ← new "pub_k_y";
      if negb x || negb y then mret SGX_ERROR_OUT_OF_MEMORY
      else must is_true (bn2lebinpad private "p_private" not_minus_one (bn2lebinpad public.1 "gx" not_minus_one (
        bn2lebinpad public.2 "gy" not_minus_one (mret SGX_SUCCESS)))))));
    _ ← match ret with
        | SGX_SUCCESS => mret tt
        | _ => _ ← clear_buf 8 "p_private"; _ ← clear_buf 32 "gx"; clear_buf 32 "gy"
        end;
    _ ← free_all ["ec_key"; "pub_k_x"; "pub_k_y"]%string;
    mret ret.

Definition POINT_NOT_ON_CURVE : Z := 0x1007c06b.

Definition point (p : list Z * list Z) : Z * Z := (le_decode p.1, le_decode p.2).

(** The coordinates of a point that is not on the curve are refused with an error of their own. *)
Definition sgx_ecc256_check_point (p_point : option (list Z * list Z)) (ecc_handle p_valid : bool) : OS sgx_status :=
  match p_point with
  | None => mret SGX_ERROR_INVALID_PARAMETER
  | Some p =>
      if negb ecc_handle || negb p_valid then mret SGX_ERROR_INVALID_PARAMETER
      else
        let on_curve := ec_on_curve (point p) in
        retval ← create "b_x" SGX_ERROR_UNEXPECTED (create "b_y" SGX_ERROR_UNEXPECTED (create "ec_point" SGX_ERROR_OUT_OF_MEMORY (
          r ← call;
          if negb (on_curve && is_one r) then
            err ← call;
            if (if on_curve then err else POINT_NOT_ON_CURVE) =? POINT_NOT_ON_CURVE then _ ← write "p_valid" [0]; mret SGX_SUCCESS
            else mret SGX_ERROR_UNEXPECTED
          else must not_minus_one (_ ← write "p_valid" [if on_curve then 1 else 0]; mret SGX_SUCCESS))));
        _ ← free_all ["ec_point"; "b_x"; "b_y"]%string;
        mret retval
  end.

(** [ECDH_compute_key] writes the shared key with its highest byte first; the [size_t] that its result
    is kept in is not negative. *)
Definition sgx_ecc256_compute_shared_dhkey (p_private_b : ptr) (p_public_ga : option (list Z * list Z)) (p_shared_key ecc_handle : bool) :
    OS sgx_status :=
  match p_private_b, p_public_ga with
  | Some private, Some ga =>
      if negb ecc_handle || negb p_shared_key then mret SGX_ERROR_INVALID_PARAMETER
      else
        let on_curve := ec_on_curve (point ga) in
        ret ← create "BN_dh_privB" SGX_ERROR_UNEXPECTED (create "pubA_gx" SGX_ERROR_UNEXPECTED (create "pubA_gy" SGX_ERROR_UNEXPECTED (
          create "point_pubA" SGX_ERROR_OUT_OF_MEMORY (must (fun r => on_curve && is_one r) (must (fun r => on_curve && is_one r) (
          create "private_key" SGX_ERROR_OUT_OF_MEMORY (must is_one (must is_one (
            r ← call;
            _ ← (if is_positive r then write "p_shared_key" (reverse (le_encode SGX_ECP256_KEY_SIZE (ec_dh (le_decode private) (point ga))))
                 else mret tt);
            if u64 r <=? 0 then mret SGX_ERROR_UNEXPECTED
            else create "tmp" SGX_ERROR_UNEXPECTED (
              shared ← read_buf "p_shared_key";
              bn2lebinpad (le_decode (reverse shared)) "p_shared_key" not_minus_one (mret SGX_SUCCESS)))))))))));
        _ ← match ret with SGX_SUCCESS => mret tt | _ => clear_buf 32 "p_shared_key" end;
        _ ← free_all ["point_pubA"; "private_key"; "BN_dh_privB"; "pubA_gx"; "pubA_gy"; "tmp"]%string;
        mret ret
  | _, _ => mret SGX_ERROR_INVALID_PARAMETER
  end.

(** The point itself, with both coordinates *)
Definition sgx_ecc256_compute_shared_point (p_private_b : ptr) (p_public_ga : option (list Z * list Z)) (p_shared_key ecc_handle : bool) :
    OS sgx_status :=
  match p_private_b, p_public_ga with
  | Some private, Some ga =>
      if negb ecc_handle || negb p_shared_key then mret SGX_ERROR_INVALID_PARAMETER
      else
        let on_curve := ec_on_curve (point ga) in
        let shared := ec_mul (le_decode private) (point ga) in
        ret ← create "BN_dh_privB" SGX_ERROR_UNEXPECTED (create "pubA_gx" SGX_ERROR_UNEXPECTED (create "pubA_gy" SGX_ERROR_UNEXPECTED (
          create "point_pubA" SGX_ERROR_OUT_OF_MEMORY (must (fun r => on_curve && is_one r) (must (fun r => on_curve && is_one r) (
          create "point_R" SGX_ERROR_OUT_OF_MEMORY (must is_one (must (fun r => ec_on_curve shared && is_one r) (
          create "BN_dh_shared_x" SGX_ERROR_OUT_OF_MEMORY (create "BN_dh_shared_y" SGX_ERROR_OUT_OF_MEMORY (must is_one (
            bn2lebinpad shared.1 "x" not_minus_one (bn2lebinpad shared.2 "y" not_minus_one (mret SGX_SUCCESS))))))))))))));
        _ ← match ret with SGX_SUCCESS => mret tt | _ => _ ← clear_buf 32 "x"; clear_buf 32 "y" end;
        _ ← free_all ["point_pubA"; "point_R"; "BN_dh_shared_x"; "BN_dh_shared_y"; "BN_dh_privB"; "pubA_gx"; "pubA_gy"]%string;
        mret ret
  | _, _ => mret SGX_ERROR_INVALID_PARAMETER
  end.

(** ** Signatures *)

(** The results of the SDK, with numbers of our own *)
Definition SGX_EC_VALID : Z := 0.
Definition SGX_EC_INVALID_SIGNATURE : Z := 1.

(** [ECDSA_size] is what [max_sig_size] is compared with. *)
Definition sgx_ecdsa_sign (seed : list Z) (p_data : ptr) (data_size : Z) (p_private : ptr) (p_signature ecc_handle : bool) : OS sgx_status :=
  if negb ecc_handle || null p_private || negb p_signature || null p_data || (data_size <? 1) then mret SGX_ERROR_INVALID_PARAMETER
  else
    let signature := ec_sign seed (le_decode (default [] p_private)) (openssl_sha256 (bytes p_data data_size)) in
    retval ← create "bn_priv" SGX_ERROR_UNEXPECTED (create "private_key" SGX_ERROR_OUT_OF_MEMORY (must is_one (must is_one (must is_true (
      create "ecdsa_sig" SGX_ERROR_UNEXPECTED (bn2lebinpad signature.1 "x" is_positive (bn2lebinpad signature.2 "y" is_positive (
        must (fun max_sig_size => is_positive max_sig_size && negb (max_sig_size <? 64)) (mret SGX_SUCCESS)))))))));
    _ ← free_all ["bn_priv"; "ecdsa_sig"; "private_key"]%string;
    mret retval.

(** The signature of OpenSSL; its numbers are [r] and [s].  [ECDSA_SIG_set0] frees those that it has and
    takes the two new ones over. *)
Definition ECDSA_SIG_new (fail : sgx_status) (k : OS sgx_status) : OS sgx_status :=
  create "ecdsa_sig" fail (
    _ ← (if ecdsa_sig_allocates then
           _ ← alloc "ecdsa_sig->r"; _ ← alloc "ecdsa_sig->s";
           _ ← own "ecdsa_sig" "ecdsa_sig->r"; own "ecdsa_sig" "ecdsa_sig->s"
         else mret tt);
    k).
Definition ECDSA_SIG_get0 (r s : string) : OS unit := _ ← copy_ptr r "ecdsa_sig->r"; copy_ptr s "ecdsa_sig->s".
Definition ECDSA_SIG_set0 (r s : string) : OS Z :=
  ret ← call;
  if negb (is_one ret) then mret ret
  else
    _ ← free "ecdsa_sig->r"; _ ← free "ecdsa_sig->s"; _ ← disown "ecdsa_sig";
    _ ← own "ecdsa_sig" r; _ ← own "ecdsa_sig" s; mret ret.

Definition sgx_ecdsa_verify (p_data : ptr) (data_size : Z) (p_public p_signature : option (list Z * list Z)) (p_result ecc_handle : bool) :
    OS sgx_status :=
  match p_public, p_signature with
  | Some public, Some signature =>
      if negb ecc_handle || null p_data || (data_size <? 1) || negb p_result then mret SGX_ERROR_INVALID_PARAMETER
      else
        let on_curve := ec_on_curve (point public) in
        let valid := ec_verify (point public) (openssl_sha256 (bytes p_data data_size)) (point signature) in
        _ ← write "p_result" [SGX_EC_INVALID_SIGNATURE];
        retval ← create "bn_pub_x" SGX_ERROR_UNEXPECTED (create "bn_pub_y" SGX_ERROR_UNEXPECTED (create "bn_r" SGX_ERROR_UNEXPECTED (
          create "bn_s" SGX_ERROR_UNEXPECTED (create "public_point" SGX_ERROR_OUT_OF_MEMORY (
          must (fun r => on_curve && is_one r) (must (fun r => on_curve && is_one r) (
          create "public_key" SGX_ERROR_OUT_OF_MEMORY (must is_one (must is_one (must is_true (
          ECDSA_SIG_new SGX_ERROR_OUT_OF_MEMORY (
            _ ← ECDSA_SIG_get0 "prev_bn_r" "prev_bn_s";
            _ ← free_all ["prev_bn_r"; "prev_bn_s"]%string;
            r ← ECDSA_SIG_set0 "bn_r" "bn_s";
            if negb (is_one r) then _ ← free "ecdsa_sig"; _ ← nullify "ecdsa_sig"; mret SGX_ERROR_UNEXPECTED
            else
              must not_minus_one (_ ← (if valid then write "p_result" [SGX_EC_VALID] else mret tt); mret SGX_SUCCESS)))))))))))));
        _ ← free_all ["bn_pub_x"; "bn_pub_y"; "public_point"]%string;
        no_sig ← is_null "ecdsa_sig";
        _ ← (if no_sig : bool then mret tt else _ ← free "ecdsa_sig"; _ ← nullify "bn_r"; nullify "bn_s");
        _ ← free_all ["public_key"; "bn_r"; "bn_s"]%string;
        mret retval
  | _, _ => mret SGX_ERROR_INVALID_PARAMETER
  end.

(** *** RSA *)

Definition SGX_RSA3072_KEY_SIZE : Z := 384.
Definition SGX_RSA_VALID : Z := 0.
Definition SGX_RSA_INVALID_SIGNATURE : Z := 1.

(** The end of both functions: what the key owns goes with it, and the key with its container *)
Definition rsa_cleanup (pkey rsa : string) (numbers : list string) : OS unit :=
  _ ← free "ctx";
  no_pkey ← is_null pkey;
  _ ← (if no_pkey : bool then mret tt
       else _ ← free pkey; _ ← nullify rsa; foldr (fun x k => _ ← nullify x; k) (mret tt) numbers);
  no_rsa ← is_null rsa;
  _ ← (if no_rsa : bool then mret tt else _ ← free rsa; foldr (fun x k => _ ← nullify x; k) (mret tt) numbers);
  free_all numbers.

(** [RSA_set0_key] takes the numbers over, [EVP_PKEY_assign_RSA] the key. *)
Definition rsa_key (pkey rsa : string) (numbers : list string) (k : OS sgx_status) : OS sgx_status :=
  create rsa SGX_ERROR_OUT_OF_MEMORY (
    r ← call;
    if negb (is_one r) then _ ← free_all numbers; mret SGX_ERROR_UNEXPECTED
    else
      _ ← foldr (fun x k => _ ← own rsa x; k) (mret tt) numbers;
      create pkey SGX_ERROR_OUT_OF_MEMORY (
        r ← call;
        if negb (is_one r) then _ ← free rsa; mret SGX_ERROR_UNEXPECTED
        else _ ← own pkey rsa; create "ctx" SGX_ERROR_OUT_OF_MEMORY (must is_true (must is_positive (must is_positive k))))).

(** The length that [EVP_DigestSignFinal] reports is that of the signature. *)
Definition sgx_rsa3072_sign (p_data : ptr) (data_size : Z) (p_key : option (list Z * list Z * list Z)) (p_signature : bool) : OS sgx_status :=
  match p_key with
  | None => mret SGX_ERROR_INVALID_PARAMETER
  | Some (n, d, e) =>
      if null p_data || (data_size <? 1) || negb p_signature then mret SGX_ERROR_INVALID_PARAMETER
      else
        let signature := rsa_sign (le_decode n, le_decode e, le_decode d) (bytes p_data data_size) in
        retval ← create "n" SGX_ERROR_UNEXPECTED (create "d" SGX_ERROR_UNEXPECTED (create "e" SGX_ERROR_UNEXPECTED (
          rsa_key "priv_pkey" "priv_rsa_key" ["n"; "d"; "e"]%string (
            must is_positive (_ ← write "p_signature" signature;
              if negb (Z.of_nat (length signature) =? SGX_RSA3072_KEY_SIZE) then mret SGX_ERROR_UNEXPECTED else mret SGX_SUCCESS)))));
        _ ← rsa_cleanup "priv_pkey" "priv_rsa_key" ["n"; "d"; "e"]%string;
        mret retval
  end.

(** [EVP_DigestVerifyFinal] returns 1 for a signature that is right, 0 for one that is not, and a
    negative number for other errors. *)
Definition sgx_rsa3072_verify (p_data : ptr) (data_size : Z) (p_public : option (list Z * list Z)) (p_signature : ptr) (p_result : bool) :
    OS sgx_status :=
  match p_public with
  | None => mret SGX_ERROR_INVALID_PARAMETER
  | Some (n, e) =>
      if null p_data || (data_size <? 1) || null p_signature || negb p_result then mret SGX_ERROR_INVALID_PARAMETER
      else
        _ ← write "p_result" [SGX_RSA_INVALID_SIGNATURE];
        retval ← create "n" SGX_ERROR_UNEXPECTED (create "e" SGX_ERROR_UNEXPECTED (
          rsa_key "pub_pkey" "pub_rsa_key" ["n"; "e"]%string (
            let verified := rsa_verify (le_decode n, le_decode e) (bytes p_data data_size) (default [] p_signature) in
            if negb (verified =? 0) then _ ← write "p_result" [SGX_RSA_VALID]; mret SGX_SUCCESS
            else if negb (verified =? 0) then mret SGX_ERROR_UNEXPECTED else mret SGX_SUCCESS)));
        _ ← rsa_cleanup "pub_pkey" "pub_rsa_key" ["n"; "e"]%string;
        mret retval
  end.

(** ** Paths

    The rules take a call apart into its paths.  The objects and the variables of a path are known and
    are computed; what OpenSSL returns is a case each time. *)
Definition free_mem (live : list (Z * list Z)) (vars : list (string * Z)) (x : string) : option (list (Z * list Z)) :=
  match assoc x vars with
  | None => Some live
  | Some id => release (S (length live)) [id] live
  end.
Definition own_mem (live : list (Z * list Z)) (vars : list (string * Z)) (x y : string) : list (Z * list Z) :=
  match assoc x vars, assoc y vars with
  | Some p, Some c => map (fun o => if o.1 =? p then (o.1, c :: o.2) else o) live
  | _, _ => live
  end.
Definition copy_mem (vars : list (string * Z)) (x y : string) : list (string * Z) :=
  match assoc y vars with
  | Some id => (x, id) :: drop_key x vars
  | None => drop_key x vars
  end.
Definition disown_mem (live : list (Z * list Z)) (vars : list (string * Z)) (x : string) : list (Z * list Z) :=
  match assoc x vars with
  | Some p => map (fun o => if o.1 =? p then (o.1, []) else o) live
  | None => live
  end.

Section Paths.
Context (R : nat -> Z).

Lemma path_call (Q : Z -> ossl -> Prop) L n V B C k : Q (R k) (mkOssl L n V B C R (S k)) -> wp call Q (mkOssl L n V B C R k).
Proof. done. Qed.
Lemma path_write (Q : unit -> ossl -> Prop) b bs L n V B C k :
  Q tt (mkOssl L n V (<[b := bs]> B) C R k) -> wp (write b bs) Q (mkOssl L n V B C R k).
Proof. done. Qed.
Lemma path_read (Q : list Z -> ossl -> Prop) b L n V B C k :
  Q (default [] (B !! b)) (mkOssl L n V B C R k) -> wp (read_buf b) Q (mkOssl L n V B C R k).
Proof. done. Qed.
Lemma path_new (Q : bool -> ossl -> Prop) x L n V B C k :
  (is_true (R k) = false -> Q false (mkOssl L n V B C R (S k))) ->
  (is_true (R k) = true -> Q true (mkOssl ((n, []) :: L) (n + 1) ((x, n) :: V) B C R (S k))) ->
  wp (new x) Q (mkOssl L n V B C R k).
Proof. intros Hf Ht. unfold new. apply wp_bind, path_call. destruct (is_true (R k)); [by apply Ht|by apply Hf]. Qed.
Lemma path_must (Q : sgx_status -> ossl -> Prop) ok m L n V B C k :
  (ok (R k) = false -> Q SGX_ERROR_UNEXPECTED (mkOssl L n V B C R (S k))) ->
  (ok (R k) = true -> wp m Q (mkOssl L n V B C R (S k))) -> wp (must ok m) Q (mkOssl L n V B C R k).
Proof. intros Hf Ht. apply wp_bind, path_call. destruct (ok (R k)); [by apply Ht|by apply Hf]. Qed.
Lemma path_bn2 (Q : sgx_status -> ossl -> Prop) z b ok m L n V B C k :
  (~ in_range 256 z -> Q SGX_ERROR_UNEXPECTED (mkOssl L n V B C R (S k))) ->
  (ok (R k) = false -> Q SGX_ERROR_UNEXPECTED (mkOssl L n V B C R (S k))) ->
  (in_range 256 z -> ok (R k) = true -> wp m Q (mkOssl L n V (<[b := le_encode SGX_ECP256_KEY_SIZE z]> B) C R (S k))) ->
  wp (bn2lebinpad z b ok m) Q (mkOssl L n V B C R k).
Proof.
  intros Hr Hf Ht. apply path_must.
  - case_bool_decide; [by apply Hf|by intros _; apply Hr].
  - intros [?%bool_decide_eq_true ?]%andb_true_iff. apply wp_bind, path_write. by apply Ht.
Qed.
Lemma path_create (Q : sgx_status -> ossl -> Prop) x fail m L n V B C k :
  (is_true (R k) = false -> Q fail (mkOssl L n V B C R (S k))) ->
  (is_true (R k) = true -> wp m Q (mkOssl ((n, []) :: L) (n + 1) ((x, n) :: V) B C R (S k))) ->
  wp (create x fail m) Q (mkOssl L n V B C R k).
Proof. intros Hf Ht. by apply wp_bind, path_new. Qed.
Lemma path_free (Q : unit -> ossl -> Prop) x L L' n V B C k :
  free_mem L V x = Some L' -> Q tt (mkOssl L' n V B C R k) -> wp (free x) Q (mkOssl L n V B C R k).
Proof.
  unfold free, free_mem. intros Hf HQ. apply wp_bind, wp_get. cbn [os_live os_locals].
  destruct (assoc x V); [|by simplify_eq]. by rewrite Hf.
Qed.
Lemma path_nullify (Q : unit -> ossl -> Prop) x L n V V' B C k :
  drop_key x V = V' -> Q tt (mkOssl L n V' B C R k) -> wp (nullify x) Q (mkOssl L n V B C R k).
Proof. by intros <-. Qed.
Lemma path_is_null (Q : bool -> ossl -> Prop) x b L n V B C k :
  bool_decide (assoc x V = None) = b -> Q b (mkOssl L n V B C R k) -> wp (is_null x) Q (mkOssl L n V B C R k).
Proof. by intros <-. Qed.
Lemma path_own (Q : unit -> ossl -> Prop) x y L L' n V B C k :
  own_mem L V x y = L' -> Q tt (mkOssl L' n V B C R k) -> wp (own x y) Q (mkOssl L n V B C R k).
Proof. intros <- HQ. apply wp_modify. unfold own_mem in HQ. cbn [os_locals]. by destruct (assoc x V), (assoc y V). Qed.
Lemma path_copy (Q : unit -> ossl -> Prop) x y L n V V' B C k :
  copy_mem V x y = V' -> Q tt (mkOssl L n V' B C R k) -> wp (copy_ptr x y) Q (mkOssl L n V B C R k).
Proof. by intros <-. Qed.
Lemma path_disown (Q : unit -> ossl -> Prop) x L L' n V B C k :
  disown_mem L V x = L' -> Q tt (mkOssl L' n V B C R k) -> wp (disown x) Q (mkOssl L n V B C R k).
Proof. intros <- HQ. apply wp_modify. unfold disown_mem in HQ. cbn [os_locals]. by destruct (assoc x V). Qed.
Lemma path_ctx_write (Q : unit -> ossl -> Prop) x f id L n V B C k :
  assoc x V = Some id -> Q tt (mkOssl L n V B (<[id := f (default ([], []) (C !! id))]> C) R k) ->
  wp (ctx_write x f) Q (mkOssl L n V B C R k).
Proof. intros Hx HQ. apply wp_modify. cbn [os_locals]. by rewrite Hx. Qed.
Lemma path_ctx_read (Q : list Z * list Z -> ossl -> Prop) x id L n V B C k :
  assoc x V = Some id -> Q (default ([], []) (C !! id)) (mkOssl L n V B C R k) -> wp (ctx_read x) Q (mkOssl L n V B C R k).
Proof. intros Hx HQ. apply wp_bind, wp_get, wp_ret. cbn [os_locals os_ctx]. by rewrite Hx. Qed.
End Paths.

(** A path that the results or the arguments rule out ends at once. *)
Ltac case_true := let Hr := fresh in intros Hr; try discriminate Hr.
Ltac case_known Hb := exfalso; match goal with Hk : _ = _ |- _ => rewrite Hb in Hk; by inversion Hk end.
Ltac path_step :=
  cbv beta iota zeta; cbn [free_all foldr negb];
  lazymatch goal with
  | |- wp (mret _) _ _ => apply wp_ret
  | |- wp (mbind _ _) _ _ => apply wp_bind
  | |- wp (must _ _) _ _ => apply path_must; [case_true | case_true]
  | |- wp (create _ _ _) _ _ => apply path_create; [case_true | case_true]
  | |- wp call _ _ => apply path_call
  | |- wp (write _ _) _ _ => apply path_write
  | |- wp (ctx_write _ _) _ _ => eapply path_ctx_write; [vm_compute; reflexivity|]
  | |- wp (ctx_read _) _ _ => eapply path_ctx_read; [vm_compute; reflexivity|]
  | |- wp (read_buf _) _ _ => apply path_read
  | |- wp (free _) _ _ => eapply path_free; [vm_compute; reflexivity|]
  | |- wp (nullify _) _ _ => eapply path_nullify; [vm_compute; reflexivity|]
  | |- wp (own _ _) _ _ => eapply path_own; [vm_compute; reflexivity|]
  | |- wp (copy_ptr _ _) _ _ => eapply path_copy; [vm_compute; reflexivity|]
  | |- wp (disown _) _ _ => eapply path_disown; [vm_compute; reflexivity|]
  | |- wp (new _) _ _ => apply path_new; [case_true | case_true]
  | |- wp (is_null _) _ _ => eapply path_is_null; [vm_compute; reflexivity|]
  | |- wp (match ?b with _ => _ end) _ _ => let Hb := fresh in destruct b eqn:Hb; try discriminate Hb; try case_known Hb
  | |- wp (bn2lebinpad _ _ _ _) _ _ => apply path_bn2; [intros ? | case_true | intros ?; case_true]
  | |- wp (clear_buf _ _) _ _ => unfold clear_buf
  | |- wp sgx_sha256_close _ _ => unfold sgx_sha256_close
  end.
Ltac paths := repeat path_step.
Ltac verify_unfold Hsig := unfold sgx_ecdsa_verify, ECDSA_SIG_new, ECDSA_SIG_get0, ECDSA_SIG_set0; rewrite Hsig.

Definition clean (m : OS sgx_status) : Prop := forall bufs results, wp m (fun _ s => os_live s = []) (start bufs results).

Ltac is_clean := intros ? ?; unfold start; paths; reflexivity.

(** *** Every function *)

Definition update_all (update : list Z -> OS sgx_status) (chunks : list (list Z)) : OS unit :=
  foldr (fun c k => _ ← update c; k) (mret tt) chunks.
Definition cmac_update (c : list Z) : OS sgx_status := sgx_cmac128_update (Some c) (Z.of_nat (length c)).
Definition sha_update (c : list Z) : OS sgx_status := sgx_sha256_update (Some c) (Z.of_nat (length c)).

(** A MAC and a hash of data that comes in pieces *)
Definition cmac_stream (key : list Z) (chunks : list (list Z)) : OS sgx_status :=
  ret ← sgx_cmac128_init (Some key) true;
  match ret with
  | SGX_SUCCESS => _ ← update_all cmac_update chunks; ret ← sgx_cmac128_final true; _ ← sgx_cmac128_close; mret ret
  | _ => mret ret
  end.
Definition sha256_stream (chunks : list (list Z)) : OS sgx_status :=
  ret ← sgx_sha256_init true;
  match ret with
  | SGX_SUCCESS => _ ← update_all sha_update chunks; ret ← sgx_sha256_get_hash true; _ ← sgx_sha256_close; mret ret
  | _ => mret ret
  end.

(** A call that OpenSSL did not answer with success *)
Definition fails (R : nat -> Z) : Prop := exists n, R n <> 1.

Ltac failed :=
  solve [multimatch goal with
         | H : context [?R ?k] |- fails ?R => exists k; unfold is_one, is_true, is_positive, not_minus_one in H; lia
         end].

(** An update appends to the data of the context, or the call has failed. *)
Definition appends (x : string) (update : list Z -> OS sgx_status) : Prop :=
  forall R c L n B C k key data (Q : sgx_status -> ossl -> Prop),
  C !! 0 = Some (key, data) ->
  (forall ret C' k', (C' !! 0 = Some (key, data ++ c) \/ C' = C /\ fails R) -> Q ret (mkOssl L n [(x, 0)] B C' R k')) ->
  wp (update c) Q (mkOssl L n [(x, 0)] B C R k).

Lemma cmac_appends : appends "cmac_handle" cmac_update.
Proof.
  intros R c L n B C k key data Q HC HQ. unfold cmac_update, sgx_cmac128_update. paths; apply HQ.
  - right. split; [done|failed].
  - left. rewrite lookup_insert_eq, HC. cbn. unfold bytes. by rewrite Nat2Z.id, firstn_all.
Qed.
Lemma sha_appends : appends "sha_handle" sha_update.
Proof.
  intros R c L n B C k key data Q HC HQ. unfold sha_update, sgx_sha256_update. paths; apply HQ.
  - right. split; [done|failed].
  - left. rewrite lookup_insert_eq, HC. cbn. unfold bytes. by rewrite Nat2Z.id, firstn_all.
Qed.

Lemma update_all_ok x update chunks (Q : unit -> ossl -> Prop) R L n key data B C k :
  appends x update -> C !! 0 = Some (key, data) ->
  (forall C' k', (C' !! 0 = Some (key, data ++ concat chunks) \/ fails R) -> Q tt (mkOssl L n [(x, 0)] B C' R k')) ->
  wp (update_all update chunks) Q (mkOssl L n [(x, 0)] B C R k).
Proof.
  intros Hu. revert C data k. induction chunks as [|c chunks IH]; intros C data k HC HQ.
  - apply wp_ret, HQ. left. by rewrite app_nil_r.
  - apply wp_bind. apply (Hu _ _ _ _ _ _ _ key data); [done|]. intros _ C' k' [HC'|[-> ?]].
    + eapply IH; [done|]. intros C'' k'' HC''. apply HQ. cbn [concat]. by rewrite app_assoc.
    + eapply IH; [done|]. intros C'' k'' _. apply HQ. by right.
Qed.

Lemma cmac_stream_ok key chunks bufs R :
  wp (cmac_stream key chunks) (fun st s => os_live s = [] /\
    (fails R \/ st = SGX_SUCCESS /\ os_bufs s !! "p_hash" = Some (openssl_cmac key (concat chunks)))) (start bufs R).
Proof.
  unfold cmac_stream, start, sgx_cmac128_init. paths; try (split; [done|]; left; failed).
  eapply (update_all_ok _ _ _ _ _ _ _ key []); [apply cmac_appends|apply lookup_insert_eq|]. intros C' k' HC'.
  unfold sgx_cmac128_final, sgx_cmac128_close. paths; split; try done; try (left; failed).
  destruct HC' as [HC'|?]; [right|by left]. rewrite HC' in *. cbn in *. simplify_eq. split; [done|apply lookup_insert_eq].
Qed.

Lemma sha256_stream_ok chunks bufs R :
  wp (sha256_stream chunks) (fun st s => os_live s = [] /\
    (fails R \/ length (openssl_sha256 (concat chunks)) <> 32%nat \/
     st = SGX_SUCCESS /\ os_bufs s !! "p_hash" = Some (openssl_sha256 (concat chunks)))) (start bufs R).
Proof.
  unfold sha256_stream, start, sgx_sha256_init. paths; try (split; [done|]; left; failed).
  eapply (update_all_ok _ _ _ _ _ _ _ [] []); [apply sha_appends|apply lookup_insert_eq|]. intros C' k' HC'.
  unfold sgx_sha256_get_hash. paths; split; try done; try (left; failed);
    (destruct HC' as [HC'|?]; [right|by left]); rewrite HC' in *; cbn in *; simplify_eq.
  - left. lia.
  - right. split; [done|apply lookup_insert_eq].
Qed.

Lemma clean_stream m (P : sgx_status -> ossl -> Prop) bufs R :
  wp m (fun st s => os_live s = [] /\ P st s) (start bufs R) -> wp m (fun _ s => os_live s = []) (start bufs R).
Proof. intros Hm. eapply wp_mono; [exact Hm|]. by intros ? ? []. Qed.

(** C20.  Whatever OpenSSL reports in whichever call, no function of the library frees an object twice or
    leaves one behind; for [sgx_ecdsa_verify], with an OpenSSL whose [ECDSA_SIG_new] allocates no
    numbers, as those since 1.1.0 ([signature_numbers_freed_twice] is about the others). *)
Theorem library_leaves_nothing (Hsig : ecdsa_sig_allocates = false) :
  (forall k src n dst iv niv aad naad mac, clean (sgx_rijndael128GCM_encrypt k src n dst iv niv aad naad mac)) /\
  (forall k src n dst iv niv aad naad mac, clean (sgx_rijndael128GCM_decrypt k src n dst iv niv aad naad mac)) /\
  (forall k src n ctr bits dst, clean (sgx_aes_ctr_encrypt k src n ctr bits dst)) /\
  (forall k src n ctr bits dst, clean (sgx_aes_ctr_decrypt k src n ctr bits dst)) /\
  (forall k src n mac, clean (sgx_rijndael128_cmac_msg k src n mac)) /\
  (forall key chunks, clean (cmac_stream key chunks)) /\
  (forall src n hash, clean (sgx_sha256_msg src n hash)) /\
  (forall chunks, clean (sha256_stream chunks)) /\
  (forall seed h private public, clean (sgx_ecc256_create_key_pair seed h private public)) /\
  (forall p h valid, clean (sgx_ecc256_check_point p h valid)) /\
  (forall private ga shared h, clean (sgx_ecc256_compute_shared_dhkey private ga shared h)) /\
  (forall private ga shared h, clean (sgx_ecc256_compute_shared_point private ga shared h)) /\
  (forall seed data n private signature h, clean (sgx_ecdsa_sign seed data n private signature h)) /\
  (forall data n public signature result h, clean (sgx_ecdsa_verify data n public signature result h)) /\
  (forall data n key signature, clean (sgx_rsa3072_sign data n key signature)) /\
  (forall data n public signature result, clean (sgx_rsa3072_verify data n public signature result)).
Proof.
  repeat split; intros.
  - unfold sgx_rijndael128GCM_encrypt. is_clean.
  - unfold sgx_rijndael128GCM_decrypt. is_clean.
  - unfold sgx_aes_ctr_encrypt, aes_ctr. is_clean.
  - unfold sgx_aes_ctr_decrypt, aes_ctr. is_clean.
  - unfold sgx_rijndael128_cmac_msg. is_clean.
  - intros ? ?. eapply clean_stream, cmac_stream_ok.
  - unfold sgx_sha256_msg. is_clean.
  - intros ? ?. eapply clean_stream, sha256_stream_ok.
  - unfold sgx_ecc256_create_key_pair. is_clean.
  - unfold sgx_ecc256_check_point. is_clean.
  - unfold sgx_ecc256_compute_shared_dhkey. is_clean.
  - unfold sgx_ecc256_compute_shared_point. is_clean.
  - unfold sgx_ecdsa_sign. is_clean.
  - verify_unfold Hsig. is_clean.
  - unfold sgx_rsa3072_sign, rsa_cleanup, rsa_key. is_clean.
  - unfold sgx_rsa3072_verify, rsa_cleanup, rsa_key. is_clean.
Qed.

(** ** [consttime_memequal] *)

Lemma lor_range w a b : 0 <= w -> in_range w a -> in_range w b -> in_range w (Z.lor a b).
Proof.
  intros Hw [Ha Ha'] [Hb Hb']. assert (0 <= Z.lor a b) as Hn by (by apply Z.lor_nonneg). split; [done|].
  destruct (decide (Z.lor a b = 0)) as [->|Hz]; [by apply Z.pow_pos_nonneg|].
  assert (0 < w).
  { destruct (decide (w = 0)) as [->|]; [|lia]. assert (a = 0) as -> by lia. by assert (b = 0) as -> by lia. }
  assert (forall x, 0 <= x < 2 ^ w -> Z.log2 x < w) as Hlog.
  { intros x Hx. destruct (decide (x = 0)) as [->|]; [done|]. apply Z.log2_lt_pow2; lia. }
  apply Z.log2_lt_pow2; [lia|]. rewrite Z.log2_lor by done. apply Z.max_lub_lt; by apply Hlog.
Qed.

Lemma memequal_loop_spec l1 l2 res :
  Forall is_byte l1 -> Forall is_byte l2 -> length l1 = length l2 -> is_byte res ->
  is_byte (memequal_loop l1 l2 res) /\ (memequal_loop l1 l2 res = 0 <-> res = 0 /\ l1 = l2).
Proof.
  intros H1. revert l2 res. induction H1 as [|b1 l1 Hb1 _ IH]; intros [|b2 l2] res H2 Hl Hr; try done; [naive_solver|].
  apply Forall_cons in H2 as [Hb2 H2]. cbn. cbn in Hl. assert (is_byte (Z.lor res (Z.lxor b1 b2))) as Hb.
  { apply (lor_range 8); [lia|done|]. by apply lxor_range. }
  destruct (IH l2 _ H2 ltac:(lia) Hb) as [? ->]. split; [done|].
  rewrite Z.lor_eq_0_iff, Z.lxor_eq_0_iff. split; [intros [[-> ->] ->]|intros [-> [= -> ->]]]; done.
Qed.

(** The comparison in constant time tells whether two byte arrays are equal. *)
Theorem consttime_memequal_spec l1 l2 :
  Forall is_byte l1 -> Forall is_byte l2 -> length l1 = length l2 ->
  consttime_memequal l1 l2 = if decide (l1 = l2) then 1 else 0.
Proof.
  intros H1 H2 Hl. unfold consttime_memequal.
  destruct (memequal_loop_spec l1 l2 0 H1 H2 Hl ltac:(done)) as [Hb Hz].
  destruct (decide (l1 = l2)) as [->|Hne].
  - assert (memequal_loop l2 l2 0 = 0) as -> by (by apply Hz). done.
  - assert (memequal_loop l1 l2 0 <> 0) by naive_solver. unfold is_byte in Hb. rewrite wrap_small by (unfold in_range; lia).
    rewrite Z.shiftr_div_pow2 by lia. rewrite Z.div_small by lia. done.
Qed.

(** ** The counter of AES-CTR *)

(** The counter as a number, its first byte being the highest *)
Definition ctr_value (l : list Z) : Z := le_decode (reverse l).

Lemma ctr128_loop_value l c : le_decode (ctr128_loop l c) = (le_decode l + c) mod 2 ^ (8 * Z.of_nat (length l)).
Proof.
  revert c. induction l as [|b l IH]; intros c; cbn [ctr128_loop le_decode length].
  - by rewrite Z.mod_1_r.
  - rewrite IH, Z.shiftr_div_pow2 by lia. replace (8 * Z.of_nat (S (length l))) with (8 + 8 * Z.of_nat (length l)) by lia.
    rewrite Z.pow_add_r by lia. rewrite Z.rem_mul_r by lia. unfold wrap. change (2 ^ 8) with 256.
    replace (b + 256 * le_decode l + c) with (c + b + le_decode l * 256) by lia. rewrite Z.mod_add, Z.div_add by lia.
    do 2 f_equal. f_equal. lia.
Qed.
Lemma ctr128_loop_length l c : length (ctr128_loop l c) = length l.
Proof. revert c. induction l as [|b l IH]; intros c; cbn; [done|]. by rewrite IH. Qed.

Lemma ctr128_inc_length l : length (ctr128_inc l) = length l.
Proof. unfold ctr128_inc. by rewrite length_reverse, ctr128_loop_length, length_reverse. Qed.
Lemma ctr128_inc_value l : ctr_value (ctr128_inc l) = (ctr_value l + 1) mod 2 ^ (8 * Z.of_nat (length l)).
Proof. unfold ctr_value, ctr128_inc. by rewrite reverse_involutive, ctr128_loop_value, length_reverse. Qed.

Lemma ctr_advance_value fuel len l :
  -16 <= len -> len < Z.of_nat fuel -> length l = 16%nat ->
  ctr_value (ctr_advance fuel len l) mod 2 ^ 128 = (ctr_value l + (len / 16 + 1)) mod 2 ^ 128.
Proof.
  revert len l. induction fuel as [|fuel IH]; intros len l H0 Hf Hl.
  - cbn [ctr_advance]. replace (len / 16 + 1) with 0 by dlia. by rewrite Z.add_0_r.
  - cbn [ctr_advance]. destruct (Z.leb_spec 0 len) as [Hn|Hn].
    + rewrite IH; [|lia|lia|by rewrite ctr128_inc_length]. rewrite ctr128_inc_value, Hl. change (8 * Z.of_nat 16) with 128.
      rewrite Zplus_mod_idemp_l. f_equal. dlia.
    + replace (len / 16 + 1) with 0 by dlia. by rewrite Z.add_0_r.
Qed.

(** A buffer of the caller after a call *)
Definition buf (s : ossl) (b : string) : list Z := default [] (os_bufs s !! b).

(** AES-CTR on data of [n] bytes takes the counter [n / 16 + 1] further: one more than the blocks it
    has used if [n] is a multiple of 16. *)
Theorem ctr_counter key data ctr bufs R :
  Z.of_nat (length data) <= INT_MAX -> length ctr = 16%nat ->
  wp (sgx_aes_ctr_encrypt (Some key) (Some data) (Z.of_nat (length data)) true 128 true)
    (fun st s => fails R \/ st = SGX_SUCCESS /\ buf s "p_dst" = evp_ctr key ctr data /\
       ctr_value (buf s "p_ctr") mod 2 ^ 128 = (ctr_value ctr + (Z.of_nat (length data) / 16 + 1)) mod 2 ^ 128)
    (start (<["p_ctr" := ctr]> bufs) R).
Proof.
  intros Hn Hc. unfold sgx_aes_ctr_encrypt, aes_ctr, start. cbn [null orb negb]. rewrite (proj2 (Z.ltb_ge _ _)) by done.
  cbn [orb Z.eqb Pos.eqb negb]. paths; try (left; failed). right. split; [done|]. unfold buf. cbn [os_bufs].
  rewrite lookup_insert_ne, !lookup_insert_eq by done. cbn [default]. split.
  - unfold bytes. cbn [default]. by rewrite Nat2Z.id, firstn_all.
  - apply ctr_advance_value; [lia|lia|done].
Qed.

(** ** AES-GCM *)

Lemma gcm_valid key (data iv : list Z) :
  Z.of_nat (length data) <= INT_MAX ->
  gcm_invalid (Some key) (Some data) (Z.of_nat (length data)) true (Some iv) 12 None 0 true = false.
Proof. intros ?. unfold gcm_invalid. cbn [null negb]. rewrite (proj2 (Z.ltb_ge _ _)) by done. by rewrite !andb_false_r. Qed.

Lemma bytes_all (l : list Z) : bytes (Some l) (Z.of_nat (length l)) = l.
Proof. unfold bytes. cbn. by rewrite Nat2Z.id, firstn_all. Qed.

(** The calls of the client library *)
Definition encrypt_message (key iv data : list Z) : OS sgx_status :=
  sgx_rijndael128GCM_encrypt (Some key) (Some data) (Z.of_nat (length data)) true (Some iv) 12 None 0 true.
Definition decrypt_message (key iv cdata mac : list Z) : OS sgx_status :=
  sgx_rijndael128GCM_decrypt (Some key) (Some cdata) (Z.of_nat (length cdata)) true (Some iv) 12 None 0 (Some mac).

Lemma encrypt_message_ok key iv data bufs R :
  Z.of_nat (length data) <= INT_MAX ->
  wp (encrypt_message key iv data)
    (fun st s => fails R /\ st <> SGX_SUCCESS \/ st = SGX_SUCCESS /\ buf s "p_dst" = evp_gcm_cipher key iv data /\
       buf s "p_out_mac" = evp_gcm_tag key iv [] (evp_gcm_cipher key iv data)) (start bufs R).
Proof.
  intros Hn. unfold encrypt_message, sgx_rijndael128GCM_encrypt, start. rewrite gcm_valid by done. cbn [null default].
  rewrite bytes_all. paths; try (left; split; [failed|done]). right. split; [done|]. unfold buf. cbn [os_bufs].
  rewrite lookup_insert_ne, !lookup_insert_eq by done. done.
Qed.

(** Without the right tag nothing is accepted, whatever OpenSSL answers. *)
Lemma decrypt_message_ok key iv cdata mac bufs R :
  Z.of_nat (length cdata) <= INT_MAX -> length mac = 16%nat ->
  wp (decrypt_message key iv cdata mac)
    (fun st s => (st = SGX_SUCCESS -> mac = evp_gcm_tag key iv [] cdata /\ buf s "p_dst" = evp_gcm_plain key iv cdata) /\
                 (mac = evp_gcm_tag key iv [] cdata -> fails R \/ st = SGX_SUCCESS)) (start bufs R).
Proof.
  intros Hn Hm. unfold decrypt_message, sgx_rijndael128GCM_decrypt, start. rewrite gcm_valid by done. cbn [null default negb].
  rewrite bytes_all. assert (bytes (Some mac) 16 = mac) as ->.
  { pose proof (bytes_all mac) as Hb. by rewrite Hm in Hb. }
  change (bytes None 0) with (@nil Z). paths; try (split; [done|]; intros ?; left; failed).
  - split; [done|]. intros ->. left. rewrite bool_decide_true in * by done. failed.
  - cbv beta in *. match goal with Ha : _ && _ = true |- _ => apply andb_true_iff in Ha as [<-%bool_decide_eq_true _] end.
    split; [|by right]. intros _. split; [done|]. unfold buf. cbn [os_bufs]. by rewrite lookup_insert_eq.
Qed.

(** C21.  What the library has encrypted it decrypts to the same data, unless OpenSSL reports a failure;
    with another tag it returns an error. *)
Theorem gcm_library_roundtrip `{!OpenSslLaws} key iv data bufs bufs' R R' :
  Z.of_nat (length data) <= INT_MAX ->
  wp (encrypt_message key iv data)
    (fun st s => fails R \/
       st = SGX_SUCCESS /\ length (buf s "p_dst") = length data /\ length (buf s "p_out_mac") = 16%nat /\
       wp (decrypt_message key iv (buf s "p_dst") (buf s "p_out_mac"))
         (fun st' s' => fails R' \/ st' = SGX_SUCCESS /\ buf s' "p_dst" = data) (start bufs' R') /\
       forall mac, length mac = 16%nat -> mac <> buf s "p_out_mac" ->
         wp (decrypt_message key iv (buf s "p_dst") mac) (fun st' _ => st' <> SGX_SUCCESS) (start bufs' R')) (start bufs R).
Proof.
  intros Hn. eapply wp_mono; [by apply encrypt_message_ok|]. intros st s [[? _]|(-> & Hd & Ht)]; [by left|right].
  rewrite Hd, Ht, gcm_cipher_length, gcm_tag_size. do 3 (split; [done|]). split.
  - eapply wp_mono; [apply decrypt_message_ok|].
    + by rewrite gcm_cipher_length.
    + apply gcm_tag_size.
    + intros st' s' [Hs Hf]. destruct (Hf eq_refl) as [?| ->]; [by left|right]. split; [done|].
      destruct (Hs eq_refl) as [_ ->]. apply gcm_plain_cipher.
  - intros mac Hm Hne. eapply wp_mono; [apply decrypt_message_ok; [by rewrite gcm_cipher_length|done]|].
    intros st' s' [Hs _] ->. by destruct (Hs eq_refl).
Qed.

(** ** The library as the [Crypto] of the client *)

(** OpenSSL answers with success; [ECDSA_size] is the ninth call of [sgx_ecdsa_sign]. *)
Definition healthy (n : nat) : Z := 1.
Definition healthy_sign (n : nat) : Z := if (n =? 8)%nat then 72 else 1.

Definition outcome {A} (R : nat -> Z) (m : OS sgx_status) (out : ossl -> A) : option A :=
  match m (start ∅ R) with
  | (Ok SGX_SUCCESS, s) => Some (out s)
  | _ => None
  end.
Definition coordinates (p : list Z) : list Z * list Z := (take 32 p, drop 32 p).

Definition ucrypto : Crypto := {|
  ecc_create_key_pair seed := outcome healthy (sgx_ecc256_create_key_pair seed true true true) (fun s => (buf s "p_private", buf s "gx" ++ buf s "gy"));
  ecc_compute_shared_dhkey private public :=
    outcome healthy (sgx_ecc256_compute_shared_dhkey (Some private) (Some (coordinates public)) true true) (fun s => buf s "p_shared_key");
  cmac_msg key msg := outcome healthy (sgx_rijndael128_cmac_msg (Some key) (Some msg) (Z.of_nat (length msg)) true) (fun s => buf s "p_mac");
  sha256 data := outcome healthy (sha256_stream [data]) (fun s => buf s "p_hash");
  ecdsa_sign seed private data :=
    outcome healthy_sign (sgx_ecdsa_sign seed (Some data) (Z.of_nat (length data)) (Some private) true true) (fun s => buf s "x" ++ buf s "y");
  ecdsa_verify public data signature :=
    match outcome healthy (sgx_ecdsa_verify (Some data) (Z.of_nat (length data)) (Some (coordinates public)) (Some (coordinates signature)) true true)
            (fun s => buf s "p_result") with
    | Some r => bool_decide (r = [SGX_EC_VALID])
    | None => false
    end;
|}.

Lemma outcome_wp {A} R m (out : ossl -> A) a :
  wp m (fun st s => st = SGX_SUCCESS /\ out s = a) (start ∅ R) -> outcome R m out = Some a.
Proof. unfold outcome, wp. destruct (m _) as [[[] |] s]; naive_solver. Qed.

Ltac bufs_eq := unfold buf; cbn [os_bufs]; repeat (rewrite lookup_insert_ne by done); rewrite ?lookup_insert_eq; cbn [default]; unfold id.

Section Laws.
Context `{!OpenSslLaws}.

Lemma point_encode p : fits p.1 -> fits p.2 -> point (coordinates (le_encode 32 p.1 ++ le_encode 32 p.2)) = p.
Proof.
  destruct p as [x y]. cbn [fst snd]. intros Hx Hy. unfold point, coordinates. cbn [fst snd]. rewrite take_app_length', drop_app_length' by (by rewrite le_encode_length).
  by rewrite !le_decode_encode_small.
Qed.

Lemma library_key_pair seed :
  @ecc_create_key_pair ucrypto seed =
  Some (le_encode 32 (ec_generate seed), le_encode 32 (ec_public (ec_generate seed)).1 ++ le_encode 32 (ec_public (ec_generate seed)).2).
Proof.
  destruct (ec_public_fits (ec_generate seed)) as [Hx Hy]. pose proof (ec_generate_fits seed) as Hs. unfold fits in *.
  apply outcome_wp. unfold sgx_ecc256_create_key_pair, start. by paths.
Qed.

Lemma library_shared_key private k :
  fits private ->
  @ecc_compute_shared_dhkey ucrypto (le_encode 32 private) (le_encode 32 (ec_public k).1 ++ le_encode 32 (ec_public k).2) =
  Some (le_encode 32 (ec_dh private (ec_public k))).
Proof.
  intros Hp. destruct (ec_public_fits k) as [Hx Hy]. apply outcome_wp. unfold sgx_ecc256_compute_shared_dhkey, start.
  rewrite point_encode, ec_public_curve by done.
  rewrite le_decode_encode_small by done. destruct (ec_mul_fits private (ec_public k)) as [Hd _]. rewrite <- ec_dh_mul in Hd. unfold fits in *.
  paths.
  { exfalso. match goal with Hr : ~ _ |- _ => apply Hr end. bufs_eq. by rewrite reverse_involutive, le_decode_encode_small. }
  split; [done|]. bufs_eq. by rewrite reverse_involutive, le_decode_encode_small.
Qed.

(** The first coordinate of the shared point is the shared key. *)
Lemma library_shared_point private k :
  fits private ->
  outcome healthy (sgx_ecc256_compute_shared_point (Some (le_encode 32 private))
      (Some (coordinates (le_encode 32 (ec_public k).1 ++ le_encode 32 (ec_public k).2))) true true) (fun s => buf s "x") =
  @ecc_compute_shared_dhkey ucrypto (le_encode 32 private) (le_encode 32 (ec_public k).1 ++ le_encode 32 (ec_public k).2).
Proof.
  intros Hp. rewrite library_shared_key, ec_dh_mul by done. destruct (ec_public_fits k) as [Hx Hy]. apply outcome_wp.
  unfold sgx_ecc256_compute_shared_point, start. rewrite point_encode, ec_public_curve, le_decode_encode_small, ec_mul_curve by done.
  destruct (ec_mul_fits private (ec_public k)) as [Hmx Hmy]. unfold fits in *. by paths.
Qed.

Lemma not_empty (data : list Z) : data <> [] -> (Z.of_nat (length data) <? 1) = false.
Proof. destruct data; [done|]. intros _. apply Z.ltb_ge. cbn [length]. lia. Qed.

Lemma library_signature seed private data :
  fits private -> data <> [] ->
  let s := ec_sign seed private (openssl_sha256 data) in
  @ecdsa_sign ucrypto seed (le_encode 32 private) data = Some (le_encode 32 s.1 ++ le_encode 32 s.2).
Proof.
  intros Hp Hd s. destruct (ec_sign_fits seed private (openssl_sha256 data)) as [Hx Hy].
  apply outcome_wp. unfold sgx_ecdsa_sign, start. rewrite bytes_all. cbn [default]. unfold id.
  rewrite le_decode_encode_small by done. unfold fits in *. fold s in Hx, Hy |- *.
  rewrite not_empty by done.
  by paths.
Qed.

Lemma library_verifies k data (s : Z * Z) :
  fits s.1 -> fits s.2 -> data <> [] ->
  @ecdsa_verify ucrypto (le_encode 32 (ec_public k).1 ++ le_encode 32 (ec_public k).2) data (le_encode 32 s.1 ++ le_encode 32 s.2) =
  ec_verify (ec_public k) (openssl_sha256 data) s.
Proof.
  intros Hx Hy Hd. destruct (ec_public_fits k) as [Hkx Hky].
  transitivity (bool_decide ([if ec_verify (ec_public k) (openssl_sha256 data) s then SGX_EC_VALID else SGX_EC_INVALID_SIGNATURE] = [SGX_EC_VALID])).
  - cbn [ecdsa_verify ucrypto]. erewrite outcome_wp; [reflexivity|].
    verify_unfold ecdsa_sig_empty. unfold start. rewrite !point_encode, ec_public_curve, bytes_all by done.
    rewrite not_empty by done.
    paths; (split; [done|by bufs_eq]).
  - by destruct (ec_verify _ _ _).
Qed.

Lemma library_mac key msg : @cmac_msg ucrypto key msg = Some (openssl_cmac key msg).
Proof.
  apply outcome_wp. unfold sgx_rijndael128_cmac_msg, start. rewrite bytes_all. paths.
  all: rewrite lookup_insert_eq in *; cbn in *; simplify_eq; rewrite lookup_insert_eq in *; cbn in *; simplify_eq.
  - rewrite openssl_cmac_length in *. done.
  - split; [done|]. by bufs_eq.
Qed.

Lemma library_hash data : @sha256 ucrypto data = Some (openssl_sha256 data).
Proof.
  apply outcome_wp. eapply wp_mono; [apply sha256_stream_ok|]. cbn [concat]. rewrite app_nil_r.
  intros st s [_ [[n Hn]|[Hl|[-> Hb]]]]; [done|by rewrite openssl_sha256_length in Hl|]. split; [done|]. unfold buf. by rewrite Hb.
Qed.
End Laws.

Lemma some_pair {A B} (a c : A) (b d : B) : Some (a, b) = Some (c, d) -> c = a /\ d = b.
Proof. by intros [= -> ->]. Qed.

(** C19.  If OpenSSL computes what it is documented to, the functions of the library are what key exchange
    relies on: the keys that it makes have the lengths of the structures that hold them, the two sides
    of an exchange compute the same key, and a signature of data that is not empty is accepted. *)
Theorem library_key_exchange `{!OpenSslLaws} : @CryptoLaws ucrypto.
Proof.
  constructor.
  - intros seed. rewrite library_key_pair. do 2 eexists. split; [done|]. rewrite length_app, !le_encode_length. done.
  - intros seed1 seed2 ? ? ? ?. rewrite !library_key_pair. intros [-> ->]%some_pair [-> ->]%some_pair.
    eexists. rewrite !library_shared_key by apply ec_generate_fits. split; [done|]. by rewrite ec_dh_agrees.
  - intros key msg. rewrite library_mac. eexists. split; [done|]. apply openssl_cmac_length.
  - intros data. rewrite library_hash. eexists. split; [done|]. apply openssl_sha256_length.
  - intros seed seed' ? ? data Hd. rewrite library_key_pair. intros [-> ->]%some_pair.
    rewrite library_signature by (apply ec_generate_fits || done). eexists. split; [done|]. split; [by rewrite length_app, !le_encode_length|].
    rewrite library_verifies by (apply ec_sign_fits || done). apply ec_sign_verifies.
Qed.

(** ** What the checks of the library do not do *)

(** A signature is reported as valid only if OpenSSL has accepted it, for a key that is on the
    curve. *)
Lemma verify_sound data public signature bufs R :
  ecdsa_sig_allocates = false ->
  wp (sgx_ecdsa_verify (Some data) (Z.of_nat (length data)) (Some public) (Some signature) true true)
    (fun st s => st = SGX_SUCCESS -> buf s "p_result" = [SGX_EC_VALID] ->
       ec_on_curve (point public) = true /\ ec_verify (point public) (openssl_sha256 data) (point signature) = true) (start bufs R).
Proof.
  intros Hsig. verify_unfold Hsig. unfold start. rewrite bytes_all. paths; try done; bufs_eq; try done.
  cbv beta in *. intros _ _. split; [|done]. by destruct (ec_on_curve (point public)).
Qed.

(** [EVP_DigestVerifyFinal] returns a negative number if it could not check a signature; RSA
    signatures are then reported as valid. *)
Theorem rsa_error_is_valid data n e signature bufs R :
  data <> [] -> rsa_verify (le_decode n, le_decode e) data signature < 0 ->
  wp (sgx_rsa3072_verify (Some data) (Z.of_nat (length data)) (Some (n, e)) (Some signature) true)
    (fun st s => fails R \/ st = SGX_SUCCESS /\ buf s "p_result" = [SGX_RSA_VALID]) (start bufs R).
Proof.
  intros Hd Hv. unfold sgx_rsa3072_verify, rsa_cleanup, rsa_key, start. rewrite bytes_all, not_empty by done. cbn [default]. unfold id.
  paths; try (left; failed); try lia. right. split; [done|]. by bufs_eq.
Qed.

(** The calls of [sgx_ecc256_create_key_pair] up to that which writes the public key's first
    coordinate *)
(** If [ECDSA_SIG_new] "also allocates the BIGNUMs", as the comment of the code says, then the code frees
    them although the signature still has them: [ECDSA_SIG_set0] frees them once more. *)
Theorem signature_numbers_freed_twice data public signature bufs :
  ecdsa_sig_allocates = true -> data <> [] -> ec_on_curve (point public) = true ->
  (sgx_ecdsa_verify (Some data) (Z.of_nat (length data)) (Some public) (Some signature) true true (start bufs healthy)).1 =
  Throw (Undefined "double free").
Proof.
  intros Hsig Hd Hc. verify_unfold Hsig. rewrite Hc, not_empty by done. reflexivity.
Qed.

Definition fails_at (k n : nat) : Z := if (n =? k)%nat then -1 else 1.

(** A failure after the private key has been written clears eight bytes of it. *)
Theorem failed_key_pair_leaves_private_key seed bufs :
  fits (ec_generate seed) -> fits (ec_public (ec_generate seed)).1 ->
  wp (sgx_ecc256_create_key_pair seed true true true)
    (fun st s => st = SGX_ERROR_UNEXPECTED /\ drop 8 (buf s "p_private") = drop 8 (le_encode 32 (ec_generate seed)))
    (start bufs (fails_at 7)).
Proof.
  intros Hs Hx. unfold sgx_ecc256_create_key_pair, start, fits in *. paths; try done. split; [done|]. bufs_eq.
  done.
Qed.
End Ucrypto.

(** ** Examples

    An OpenSSL that can be computed with: a cipher that adds the first byte of the key, keys that
    are numbers, and exchange by multiplication *)
Definition toy_order : Z := 2 ^ 256.
Definition toy_sha (data : list Z) : list Z := le_encode 32 (le_decode data mod toy_order).

#[local] Instance toy_openssl : OpenSsl := {|
  evp_gcm_cipher key _ data := map (Z.add (hd 0 key)) data;
  evp_gcm_plain key _ data := map (Z.add (- hd 0 key)) data;
  evp_gcm_tag key iv aad cdata := le_encode 16 (le_decode (key ++ iv ++ aad ++ cdata));
  evp_ctr key ctr data := map (Z.lxor (hd 0 key + hd 0 ctr)) data;
  openssl_cmac key data := le_encode 16 (le_decode key + le_decode data);
  openssl_sha256 := toy_sha;
  ec_generate seed := le_decode seed mod toy_order;
  ec_public k := (k mod toy_order, 0);
  ec_on_curve p := p.2 =? 0;
  ec_dh k p := (k * p.1) mod toy_order;
  ec_mul k p := ((k * p.1) mod toy_order, 0);
  ec_sign _ k digest := ((k + le_decode digest) mod toy_order, 0);
  ec_verify p digest s := s.1 =? (p.1 + le_decode digest) mod toy_order;
  rsa_sign k data := le_encode 384 (k.1.1 + le_decode data);
  rsa_verify k data signature := if (length signature =? 384)%nat then bool_to_Z (bool_decide (signature = le_encode 384 (k.1 + le_decode data))) else -1;
  ecdsa_sig_allocates := false;
|}.

Lemma toy_fits z : fits (z mod toy_order).
Proof. apply Z.mod_pos_bound. done. Qed.

Lemma toy_openssl_laws : OpenSslLaws.
Proof.
  split; cbn -[toy_order toy_sha le_encode le_decode].
  - intros key _ data. rewrite map_map. etransitivity; [|apply map_id]. apply map_ext. intros. lia.
  - intros. apply length_map.
  - intros. apply le_encode_length.
  - intros key ctr data. rewrite map_map. etransitivity; [|apply map_id]. apply map_ext. intros z.
    by rewrite <- Z.lxor_assoc, Z.lxor_nilpotent, Z.lxor_0_l.
  - intros. apply le_encode_length.
  - intros. apply le_encode_length.
  - intros. apply toy_fits.
  - intros. split; [apply toy_fits|done].
  - done.
  - intros a b. rewrite !Zmult_mod_idemp_r. f_equal. lia.
  - done.
  - intros. split; [apply toy_fits|done].
  - done.
  - intros. split; [apply toy_fits|done].
  - intros. rewrite Zplus_mod_idemp_l. lia.
  - done.
Qed.

Example library_leaves_nothing_witness :
  clean (sgx_ecdsa_verify (Some [1]) 1 (Some ([7], [0])) (Some ([8], [0])) true true) /\
  outcome healthy (sgx_ecdsa_verify (Some [1]) 1 (Some ([7], [0])) (Some ([8], [0])) true true) (fun s => (buf s "p_result", os_live s)) =
    Some ([SGX_EC_VALID], []).
Proof. split; [apply (@library_leaves_nothing toy_openssl eq_refl)|by vm_compute]. Defined.

Example gcm_library_roundtrip_witness :
  wp (encrypt_message [7] (replicate 12 0) [1; 2; 3])
    (fun st s => fails healthy \/
       st = SGX_SUCCESS /\ length (buf s "p_dst") = 3%nat /\ length (buf s "p_out_mac") = 16%nat /\
       wp (decrypt_message [7] (replicate 12 0) (buf s "p_dst") (buf s "p_out_mac"))
         (fun st' s' => fails healthy \/ st' = SGX_SUCCESS /\ buf s' "p_dst" = [1; 2; 3]) (start ∅ healthy) /\
       forall mac, length mac = 16%nat -> mac <> buf s "p_out_mac" ->
         wp (decrypt_message [7] (replicate 12 0) (buf s "p_dst") mac) (fun st' _ => st' <> SGX_SUCCESS) (start ∅ healthy)) (start ∅ healthy) /\
  ~ fails healthy /\ outcome healthy (encrypt_message [7] (replicate 12 0) [1; 2; 3]) (fun s => buf s "p_dst") = Some [8; 9; 10].
Proof.
  split; [|split].
  - apply (@gcm_library_roundtrip toy_openssl toy_openssl_laws [7] (replicate 12 0) [1; 2; 3] ∅ ∅ healthy healthy). done.
  - by intros [n Hn].
  - by vm_compute.
Defined.

Example library_key_exchange_witness :
  @CryptoLaws ucrypto /\ @ecc_compute_shared_dhkey ucrypto (le_encode 32 6) (le_encode 32 7 ++ le_encode 32 0) = Some (le_encode 32 42).
Proof. split; [apply (@library_key_exchange toy_openssl toy_openssl_laws)|by vm_compute]. Defined.

(** 16 bytes are one block; the counter is two further. *)
Example ctr_counter_witness :
  wp (sgx_aes_ctr_encrypt (Some [1]) (Some (replicate 16 5)) 16 true 128 true)
    (fun st s => fails healthy \/ st = SGX_SUCCESS /\ buf s "p_dst" = evp_ctr [1] (replicate 16 0) (replicate 16 5) /\
       ctr_value (buf s "p_ctr") mod 2 ^ 128 = 2)
    (start (<["p_ctr" := replicate 16 0]> ∅) healthy).
Proof. apply (ctr_counter [1] (replicate 16 5) (replicate 16 0) ∅ healthy); done. Defined.

Example rsa_error_is_valid_witness :
  wp (sgx_rsa3072_verify (Some [1]) 1 (Some ([], [])) (Some []) true)
    (fun st s => fails healthy \/ st = SGX_SUCCESS /\ buf s "p_result" = [SGX_RSA_VALID]) (start ∅ healthy).
Proof. by apply (rsa_error_is_valid [1] [] [] [] ∅ healthy). Defined.

Example failed_key_pair_witness :
  wp (sgx_ecc256_create_key_pair [1; 2; 3; 4; 5; 6; 7; 8; 9; 10] true true true)
    (fun st s => st = SGX_ERROR_UNEXPECTED /\ drop 8 (buf s "p_private") = drop 8 (le_encode 32 (ec_generate [1; 2; 3; 4; 5; 6; 7; 8; 9; 10])))
    (start ∅ (fails_at 7)).
Proof. apply (failed_key_pair_leaves_private_key [1; 2; 3; 4; 5; 6; 7; 8; 9; 10] ∅); apply toy_fits. Defined.

Example memequal_witness : consttime_memequal [1; 2] [1; 3] = 0 /\ consttime_memequal [1; 2] [1; 2] = 1.
Proof. split; (etransitivity; [apply consttime_memequal_spec; by repeat constructor|by vm_compute]). Defined.
